(* ===== verification/_CoqProject ===== *)
-Q . S2P
Prelude.v
Types.v
Utils.v
Debug.v
Paths.v
BTreeMap.v
BPNode.v
Wal.v
Node.v
Layout.v
MapTable.v
Live.v
IoEngine.v
PageOp.v
Recovery.v
BPTree.v
LockManager.v
Buffer.v
Olc.v
Config.v
Tx.v
Typed.v
TxSpec.v
TxLife.v
TxRun.v
TxDelete.v
TxHistory.v
TxCheckpoint.v
TxFaults.v
TxAbort.v
