(* ===== verification/Prelude.v ===== *)
(** * QuickStep: a transactional key-value store, verified

    QuickStep (src/src) keeps ordered byte-string keys in 4096-byte leaves on disk.  A B+ tree
    of inner nodes in memory routes a key to a page id; the mapping table says whether the
    page is a mini-page in the buffer or a leaf on disk, and holds its lock; transactions
    collect page locks in a lock manager, write redo and undo records to a write-ahead log,
    and a start replays the log.  A write goes: traverse the tree, lock the page, bring the
    leaf into the buffer if it is not there (evicting others if need be), put the record,
    split the leaf when it is full and tell the parents, log, checkpoint if a threshold is
    reached.

    ** Files, in the order of the layers, and the code they model

    - [Prelude]: outcomes of a Rust computation ([Ok], [Err], [Halt Panicked] for panics,
      [Halt Undefined] for undefined behaviour), the state monad [stM], machine integers,
      the order on byte strings with its notations (scope [key_scope]) and hints ([keys]),
      slices of byte lists.
    - [Types] (types.rs, error.rs): [KVMeta], [KVRecordType], [NodeSize], [NodeMeta] as words.
    - [Utils] (utils.rs, rand.rs); [BTreeMap] (the standard library's ordered map, through
      the interface [OrdKey]).
    - [Debug] (debug.rs): the counters and event lists as shared state, their functions as
      sequences of atomic accesses; [Paths] (lib.rs: where the data file and the log are).
    - [BPNode] (btree.rs, inner nodes as their bytes); [BPTree] (btree.rs and the parent
      updates of lib.rs: root word, slab, traversal, lock points, splits, merges).
    - [Wal] (wal.rs): the log file as its bytes, the counters, checkpoints.
    - [Node] (node.rs): leaves and mini-pages as their bytes; [Layout]: which pages have their
      records packed in the order of arrival, and the physical removal of the last arrival.
    - [MapTable] (map_table.rs): entries, table, and in Module [Locks] the page locks as a
      step relation of threads that take one atomic access at a time; [Live]: their progress.
    - [IoEngine] (io_engine.rs): the data file as its bytes.
    - [PageOp] (page_op.rs): split and merge plans, flush, read and write of one page.
    - [Recovery] (lib.rs: [replay_wal], [txn_statuses], start).
    - [LockManager] (lock_manager.rs); [Buffer] (buffer.rs: ring, free lists, eviction).
    - [Olc] (btree.rs): the version lock of one inner node under any number of threads, as a
      step relation.
    - [Config] (lib.rs: thresholds); [Tx] (lib.rs: [QuickStep], [QuickStepTx]): the state of
      the whole store and every operation of a transaction on it.
    - [TxSpec]: the abstract store, reads and writes, a new store; [TxLife]: commit, the next
      transaction, scans, concrete runs of several transactions; [TxRun]: sequences of reads
      and writes and their recovery; [TxDelete]: deletes, and puts that fail; [TxHistory]:
      histories of transactions and a crash; [TxCheckpoint]: puts that checkpoint, flushes, and
      restarts on the files; [TxFaults]: splits, merges and restarts that lose data or panic;
      [TxAbort]: transactions of reads and inserts that abort.
    - [Typed]: the types of the whole state, kept by every call on every way out.

    ** What the theorems show

    - A page: on a page that represents a list of records between two fences, [get] is
      lookup, [try_put] insertion or overwriting, [mark_tombstone] a change of state; a split
      and a merge move records without losing any; a flush and an eviction change where
      records are and not what a read returns.
    - Types: sizes of nodes, ring, table and files, and the ranges of words, hold after any
      calls of any transactions, also when they fail or stop half way ([Typed]).
    - The tree: searches return the child the pivots name; after a leaf split and after a
      merge every traversal goes where the new pivots say; a node that [can_overflow] lets
      pass has room.  A traversal step that validates saw a node between two writes.
    - Locks: for any number of threads below 2^14 - 1 and any interleaving a writer excludes
      everybody else, from every state all of them can finish, and an attempt ends within
      its tries; a transaction that runs alone gets every lock it asks for and leaves
      every entry free.
    - The log is the list of its records under append, checkpoint, clear and reopening; an
      append that is cut off by a crash is there completely or not at all; replay gives the
      records that the committed transactions left, when the others wrote no key twice and
      none whose record was deleted.
    - The store: [holds] relates tree, table, locks, ring and files to a routing tree with a
      view of every leaf.  A new store satisfies it; [tx_get], [tx_put] and [tx_delete]
      implement lookup, update and marking in the abstract store and keep it, as long as no
      checkpoint is due, values keep their lengths, and no split, merge or eviction is needed;
      a put that finds no room in the buffer fails and changes nothing.  Runs of such reads and
      writes give the results the abstract store gives; commit hands the store to the next
      transaction, and an abort of reads and inserts of new keys hands over the store the
      transaction started with.  The log of a history of such transactions with a last one cut
      off, which puts no key twice, replays to what the committed ones wrote.  A put that
      reaches the threshold of its leaf, on a page without deleted records, makes the leaf
      durable and trims the log; in a store of one leaf, what a checkpoint or a flush wrote is
      read after a restart.  Writes that split a leaf, deletes that merge and checkpoints of
      other pages are outside these theorems ([put_fits], [put_checkpoints], [delete_fits]);
      [TxFaults] and [TxLife] show what they do.
    - Where the code does not do what it means to, a theorem shows the behaviour, on every
      state or on a concrete run: among others the log that a start discards, deleted keys
      that are still read, aborts and flushes that damage other records, the ring that hands
      out live memory, the tree that cannot grow a third level, a split that gives two pages
      one identity, deletes that panic when they merge, committed puts lost by a restart, aborted inserts
      that a checkpoint keeps, deleted records that recovery brings back.

    ** Bounds and fuel

    - Loops with a retry count run as often as the source says: [SPIN_RETRIES] is
      [2 ^ 12], an exclusive or, hence 14.
    - Binary searches have fuel one above the number of entries; the theorems about them
      prove a result, so the fuel is enough.  Parsing the log has fuel the length of the file.
    - [tx_put] and [alloc_evict] loop until they succeed; they are given fuel, and
      [tx_put_refines] proves the result for every positive fuel.  Running out is
      [Halt Undefined], so no theorem about a result can rest on it.
    - The iteration order of a [HashMap] is an argument [iter] of what depends on it.
    - Words are integers with masks and wrap-around where the source has them; arithmetic
      that overflows panics as in the dev profile.

    ** Not modelled

    - Failures of the operating system other than reads past the end of a file; a data file
      and a log that are one file (see [Paths]).
    - Where the store calls the recording functions of [Debug]: nothing reads the counters back.
    - The interleaving of several transactions across the whole store: the concurrent
      theorems are about one page entry and one inner node, and [Tx] runs one transaction at a time.
      The timing of the thread that watches the log, its start and its end when the store is
      dropped are left out; its turn is [monitor_tick].
    - [cache_no_alloc], which is [todo!()] in the source. *)

From Stdlib Require Export ZArith Lia Sorted.
From coqutil Require Export Byte Word.LittleEndianList.
From stdpp Require Export base tactics sets list numbers sorting.

#[global] Open Scope Z_scope.

(** * Outcomes of a Rust computation *)

(** Why a computation stopped without returning: a panic ([panic!], [todo!],
    [expect], a failed assertion, a checked slice access or an arithmetic
    overflow of the dev profile) or undefined behaviour reached through [unsafe]
    code (an access outside the allocation, an invalid enum discriminant). *)
Inductive halt := Panicked | Undefined.

(** [Ok]/[Err] are the two constructors of [Result]; [Halt] adds the ways not to
    return.  A computation that cannot fail uses an arbitrary error type. *)
Inductive outcome (E A : Type) :=
| Ok (a : A)
| Err (e : E)
| Halt (h : halt).
Arguments Ok {E A} a.
Arguments Err {E A} e.
Arguments Halt {E A} h.

#[global] Instance outcome_ret {E} : MRet (outcome E) := fun A a => Ok a.
#[global] Instance outcome_bind {E} : MBind (outcome E) := fun A B k m =>
  match m with Ok a => k a | Err e => Err e | Halt h => Halt h end.

#[global] Instance halt_eq_dec : EqDecision halt.
Proof. solve_decision. Defined.
#[global] Instance outcome_eq_dec {E A} `{EqDecision E, EqDecision A} : EqDecision (outcome E A).
Proof. solve_decision. Defined.

Lemma bind_ok {E A B} (m : outcome E A) (k : A -> outcome E B) b :
  m ≫= k = Ok b <-> exists a, m = Ok a /\ k a = Ok b.
Proof. destruct m; simpl; naive_solver. Qed.

Lemma Ok_inj {E A} (a b : A) : Ok (E := E) a = Ok b -> a = b.
Proof. congruence. Qed.

(** [map_err] of [Result]. *)
Definition map_err {E F A} (f : E -> F) (m : outcome E A) : outcome F A :=
  match m with Ok a => Ok a | Err e => Err (f e) | Halt h => Halt h end.

(** [assert!] and, in the dev profile, [debug_assert!]. *)
Definition rassert {E} (b : bool) : outcome E unit := if b then Ok tt else Halt Panicked.

(** [a - b] on [usize]: panics on underflow in the dev profile. *)
Definition usub {E} (a b : nat) : outcome E nat :=
  if (b <=? a)%nat then Ok (a - b)%nat else Halt Panicked.

(** [Option::ok_or] and [Option::expect]. *)
Definition ok_or {E A} (e : E) (o : option A) : outcome E A :=
  match o with Some a => Ok a | None => Err e end.
Definition expect {E A} (o : option A) : outcome E A :=
  match o with Some a => Ok a | None => Halt Panicked end.

(** A [for] loop whose body may return early with an error. *)
Fixpoint foldM {E A S} (f : S -> A -> outcome E S) (s : S) (l : list A) : outcome E S :=
  match l with
  | [] => Ok s
  | a :: l => s' ← f s a; foldM f s' l
  end.

Lemma foldM_app {E A S} (f : S -> A -> outcome E S) s l1 l2 :
  foldM f s (l1 ++ l2) = (s' ← foldM f s l1; foldM f s' l2).
Proof. revert s; induction l1 as [|a l1 IH]; intros s; simpl; [done|]. by destruct (f s a); simpl. Qed.

(** ** State and errors

    A method with [&mut self] returning [Result]: the state is kept on every exit,
    so what an early return leaves behind is visible to the caller. *)
Definition stM (S E A : Type) : Type := S -> S * outcome E A.

#[global] Instance stM_ret {S E} : MRet (stM S E) := fun A a s => (s, Ok a).
#[global] Instance stM_bind {S E} : MBind (stM S E) := fun A B k m s =>
  match m s with
  | (s', Ok a) => k a s'
  | (s', Err e) => (s', Err e)
  | (s', Halt h) => (s', Halt h)
  end.

(** Read the state, replace it, and run a computation that does not touch it. *)
Definition getS {S E} : stM S E S := fun s => (s, Ok s).
Definition putS {S E} (s' : S) : stM S E unit := fun _ => (s', Ok tt).
Definition liftS {S E A} (m : outcome E A) : stM S E A := fun s => (s, m).

Lemma bindS_ok {S E A B} (m : stM S E A) (k : A -> stM S E B) s s' a :
  m s = (s', Ok a) -> (m ≫= k) s = k a s'.
Proof. intros H. unfold mbind, stM_bind. by rewrite H. Qed.
Lemma bindS_err {S E A B} (m : stM S E A) (k : A -> stM S E B) s s' e :
  m s = (s', Err e) -> (m ≫= k) s = (s', Err e).
Proof. intros H. unfold mbind, stM_bind. by rewrite H. Qed.
Lemma bindS_halt {S E A B} (m : stM S E A) (k : A -> stM S E B) s s' h :
  m s = (s', Halt h) -> (m ≫= k) s = (s', Halt h).
Proof. intros H. unfold mbind, stM_bind. by rewrite H. Qed.

(** One step of a run, given what its first part does. *)
Ltac run H := rewrite (bindS_ok _ _ _ _ _ H).
(** The same for a part that computes at once and leaves the state [s] as it is. *)
Ltac run_pure s a := rewrite (bindS_ok _ _ s s a) by done.

(** A computation that returned went through both of its parts. *)
Lemma bindS_inv {S E A B} (m : stM S E A) (k : A -> stM S E B) s s' b :
  (m ≫= k) s = (s', Ok b) -> exists a s1, m s = (s1, Ok a) /\ k a s1 = (s', Ok b).
Proof. unfold mbind, stM_bind. destruct (m s) as [s1 [a|e|h]]; [eauto|done..]. Qed.

(** A [for] loop over a list of items, in the state monad. *)
Fixpoint forM_ {S E A} (f : A -> stM S E unit) (l : list A) : stM S E unit :=
  match l with
  | [] => mret tt
  | a :: l => _ ← f a; forM_ f l
  end.

Lemma forM_cons {S E A} (f : A -> stM S E unit) a l s :
  forM_ f (a :: l) s = (_ ← f a; forM_ f l) s.
Proof. done. Qed.

Lemma forM_app {S E A} (f : A -> stM S E unit) l1 l2 s :
  forM_ f (l1 ++ l2) s = (_ ← forM_ f l1; forM_ f l2) s.
Proof.
  revert s; induction l1 as [|a l1 IH]; intros s; [done|]. simpl. unfold mbind, stM_bind in *.
  destruct (f a s) as [s1 [[]| |]]; [apply IH|done|done].
Qed.

(** ** What a computation keeps

    [Keeps P f]: whatever [f] returns, and also when it stops half way, the state still
    satisfies [P].  Instances give the rule of every operation, so [keeps] follows the code. *)
Class Keeps {S E A : Type} (P : S -> Prop) (f : stM S E A) : Prop := keeps : forall s, P s -> P (fst (f s)).
#[global] Hint Mode Keeps - - - - ! : typeclass_instances.

#[export] Instance keeps_ret {S E A} (P : S -> Prop) (a : A) : Keeps (E := E) P (mret a).
Proof. by intros s. Qed.
#[export] Instance keeps_lift {S E A} (P : S -> Prop) (m : outcome E A) : Keeps P (liftS m).
Proof. by intros s. Qed.
#[export] Instance keeps_get {S E} (P : S -> Prop) : Keeps (E := E) P getS.
Proof. by intros s. Qed.

Lemma keeps_bind {S E A B} (P : S -> Prop) (m : stM S E A) (k : A -> stM S E B) :
  Keeps P m -> (forall a, Keeps P (k a)) -> Keeps P (m ≫= k).
Proof.
  intros Hm Hk s Hs. specialize (Hm s Hs). unfold mbind, stM_bind. destruct (m s) as [s' [a|e|h]]; [by apply Hk|done..].
Qed.

(** The rest of a computation that has just read the state. *)
Lemma keeps_bind_get {S E B} (P : S -> Prop) (k : S -> stM S E B) :
  (forall s, P s -> P (fst (k s s))) -> Keeps P (getS ≫= k).
Proof. intros H s Hs. by apply H. Qed.

Lemma keeps_forM {S E A} (P : S -> Prop) (f : A -> stM S E unit) l : (forall a, Keeps P (f a)) -> Keeps P (forM_ f l).
Proof. intros H. induction l as [|a l IH]; [apply _|]. apply keeps_bind; auto. Qed.

Ltac keeps_step :=
  match goal with
  | |- forall _, _ => intros ?
  | |- Keeps _ (_ ≫= _) => apply keeps_bind
  | |- Keeps _ (forM_ _ _) => apply keeps_forM
  | |- Keeps _ (let _ := _ in _) => cbv zeta
  | |- Keeps _ (match ?x with _ => _ end) => destruct x
  | |- Keeps _ _ => solve [apply _]
  end.
Ltac keeps := repeat keeps_step.

Lemma fmap_lookup_seq {A} (d : A) (l : list A) : (fun i => default d (l !! i)) <$> seq 0 (length l) = l.
Proof.
  apply list_eq. intros i. rewrite list_lookup_fmap. destruct (decide (i < length l)%nat) as [Hlt|Hge].
  - rewrite lookup_seq_lt by done. destruct (lookup_lt_is_Some_2 l i Hlt) as [a Ha]. cbn. by rewrite Ha.
  - rewrite lookup_seq_ge by lia. symmetry. apply lookup_ge_None. lia.
Qed.

Lemma mapM_ok {E A B} (f : A -> outcome E B) (g : A -> B) l :
  (forall x, x ∈ l -> f x = Ok (g x)) -> mapM f l = Ok (g <$> l).
Proof.
  induction l as [|x l IH]; intros H; [done|]. simpl.
  rewrite (H x) by set_solver. simpl. rewrite IH by set_solver. done.
Qed.

(** [filter] on a list whose elements all pass, or all fail, the test. *)
Lemma filter_all {A} (P : A -> Prop) `{!forall x, Decision (P x)} l : Forall P l -> filter P l = l.
Proof. induction 1 as [|x l Hx _ IH]; [done|]. rewrite filter_cons_True by done. by rewrite IH. Qed.

Lemma filter_none {A} (P : A -> Prop) `{!forall x, Decision (P x)} l :
  Forall (fun x => ~ P x) l -> filter P l = [].
Proof. induction 1 as [|x l Hx _ IH]; [done|]. by rewrite filter_cons_False. Qed.

(** [Vec::insert] at an index of the vector, [Vec::remove]. *)
Definition vec_insert {A} (i : nat) (x : A) (l : list A) : list A := take i l ++ x :: drop i l.
Definition vec_remove {A} (i : nat) (l : list A) : list A := take i l ++ drop (S i) l.

Lemma length_vec_insert {A} i (x : A) l : (i <= length l)%nat -> length (vec_insert i x l) = S (length l).
Proof. intros. unfold vec_insert. rewrite length_app, length_take. cbn [length]. rewrite length_drop. lia. Qed.

Lemma StronglySorted_lookup {A} (R : relation A) l i j x y :
  StronglySorted R l -> (i < j)%nat -> l !! i = Some x -> l !! j = Some y -> R x y.
Proof.
  intros Hs Hij Hx Hy. rewrite <-(take_drop j l) in Hs, Hx, Hy.
  pose proof (lookup_lt_Some _ _ _ Hy) as Hl. rewrite length_app, length_take, length_drop in Hl.
  assert (j < length l)%nat.
  { destruct (decide (j < length l)%nat); [done|].
    rewrite drop_ge, app_nil_r in Hy by lia. apply lookup_lt_Some in Hy. rewrite length_take in Hy. lia. }
  rewrite lookup_app_l in Hx by (rewrite length_take; lia).
  rewrite lookup_app_r in Hy by (rewrite length_take; lia).
  eapply StronglySorted_app_1_elem_of; [exact Hs| |]; apply list_elem_of_lookup; eauto.
Qed.

(** * Machine integers *)

(** Truncation of an integer to 64, 32 and 16 bits ([as u64], [as u32], [as u16],
    and the bits a left shift drops). *)
Definition u64 (x : Z) : Z := x mod 2 ^ 64.
Definition u32 (x : Z) : Z := x mod 2 ^ 32.
Definition u16 (x : Z) : Z := x mod 2 ^ 16.
Definition u64_max : Z := 2 ^ 64 - 1.

Definition is_u64 (x : Z) : Prop := 0 <= x < 2 ^ 64.

(** [!x] on a u64. *)
Definition not64 (x : Z) : Z := Z.lxor x (Z.ones 64).

Definition shl64 (x n : Z) : Z := u64 (Z.shiftl x n).
Definition shr64 (x n : Z) : Z := Z.shiftr x n.

Lemma u64_range x : is_u64 (u64 x).
Proof. apply Z.mod_pos_bound; lia. Qed.

Lemma u64_small x : is_u64 x -> u64 x = x.
Proof. apply Z.mod_small. Qed.

Lemma testbit_above x k i : 0 <= x < 2 ^ k -> k <= i -> Z.testbit x i = false.
Proof.
  intros Hx Hi. destruct (decide (0 <= k)) as [Hk|Hk].
  - rewrite <-(Z.mod_small x (2 ^ k)) by done. by apply Z.mod_pow2_bits_high.
  - rewrite Z.pow_neg_r in Hx by lia. lia.
Qed.

(** A number whose bits vanish from [k] on is below [2 ^ k]. *)
Lemma bits_bounded x k :
  0 <= k -> 0 <= x -> (forall i, k <= i -> Z.testbit x i = false) -> x < 2 ^ k.
Proof.
  intros Hk Hx Hbits.
  assert (x = x mod 2 ^ k) as ->.
  { apply Z.bits_inj'; intros i Hi.
    destruct (Z.lt_ge_cases i k).
    - by rewrite Z.mod_pow2_bits_low.
    - rewrite Z.mod_pow2_bits_high by lia. by apply Hbits. }
  apply Z.mod_pos_bound. lia.
Qed.

Lemma testbit_ones n i : 0 <= n -> 0 <= i -> Z.testbit (Z.ones n) i = (i <? n).
Proof. intros. by apply Z.testbit_ones_nonneg. Qed.

Lemma testbit_1 i : Z.testbit 1 i = (i =? 0).
Proof. destruct (Z.eqb_spec i 0) as [->|]; [done|].
  destruct (Z.lt_ge_cases i 0); [by apply Z.testbit_neg_r|].
  apply (testbit_above 1 1); lia. Qed.

Lemma testbit_b2z b i : Z.testbit (Z.b2z b) i = (i =? 0) && b.
Proof. destruct b; simpl; [by rewrite testbit_1, andb_true_r | by rewrite Z.testbit_0_l, andb_false_r]. Qed.

(** [bits] proves an equation between words built from shifts, masks and bounded
    fields, bit by bit: it splits the bit index on the boundaries of the fields
    until every bit is a constant or the same atom on both sides. *)
Ltac bit_rewrite :=
  repeat first
    [ rewrite Z.lor_spec | rewrite Z.land_spec | rewrite Z.lxor_spec | rewrite Z.ldiff_spec
    | rewrite Z.shiftl_spec by lia | rewrite Z.shiftr_spec by lia
    | rewrite Z.testbit_mod_pow2 by lia | rewrite testbit_ones by lia
    | rewrite testbit_1 | rewrite testbit_b2z | rewrite Z.testbit_0_l ].

Ltac bit_bool :=
  match goal with
  | |- context [?a <? ?b] =>
      first [ rewrite (proj2 (Z.ltb_lt a b)) by lia
            | rewrite (proj2 (Z.ltb_ge a b)) by lia
            | destruct (Z.ltb_spec a b) ]
  | |- context [?a =? ?b] =>
      first [ rewrite (proj2 (Z.eqb_eq a b)) by lia
            | rewrite (proj2 (Z.eqb_neq a b)) by lia
            | destruct (Z.eqb_spec a b) ]
  end.

Ltac bit_atom :=
  match goal with
  | |- context [Z.testbit ?x ?e] =>
      first
        [ rewrite (Z.testbit_neg_r x e) by lia
        | match goal with H : 0 <= x < 2 ^ ?k |- _ => rewrite (testbit_above x k e H) by lia end
        | assert_fails (assert (0 <= e) by lia); destruct (Z.lt_ge_cases e 0)
        | match goal with H : 0 <= x < 2 ^ ?k |- _ =>
            assert_fails (assert (e < k) by lia); destruct (Z.lt_ge_cases e k) end ]
  end.

Ltac bit_simpl :=
  rewrite ?andb_false_r, ?andb_true_r, ?andb_false_l, ?andb_true_l,
    ?orb_false_r, ?orb_true_r, ?orb_false_l, ?orb_true_l,
    ?xorb_false_r, ?xorb_true_r, ?xorb_false_l, ?xorb_true_l; cbn [andb orb xorb negb].

Ltac bit_close :=
  first [ reflexivity | lia
        | f_equal; lia | f_equal; f_equal; lia ].

Ltac bits_core :=
  repeat (bit_rewrite; first [ bit_close | progress bit_simpl | bit_bool | bit_atom ]).

Ltac bits :=
  unfold shl64, shr64, not64 in *; unfold u64, u32, u16, is_u64 in *;
  apply Z.bits_inj'; intros ?i ?Hi; bits_core.

(** * Bytes, slices and memory *)

#[global] Instance byte_eq_dec : EqDecision byte.
Proof. intros x y. destruct (Byte.eqb x y) eqn:E; [left; by apply Byte.byte_dec_bl|right].
  intros ->. by rewrite (Byte.byte_dec_lb eq_refl) in E. Defined.

Abbreviation bytes := (list byte).

(** [&m[off..off + len]] *)
Definition slice (m : bytes) (off len : nat) : bytes := take len (drop off m).

(** [m[off..off + bs.len()].copy_from_slice(bs)], for a range inside [m]. *)
Definition splice (m : bytes) (off : nat) (bs : bytes) : bytes :=
  take off m ++ bs ++ drop (off + length bs) m.

Definition in_range (m : bytes) (off len : nat) : Prop := (off + len <= length m)%nat.

Lemma length_slice m off len : in_range m off len -> length (slice m off len) = len.
Proof. unfold in_range, slice. rewrite length_take, length_drop. lia. Qed.

Lemma length_splice m off bs : in_range m off (length bs) -> length (splice m off bs) = length m.
Proof. unfold in_range, splice. rewrite !length_app, length_take, length_drop. lia. Qed.

Lemma lookup_slice m off len i :
  slice m off len !! i = if decide (i < len)%nat then m !! (off + i)%nat else None.
Proof.
  unfold slice. case_decide.
  - rewrite lookup_take_lt by done. apply lookup_drop.
  - apply lookup_take_ge. lia.
Qed.

Lemma lookup_splice m off bs i :
  in_range m off (length bs) ->
  splice m off bs !! i =
    if decide (off <= i < off + length bs)%nat then bs !! (i - off)%nat else m !! i.
Proof.
  unfold in_range, splice; intros Hr. assert (length (take off m) = off) as Hl by (rewrite length_take; lia).
  destruct (decide (i < off)%nat).
  - rewrite lookup_app_l, lookup_take_lt by lia. by rewrite decide_False by lia.
  - rewrite lookup_app_r, Hl by lia. case_decide as Hd.
    + rewrite lookup_app_l by lia. done.
    + rewrite lookup_app_r by lia. rewrite lookup_drop. f_equal. lia.
Qed.

Lemma slice_splice_same m off bs :
  in_range m off (length bs) -> slice (splice m off bs) off (length bs) = bs.
Proof.
  intros Hr. apply list_eq; intros i. rewrite lookup_slice. case_decide.
  - rewrite lookup_splice by done. rewrite decide_True by lia. f_equal; lia.
  - symmetry. apply lookup_ge_None. lia.
Qed.

Lemma slice_splice_ne m off bs o l :
  in_range m off (length bs) -> (o + l <= off \/ off + length bs <= o)%nat ->
  slice (splice m off bs) o l = slice m o l.
Proof.
  intros Hr Hd. apply list_eq; intros i. rewrite !lookup_slice. case_decide; [|done].
  rewrite lookup_splice by done. by rewrite decide_False by lia.
Qed.

Lemma slice_app m o l1 l2 : slice m o (l1 + l2) = slice m o l1 ++ slice m (o + l1) l2.
Proof. unfold slice. rewrite <-drop_drop. symmetry. apply take_take_drop. Qed.

Lemma slice_slice m o l o' l' : (o' + l' <= l)%nat -> slice (slice m o l) o' l' = slice m (o + o') l'.
Proof.
  intros. apply list_eq; intros i. rewrite !lookup_slice. case_decide; [|done].
  rewrite decide_True by lia. f_equal; lia.
Qed.

(** Native (little-endian) words in memory. *)
Definition load_u64 (m : bytes) (off : nat) : Z := le_combine (slice m off 8).
Definition store_u64 (m : bytes) (off : nat) (w : Z) : bytes := splice m off (le_split 8 w).

Lemma load_store_same m off w : in_range m off 8 -> is_u64 w -> load_u64 (store_u64 m off w) off = w.
Proof.
  intros Hr Hw. unfold load_u64, store_u64.
  replace 8%nat with (length (le_split 8 w)) at 2 by apply length_le_split.
  rewrite slice_splice_same by (by rewrite length_le_split).
  rewrite le_combine_split. by apply Z.mod_small.
Qed.

Lemma load_splice_ne m off bs o :
  in_range m off (length bs) -> (o + 8 <= off \/ off + length bs <= o)%nat ->
  load_u64 (splice m off bs) o = load_u64 m o.
Proof. intros. unfold load_u64. by rewrite slice_splice_ne. Qed.

Lemma load_store_ne m off w o :
  in_range m off 8 -> (o + 8 <= off \/ off + 8 <= o)%nat ->
  load_u64 (store_u64 m off w) o = load_u64 m o.
Proof. intros. apply load_splice_ne; rewrite length_le_split; done. Qed.

Lemma slice_store_ne m off w o l :
  in_range m off 8 -> (o + l <= off \/ off + 8 <= o)%nat ->
  slice (store_u64 m off w) o l = slice m o l.
Proof. intros. apply slice_splice_ne; rewrite length_le_split; done. Qed.

Lemma length_store m off w : in_range m off 8 -> length (store_u64 m off w) = length m.
Proof. intros. apply length_splice. by rewrite length_le_split. Qed.

Lemma load_u64_range m off : is_u64 (load_u64 m off).
Proof.
  unfold load_u64, is_u64. pose proof (le_combine_bound (slice m off 8)) as [H0 H1]. split; [done|].
  eapply Z.lt_le_trans; [exact H1|]. apply Z.pow_le_mono_r; [lia|].
  unfold slice. rewrite length_take. lia.
Qed.

#[global] Arguments slice : simpl never.
#[global] Arguments splice : simpl never.
#[global] Arguments load_u64 : simpl never.
#[global] Arguments store_u64 : simpl never.

(** * The order of keys: [<[u8]>::cmp] *)

Fixpoint bytes_cmp (a b : bytes) : comparison :=
  match a, b with
  | [], [] => Eq
  | [], _ :: _ => Lt
  | _ :: _, [] => Gt
  | x :: a, y :: b =>
      match byte.compare x y with Eq => bytes_cmp a b | c => c end
  end.

Definition bytes_ltb (a b : bytes) : bool := match bytes_cmp a b with Lt => true | _ => false end.
Definition bytes_leb (a b : bytes) : bool := match bytes_cmp a b with Gt => false | _ => true end.
Definition bytes_lt (a b : bytes) : Prop := bytes_cmp a b = Lt.
Definition bytes_le (a b : bytes) : Prop := bytes_cmp a b <> Gt.

Lemma byte_compare_eq x y : byte.compare x y = Eq <-> x = y.
Proof.
  unfold byte.compare. rewrite Z.compare_eq_iff. split; [apply byte.unsigned_inj | by intros ->].
Qed.

Lemma bytes_cmp_eq a b : bytes_cmp a b = Eq <-> a = b.
Proof.
  revert b; induction a as [|x a IH]; intros [|y b]; simpl; try (split; congruence).
  destruct (byte.compare x y) eqn:E.
  - apply byte_compare_eq in E as ->. rewrite IH. split; congruence.
  - split; [done|]. intros [= -> ->]. by rewrite (proj2 (byte_compare_eq y y) eq_refl) in E.
  - split; [done|]. intros [= -> ->]. by rewrite (proj2 (byte_compare_eq y y) eq_refl) in E.
Qed.

Lemma bytes_cmp_antisym a b : bytes_cmp b a = CompOpp (bytes_cmp a b).
Proof.
  revert b; induction a as [|x a IH]; intros [|y b]; simpl; try done.
  unfold byte.compare. rewrite (Z.compare_antisym (byte.unsigned x) (byte.unsigned y)).
  destruct (byte.unsigned x ?= byte.unsigned y); simpl; done.
Qed.

Lemma bytes_lt_trans a b c : bytes_lt a b -> bytes_lt b c -> bytes_lt a c.
Proof.
  unfold bytes_lt. revert b c; induction a as [|x a IH]; intros [|y b] [|z c]; simpl; try done.
  unfold byte.compare.
  destruct (Z.compare_spec (byte.unsigned x) (byte.unsigned y)) as [Exy|Hxy|Hxy]; try done;
  destruct (Z.compare_spec (byte.unsigned y) (byte.unsigned z)) as [Eyz|Hyz|Hyz]; try done; intros.
  - rewrite Exy, Eyz, Z.compare_refl. eauto.
  - by rewrite (proj2 (Z.compare_lt_iff _ _)) by lia.
  - by rewrite (proj2 (Z.compare_lt_iff _ _)) by lia.
  - by rewrite (proj2 (Z.compare_lt_iff _ _)) by lia.
Qed.

#[global] Instance bytes_lt_strict : StrictOrder bytes_lt.
Proof.
  split.
  - intros a. unfold complement, bytes_lt. by rewrite (proj2 (bytes_cmp_eq a a) eq_refl).
  - intros a b c. apply bytes_lt_trans.
Qed.

#[global] Instance bytes_lt_dec a b : Decision (bytes_lt a b).
Proof. unfold bytes_lt. apply _. Defined.

Lemma bytes_lt_irrefl a : ~ bytes_lt a a.
Proof. apply irreflexivity. apply _. Qed.

Lemma bytes_cmp_gt a b : bytes_cmp a b = Gt <-> bytes_lt b a.
Proof. unfold bytes_lt. rewrite bytes_cmp_antisym. destruct (bytes_cmp b a); simpl; split; congruence. Qed.

Lemma bytes_ltb_lt a b : bytes_ltb a b = true <-> bytes_lt a b.
Proof. unfold bytes_ltb, bytes_lt. destruct (bytes_cmp a b); split; congruence. Qed.

Lemma bytes_leb_le a b : bytes_leb a b = true <-> bytes_le a b.
Proof. unfold bytes_leb, bytes_le. destruct (bytes_cmp a b); split; congruence. Qed.

Lemma bytes_le_nlt a b : bytes_le a b <-> ~ bytes_lt b a.
Proof. unfold bytes_le. by rewrite bytes_cmp_gt. Qed.

Lemma bytes_le_lt_or_eq a b : bytes_le a b <-> bytes_lt a b \/ a = b.
Proof. unfold bytes_le, bytes_lt. rewrite <-bytes_cmp_eq. destruct (bytes_cmp a b); naive_solver. Qed.

Lemma bytes_leb_false a b : bytes_leb a b = false <-> bytes_lt b a.
Proof. rewrite <-not_true_iff_false, bytes_leb_le, bytes_le_nlt. split; [apply dec_stable|by intros ? ?]. Qed.

Lemma bytes_le_lt_trans a b c : bytes_le a b -> bytes_lt b c -> bytes_lt a c.
Proof. rewrite bytes_le_lt_or_eq. intros [H| ->] ?; [by eapply bytes_lt_trans|done]. Qed.

Lemma bytes_lt_le_trans a b c : bytes_lt a b -> bytes_le b c -> bytes_lt a c.
Proof. rewrite bytes_le_lt_or_eq. intros ? [H| <-]; [by eapply bytes_lt_trans|done]. Qed.

Lemma bytes_lt_le a b : bytes_lt a b -> bytes_le a b.
Proof. rewrite bytes_le_lt_or_eq. by left. Qed.

Lemma bytes_le_refl a : bytes_le a a.
Proof. unfold bytes_le. by rewrite (proj2 (bytes_cmp_eq a a) eq_refl). Qed.
Lemma bytes_le_trans a b c : bytes_le a b -> bytes_le b c -> bytes_le a c.
Proof. rewrite !bytes_le_lt_or_eq. intros [?| ->] [?| ->]; eauto using bytes_lt_trans. Qed.
Lemma bytes_le_antisym a b : bytes_le a b -> bytes_le b a -> a = b.
Proof. rewrite bytes_le_nlt, (bytes_le_lt_or_eq b a). naive_solver. Qed.
Lemma bytes_le_total a b : bytes_le a b \/ bytes_le b a.
Proof. destruct (bytes_leb a b) eqn:E; [left; by apply bytes_leb_le|right]. by apply bytes_lt_le, bytes_leb_false. Qed.

#[global] Instance bytes_le_order : PartialOrder bytes_le.
Proof.
  split; [split; [exact bytes_le_refl|exact bytes_le_trans]|exact bytes_le_antisym].
Qed.
#[global] Instance bytes_le_dec a b : Decision (bytes_le a b).
Proof. unfold bytes_le. apply _. Defined.

Declare Scope key_scope.
Delimit Scope key_scope with key.
Notation "a <ₖ b" := (bytes_lt a b) (at level 70) : key_scope.
Notation "a ≤ₖ b" := (bytes_le a b) (at level 70) : key_scope.
#[global] Open Scope key_scope.

(** The order of keys, for [eauto with keys]. *)
Create HintDb keys.
#[export] Hint Resolve bytes_le_refl bytes_lt_le : keys.
#[export] Hint Extern 3 (bytes_le _ _) => eapply bytes_le_trans : keys.
#[export] Hint Extern 3 (bytes_lt _ _) => eapply bytes_le_lt_trans : keys.

(** [key.starts_with(prefix)] and the common prefix of two keys. *)
Fixpoint starts_with (k prefix : bytes) {struct prefix} : bool :=
  match prefix, k with
  | [], _ => true
  | p :: prefix, x :: k => bool_decide (x = p) && starts_with k prefix
  | _ :: _, [] => false
  end.

Lemma starts_with_app k prefix : starts_with k prefix = true <-> exists s, k = prefix ++ s.
Proof.
  revert k; induction prefix as [|p prefix IH]; intros k; simpl.
  - split; [by exists k|]. intros _. reflexivity.
  - destruct k as [|x k]; [split; [done|by intros [s ?]]|].
    rewrite andb_true_iff, bool_decide_eq_true, IH. split.
    + intros [-> [s ->]]. by exists s.
    + intros [s [= -> ->]]. split; [done|by exists s].
Qed.

(** Comparing two keys with a common prefix compares their suffixes. *)
Lemma bytes_cmp_app p a b : bytes_cmp (p ++ a) (p ++ b) = bytes_cmp a b.
Proof. induction p as [|x p IH]; simpl; [done|]. by rewrite (proj2 (byte_compare_eq x x) eq_refl). Qed.

(** A mask test of one bit, in the two forms the code uses. *)
Lemma mask_test x k : 0 <= k -> (Z.land (Z.shiftl 1 k) x =? Z.shiftl 1 k) = Z.testbit x k.
Proof.
  intros Hk. apply eq_bool_prop_intro. rewrite !Is_true_true, Z.eqb_eq. split.
  - intros E. apply (f_equal (fun y => Z.testbit y k)) in E. revert E. bit_rewrite.
    replace (k - k) with 0 by lia. by destruct (Z.testbit x k).
  - intros E. apply Z.bits_inj'; intros i Hi. bit_rewrite.
    destruct (Z.eqb_spec (i - k) 0); simpl; [|done]. by replace i with k by lia.
Qed.

Lemma mask_test0 x k : 0 <= k -> negb (Z.land x (Z.shiftl 1 k) =? 0) = Z.testbit x k.
Proof.
  intros Hk. apply eq_bool_prop_intro. rewrite !Is_true_true, negb_true_iff, Z.eqb_neq. split.
  - intros E. apply not_false_is_true; intros Hx. apply E, Z.bits_inj'; intros i Hi.
    bit_rewrite. destruct (Z.eqb_spec (i - k) 0); simpl; [|by rewrite andb_false_r].
    replace i with k by lia. by rewrite Hx.
  - intros E Hz. apply (f_equal (fun y => Z.testbit y k)) in Hz. revert Hz. bit_rewrite.
    replace (k - k) with 0 by lia. by rewrite E.
Qed.

(** [word_range] proves that a word built from in-range fields is a [u64]. *)
Lemma is_u64_bits x : 0 <= x -> (forall i, 64 <= i -> Z.testbit x i = false) -> is_u64 x.
Proof. intros. split; [done|]. by apply bits_bounded. Qed.

Lemma lor_nonneg a b : 0 <= a -> 0 <= b -> 0 <= Z.lor a b.
Proof. intros. by apply Z.lor_nonneg. Qed.
Lemma land_nonneg_l a b : 0 <= a -> 0 <= Z.land a b.
Proof. intros. apply Z.land_nonneg. by left. Qed.
Lemma land_nonneg_r a b : 0 <= b -> 0 <= Z.land a b.
Proof. intros. apply Z.land_nonneg. by right. Qed.
Lemma shl64_nonneg x n : 0 <= shl64 x n.
Proof. apply u64_range. Qed.

Ltac nonneg :=
  repeat first [ lia | apply lor_nonneg | apply shl64_nonneg | (apply land_nonneg_l; nonneg)
               | (apply land_nonneg_r; nonneg) | (apply Z.shiftr_nonneg) | (apply Z.shiftl_nonneg) ].

Ltac word_range :=
  apply is_u64_bits; [ try (unfold is_u64 in *; solve [nonneg])
    | intros ?i ?Hi; unfold shl64, shr64, not64 in *; unfold u64, u32, u16, is_u64 in *; bits_core ].

Lemma shiftr_range x n k : 0 <= n -> 0 <= k -> 0 <= x < 2 ^ (n + k) -> 0 <= Z.shiftr x n < 2 ^ k.
Proof.
  intros Hn Hk [H0 H1]. rewrite Z.shiftr_div_pow2 by done. split.
  - apply Z.div_pos; lia.
  - apply Z.div_lt_upper_bound; [lia|]. by rewrite <-Z.pow_add_r.
Qed.
