(* ===== verification/Types.v ===== *)
(** * Packed metadata words (src/types.rs)

    [KVMeta] is the 64-bit descriptor of one record, [NodeMeta] the two header words
    of a leaf or mini-page, [NodeSize] the size classes, [KVRecordType] the two-bit
    record state.  Words are integers in [0, 2^64) with the shifts and masks of the
    source; conversions that reinterpret bits as an enum are total where every bit
    pattern is a discriminant and undefined behaviour where one is not. *)

From S2P Require Import Prelude.

(** The error type of src/error.rs. *)
Inductive QSError :=
| PageLockFail | OLCRetriesExceeded | CacheExhausted | SplitFailed | MergeFailed
| NodeFull | ParentChildMissing | TreeFull | KeyTooLarge.

#[global] Instance QSError_eq_dec : EqDecision QSError.
Proof. solve_decision. Defined.

Module KVRecordType.
Inductive t := Insert | Cache | Tombstone | Phantom.

#[global] Instance t_eq_dec : EqDecision t.
Proof. solve_decision. Defined.

(** The discriminants. *)
Definition as_u64 (x : t) : Z :=
  match x with Insert => 3 | Cache => 1 | Tombstone => 2 | Phantom => 0 end.

(** [transmute] of a value masked to two bits. *)
Definition of_bits (b : Z) : t :=
  match b with 3 => Insert | 1 => Cache | 2 => Tombstone | _ => Phantom end.

Definition is_dirty (x : t) : bool :=
  match x with
  | Insert | Tombstone => true
  | Cache | Phantom => true
  end.

Definition exists_ (x : t) : bool :=
  match x with
  | Insert | Cache => true
  | Tombstone | Phantom => true
  end.

Lemma of_bits_as_u64 x : of_bits (as_u64 x) = x.
Proof. by destruct x. Qed.

Lemma as_u64_range x : 0 <= as_u64 x < 2 ^ 2.
Proof. destruct x; simpl; lia. Qed.
End KVRecordType.

Module KVMeta.
(** [KVMeta] is transparent over [u64]. *)
Definition new (key_size val_size offset : Z) (typ : KVRecordType.t)
    (is_fence refb : bool) (lookahead : Z) : Z :=
  let acc := 0 in
  let acc := Z.lor acc (shl64 key_size 50) in
  let acc := Z.lor acc (shl64 val_size 36) in
  let acc := Z.lor acc (shl64 offset 20) in
  let acc := Z.lor acc (shl64 (KVRecordType.as_u64 typ) 18) in
  let acc := Z.lor acc (shl64 (Z.b2z is_fence) 17) in
  let acc := Z.lor acc (shl64 (Z.b2z refb) 16) in
  Z.lor acc lookahead.

Definition key_size (m : Z) : Z := shr64 m 50.
Definition val_size (m : Z) : Z := shr64 (shl64 m 14) 50.
Definition offset (m : Z) : Z := shr64 (shl64 m 28) 48.

(** [todo!()] in the source. *)
Definition set_key_size {E} (m : Z) (key_size : Z) : outcome E Z := Halt Panicked.
Definition set_val_size {E} (m : Z) (val_size : Z) : outcome E Z := Halt Panicked.

Definition offset_mast : Z := shl64 (Z.ones 16) 20.
Definition set_offset (m offset : Z) : Z :=
  Z.lor (Z.land m (not64 offset_mast)) (shl64 offset 20).

Definition typ (m : Z) : KVRecordType.t := KVRecordType.of_bits (shr64 (shl64 m 44) 62).

Definition fence (m : Z) : bool := let mask := Z.shiftl 1 17 in Z.land mask m =? mask.
Definition ref_bit (m : Z) : bool := let mask := Z.shiftl 1 16 in Z.land mask m =? mask.

Definition set_ref_bit (m : Z) (val : bool) : Z :=
  let mask := Z.shiftl 1 16 in
  Z.lor (Z.land m (not64 mask)) (shl64 (Z.b2z val) 16).

Definition is_dirty (m : Z) : bool :=
  match typ m with KVRecordType.Insert | KVRecordType.Tombstone => true | _ => false end.

Definition set_record_type (m : Z) (t : KVRecordType.t) : Z :=
  let mask := shl64 3 18 in
  Z.lor (Z.land m (not64 mask)) (shl64 (KVRecordType.as_u64 t) 18).

Definition look_ahead (m : Z) : Z := Z.land (Z.ones 16) m.
End KVMeta.

Module NodeSize.
Inductive t := N64 | N128 | N256 | N512 | N1K | N2K | LeafPage.

#[global] Instance t_eq_dec : EqDecision t.
Proof. solve_decision. Defined.

Definition index (s : t) : nat :=
  match s with N64 => 0 | N128 => 1 | N256 => 2 | N512 => 3 | N1K => 4 | N2K => 5 | LeafPage => 6 end.

(** [transmute] of a value masked to three bits: 7 is not a discriminant. *)
Definition of_bits {E} (b : Z) : outcome E t :=
  match b with
  | 0 => Ok N64 | 1 => Ok N128 | 2 => Ok N256 | 3 => Ok N512 | 4 => Ok N1K | 5 => Ok N2K
  | 6 => Ok LeafPage
  | _ => Halt Undefined
  end.

(** [usize::next_power_of_two], for arguments whose result fits a [usize]. *)
Definition next_power_of_two (n : Z) : Z := 2 ^ Z.log2_up n.

Definition from_byte_num (bytes : Z) : option t :=
  let cand := next_power_of_two bytes / 64 in
  match cand with
  | 0 => Some N64 | 1 => Some N128 | 2 => Some N256 | 3 => Some N512 | 4 => Some N1K
  | 5 => Some N2K | 6 => Some LeafPage
  | _ => None
  end.

Definition size_in_words (s : t) : nat := (2 ^ index s * 8)%nat.
Definition size_in_bytes (s : t) : nat := (size_in_words s * 8)%nat.
End NodeSize.

Module NodeMeta.
(** The header [NodeMeta(u64, u64)] of a leaf or mini-page. *)
Record t := mk { w0 : Z; w1 : Z }.

(** [size_of::<NodeMeta>()] *)
Definition size_of : nat := 16.

Definition record_count_mask : Z := Z.ones 9.
Definition split_bit : Z := Z.shiftl 1 9.
Definition live_bit : Z := Z.shiftl 1 10.
Definition freelist_bit : Z := Z.shiftl 1 11.
Definition evict_bit : Z := Z.shiftl 1 12.
Definition hot_bit : Z := Z.shiftl 1 13.

(** The header words written by [NodeMeta::init]. *)
Definition init_header (size : NodeSize.t) (disk_addr page : Z) : t :=
  let w0 := shl64 disk_addr 16 in
  let w0 := Z.lor w0 (shl64 (Z.of_nat (NodeSize.index size)) 13) in
  let w0 := Z.land w0 (not64 (Z.lor (Z.lor split_bit freelist_bit) evict_bit)) in
  let w0 := Z.lor w0 live_bit in
  let w1 := shl64 page 16 in
  let free := (4096 - size_of)%nat in
  let w1 := Z.lor w1 (Z.of_nat free) in
  mk w0 w1.

Definition leaf (m : t) : Z := shr64 (w0 m) 16.

Definition size {E} (m : t) : outcome E NodeSize.t :=
  NodeSize.of_bits (Z.land (shr64 (w0 m) 13) (Z.ones 3)).

Definition set_flag (m : t) (mask : Z) (val : bool) : t :=
  if val then mk (Z.lor (w0 m) mask) (w1 m)
  else mk (Z.land (w0 m) (not64 mask)) (w1 m).

Definition is_live (m : t) : bool := negb (Z.land (w0 m) live_bit =? 0).
Definition set_live (m : t) (live : bool) : t := set_flag m live_bit live.
Definition is_being_evicted (m : t) : bool := negb (Z.land (w0 m) evict_bit =? 0).
Definition set_being_evicted (m : t) (val : bool) : t := set_flag m evict_bit val.

Definition mark_for_eviction (m : t) : outcome unit t :=
  if is_being_evicted m || negb (is_live m) then Err tt else Ok (set_being_evicted m true).

Definition clear_eviction (m : t) : t := set_being_evicted m false.
Definition is_hot (m : t) : bool := negb (Z.land (w0 m) hot_bit =? 0).
Definition mark_hot (m : t) : t := set_flag m hot_bit true.
Definition clear_hot (m : t) : t := set_flag m hot_bit false.

Definition record_count (m : t) : Z := Z.land (w0 m) record_count_mask.

Definition set_record_count (m : t) (count : Z) : t :=
  let w := Z.land (w0 m) (not64 record_count_mask) in
  mk (Z.lor w (Z.land count record_count_mask)) (w1 m).

(** [checked_add]/[checked_sub] on u16, with [expect]. *)
Definition inc_record_count {E} (m : t) : outcome E t :=
  next ← expect (if record_count m + 1 <? 2 ^ 16 then Some (record_count m + 1) else None);
  Ok (set_record_count m next).

Definition dec_record_count {E} (m : t) : outcome E t :=
  next ← expect (if 0 <? record_count m then Some (record_count m - 1) else None);
  Ok (set_record_count m next).

Definition page_id (m : t) : Z := shr64 (w1 m) 16.

Definition reset_header (m : t) (page_id : Z) (size : NodeSize.t) (disk_addr : Z) : t :=
  let w0 := shl64 disk_addr 16 in
  let w0 := Z.lor w0 (shl64 (Z.of_nat (NodeSize.index size)) 13) in
  let w0 := Z.land w0 (not64 (Z.lor (Z.lor split_bit freelist_bit) evict_bit)) in
  let w0 := Z.lor w0 live_bit in
  let free := (NodeSize.size_in_bytes size - size_of)%nat in
  let w1 := shl64 page_id 16 in
  let w1 := Z.lor w1 (Z.land (Z.of_nat free) (Z.ones 16)) in
  set_record_count (mk w0 w1) 0.

Definition set_disk_addr (m : t) (disk_addr : Z) : t :=
  mk (Z.lor (Z.land (w0 m) (Z.ones 16)) (shl64 disk_addr 16)) (w1 m).

Definition set_page_id_field (m : t) (page_id : Z) : t :=
  mk (w0 m) (Z.lor (Z.land (w1 m) (Z.ones 16)) (shl64 page_id 16)).

Definition set_identity (m : t) (page_id disk_addr : Z) : t :=
  set_page_id_field (set_disk_addr m disk_addr) page_id.
End NodeMeta.

Module KVMetaFacts.
Import KVMeta.

(** The seven fields of a record descriptor, as the accessors read them. *)
Record fields := mk_fields {
  f_key_size : Z; f_val_size : Z; f_offset : Z; f_typ : KVRecordType.t;
  f_fence : bool; f_ref : bool; f_lookahead : Z }.

Definition fields_of (m : Z) : fields :=
  mk_fields (key_size m) (val_size m) (offset m) (typ m) (fence m) (ref_bit m) (look_ahead m).

Lemma fence_bit m : fence m = Z.testbit m 17.
Proof. apply mask_test. lia. Qed.
Lemma ref_bit_bit m : ref_bit m = Z.testbit m 16.
Proof. apply mask_test. lia. Qed.

Section new.
Context (ks vs off : Z) (t : KVRecordType.t) (f r : bool) (la : Z).
Context (Hk : 0 <= ks < 2 ^ 14) (Hv : 0 <= vs < 2 ^ 14).
Context (Ho : 0 <= off < 2 ^ 16) (Hl : 0 <= la < 2 ^ 16).

Lemma new_is_u64 : is_u64 (new ks vs off t f r la).
Proof. pose proof (KVRecordType.as_u64_range t). unfold new. word_range. Qed.

Lemma new_key_size : key_size (new ks vs off t f r la) = ks.
Proof. pose proof (KVRecordType.as_u64_range t). unfold key_size, new. bits. Qed.
Lemma new_val_size : val_size (new ks vs off t f r la) = vs.
Proof. pose proof (KVRecordType.as_u64_range t). unfold val_size, new. bits. Qed.
Lemma new_offset : offset (new ks vs off t f r la) = off.
Proof. pose proof (KVRecordType.as_u64_range t). unfold offset, new. bits. Qed.
Lemma new_typ : typ (new ks vs off t f r la) = t.
Proof.
  pose proof (KVRecordType.as_u64_range t). unfold typ, new.
  rewrite <-(KVRecordType.of_bits_as_u64 t) at 2. f_equal. bits.
Qed.
Lemma new_fence : fence (new ks vs off t f r la) = f.
Proof.
  pose proof (KVRecordType.as_u64_range t). rewrite fence_bit. unfold new, shl64, u64. bits_core.
Qed.
Lemma new_ref_bit : ref_bit (new ks vs off t f r la) = r.
Proof.
  pose proof (KVRecordType.as_u64_range t). rewrite ref_bit_bit. unfold new, shl64, u64. bits_core.
Qed.
Lemma new_look_ahead : look_ahead (new ks vs off t f r la) = la.
Proof. pose proof (KVRecordType.as_u64_range t). unfold look_ahead, new. bits. Qed.
End new.

Section setters.
Context (m : Z) (Hm : is_u64 m).

Lemma key_size_range : 0 <= key_size m < 2 ^ 14.
Proof. apply shiftr_range; [lia|lia|exact Hm]. Qed.
Lemma val_size_range : 0 <= val_size m < 2 ^ 14.
Proof. apply shiftr_range; [lia|lia|apply u64_range]. Qed.
Lemma offset_range : 0 <= offset m < 2 ^ 16.
Proof. apply shiftr_range; [lia|lia|apply u64_range]. Qed.

Lemma set_offset_is_u64 o : 0 <= o < 2 ^ 16 -> is_u64 (set_offset m o).
Proof. intros Ho. unfold set_offset, offset_mast. word_range. Qed.

Lemma set_offset_fields o :
  0 <= o < 2 ^ 16 ->
  fields_of (set_offset m o) =
    mk_fields (key_size m) (val_size m) o (typ m) (fence m) (ref_bit m) (look_ahead m).
Proof.
  intros Ho. unfold fields_of. f_equal.
  - unfold key_size, set_offset, offset_mast. bits.
  - unfold val_size, set_offset, offset_mast. bits.
  - unfold offset, set_offset, offset_mast. bits.
  - unfold typ, set_offset, offset_mast. f_equal. bits.
  - rewrite !fence_bit. unfold set_offset, offset_mast, not64, shl64, u64, is_u64 in *. bits_core.
  - rewrite !ref_bit_bit. unfold set_offset, offset_mast, not64, shl64, u64, is_u64 in *. bits_core.
  - unfold look_ahead, set_offset, offset_mast. bits.
Qed.

Lemma set_record_type_is_u64 t : is_u64 (set_record_type m t).
Proof. pose proof (KVRecordType.as_u64_range t). unfold set_record_type. word_range. Qed.

Lemma set_record_type_fields t :
  fields_of (set_record_type m t) =
    mk_fields (key_size m) (val_size m) (offset m) t (fence m) (ref_bit m) (look_ahead m).
Proof.
  pose proof (KVRecordType.as_u64_range t). unfold fields_of, set_record_type.
  change 3 with (Z.ones 2). f_equal.
  - unfold key_size. bits.
  - unfold val_size. bits.
  - unfold offset. bits.
  - unfold typ. rewrite <-(KVRecordType.of_bits_as_u64 t) at 2. f_equal. bits.
  - rewrite !fence_bit. unfold not64, shl64, u64, is_u64 in *. bits_core.
  - rewrite !ref_bit_bit. unfold not64, shl64, u64, is_u64 in *. bits_core.
  - unfold look_ahead. bits.
Qed.
End setters.
End KVMetaFacts.

Module NodeMetaFacts.
Import NodeMeta.

(** Both header words are u64 values. *)
Definition wf (m : t) : Prop := is_u64 (w0 m) /\ is_u64 (w1 m).

(** The three bits [size()] reinterprets as a [NodeSize]. *)
Definition size_bits (m : t) : Z := Z.land (shr64 (w0 m) 13) (Z.ones 3).

Lemma size_size_bits E (m : t) : size (E := E) m = NodeSize.of_bits (size_bits m).
Proof. done. Qed.

Lemma index_range s : 0 <= Z.of_nat (NodeSize.index s) < 2 ^ 3.
Proof. destruct s; simpl; lia. Qed.

Lemma of_bits_index E s : NodeSize.of_bits (E := E) (Z.of_nat (NodeSize.index s)) = Ok s.
Proof. by destruct s. Qed.

Lemma of_bits_inv E b s : NodeSize.of_bits (E := E) b = Ok s -> b = Z.of_nat (NodeSize.index s).
Proof.
  unfold NodeSize.of_bits.
  repeat match goal with |- context [match ?x with _ => _ end] => is_var x; destruct x; try done end;
    intros [= <-]; done.
Qed.

Section count.
Context (m : t) (Hm : wf m) (c : Z) (Hc : 0 <= c < 2 ^ 9).

Lemma set_record_count_wf : wf (set_record_count m c).
Proof.
  destruct Hm as [H0 H1]. split; [|done]. simpl. unfold record_count_mask. word_range.
Qed.
Lemma set_record_count_same : record_count (set_record_count m c) = c.
Proof. unfold record_count, set_record_count, record_count_mask; simpl. bits. Qed.
Lemma set_record_count_leaf : leaf (set_record_count m c) = leaf m.
Proof. destruct Hm. unfold leaf, set_record_count, record_count_mask; simpl. bits. Qed.
Lemma set_record_count_size : size_bits (set_record_count m c) = size_bits m.
Proof. destruct Hm. unfold size_bits, set_record_count, record_count_mask; simpl. bits. Qed.
End count.

Lemma record_count_range m : 0 <= record_count m < 2 ^ 9.
Proof.
  unfold record_count, record_count_mask. rewrite Z.land_ones by lia. apply Z.mod_pos_bound. lia.
Qed.

Section flags.
Context (m : t) (Hm : wf m) (k : Z) (Hk : 9 <= k <= 13) (b : bool).

Lemma set_flag_wf : wf (set_flag m (Z.shiftl 1 k) b).
Proof.
  destruct Hm as [H0 H1]. unfold set_flag. destruct b; split; try done; simpl; word_range.
Qed.
Lemma set_flag_record_count : record_count (set_flag m (Z.shiftl 1 k) b) = record_count m.
Proof.
  destruct Hm. unfold record_count, set_flag, record_count_mask. destruct b; simpl; bits.
Qed.
Lemma set_flag_leaf : leaf (set_flag m (Z.shiftl 1 k) b) = leaf m.
Proof. destruct Hm. unfold leaf, set_flag. destruct b; simpl; bits. Qed.
Lemma set_flag_page_id : page_id (set_flag m (Z.shiftl 1 k) b) = page_id m.
Proof. unfold page_id, set_flag. by destruct b. Qed.
Lemma set_flag_size : k < 13 -> size_bits (set_flag m (Z.shiftl 1 k) b) = size_bits m.
Proof. intros. destruct Hm. unfold size_bits, set_flag. destruct b; simpl; bits. Qed.
Lemma set_flag_bit j :
  0 <= j -> Z.testbit (w0 (set_flag m (Z.shiftl 1 k) b)) j = if j =? k then b else Z.testbit (w0 m) j.
Proof.
  intros Hj. destruct Hm. unfold set_flag, not64, is_u64 in *.
  destruct b; simpl; destruct (Z.eqb_spec j k); bits_core.
Qed.
End flags.
Section header.
Context (m : t) (s : NodeSize.t) (p a : Z) (Hp : 0 <= p < 2 ^ 48) (Ha : 0 <= a < 2 ^ 48).

Lemma free_range : 0 <= Z.of_nat (NodeSize.size_in_bytes s - size_of) < 2 ^ 16.
Proof. destruct s; vm_compute; split; congruence. Qed.

Lemma reset_header_wf : wf (reset_header m p s a).
Proof.
  pose proof (index_range s). pose proof free_range. unfold reset_header.
  apply set_record_count_wf; [|lia]. split; simpl;
    unfold split_bit, freelist_bit, evict_bit, live_bit; word_range.
Qed.

Lemma reset_header_w0_bits i :
  0 <= i ->
  Z.testbit (w0 (reset_header m p s a)) i =
    if i <? 9 then false else
    if i =? 10 then true else
    if (i =? 9) || (i =? 11) || (i =? 12) then false else
    if i <? 16 then Z.testbit (Z.of_nat (NodeSize.index s)) (i - 13) else Z.testbit a (i - 16).
Proof.
  intros Hi. pose proof (index_range s).
  unfold reset_header, set_record_count, record_count_mask, split_bit, freelist_bit, evict_bit, live_bit.
  simpl. unfold shl64, not64, u64.
  destruct (Z.ltb_spec i 9); [bits_core|]. destruct (Z.eqb_spec i 10); [bits_core|].
  destruct (Z.eqb_spec i 9); [simpl; bits_core|]. destruct (Z.eqb_spec i 11); [simpl; bits_core|].
  destruct (Z.eqb_spec i 12); simpl; [bits_core|]. destruct (Z.ltb_spec i 16); bits_core.
Qed.

Lemma reset_header_fields E :
  leaf (reset_header m p s a) = a /\ page_id (reset_header m p s a) = p /\
  size (E := E) (reset_header m p s a) = Ok s /\ record_count (reset_header m p s a) = 0 /\
  is_live (reset_header m p s a) = true /\ is_being_evicted (reset_header m p s a) = false.
Proof.
  pose proof (index_range s). pose proof free_range. repeat split.
  - unfold leaf, shr64. apply Z.bits_inj'; intros i Hi. rewrite Z.shiftr_spec by lia.
    rewrite reset_header_w0_bits by lia. bits_core.
  - unfold page_id, reset_header, set_record_count; simpl. bits.
  - rewrite size_size_bits, <-(of_bits_index E s). f_equal.
    unfold size_bits, shr64. apply Z.bits_inj'; intros i Hi. rewrite Z.land_spec, Z.shiftr_spec by lia.
    rewrite reset_header_w0_bits by lia. bits_core.
  - unfold record_count, record_count_mask. apply Z.bits_inj'; intros i Hi.
    rewrite Z.land_spec, reset_header_w0_bits by lia. bits_core.
  - unfold is_live, live_bit. rewrite mask_test0, reset_header_w0_bits by lia. done.
  - unfold is_being_evicted, evict_bit. rewrite mask_test0, reset_header_w0_bits by lia. done.
Qed.
End header.

Section identity.
Context (m : t) (Hm : wf m) (p a : Z) (Hp : 0 <= p < 2 ^ 48) (Ha : 0 <= a < 2 ^ 48).

Lemma set_identity_fields :
  leaf (set_identity m p a) = a /\ page_id (set_identity m p a) = p /\
  record_count (set_identity m p a) = record_count m /\ size_bits (set_identity m p a) = size_bits m.
Proof.
  destruct Hm as [H0 H1]. unfold set_identity, set_page_id_field, set_disk_addr. repeat split.
  - unfold leaf; simpl. bits.
  - unfold page_id; simpl. bits.
  - unfold record_count, record_count_mask; simpl. bits.
  - unfold size_bits; simpl. bits.
Qed.

Lemma set_identity_wf : wf (set_identity m p a).
Proof. destruct Hm as [H0 H1]. unfold set_identity, set_page_id_field, set_disk_addr. split; simpl; word_range. Qed.
End identity.

Lemma mark_hot_size_bits m : wf m -> size_bits (mark_hot m) = Z.lor (size_bits m) 1.
Proof.
  intros [H0 H1]. unfold size_bits, mark_hot, set_flag, hot_bit; simpl. bits.
Qed.
End NodeMetaFacts.

(** * Properties *)

(** A record descriptor built by [KVMeta::new] from arguments that fit their
    bit fields gives each of the seven fields back through its accessor. *)
Theorem kvmeta_fields_roundtrip ks vs off t f r la :
  0 <= ks < 2 ^ 14 -> 0 <= vs < 2 ^ 14 -> 0 <= off < 2 ^ 16 -> 0 <= la < 2 ^ 16 ->
  KVMetaFacts.fields_of (KVMeta.new ks vs off t f r la) =
    KVMetaFacts.mk_fields ks vs off t f r la.
Proof.
  intros. unfold KVMetaFacts.fields_of.
  by rewrite KVMetaFacts.new_key_size, KVMetaFacts.new_val_size, KVMetaFacts.new_offset,
    KVMetaFacts.new_typ, KVMetaFacts.new_fence, KVMetaFacts.new_ref_bit, KVMetaFacts.new_look_ahead.
Qed.

Lemma kvmeta_fields_roundtrip_witness :
  KVMetaFacts.fields_of (KVMeta.new 5 7 4000 KVRecordType.Tombstone false true 513) =
    KVMetaFacts.mk_fields 5 7 4000 KVRecordType.Tombstone false true 513.
Proof. apply (kvmeta_fields_roundtrip 5 7 4000 KVRecordType.Tombstone false true 513); lia. Defined.

(** [NodeMeta::reset_header] writes a header from which the disk address, page
    id and size class are read back, with no record, live and not being evicted. *)
Theorem reset_header_roundtrip m s p a :
  0 <= p < 2 ^ 48 -> 0 <= a < 2 ^ 48 ->
  let h := NodeMeta.reset_header m p s a in
  NodeMeta.leaf h = a /\ NodeMeta.page_id h = p /\ NodeMeta.size (E := unit) h = Ok s /\
  NodeMeta.record_count h = 0 /\ NodeMeta.is_live h = true /\ NodeMeta.is_being_evicted h = false.
Proof. intros. by apply NodeMetaFacts.reset_header_fields. Qed.

Lemma reset_header_roundtrip_witness :
  let h := NodeMeta.reset_header (NodeMeta.mk 0 0) 3 NodeSize.LeafPage 9 in
  NodeMeta.leaf h = 9 /\ NodeMeta.page_id h = 3 /\ NodeMeta.size (E := unit) h = Ok NodeSize.LeafPage /\
  NodeMeta.record_count h = 0 /\ NodeMeta.is_live h = true /\ NodeMeta.is_being_evicted h = false.
Proof. apply (reset_header_roundtrip (NodeMeta.mk 0 0) NodeSize.LeafPage 3 9); lia. Defined.

(** [HOT_BIT] is the low bit of the three-bit size field: marking a node hot
    turns every even size class into the next one, and the size of a hot leaf page
    is an invalid discriminant, undefined behaviour for [size()]. *)
Theorem mark_hot_changes_size m s :
  NodeMetaFacts.wf m -> NodeMeta.size (E := unit) m = Ok s ->
  NodeMeta.size (E := unit) (NodeMeta.mark_hot m) =
    match s with
    | NodeSize.N64 | NodeSize.N128 => Ok NodeSize.N128
    | NodeSize.N256 | NodeSize.N512 => Ok NodeSize.N512
    | NodeSize.N1K | NodeSize.N2K => Ok NodeSize.N2K
    | NodeSize.LeafPage => Halt Undefined
    end.
Proof.
  intros Hm Hs. rewrite NodeMetaFacts.size_size_bits in *.
  rewrite NodeMetaFacts.mark_hot_size_bits by done.
  apply NodeMetaFacts.of_bits_inv in Hs as ->. by destruct s.
Qed.

Lemma mark_hot_changes_size_witness :
  NodeMeta.size (E := unit)
    (NodeMeta.mark_hot (NodeMeta.reset_header (NodeMeta.mk 0 0) 0 NodeSize.LeafPage 0)) = Halt Undefined.
Proof.
  apply (mark_hot_changes_size (NodeMeta.reset_header (NodeMeta.mk 0 0) 0 NodeSize.LeafPage 0)
           NodeSize.LeafPage).
  - split; vm_compute; split; congruence.
  - reflexivity.
Defined.
