(* ===== verification/Utils.v ===== *)
(** * Child pointer encoding (src/utils.rs) and cache sampling (src/rand.rs)

    Big-endian 48-bit and 32-bit encodings of child pointers in inner nodes. *)

From S2P Require Import Prelude.

(** [u64::to_be_bytes], [u64::from_be_bytes] and their 32-bit versions. *)
Definition to_be_bytes (n : nat) (v : Z) : bytes := reverse (le_split n v).
Definition from_be_bytes (b : bytes) : Z := le_combine (reverse b).

Lemma length_to_be_bytes n v : length (to_be_bytes n v) = n.
Proof. unfold to_be_bytes. by rewrite length_reverse, length_le_split. Qed.

Lemma from_to_be_bytes n v : from_be_bytes (to_be_bytes n v) = v mod 2 ^ (Z.of_nat n * 8).
Proof. unfold from_be_bytes, to_be_bytes. by rewrite reverse_involutive, le_combine_split. Qed.

Definition store_u48 (val : Z) : bytes :=
  let masked := Z.land val (Z.ones 48) in
  drop 2 (to_be_bytes 8 masked).

(** [extract_u48] and [extract_u32] read 6 and 4 bytes at a pointer; the argument
    is the memory from that pointer on. *)
Definition extract_u48 (mem : bytes) : Z :=
  from_be_bytes (splice (replicate 8 Byte.x00) 2 (take 6 mem)).

Definition store_u32 (val : Z) : bytes :=
  let masked := to_be_bytes 4 (u32 val) in
  splice (replicate 8 Byte.x00) 4 masked.

Definition extract_u32 (mem : bytes) : Z := from_be_bytes (take 4 mem).

(** [rand_for_cache]: [val] is the sample drawn by [fastrand::u8(0..100)]. *)
Definition rand_for_cache (val : Z) : bool := val <? 20.

Lemma length_store_u48 v : length (store_u48 v) = 6%nat.
Proof. unfold store_u48. by rewrite length_drop, length_to_be_bytes. Qed.

(** The array [store_u32] returns has eight bytes. *)
Lemma length_store_u32 v : length (store_u32 v) = 8%nat.
Proof.
  unfold store_u32. rewrite length_splice; [by rewrite length_replicate|].
  unfold in_range. by rewrite length_to_be_bytes, length_replicate.
Qed.

(** The high two bytes of a 48-bit value are zero. *)
Lemma to_be_bytes_u48 v :
  0 <= v < 2 ^ 48 -> to_be_bytes 8 v = replicate 2 Byte.x00 ++ drop 2 (to_be_bytes 8 v).
Proof.
  intros Hv. assert (v = le_combine (le_split 6 v)) as Hc.
  { rewrite le_combine_split, Z.mod_small; [done|]. simpl. lia. }
  assert (le_split 8 v = le_split 6 v ++ replicate 2 Byte.x00) as E.
  { apply le_combine_inj; [by rewrite length_app, !length_le_split|].
    rewrite (le_combine_app_0 (le_split 6 v) 2 : le_combine (_ ++ replicate 2 Byte.x00) = _).
    rewrite !le_combine_split. rewrite !Z.mod_small; [done| |]; simpl; lia. }
  unfold to_be_bytes. rewrite E, reverse_app.
  change (reverse (replicate 2 Byte.x00)) with (replicate 2 Byte.x00).
  by rewrite drop_app_length' by done.
Qed.

Lemma extract_store_u48 v tl : 0 <= v < 2 ^ 48 -> extract_u48 (store_u48 v ++ tl) = v.
Proof.
  intros Hv. unfold extract_u48. rewrite take_app_length' by (by rewrite length_store_u48).
  unfold splice. rewrite length_store_u48. simpl (drop _ _). rewrite app_nil_r.
  unfold store_u48. rewrite Z.land_ones, Z.mod_small by lia.
  change (take 2 (replicate 8 Byte.x00)) with (replicate 2 Byte.x00).
  rewrite <-(to_be_bytes_u48 v) by done.
  rewrite from_to_be_bytes. apply Z.mod_small. simpl. lia.
Qed.

#[global] Arguments store_u48 : simpl never.
#[global] Arguments store_u32 : simpl never.
#[global] Arguments extract_u48 : simpl never.
#[global] Arguments extract_u32 : simpl never.
