(* ===== verification/Debug.v ===== *)
(** * Counters for tests (src/debug.rs)

    Four 64-bit counters and two lists of events, global and shared by all threads.  Every
    function is a sequence of atomic accesses: an atomic word, or a list under its mutex.
    Threads interleave between them.  A mutex may be poisoned, which is part of the state:
    then nothing is recorded in its list, while reading and clearing go on. *)

From stdpp Require Import relations.
From S2P Require Import Prelude.

Record SplitEvent := mkSplitEvent {
  left_page : Z; right_page : Z; pivot_key : bytes; left_count : Z; right_count : Z }.
Record MergeEvent := mkMergeEvent { survivor_page : Z; removed_page : Z; merged_count : Z }.

Record counters := mkCounters {
  SPLIT_REQUESTS : Z; MERGE_REQUESTS : Z; EVICTION_REQUESTS : Z; SECOND_CHANCE_PASSES : Z;
  SPLIT_EVENTS : list SplitEvent; MERGE_EVENTS : list MergeEvent;
  split_poisoned : bool; merge_poisoned : bool }.

Definition fresh : counters := mkCounters 0 0 0 0 [] [] false false.

(** ** Atomic accesses *)

Inductive counter := Split | Merge | Eviction | SecondChance.

Inductive access :=
| FetchAdd (c : counter) | Store0 (c : counter)
| PushSplit (e : SplitEvent) | PushMerge (e : MergeEvent) | ClearSplits | ClearMerges.

Definition get (k : counter) (c : counters) : Z :=
  match k with
  | Split => SPLIT_REQUESTS c | Merge => MERGE_REQUESTS c
  | Eviction => EVICTION_REQUESTS c | SecondChance => SECOND_CHANCE_PASSES c
  end.
Definition set (k : counter) (n : Z) (c : counters) : counters :=
  let '(mkCounters s m e p ss ms ps pm) := c in
  match k with
  | Split => mkCounters n m e p ss ms ps pm
  | Merge => mkCounters s n e p ss ms ps pm
  | Eviction => mkCounters s m n p ss ms ps pm
  | SecondChance => mkCounters s m e n ss ms ps pm
  end.
Definition set_splits (l : list SplitEvent) (c : counters) : counters :=
  let '(mkCounters s m e p _ ms ps pm) := c in mkCounters s m e p l ms ps pm.
Definition set_merges (l : list MergeEvent) (c : counters) : counters :=
  let '(mkCounters s m e p ss _ ps pm) := c in mkCounters s m e p ss l ps pm.

Definition do_access (a : access) (c : counters) : counters :=
  match a with
  | FetchAdd k => set k (u64 (get k c + 1)) c
  | Store0 k => set k 0 c
  | PushSplit e => if split_poisoned c then c else set_splits (SPLIT_EVENTS c ++ [e]) c
  | PushMerge e => if merge_poisoned c then c else set_merges (MERGE_EVENTS c ++ [e]) c
  | ClearSplits => set_splits [] c
  | ClearMerges => set_merges [] c
  end.

(** ** The functions *)

Definition record_split_event (e : SplitEvent) : list access := [FetchAdd Split; PushSplit e].
Definition record_merge_event (e : MergeEvent) : list access := [FetchAdd Merge; PushMerge e].
Definition record_eviction : list access := [FetchAdd Eviction].
Definition record_second_chance : list access := [FetchAdd SecondChance].
Definition reset_debug_counters : list access :=
  [Store0 Split; Store0 Merge; Store0 Eviction; Store0 SecondChance; ClearSplits; ClearMerges].

Definition split_requests (c : counters) : Z := SPLIT_REQUESTS c.
Definition split_events (c : counters) : list SplitEvent := SPLIT_EVENTS c.
Definition evictions (c : counters) : Z := EVICTION_REQUESTS c.
Definition second_chance_passes (c : counters) : Z := SECOND_CHANCE_PASSES c.
Definition merge_requests (c : counters) : Z := MERGE_REQUESTS c.
Definition merge_events (c : counters) : list MergeEvent := MERGE_EVENTS c.

Inductive call := CSplit (e : SplitEvent) | CMerge (e : MergeEvent) | CEvict | CSecond | CReset.
Definition code (c : call) : list access :=
  match c with
  | CSplit e => record_split_event e | CMerge e => record_merge_event e
  | CEvict => record_eviction | CSecond => record_second_chance | CReset => reset_debug_counters
  end.

(** One call after the other, in one thread. *)
Definition run_calls (cs : list call) (c : counters) : counters := foldl (fun c a => do_access a c) c (cs ≫= code).

(** ** Threads *)

(** The accesses every thread has left of the call it is in. *)
Record sys := mkSys { shared : counters; threads : list (list access) }.

Inductive step : sys -> sys -> Prop :=
| step_start s t c : threads s !! t = Some [] -> step s (mkSys (shared s) (<[t := code c]> (threads s)))
| step_access s t a l : threads s !! t = Some (a :: l) -> step s (mkSys (do_access a (shared s)) (<[t := l]> (threads s))).

(** Steps without resets. *)
Inductive record_step : sys -> sys -> Prop :=
| rstep_start s t c : c <> CReset -> threads s !! t = Some [] -> record_step s (mkSys (shared s) (<[t := code c]> (threads s)))
| rstep_access s t a l : threads s !! t = Some (a :: l) -> record_step s (mkSys (do_access a (shared s)) (<[t := l]> (threads s))).

Definition initial (n : nat) : sys := mkSys fresh (replicate n []).

(** Events whose counter is up and that are not in the list yet. *)
Definition split_pending (l : list access) : nat := match l with PushSplit _ :: _ => 1 | _ => 0 end.
Definition merge_pending (l : list access) : nat := match l with PushMerge _ :: _ => 1 | _ => 0 end.
Definition pending (f : list access -> nat) (s : sys) : nat := sum_list (f <$> threads s).

(** What is left of a recording call. *)
Inductive leftover : list access -> Prop :=
| lo_done : leftover []
| lo_call c : c <> CReset -> leftover (code c)
| lo_split e : leftover [PushSplit e]
| lo_merge e : leftover [PushMerge e].

Record agrees (s : sys) : Prop := {
  ag_left : Forall leftover (threads s);
  ag_poison : split_poisoned (shared s) = false /\ merge_poisoned (shared s) = false;
  ag_split : SPLIT_REQUESTS (shared s) = u64 (Z.of_nat (length (SPLIT_EVENTS (shared s)) + pending split_pending s));
  ag_merge : MERGE_REQUESTS (shared s) = u64 (Z.of_nat (length (MERGE_EVENTS (shared s)) + pending merge_pending s)) }.

Lemma pending_update f s t l l' :
  threads s !! t = Some l ->
  (sum_list (f <$> <[t := l']> (threads s)) + f l = pending f s + f l')%nat.
Proof.
  unfold pending. generalize (threads s). intros ts. revert t; induction ts as [|x ts IH]; intros [|t] Ht; simplify_eq/=; [lia|].
  specialize (IH t Ht). change (sum_list_with id ?x) with (sum_list x) in *. lia.
Qed.

Lemma u64_succ n : u64 (u64 (Z.of_nat n) + 1) = u64 (Z.of_nat (S n)).
Proof. unfold u64. rewrite Zplus_mod_idemp_l. f_equal. lia. Qed.

Lemma agrees_step s s' : agrees s -> record_step s s' -> agrees s'.
Proof.
  intros [Hl [Hp1 Hp2] Hs Hm] Hst. destruct Hst as [s t c Hc Ht|s t a l Ht].
  - pose proof (pending_update split_pending s t [] (code c) Ht) as P1. pose proof (pending_update merge_pending s t [] (code c) Ht) as P2.
    split; cbn [shared threads]; [apply Forall_insert; [done|by apply lo_call]|done| |]; unfold pending in *; cbn [threads] in *;
      [rewrite Hs|rewrite Hm]; do 2 f_equal;
      assert (split_pending (code c) = 0%nat /\ merge_pending (code c) = 0%nat) as [E1 E2] by (by destruct c);
      rewrite ?E1, ?E2 in *; cbn [split_pending merge_pending] in *; lia.
  - pose proof (pending_update split_pending s t (a :: l) l Ht) as P1. pose proof (pending_update merge_pending s t (a :: l) l Ht) as P2.
    pose proof (proj1 (Forall_lookup _ _) Hl t (a :: l) Ht) as Hlo.
    destruct (shared s) as [n1 n2 n3 n4 e1 e2 b1 b2] eqn:Esh. cbn in Hp1, Hp2, Hs, Hm. subst b1 b2.
    inversion Hlo as [|c Hc Heq|e Heq|e Heq].
    1: destruct c as [e|e| | |]; cbn in Heq; try done; injection Heq as <- <-.
    all: try injection Heq as <- <-; subst; cbn [do_access get set shared split_poisoned merge_poisoned SPLIT_EVENTS MERGE_EVENTS
      SPLIT_REQUESTS MERGE_REQUESTS EVICTION_REQUESTS SECOND_CHANCE_PASSES set_splits set_merges] in *;
      (split; cbn [shared threads split_poisoned merge_poisoned SPLIT_EVENTS MERGE_EVENTS SPLIT_REQUESTS MERGE_REQUESTS];
        [apply Forall_insert; [done|first [apply lo_done|apply lo_split|apply lo_merge]]|done| |]; unfold pending in *; cbn [threads split_pending merge_pending] in *;
        rewrite ?length_app, ?u64_succ; cbn [length]; do 2 f_equal; lia).
Qed.

(** ** Properties *)

(** C40. Counters and lists of events agree: without resets, in every interleaving of any number of
    threads, each counter is the number of events in its list and of calls between the two
    accesses, modulo 2^64; when no thread is in a call it is the length of the list. *)
Theorem counters_match_events (n : nat) (s : sys) :
  rtc record_step (initial n) s ->
  split_requests (shared s) = u64 (Z.of_nat (length (split_events (shared s)) + pending split_pending s)) /\
  merge_requests (shared s) = u64 (Z.of_nat (length (merge_events (shared s)) + pending merge_pending s)) /\
  (Forall (fun l => l = []) (threads s) ->
     split_requests (shared s) = u64 (Z.of_nat (length (split_events (shared s)))) /\
     merge_requests (shared s) = u64 (Z.of_nat (length (merge_events (shared s))))).
Proof.
  intros Hr. assert (agrees s) as [_ _ Hs Hm].
  { assert (agrees (initial n)) as H0.
    { split; [apply Forall_replicate, lo_done|done| |]; unfold pending; cbn [initial shared threads fresh SPLIT_REQUESTS SPLIT_EVENTS MERGE_REQUESTS MERGE_EVENTS];
        (replace (sum_list _) with 0%nat; [done|]); (clear; induction n as [|n IH]; [done|exact IH]). }
    induction Hr as [|x y z Hxy _ IH]; [done|]. apply IH. by eapply agrees_step. }
  split_and!; [done|done|]. intros Hidle.
  assert (forall f, f [] = 0%nat -> pending f s = 0%nat) as H0.
  { intros f Hf. unfold pending. induction Hidle as [|l ts -> _ IH]; [done|]. rewrite fmap_cons.
    change (sum_list (?x :: ?l)) with (x + sum_list l)%nat. lia. }
  unfold split_requests, split_events, merge_requests, merge_events. rewrite Hs, Hm, !H0, !Nat.add_0_r by done. done.
Qed.

Definition sample_event : SplitEvent := mkSplitEvent 0 1 [Byte.x61] 2 2.

Lemma counters_match_events_witness :
  exists s, rtc record_step (initial 2) s /\ threads s = [[]; [PushSplit sample_event]] /\ length (split_events (shared s)) = 1%nat /\
    split_requests (shared s) = u64 (Z.of_nat (1 + 1)).
Proof.
  assert (exists s, rtc record_step (initial 2) s /\ threads s = [[]; [PushSplit sample_event]] /\ length (split_events (shared s)) = 1%nat)
    as (s & Hr & Ht & Hl).
  { eexists. split.
    - eapply rtc_l; [apply (rstep_start _ 0 (CSplit sample_event)); [done|reflexivity]|].
      eapply rtc_l; [apply (rstep_access _ 0 (FetchAdd Split) [PushSplit sample_event]); reflexivity|].
      eapply rtc_l; [apply (rstep_start _ 1 (CSplit sample_event)); [done|reflexivity]|].
      eapply rtc_l; [apply (rstep_access _ 1 (FetchAdd Split) [PushSplit sample_event]); reflexivity|].
      eapply rtc_l; [apply (rstep_access _ 0 (PushSplit sample_event) []); reflexivity|]. apply rtc_refl.
    - split; reflexivity. }
  exists s. split_and!; [exact Hr|exact Ht|exact Hl|].
  pose proof (proj1 (counters_match_events 2 s Hr)) as H. rewrite Hl in H. unfold pending in H. rewrite Ht in H. exact H.
Defined.

(** A reset in the middle of a call breaks the match: the counter is set to zero between the
    two accesses, and the event of a call that is no longer counted comes afterwards. *)
Theorem reset_loses_count :
  exists s, rtc step (initial 2) s /\ Forall (fun l => l = []) (threads s) /\
    split_requests (shared s) = 0 /\ split_events (shared s) = [sample_event].
Proof.
  eexists. split.
  - eapply rtc_l; [apply (step_start _ 0 (CSplit sample_event)); reflexivity|].
    eapply rtc_l; [apply (step_access _ 0 (FetchAdd Split) [PushSplit sample_event]); reflexivity|].
    eapply rtc_l; [apply (step_start _ 1 CReset); reflexivity|].
    do 6 (eapply rtc_l; [eapply (step_access _ 1); reflexivity|]).
    eapply rtc_l; [apply (step_access _ 0 (PushSplit sample_event) []); reflexivity|]. apply rtc_refl.
  - split; [|split; reflexivity]. by repeat constructor.
Qed.
