(* ===== verification/Paths.v ===== *)
(** * Where the files of a store are (src/lib.rs: [resolve_data_path], [wal_path_for])

    A path is the list of its components as [Path::components] gives them, each a byte
    string.  [file_name], [extension], [file_stem], [join] and [set_extension] are those of the
    standard library.  Whether a path is a directory is a question to the file system, an
    argument [is_dir]. *)

From S2P Require Import Prelude.

Abbreviation path := (list bytes).

Definition dot : byte := Byte.x2e.
Definition parent_dir : bytes := [dot; dot].
Definition root_dir : bytes := [Byte.x2f].
Definition db_file : bytes := [Byte.x71; Byte.x75; Byte.x69; Byte.x63; Byte.x6b; Byte.x73; Byte.x74; Byte.x65; Byte.x70; dot; Byte.x64; Byte.x62].
Definition wal_ext : bytes := [Byte.x77; Byte.x61; Byte.x6c].

(** ** Paths of the standard library *)

(** The last component, unless it is the root or [..]. *)
Definition file_name (p : path) : option bytes :=
  c ← last p; if decide (c = parent_dir \/ c = root_dir) then None else Some c.

(** Around the last dot. *)
Fixpoint split_last_dot (f : bytes) : option (bytes * bytes) :=
  match f with
  | [] => None
  | b :: f => match split_last_dot f with
              | Some (before, after) => Some (b :: before, after)
              | None => if decide (b = dot) then Some ([], f) else None
              end
  end.

(** [rsplit_file_at_dot]: a name that starts with its only dot has no extension. *)
Definition rsplit_file_at_dot (f : bytes) : option bytes * option bytes :=
  if decide (f = parent_dir) then (Some f, None)
  else match split_last_dot f with
       | None => (None, Some f)
       | Some ([], _) => (Some f, None)
       | Some (before, after) => (Some before, Some after)
       end.

Definition extension (p : path) : option bytes :=
  f ← file_name p; match rsplit_file_at_dot f with (Some _, after) => after | (None, _) => None end.
Definition file_stem (p : path) : option bytes :=
  f ← file_name p; match rsplit_file_at_dot f with (Some before, _) => Some before | (None, after) => after end.

Definition join (p : path) (f : bytes) : path := p ++ [f].
Definition parent (p : path) : path := take (length p - 1) p.

Definition set_extension (p : path) (ext : bytes) : path :=
  match file_stem p with
  | None => p
  | Some stem => parent p ++ [if decide (ext = []) then stem else stem ++ dot :: ext]
  end.

(** ** The two files *)

Definition resolve_data_path (is_dir : path -> bool) (p : path) : path :=
  if is_dir p || bool_decide (extension p = None) then join p db_file else p.

Definition wal_path_for (data_path : path) : path := set_extension data_path wal_ext.

(** ** Facts *)

(** A concrete name without a dot. *)
Ltac no_dot := eapply bool_decide_eq_true_1; vm_compute; reflexivity.

Lemma split_last_dot_app f g : dot ∉ g -> split_last_dot (f ++ dot :: g) = Some (f, g).
Proof.
  intros Hg. assert (split_last_dot g = None) as Hn.
  { clear f. induction g as [|b g IH]; [done|]. cbn. rewrite IH by set_solver. rewrite decide_False; [done|]. set_solver. }
  induction f as [|b f IH]; cbn; [by rewrite Hn, decide_True|]. by rewrite IH.
Qed.

Lemma split_last_dot_inv f before after : split_last_dot f = Some (before, after) -> f = before ++ dot :: after.
Proof.
  revert before; induction f as [|b f IH]; intros before; cbn; [done|].
  destruct (split_last_dot f) as [[x y]|]; [intros [= <- <-]; by rewrite (IH x)|].
  case_decide as Hb; [|done]. intros [= <- <-]. by rewrite Hb.
Qed.

Lemma last_join p f : last (join p f) = Some f.
Proof. apply last_snoc. Qed.

(** A name with an extension. *)
Lemma extension_some p e :
  extension p = Some e ->
  exists stem, stem <> [] /\ last p = Some (stem ++ dot :: e) /\ file_stem p = Some stem /\ p = parent p ++ [stem ++ dot :: e].
Proof.
  unfold extension, file_stem, file_name. destruct (last p) as [f|] eqn:Hl; cbn; [|done]. case_decide as Hf; cbn; [done|].
  unfold rsplit_file_at_dot. rewrite decide_False by tauto. destruct (split_last_dot f) as [[[|b before] after]|] eqn:E; [done| |done].
  intros [= <-]. apply split_last_dot_inv in E as ->. exists (b :: before). split_and!; try done.
  unfold parent. apply last_Some in Hl as [p' ->]. rewrite length_app. cbn [length].
  replace (length p' + 1 - 1)%nat with (length p') by lia. by rewrite take_app_length.
Qed.

Lemma extension_of p stem e :
  stem <> [] -> e <> [] -> dot ∉ e -> extension (p ++ [stem ++ dot :: e]) = Some e /\ file_stem (p ++ [stem ++ dot :: e]) = Some stem.
Proof.
  intros Hs Hne He. unfold extension, file_stem, file_name. rewrite last_snoc. cbn.
  assert (stem ++ dot :: e <> parent_dir) as Hp.
  { intros H. destruct stem as [|b1 stem]; [done|]. destruct stem as [|b2 stem]; injection H as H1 H; [done|].
    by destruct stem. }
  assert (stem ++ dot :: e <> root_dir) as Hr by (intros H; destruct stem as [|b1 [|b2 stem]]; done).
  rewrite decide_False by tauto. cbn. unfold rsplit_file_at_dot. rewrite decide_False by done.
  rewrite split_last_dot_app by done. by destruct stem.
Qed.

Lemma parent_snoc p f : parent (p ++ [f]) = p.
Proof. unfold parent. rewrite length_app. cbn [length]. replace (length p + 1 - 1)%nat with (length p) by lia. by rewrite take_app_length. Qed.

Lemma db_file_name p : join p db_file = p ++ [[Byte.x71; Byte.x75; Byte.x69; Byte.x63; Byte.x6b; Byte.x73; Byte.x74; Byte.x65; Byte.x70] ++ dot :: [Byte.x64; Byte.x62]].
Proof. done. Qed.

(** The data file always has an extension. *)
Lemma data_path_extension is_dir p : exists e, extension (resolve_data_path is_dir p) = Some e.
Proof.
  unfold resolve_data_path. destruct (is_dir p); cbn [orb].
  - eexists. rewrite db_file_name. apply extension_of; [done|done|no_dot].
  - case_bool_decide as H.
    + eexists. rewrite db_file_name. apply extension_of; [done|done|no_dot].
    + destruct (extension p) as [e|] eqn:E; [by exists e|done].
Qed.

(** ** Properties *)

(** The log of a store is next to its data file: same directory, same stem, extension [wal].
    It is another file exactly when the data file does not have that extension itself: a
    store opened as [x.wal] writes its pages and its log into one file. *)
Theorem wal_path_correct (is_dir : path -> bool) (p : path) :
  let data := resolve_data_path is_dir p in
  parent (wal_path_for data) = parent data /\ file_stem (wal_path_for data) = file_stem data /\
  extension (wal_path_for data) = Some wal_ext /\
  (wal_path_for data = data <-> extension data = Some wal_ext).
Proof.
  intros data. destruct (data_path_extension is_dir p) as [e He]. fold data in He.
  destruct (extension_some data e He) as (stem & Hs & _ & Hst & Hd).
  assert (wal_path_for data = parent data ++ [stem ++ dot :: wal_ext]) as Hw by (unfold wal_path_for, set_extension; by rewrite Hst).
  destruct (extension_of (parent data) stem wal_ext Hs) as [E1 E2]; [done|no_dot|].
  rewrite <-Hw in E1, E2. split_and!; [by rewrite Hw, parent_snoc|by rewrite E2, Hst|done|].
  split; [by intros <-|]. rewrite He. intros [= ->]. by rewrite Hw, <-Hd.
Qed.

(** Two data files with one stem have one log: [s/a.db] and [s/a.dat]. *)
Theorem stores_share_log :
  let a ext := [[Byte.x73]; Byte.x61 :: dot :: ext] in
  let db := resolve_data_path (fun _ => false) (a [Byte.x64; Byte.x62]) in
  let dat := resolve_data_path (fun _ => false) (a [Byte.x64; Byte.x61; Byte.x74]) in
  db <> dat /\ wal_path_for db = wal_path_for dat.
Proof. vm_compute. split; [congruence|reflexivity]. Qed.
