(* ===== verification/BTreeMap.v ===== *)
(** * Ordered maps ([std::collections::BTreeMap])

    A map that is iterated in key order, as a strictly sorted association list over a
    key type with a three-way comparison.  The comparison and its laws are the
    interface [OrdKey]; the log uses it with page ids and with byte-string keys. *)

From S2P Require Import Prelude.

Class OrdKey (K : Type) := {
  kcmp : K -> K -> comparison;
  kcmp_eq : forall a b, kcmp a b = Eq <-> a = b;
  kcmp_antisym : forall a b, kcmp b a = CompOpp (kcmp a b);
  kcmp_trans : forall a b c, kcmp a b = Lt -> kcmp b c = Lt -> kcmp a c = Lt }.

#[global] Instance OrdKey_bytes : OrdKey bytes := {|
  kcmp := bytes_cmp; kcmp_eq := bytes_cmp_eq; kcmp_antisym := bytes_cmp_antisym;
  kcmp_trans := bytes_lt_trans |}.

#[global, refine] Instance OrdKey_Z : OrdKey Z := {| kcmp := Z.compare |}.
Proof.
  - intros a b. apply Z.compare_eq_iff.
  - intros a b. apply Z.compare_antisym.
  - intros a b c. rewrite !Z.compare_lt_iff. lia.
Defined.

Section btreemap.
Context {K V : Type} `{!OrdKey K}.
Implicit Types (m : list (K * V)) (k : K) (v : V).

Definition klt (a b : K) : Prop := kcmp a b = Lt.

(** [get] *)
Fixpoint bt_get m k : option V :=
  match m with
  | [] => None
  | (k', v') :: m => match kcmp k k' with Eq => Some v' | Lt => None | Gt => bt_get m k end
  end.

(** [insert], and [entry(k)] with an update of the present value. *)
Fixpoint bt_alter (f : option V -> V) m k : list (K * V) :=
  match m with
  | [] => [(k, f None)]
  | (k', v') :: m' =>
      match kcmp k k' with
      | Lt => (k, f None) :: m
      | Eq => (k, f (Some v')) :: m'
      | Gt => (k', v') :: bt_alter f m' k
      end
  end.

Definition bt_insert m k v : list (K * V) := bt_alter (fun _ => v) m k.

Fixpoint bt_remove m k : list (K * V) :=
  match m with
  | [] => []
  | (k', v') :: m' =>
      match kcmp k k' with Lt => m | Eq => m' | Gt => (k', v') :: bt_remove m' k end
  end.

(** [collect] of an iterator of pairs: later pairs win. *)
Definition bt_collect (l : list (K * V)) : list (K * V) :=
  foldl (fun m '(k, v) => bt_insert m k v) [] l.

Definition bt_sorted m : Prop := StronglySorted klt (fst <$> m).

Lemma klt_irrefl k : ~ klt k k.
Proof. unfold klt. by rewrite (proj2 (kcmp_eq k k) eq_refl). Qed.

Lemma kcmp_refl k : kcmp k k = Eq.
Proof. by apply kcmp_eq. Qed.

Lemma kcmp_gt a b : kcmp a b = Gt <-> klt b a.
Proof. unfold klt. rewrite kcmp_antisym. destruct (kcmp b a); simpl; split; congruence. Qed.

Lemma bt_get_notin m k : (forall k' v, (k', v) ∈ m -> k' <> k) -> bt_get m k = None.
Proof.
  induction m as [|[k' v'] m IH]; intros H; simpl; [done|].
  destruct (kcmp k k') eqn:E; [|done|].
  - apply kcmp_eq in E. subst. exfalso. by apply (H k' v'); [set_solver|].
  - apply IH. intros k2 v2 Hin. apply (H k2 v2). set_solver.
Qed.

Lemma bt_sorted_cons k v m : bt_sorted ((k, v) :: m) <-> Forall (klt k) (fst <$> m) /\ bt_sorted m.
Proof. apply StronglySorted_cons. Qed.

Lemma bt_get_above m k k' : bt_sorted m -> Forall (klt k') (fst <$> m) -> kcmp k k' <> Gt -> bt_get m k = None.
Proof.
  intros Hs Hall Hk. destruct m as [|[k2 v2] m]; simpl; [done|].
  simpl in Hall. apply Forall_cons_iff in Hall as [H2 _].
  assert (kcmp k k2 = Lt) as ->; [|done].
  destruct (kcmp k k') eqn:E; [apply kcmp_eq in E as ->; exact H2| |done].
  by eapply kcmp_trans.
Qed.

(** Maps with the same lookups are the same. *)
Lemma bt_ext m1 m2 : bt_sorted m1 -> bt_sorted m2 -> (forall k, bt_get m1 k = bt_get m2 k) -> m1 = m2.
Proof.
  revert m2; induction m1 as [|[k1 v1] m1 IH]; intros m2 H1 H2 Hk.
  - destruct m2 as [|[k2 v2] m2]; [done|]. specialize (Hk k2). cbn [bt_get] in Hk. by rewrite kcmp_refl in Hk.
  - destruct m2 as [|[k2 v2] m2]; [specialize (Hk k1); cbn [bt_get] in Hk; by rewrite kcmp_refl in Hk|].
    apply bt_sorted_cons in H1 as [A1 S1], H2 as [A2 S2].
    destruct (kcmp k1 k2) eqn:E; cbn [bt_get] in Hk.
    + apply kcmp_eq in E as <-. pose proof (Hk k1) as Hv. rewrite kcmp_refl in Hv. injection Hv as <-. f_equal.
      apply IH; [done..|]. intros k. specialize (Hk k). destruct (kcmp k k1) eqn:Ek; [..|exact Hk];
        by rewrite (bt_get_above m1 k k1), (bt_get_above m2 k k1) by (done || by rewrite Ek).
    + specialize (Hk k1). rewrite kcmp_refl, E in Hk. done.
    + specialize (Hk k2). rewrite kcmp_refl in Hk. rewrite kcmp_antisym, E in Hk. cbn in Hk. done.
Qed.

Lemma bt_alter_keys f m k : forall x, x ∈ (fst <$> bt_alter f m k) <-> x = k \/ x ∈ (fst <$> m).
Proof.
  intros x. induction m as [|[k' v'] m IH]; simpl; [set_solver|].
  destruct (kcmp k k') eqn:E; simpl.
  - apply kcmp_eq in E as ->. set_solver.
  - set_solver.
  - rewrite !elem_of_cons, IH. naive_solver.
Qed.

Lemma bt_alter_sorted f m k : bt_sorted m -> bt_sorted (bt_alter f m k).
Proof.
  induction m as [|[k' v'] m IH]; intros Hs; simpl; [repeat constructor|].
  apply bt_sorted_cons in Hs as [Hall Hs]. destruct (kcmp k k') eqn:E.
  - apply kcmp_eq in E as ->. by apply bt_sorted_cons.
  - apply bt_sorted_cons. split; [|by apply bt_sorted_cons]. simpl. apply Forall_cons_iff. split; [done|].
    eapply Forall_impl; [exact Hall|]. intros x Hx. by eapply kcmp_trans.
  - apply kcmp_gt in E. apply bt_sorted_cons. split; [|by apply IH].
    apply Forall_forall. intros x Hx. apply bt_alter_keys in Hx as [->|Hx]; [done|].
    by apply (proj1 (Forall_forall _ _) Hall).
Qed.

Lemma bt_get_alter_eq f m k : bt_get (bt_alter f m k) k = Some (f (bt_get m k)).
Proof.
  induction m as [|[k2 v2] m IH]; simpl; [by rewrite kcmp_refl|].
  destruct (kcmp k k2) eqn:E; simpl; rewrite ?E, ?kcmp_refl; done.
Qed.

Lemma bt_get_alter f m k k' :
  bt_sorted m ->
  bt_get (bt_alter f m k) k' = match kcmp k k' with Eq => Some (f (bt_get m k)) | _ => bt_get m k' end.
Proof.
  induction m as [|[k2 v2] m IH]; intros Hs; simpl.
  - rewrite (kcmp_antisym k k'). by destruct (kcmp k k').
  - apply bt_sorted_cons in Hs as [Hall Hs]. specialize (IH Hs).
    destruct (kcmp k k2) eqn:E; simpl.
    + apply kcmp_eq in E as ->. rewrite (kcmp_antisym k2 k'). by destruct (kcmp k2 k').
    + rewrite (kcmp_antisym k k'). destruct (kcmp k k') eqn:E'; simpl; [done|done|].
      by rewrite (kcmp_trans k' k k2) by (done || by apply kcmp_gt).
    + rewrite IH. destruct (kcmp k k') eqn:E'; [|done|done].
      apply kcmp_eq in E' as ->. by rewrite E.
Qed.

Lemma bt_remove_sorted m k : bt_sorted m -> bt_sorted (bt_remove m k).
Proof.
  induction m as [|[k' v'] m IH]; intros Hs; simpl; [done|].
  apply bt_sorted_cons in Hs as [Hall Hs]. destruct (kcmp k k'); [done|by apply bt_sorted_cons|].
  apply bt_sorted_cons. split; [|by apply IH].
  apply Forall_forall. intros x Hx. apply (proj1 (Forall_forall _ _) Hall).
  clear -Hx. induction m as [|[k2 v2] m IH]; simpl in *; [done|].
  destruct (kcmp k k2); simpl in *; set_solver.
Qed.

Lemma bt_get_remove m k k' :
  bt_sorted m -> bt_get (bt_remove m k) k' = match kcmp k k' with Eq => None | _ => bt_get m k' end.
Proof.
  induction m as [|[k2 v2] m IH]; intros Hs; simpl.
  - by destruct (kcmp k k').
  - apply bt_sorted_cons in Hs as [Hall Hs]. specialize (IH Hs). destruct (kcmp k k2) eqn:E; simpl.
    + apply kcmp_eq in E as ->. rewrite (kcmp_antisym k2 k'). destruct (kcmp k2 k') eqn:E'; simpl; [|done|].
      * apply (bt_get_above m k' k2); [done|done|]. rewrite kcmp_antisym, E'. done.
      * apply (bt_get_above m k' k2); [done|done|]. rewrite kcmp_antisym, E'. done.
    + destruct (kcmp k k') eqn:E'; [|done|done]. apply kcmp_eq in E' as ->. by rewrite E.
    + rewrite IH. destruct (kcmp k k') eqn:E'; [|done|done]. apply kcmp_eq in E' as ->. by rewrite E.
Qed.

(** Lookup and update where the position of the key is known. *)
Lemma bt_alter_at f m1 m2 k :
  Forall (fun e => klt e.1 k) m1 -> Forall (fun e => klt k e.1) m2 ->
  bt_alter f (m1 ++ m2) k = m1 ++ (k, f None) :: m2.
Proof.
  intros H1 H2. induction H1 as [|[k' v'] m1 Hk' H1 IH]; simpl.
  - destruct H2 as [|[k' v'] m2 Hk' H2]; simpl; [done|]. by rewrite (Hk' : kcmp k k' = Lt).
  - rewrite (proj2 (kcmp_gt k k')) by exact Hk'. by rewrite IH.
Qed.

Lemma bt_alter_found f m1 m2 k v :
  Forall (fun e => klt e.1 k) m1 -> bt_alter f (m1 ++ (k, v) :: m2) k = m1 ++ (k, f (Some v)) :: m2.
Proof.
  intros H1. induction H1 as [|[k' v'] m1 Hk' H1 IH]; simpl; [by rewrite kcmp_refl|].
  rewrite (proj2 (kcmp_gt k k')) by exact Hk'. by rewrite IH.
Qed.

Lemma bt_get_elem m k v : bt_get m k = Some v -> (k, v) ∈ m.
Proof.
  induction m as [|[k' v'] m IH]; cbn [bt_get]; [done|].
  destruct (kcmp k k') eqn:E; [|done|intros H; apply elem_of_cons; right; by apply IH].
  apply kcmp_eq in E as ->. intros [= ->]. apply elem_of_cons. by left.
Qed.

Lemma bt_get_found m1 m2 k v : Forall (fun e => klt e.1 k) m1 -> bt_get (m1 ++ (k, v) :: m2) k = Some v.
Proof.
  intros H1. induction H1 as [|[k' v'] m1 Hk' H1 IH]; simpl; [by rewrite kcmp_refl|].
  by rewrite (proj2 (kcmp_gt k k')) by exact Hk'.
Qed.

(** Writing what is there changes nothing. *)
Lemma bt_insert_same m k v : bt_get m k = Some v -> bt_insert m k v = m.
Proof.
  unfold bt_insert. induction m as [|[k' v'] m IH]; simpl; [done|]. destruct (kcmp k k') eqn:E; [|done|].
  - intros [= ->]. apply kcmp_eq in E as ->. done.
  - intros H. by rewrite IH.
Qed.

Lemma bt_remove_absent m k : bt_get m k = None -> bt_remove m k = m.
Proof.
  induction m as [|[k' v'] m IH]; simpl; [done|]. destruct (kcmp k k'); [done|done|].
  intros H. by rewrite IH.
Qed.

Lemma bt_remove_found m1 m2 k v : Forall (fun e => klt e.1 k) m1 -> bt_remove (m1 ++ (k, v) :: m2) k = m1 ++ m2.
Proof.
  intros H1. induction H1 as [|[k' v'] m1 Hk' H1 IH]; simpl; [by rewrite kcmp_refl|].
  rewrite (proj2 (kcmp_gt k k')) by exact Hk'. by rewrite IH.
Qed.

(** Removing a key that was new restores the map. *)
Lemma bt_remove_alter m k f : bt_sorted m -> bt_get m k = None -> bt_remove (bt_alter f m k) k = m.
Proof.
  intros Hs Hg. pose proof (bt_alter_sorted f m k Hs) as Hs'. apply bt_ext; [by apply bt_remove_sorted|done|]. intros k'.
  rewrite bt_get_remove, bt_get_alter by done. destruct (kcmp k k') eqn:E; [|done..].
  apply kcmp_eq in E as <-. by rewrite Hg.
Qed.
End btreemap.
