(* ===== verification/BPNode.v ===== *)
(** * Inner nodes of the B+ tree (src/btree.rs, [BPNode])

    A node is the [repr(C)] struct of the source: version lock, entry count, allocation
    index, lowest child and a 4072-byte buffer in which four-byte entry descriptors
    grow from the front and keys with their child pointers from the back. *)

From S2P Require Import Prelude Types Utils.

(** [ChildPointer]: a leaf page or an inner node. *)
Inductive ChildPointer := Leaf (page : Z) | Inner (node : Z).

#[global] Instance ChildPointer_eq_dec : EqDecision ChildPointer.
Proof. solve_decision. Defined.

Definition as_leaf {E} (c : ChildPointer) : outcome E Z :=
  match c with Leaf id => Ok id | Inner _ => Halt Panicked end.
Definition as_inner {E} (c : ChildPointer) : outcome E Z :=
  match c with Inner id => Ok id | Leaf _ => Halt Panicked end.

Record BPNode := mkBPNode {
  vlock : Z; count : nat; alloc_idx : nat; lowest : Z; rest : bytes }.

Definition MAX_KEY_LENGTH : nat := 64.
Definition INLINE_BUFFER_LEN : nat := 4072.
Definition LEAF_CHILD_BYTES : nat := 6.

(** [BPKVMeta]: two u16 fields, [size_of::<BPKVMeta>() = 4]. *)
Record BPKVMeta := mkBPKVMeta { start_offset : Z; key_len : Z }.
Definition BPKVMeta_size : nat := 4.

Definition blank : BPNode :=
  mkBPNode 0 0 (INLINE_BUFFER_LEN - 1) u64_max (replicate INLINE_BUFFER_LEN Byte.x00).

(** Raw reads and writes through a pointer into [rest]. *)
Definition get_meta (n : BPNode) (idx : nat) : outcome QSError BPKVMeta :=
  if (BPKVMeta_size * idx + BPKVMeta_size <=? length (rest n))%nat then
    let b := slice (rest n) (BPKVMeta_size * idx) BPKVMeta_size in
    Ok (mkBPKVMeta (le_combine (take 2 b)) (le_combine (drop 2 b)))
  else Halt Undefined.

Definition put_meta (m : BPKVMeta) : stM BPNode QSError unit := fun n =>
  if (BPKVMeta_size * count n + BPKVMeta_size <=? length (rest n))%nat then
    (mkBPNode (vlock n) (count n) (alloc_idx n) (lowest n)
       (splice (rest n) (BPKVMeta_size * count n)
          (le_split 2 (start_offset m) ++ le_split 2 (key_len m))), Ok tt)
  else (n, Halt Undefined).

(** [&self.rest[start..end]], bounds checked. *)
Definition get_key (n : BPNode) (idx : nat) : outcome QSError bytes :=
  meta ← get_meta n idx;
  let start := Z.to_nat (start_offset meta) in
  let len := Z.to_nat (key_len meta) in
  if (start + len <=? length (rest n))%nat then Ok (slice (rest n) start len) else Halt Panicked.

(** [self.rest[off..off + len].copy_from_slice(src)]: panics when the range leaves the
    buffer or when the lengths differ. *)
Definition rest_copy (off len : nat) (src : bytes) : stM BPNode QSError unit := fun n =>
  if (off + len <=? length (rest n))%nat && (length src =? len)%nat then
    (mkBPNode (vlock n) (count n) (alloc_idx n) (lowest n) (splice (rest n) off src), Ok tt)
  else (n, Halt Panicked).

Definition child_at {A} (n : BPNode) (idx size : nat) (extract : bytes -> A) : outcome QSError A :=
  meta ← get_meta n idx;
  let child_offset := (Z.to_nat (start_offset meta) + Z.to_nat (key_len meta))%nat in
  if (child_offset + size <=? length (rest n))%nat then Ok (extract (drop child_offset (rest n)))
  else Halt Undefined.

Definition get_leaf_child (n : BPNode) (idx : nat) : outcome QSError Z := child_at n idx 6 extract_u48.
Definition get_inner_child (n : BPNode) (idx : nat) : outcome QSError Z := child_at n idx 4 extract_u32.

Definition lowest_child_for_level (n : BPNode) (level : Z) : ChildPointer :=
  match level with 1 => Leaf (lowest n) | _ => Inner (u32 (lowest n)) end.

Definition get_child_for_level (n : BPNode) (idx : nat) (level : Z) : outcome QSError ChildPointer :=
  match level with
  | 1 => c ← get_leaf_child n idx; Ok (Leaf c)
  | _ => c ← get_inner_child n idx; Ok (Inner c)
  end.

(** [self.alloc_idx as usize - kv_meta_size + 1] *)
Definition space_left (n : BPNode) : outcome QSError nat :=
  let kv_meta_size := (BPKVMeta_size * count n)%nat in
  d ← usub (alloc_idx n) kv_meta_size; Ok (d + 1)%nat.

Definition can_overflow (n : BPNode) (level : Z) : outcome QSError bool :=
  let child_size := match level with 1 => LEAF_CHILD_BYTES | _ => 4%nat end in
  s ← space_left n; Ok (s <? BPKVMeta_size + MAX_KEY_LENGTH + child_size)%nat.

Definition will_underflow (n : BPNode) : outcome QSError bool :=
  s ← space_left n; Ok (s <=? INLINE_BUFFER_LEN / 2)%nat.

Definition reset_leaf_parent (lowest_child : Z) : stM BPNode QSError unit := fun n =>
  (mkBPNode (vlock n) 0 (INLINE_BUFFER_LEN - 1) lowest_child (rest n), Ok tt).
Definition reset_inner_parent (lowest_child : Z) : stM BPNode QSError unit := fun n =>
  (mkBPNode (vlock n) 0 (INLINE_BUFFER_LEN - 1) lowest_child (rest n), Ok tt).

(** [self.alloc_idx = self.alloc_idx.checked_sub(needed).ok_or(err)?] *)
Definition bump_alloc (needed : nat) (err : QSError) : stM BPNode QSError unit := fun n =>
  if (needed <=? alloc_idx n)%nat then
    (mkBPNode (vlock n) (count n) (alloc_idx n - needed) (lowest n) (rest n), Ok tt)
  else (n, Err err).

Definition set_count (c : nat) : stM BPNode QSError unit := fun n =>
  (mkBPNode (vlock n) c (alloc_idx n) (lowest n) (rest n), Ok tt).

Definition append_leaf_entry (key : bytes) (child : Z) : stM BPNode QSError unit :=
  if (MAX_KEY_LENGTH <? length key)%nat then liftS (Err KeyTooLarge) else
  let needed := (length key + LEAF_CHILD_BYTES)%nat in
  let meta_cost := BPKVMeta_size in
  n ← getS;
  space ← liftS (space_left n);
  if (space <? needed + meta_cost)%nat then liftS (Err NodeFull) else
  _ ← bump_alloc needed NodeFull;
  n ← getS;
  let key_start := (alloc_idx n + 1)%nat in
  let child_start := (key_start + length key)%nat in
  _ ← rest_copy key_start (length key) key;
  let child_bytes := store_u48 child in
  _ ← rest_copy child_start LEAF_CHILD_BYTES child_bytes;
  _ ← put_meta (mkBPKVMeta (u16 (Z.of_nat key_start)) (u16 (Z.of_nat (length key))));
  n ← getS;
  set_count (count n + 1).

Definition append_inner_entry (key : bytes) (child : Z) : stM BPNode QSError unit :=
  if (MAX_KEY_LENGTH <? length key)%nat then liftS (Err KeyTooLarge) else
  let needed := (length key + 4)%nat in
  let meta_cost := BPKVMeta_size in
  n ← getS;
  space ← liftS (space_left n);
  if (space <? needed + meta_cost)%nat then liftS (Err NodeFull) else
  _ ← bump_alloc needed NodeFull;
  n ← getS;
  let key_start := (alloc_idx n + 1)%nat in
  let child_start := (key_start + length key)%nat in
  _ ← rest_copy key_start (length key) key;
  let child_bytes := store_u32 child in
  _ ← rest_copy child_start 4 child_bytes;
  _ ← put_meta (mkBPKVMeta (u16 (Z.of_nat key_start)) (u16 (Z.of_nat (length key))));
  n ← getS;
  set_count (count n + 1).

Definition append_entry_for_level (level : Z) (key : bytes) (child : ChildPointer)
    : stM BPNode QSError unit :=
  match level with
  | 1 => c ← liftS (as_leaf child); append_leaf_entry key c
  | _ => c ← liftS (as_inner child); append_inner_entry key c
  end.

Definition reset_for_level (level : Z) (lowest_child : ChildPointer) : stM BPNode QSError unit :=
  match level with
  | 1 => c ← liftS (as_leaf lowest_child); reset_leaf_parent c
  | _ => c ← liftS (as_inner lowest_child); reset_inner_parent c
  end.

(** The loop [for idx in 0..self.count] that decodes every entry. *)
Definition collect_entries (n : BPNode) (level : Z) : outcome QSError (list (bytes * ChildPointer)) :=
  mapM (fun idx => key ← get_key n idx; child ← get_child_for_level n idx level; Ok (key, child))
    (seq 0 (count n)).

(** [entries.iter().position(|(_, child)| *child == c)] *)
Definition position_of (c : ChildPointer) (cs : list ChildPointer) : option nat :=
  fst <$> list_find (fun c' => c' = c) cs.

Definition find_insert_idx (lowest_child left_child : ChildPointer)
    (entries : list (bytes * ChildPointer)) : outcome QSError nat :=
  if decide (left_child = lowest_child) then Ok 0%nat
  else ok_or ParentChildMissing (S <$> position_of left_child (snd <$> entries)).

Definition append_all (level : Z) (es : list (bytes * ChildPointer)) : stM BPNode QSError unit :=
  forM_ (fun e => append_entry_for_level level (fst e) (snd e)) es.

Definition insert_entry_after_child (level : Z) (left_child : ChildPointer) (pivot_key : bytes)
    (right_child : ChildPointer) : stM BPNode QSError unit :=
  n ← getS;
  let lowest_child := lowest_child_for_level n level in
  entries ← liftS (collect_entries n level);
  insert_idx ← liftS (find_insert_idx lowest_child left_child entries);
  let entries := vec_insert insert_idx (pivot_key, right_child) entries in
  _ ← reset_for_level level lowest_child;
  append_all level entries.

Definition insert_leaf_entry_after_child (left_child : Z) (pivot_key : bytes) (right_child : Z)
    : stM BPNode QSError unit :=
  insert_entry_after_child 1 (Leaf left_child) pivot_key (Leaf right_child).

Definition remove_entry_for_merge (level : Z) (survivor removed : ChildPointer)
    : stM BPNode QSError (option ChildPointer) :=
  n ← getS;
  entries ← liftS (collect_entries n level);
  let children := lowest_child_for_level n level :: (snd <$> entries) in
  let pivots := fst <$> entries in
  survivor_idx ← liftS (ok_or ParentChildMissing (position_of survivor children));
  removed_idx ← liftS (ok_or ParentChildMissing (position_of removed children));
  if negb (removed_idx =? survivor_idx + 1)%nat then liftS (Err ParentChildMissing) else
  let children := vec_remove removed_idx children in
  let pivots := vec_remove (removed_idx - 1) pivots in
  new_lowest ← liftS (expect (head children));
  _ ← reset_for_level level new_lowest;
  _ ← append_all level (zip pivots (tail children));
  mret (match pivots with [] => Some new_lowest | _ :: _ => None end).

Definition init_leaf_parent (left_child right_child : Z) (pivot_key : bytes) : stM BPNode QSError unit :=
  if (MAX_KEY_LENGTH <? length pivot_key)%nat then liftS (Err KeyTooLarge) else
  _ ← reset_leaf_parent left_child;
  let total := (length pivot_key + LEAF_CHILD_BYTES)%nat in
  if (INLINE_BUFFER_LEN <? total + BPKVMeta_size)%nat then liftS (Err KeyTooLarge) else
  _ ← bump_alloc total KeyTooLarge;
  n ← getS;
  let key_start := (alloc_idx n + 1)%nat in
  let child_start := (key_start + length pivot_key)%nat in
  _ ← rest_copy key_start (length pivot_key) pivot_key;
  let child_bytes := store_u48 right_child in
  _ ← rest_copy child_start LEAF_CHILD_BYTES child_bytes;
  _ ← put_meta (mkBPKVMeta (u16 (Z.of_nat key_start)) (u16 (Z.of_nat (length pivot_key))));
  set_count 1.

(** The loop of [binary_search]; [fuel] bounds the iterations. *)
Fixpoint binary_search_loop (fuel : nat) (n : BPNode) (key : bytes) (low high : nat)
    : outcome QSError nat :=
  if (low <? high)%nat then
    match fuel with
    | O => Halt Undefined
    | S fuel =>
        let mid := (low + (high - low) / 2)%nat in
        mid_key ← get_key n mid;
        if bytes_leb mid_key key then binary_search_loop fuel n key (mid + 1) high
        else binary_search_loop fuel n key low mid
    end
  else Ok low.

(** [low.saturating_sub(1)]; [count] iterations are enough. *)
Definition binary_search (n : BPNode) (key : bytes) : outcome QSError nat :=
  low ← binary_search_loop (count n) n key 0 (count n); Ok (low - 1)%nat.

Definition search_for_inner (n : BPNode) (key : bytes) : outcome QSError Z :=
  idx ← binary_search n key;
  pivot_key ← get_key n idx;
  if bytes_ltb key pivot_key then Ok (u32 (lowest n)) else child_at n idx 4 extract_u32.

Definition search_for_leaf (n : BPNode) (key : bytes) : outcome QSError Z :=
  idx ← binary_search n key;
  pivot_key ← get_key n idx;
  if bytes_ltb key pivot_key then Ok (lowest n) else child_at n idx 6 extract_u48.

(** * What a leaf parent holds

    [repr n low es]: the buffer of [n] encodes the entries [es] (pivot and child page)
    in order, with [low] as lowest child. *)

Definition entry_cost (e : bytes * Z) : nat := (length (fst e) + LEAF_CHILD_BYTES)%nat.
Definition payload (es : list (bytes * Z)) : nat := sum_list (entry_cost <$> es).

(** Bytes of the buffer a list of entries takes, descriptors included. *)
Definition footprint (es : list (bytes * Z)) : nat := (payload es + BPKVMeta_size * length es)%nat.

Definition entry_ok (e : bytes * Z) : Prop := (length (fst e) <= MAX_KEY_LENGTH)%nat /\ 0 <= snd e < 2 ^ 48.

Record entry_at (r : bytes) (alloc i : nat) (e : bytes * Z) (off : nat) : Prop := {
  ea_meta : slice r (BPKVMeta_size * i) BPKVMeta_size =
      le_split 2 (Z.of_nat off) ++ le_split 2 (Z.of_nat (length (fst e)));
  ea_low : (alloc + 1 <= off)%nat;
  ea_high : (off + entry_cost e <= INLINE_BUFFER_LEN)%nat;
  ea_key : slice r off (length (fst e)) = fst e;
  ea_child : slice r (off + length (fst e)) LEAF_CHILD_BYTES = store_u48 (snd e) }.

Record repr (n : BPNode) (low : Z) (es : list (bytes * Z)) : Prop := {
  repr_len : length (rest n) = INLINE_BUFFER_LEN;
  repr_count : count n = length es;
  repr_alloc : (alloc_idx n + 1 + payload es = INLINE_BUFFER_LEN)%nat;
  repr_room : (BPKVMeta_size * length es <= alloc_idx n + 1)%nat;
  repr_low : lowest n = low;
  repr_ok : Forall entry_ok es;
  repr_at : forall i e, es !! i = Some e -> exists off, entry_at (rest n) (alloc_idx n) i e off }.

(** The same entries with child pointers, as the decoding loops return them. *)
Definition leaf_entries (es : list (bytes * Z)) : list (bytes * ChildPointer) :=
  (fun e => (fst e, Leaf (snd e))) <$> es.

Ltac unf := unfold entry_cost, in_range in *; unfold BPKVMeta_size, LEAF_CHILD_BYTES, INLINE_BUFFER_LEN, MAX_KEY_LENGTH in *.

Lemma payload_app es es' : payload (es ++ es') = (payload es + payload es')%nat.
Proof. unfold payload. by rewrite fmap_app, sum_list_with_app || rewrite fmap_app, sum_list_app. Qed.

Lemma payload_one e : payload [e] = entry_cost e.
Proof. unfold payload. simpl. lia. Qed.

Lemma footprint_snoc es e :
  footprint (es ++ [e]) = (footprint es + entry_cost e + BPKVMeta_size)%nat.
Proof. unfold footprint. rewrite payload_app, payload_one, length_app. unf. simpl. lia. Qed.

Section decode.
Context (n : BPNode) (low : Z) (es : list (bytes * Z)) (Hr : repr n low es).
Context (i : nat) (e : bytes * Z) (Hi : es !! i = Some e).

Lemma entry_meta :
  exists off, entry_at (rest n) (alloc_idx n) i e off /\
    get_meta n i = Ok (mkBPKVMeta (Z.of_nat off) (Z.of_nat (length (fst e)))).
Proof.
  destruct Hr as [Hlen Hc Ha Hroom _ Hok Hat]. destruct (Hat i e Hi) as [off Ho]. exists off. split; [done|].
  pose proof (lookup_lt_Some _ _ _ Hi). destruct Ho as [Hm Hl Hh _ _]. unfold get_meta.
  rewrite (proj2 (Nat.leb_le _ _)) by (unf; lia). do 2 f_equal; rewrite Hm.
  - rewrite take_app_length' by done. rewrite le_combine_split. apply Z.mod_small. unf; simpl; lia.
  - rewrite drop_app_length' by done. rewrite le_combine_split. apply Z.mod_small. unf; simpl; lia.
Qed.

Lemma repr_get_key : get_key n i = Ok (fst e).
Proof.
  destruct entry_meta as (off & [_ _ Hh Hk _] & Hm). unfold get_key. rewrite Hm. simpl.
  rewrite !Nat2Z.id, (repr_len _ _ _ Hr). unf.
  rewrite (proj2 (Nat.leb_le _ _)) by lia. by rewrite Hk.
Qed.

Lemma repr_get_child : get_leaf_child n i = Ok (snd e).
Proof.
  destruct entry_meta as (off & [_ _ Hh _ Hch] & Hm). unfold get_leaf_child, child_at. rewrite Hm. simpl.
  rewrite !Nat2Z.id, (repr_len _ _ _ Hr). unf.
  rewrite (proj2 (Nat.leb_le _ _)) by lia. f_equal.
  unfold slice in Hch. rewrite <-(take_drop 6 (drop (off + length (fst e)) (rest n))), Hch.
  apply extract_store_u48. pose proof (repr_ok _ _ _ Hr) as Hok.
  rewrite Forall_lookup in Hok. by apply (Hok i e).
Qed.
End decode.

Lemma collect_entries_repr n low es : repr n low es -> collect_entries n 1 = Ok (leaf_entries es).
Proof.
  intros Hr. unfold collect_entries. rewrite (repr_count _ _ _ Hr).
  rewrite (mapM_ok _ (fun i => default ([], Leaf 0) (leaf_entries es !! i))).
  - f_equal. assert (length es = length (leaf_entries es)) as -> by (unfold leaf_entries; by rewrite length_fmap). apply fmap_lookup_seq.
  - intros i [_ Hi]%elem_of_seq. destruct (lookup_lt_is_Some_2 es i) as [e He]; [lia|].
    rewrite (repr_get_key _ _ _ Hr _ _ He). simpl. rewrite (repr_get_child _ _ _ Hr _ _ He). simpl.
    unfold leaf_entries. by rewrite list_lookup_fmap, He.
Qed.

(** ** Appending an entry *)

Lemma space_left_repr n low es :
  repr n low es -> (footprint es < INLINE_BUFFER_LEN)%nat ->
  space_left n = Ok (INLINE_BUFFER_LEN - footprint es)%nat.
Proof.
  intros [_ Hc Ha Hroom _ _ _] Hf. unfold space_left, usub, footprint in *. rewrite Hc. unf.
  rewrite (proj2 (Nat.leb_le _ _)) by lia. simpl. f_equal. lia.
Qed.

Lemma space_left_full n low es :
  repr n low es -> footprint es = INLINE_BUFFER_LEN -> space_left n = Halt Panicked.
Proof.
  intros [_ Hc Ha Hroom _ _ _] Hf. unfold space_left, usub, footprint in *. rewrite Hc. unf.
  by rewrite (proj2 (Nat.leb_gt _ _)) by lia.
Qed.

Lemma footprint_le n low es : repr n low es -> (footprint es <= INLINE_BUFFER_LEN)%nat.
Proof. intros [_ Hc Ha Hroom _ _ _]. unfold footprint in *. unf. lia. Qed.

(** The buffer after one append at [start]. *)
Definition appended (r : bytes) (start c : nat) (e : bytes * Z) : bytes :=
  splice (splice (splice r start (fst e)) (start + length (fst e)) (store_u48 (snd e)))
    (BPKVMeta_size * c) (le_split 2 (Z.of_nat start) ++ le_split 2 (Z.of_nat (length (fst e)))).

Section appended.
Context (r : bytes) (start c : nat) (e : bytes * Z).
Context (Hlen : length r = INLINE_BUFFER_LEN).
Context (Hs : (BPKVMeta_size * (c + 1) <= start)%nat) (He : (start + entry_cost e <= INLINE_BUFFER_LEN)%nat).

Lemma length_meta_bytes a b : length (le_split 2 a ++ le_split 2 b) = 4%nat.
Proof. by rewrite length_app, !length_le_split. Qed.

Lemma length_appended : length (appended r start c e) = INLINE_BUFFER_LEN.
Proof.
  unfold appended. unf.
  rewrite !length_splice; unf; rewrite ?length_splice, ?length_store_u48, ?length_meta_bytes; unf;
    rewrite ?length_splice, ?length_store_u48; unf; lia.
Qed.

Ltac len_side := unf; rewrite ?length_splice, ?length_store_u48, ?length_meta_bytes; unf;
    rewrite ?length_splice, ?length_store_u48, ?length_meta_bytes; unf; lia.

Lemma appended_frame o l :
  (o + l <= BPKVMeta_size * c \/ start + entry_cost e <= o)%nat ->
  slice (appended r start c e) o l = slice r o l.
Proof.
  intros Ho. unfold appended.
  rewrite slice_splice_ne by len_side. rewrite slice_splice_ne by len_side.
  rewrite slice_splice_ne by len_side. done.
Qed.

Lemma appended_entry : entry_at (appended r start c e) (start - 1) c e start.
Proof.
  unfold appended. split.
  - replace BPKVMeta_size with (length (le_split 2 (Z.of_nat start) ++ le_split 2 (Z.of_nat (length e.1)))) at 3
      by apply length_meta_bytes.
    apply slice_splice_same. len_side.
  - unf. lia.
  - done.
  - rewrite slice_splice_ne by len_side. rewrite slice_splice_ne by len_side.
    apply slice_splice_same. len_side.
  - rewrite slice_splice_ne by len_side.
    replace LEAF_CHILD_BYTES with (length (store_u48 e.2)) by (by rewrite length_store_u48).
    apply slice_splice_same. len_side.
Qed.
End appended.

Lemma append_leaf_entry_ok n low es e :
  repr n low es -> entry_ok e -> (footprint (es ++ [e]) <= INLINE_BUFFER_LEN)%nat ->
  exists n', append_leaf_entry (fst e) (snd e) n = (n', Ok tt) /\ repr n' low (es ++ [e]) /\
    vlock n' = vlock n.
Proof.
  intros Hr Hok Hf. rewrite footprint_snoc in Hf.
  pose proof (space_left_repr n low es Hr ltac:(unf; lia)) as Hsp.
  pose proof Hr as [Hlen Hc Ha Hroom Hlow Hoks Hat].
  unfold footprint in Hf. destruct Hok as [Hkl Hch].
  set (start := (alloc_idx n - entry_cost e + 1)%nat).
  assert (alloc_idx n - entry_cost e + 1 = start)%nat as Hst by done.
  exists (mkBPNode (vlock n) (count n + 1) (start - 1) low (appended (rest n) start (count n) e)).
  split; [|split; [|done]].
  - unfold append_leaf_entry. rewrite (proj2 (Nat.ltb_ge _ _)) by (unf; lia).
    unfold getS, liftS, mbind, stM_bind. rewrite Hsp.
    rewrite (proj2 (Nat.ltb_ge _ _)) by (unfold footprint; unf; lia).
    unfold bump_alloc. rewrite (proj2 (Nat.leb_le _ _)) by (unf; lia).
    fold (entry_cost e). simpl. rewrite Hst. unfold rest_copy. simpl.
    rewrite (proj2 (Nat.leb_le _ _)) by (unf; lia). rewrite Nat.eqb_refl. simpl.
    rewrite length_splice by (unf; lia). rewrite ?length_store_u48, ?andb_true_r.
    rewrite (proj2 (Nat.leb_le _ _)) by (unf; lia). simpl.
    unfold put_meta. simpl. rewrite !length_splice; [|unf; lia| unf; rewrite length_splice; rewrite ?length_store_u48; unf; lia].
    rewrite (proj2 (Nat.leb_le _ _)) by (unf; lia). simpl. unfold set_count. simpl.
    unfold appended, u16. do 2 f_equal; [unf; lia|done|].
    rewrite !Z.mod_small by (unf; lia). done.
  - split; simpl.
    + apply length_appended; unf; lia.
    + rewrite length_app. simpl. lia.
    + rewrite payload_app, payload_one. unf. lia.
    + rewrite length_app. unf. simpl. lia.
    + done.
    + apply Forall_app. split; [done|]. apply Forall_singleton. by split.
    + intros i e' Hi. apply lookup_app_Some in Hi as [Hi|[Hge Hi]].
      * destruct (Hat i e' Hi) as [off [Hm Hl Hh Hk Hcd]]. pose proof (lookup_lt_Some _ _ _ Hi).
        exists off. split; [|unf; lia|done| |];
          rewrite appended_frame by (unf; lia); done.
      * apply list_lookup_singleton_Some in Hi as [Hz <-].
        exists start. replace i with (count n) by lia. apply appended_entry; unf; lia.
Qed.

Lemma append_leaf_entry_full n low es e :
  repr n low es -> entry_ok e -> (footprint es < INLINE_BUFFER_LEN)%nat ->
  (INLINE_BUFFER_LEN < footprint (es ++ [e]))%nat ->
  append_leaf_entry (fst e) (snd e) n = (n, Err NodeFull).
Proof.
  intros Hr [Hkl _] Hlt Hf. rewrite footprint_snoc in Hf.
  unfold append_leaf_entry. rewrite (proj2 (Nat.ltb_ge _ _)) by (unf; lia).
  unfold getS, liftS, mbind, stM_bind. rewrite (space_left_repr n low es) by done.
  by rewrite (proj2 (Nat.ltb_lt _ _)) by (unf; lia).
Qed.

(** ** Rebuilding a node *)

Lemma leaf_entries_cons e es : leaf_entries (e :: es) = (fst e, Leaf (snd e)) :: leaf_entries es.
Proof. done. Qed.

Lemma leaf_entries_app es es' : leaf_entries (es ++ es') = leaf_entries es ++ leaf_entries es'.
Proof. apply fmap_app. Qed.

Lemma footprint_app es es' : footprint (es ++ es') = (footprint es + footprint es')%nat.
Proof. unfold footprint. rewrite payload_app, length_app. lia. Qed.

Lemma append_all_ok n low es0 es :
  repr n low es0 -> Forall entry_ok es -> (footprint (es0 ++ es) <= INLINE_BUFFER_LEN)%nat ->
  exists n', append_all 1 (leaf_entries es) n = (n', Ok tt) /\ repr n' low (es0 ++ es) /\
    vlock n' = vlock n.
Proof.
  revert n es0; induction es as [|e es IH]; intros n es0 Hr Hok Hf.
  - exists n. by rewrite app_nil_r.
  - apply Forall_cons_iff in Hok as [He Hok].
    rewrite cons_middle, (assoc_L (++)) in Hf.
    destruct (append_leaf_entry_ok n low es0 e) as (n1 & E1 & R1 & V1); [done|done| |].
    { rewrite footprint_app in Hf. lia. }
    destruct (IH n1 (es0 ++ [e]) R1 Hok Hf) as (n2 & E2 & R2 & V2).
    exists n2. rewrite <-(assoc_L (++)) in R2. split; [|split; [done|congruence]].
    rewrite leaf_entries_cons. unfold append_all. rewrite forM_cons.
    rewrite (bindS_ok _ _ n n1 tt) by exact E1. exact E2.
Qed.

(** The first entry that does not fit stops the loop with [NodeFull]; the entries
    before it have been written, it and the rest have not. *)
Lemma append_all_full n low es0 es e es' :
  repr n low es0 -> Forall entry_ok (es ++ [e]) ->
  (footprint (es0 ++ es) < INLINE_BUFFER_LEN < footprint (es0 ++ es ++ [e]))%nat ->
  exists n', append_all 1 (leaf_entries (es ++ e :: es')) n = (n', Err NodeFull) /\
    repr n' low (es0 ++ es) /\ vlock n' = vlock n.
Proof.
  intros Hr Hall [Hlt Hf]. apply Forall_app in Hall as [Hok He]. rewrite Forall_singleton in He.
  destruct (append_all_ok n low es0 es) as (n1 & E1 & R1 & V1); [done|done|lia|].
  exists n1. split; [|done]. rewrite leaf_entries_app. unfold append_all. rewrite forM_app.
  rewrite (bindS_ok _ _ n n1 tt) by exact E1.
  rewrite leaf_entries_cons. simpl forM_. apply bindS_err.
  apply (append_leaf_entry_full n1 low (es0 ++ es) e R1 He Hlt).
  by rewrite <-(assoc_L (++)).
Qed.

Lemma reset_repr n low es low' :
  repr n low es ->
  exists n', reset_for_level 1 (Leaf low') n = (n', Ok tt) /\ repr n' low' [] /\ vlock n' = vlock n.
Proof.
  intros [Hlen _ _ _ _ _ _]. eexists. split; [reflexivity|]. split; [|done].
  split; simpl; try done; unfold payload; unf; simpl; lia.
Qed.

(** ** The abstract leaf parent

    What the tree promises of an inner node: [route] gives the child responsible for
    a key, [insert_after] records a split, [remove_after] a merge. *)

Fixpoint route (low : Z) (es : list (bytes * Z)) (key : bytes) : Z :=
  match es with
  | [] => low
  | (k, c) :: es => if bytes_leb k key then route c es key else low
  end.

Definition index_of (c : Z) (cs : list Z) : option nat := fst <$> list_find (fun c' => c' = c) cs.

Definition insert_after (low left : Z) (e : bytes * Z) (es : list (bytes * Z)) : option (list (bytes * Z)) :=
  if decide (left = low) then Some (e :: es)
  else i ← index_of left (snd <$> es); Some (vec_insert (S i) e es).

Definition pivots_sorted (es : list (bytes * Z)) : Prop := StronglySorted bytes_lt (fst <$> es).

Lemma position_of_leaf c es :
  position_of (Leaf c) (snd <$> leaf_entries es) = index_of c (snd <$> es).
Proof.
  unfold position_of, index_of, leaf_entries. rewrite <-!list_fmap_compose.
  induction es as [|[k d] es IH]; [done|]. simpl. 
  destruct (decide (d = c)) as [->|Hne].
  - rewrite !decide_True by done. done.
  - rewrite !decide_False by congruence. 
    destruct (list_find (fun c' => c' = Leaf c) _) as [[? ?]|], (list_find (fun c' => c' = c) _) as [[? ?]|];
      simpl in *; by simplify_eq/=.
Qed.

Lemma leaf_entries_insert i e es :
  vec_insert i (fst e, Leaf (snd e)) (leaf_entries es) = leaf_entries (vec_insert i e es).
Proof. unfold vec_insert, leaf_entries. by rewrite fmap_app, fmap_cons, fmap_take, fmap_drop. Qed.

Lemma find_insert_idx_leaf low left e es :
  find_insert_idx (Leaf low) (Leaf left) (leaf_entries es) ≫=
    (fun i => Ok (vec_insert i (fst e, Leaf (snd e)) (leaf_entries es))) =
  ok_or ParentChildMissing (leaf_entries <$> insert_after low left e es).
Proof.
  unfold find_insert_idx, insert_after. destruct (decide (left = low)) as [->|Hne].
  - rewrite decide_True by done. done.
  - rewrite decide_False by congruence. rewrite position_of_leaf.
    destruct (index_of left (snd <$> es)); simpl; [|done]. by rewrite leaf_entries_insert.
Qed.

Lemma Forall_vec_insert {A} (P : A -> Prop) i x l : P x -> Forall P l -> Forall P (vec_insert i x l).
Proof.
  intros. unfold vec_insert. apply Forall_app. split; [by apply Forall_take|].
  apply Forall_cons_iff. split; [done|by apply Forall_drop].
Qed.

Lemma insert_after_ok low left e es es' :
  insert_after low left e es = Some es' -> entry_ok e -> Forall entry_ok es -> Forall entry_ok es'.
Proof.
  unfold insert_after. case_decide.
  - intros [= <-]. by constructor.
  - destruct (index_of _ _); [|done]. intros [= <-] ? ?. by apply Forall_vec_insert.
Qed.

(** What [insert_entry_after_child] does once the entries are decoded. *)
Lemma insert_after_child_unfold n low es left p right :
  repr n low es ->
  insert_entry_after_child 1 (Leaf left) p (Leaf right) n =
    match insert_after low left (p, right) es with
    | Some es' => (_ ← reset_for_level 1 (Leaf low); append_all 1 (leaf_entries es')) n
    | None => (n, Err ParentChildMissing)
    end.
Proof.
  intros Hr. unfold insert_entry_after_child.
  run_pure n n.
  rewrite (bindS_ok _ _ n n (leaf_entries es)).
  2: { unfold liftS. by rewrite (collect_entries_repr n low es Hr). }
  pose proof (find_insert_idx_leaf low left (p, right) es) as Hf. simpl in Hf.
  unfold lowest_child_for_level. rewrite (repr_low _ _ _ Hr).
  destruct (find_insert_idx (Leaf low) (Leaf left) (leaf_entries es)) as [i|err|h] eqn:Ei;
    destruct (insert_after low left (p, right) es) as [es'|]; simpl in Hf; try done; simplify_eq.
  - run_pure n i. by rewrite Hf.
  - by rewrite (bindS_err _ _ n n ParentChildMissing).
Qed.

Section insert_child.
Context (n : BPNode) (low : Z) (es : list (bytes * Z)) (Hr : repr n low es).
Context (left right : Z) (p : bytes) (He : entry_ok (p, right)).

Lemma insert_child_ok es' :
  insert_after low left (p, right) es = Some es' -> (footprint es' <= INLINE_BUFFER_LEN)%nat ->
  exists n', insert_entry_after_child 1 (Leaf left) p (Leaf right) n = (n', Ok tt) /\
    repr n' low es' /\ vlock n' = vlock n.
Proof.
  intros Hi Hf. destruct (reset_repr n low es low Hr) as (n1 & E1 & R1 & V1).
  destruct (append_all_ok n1 low [] es' R1) as (n2 & E2 & R2 & V2); [|done|].
  { eapply insert_after_ok; [done|done|]. apply Hr. }
  exists n2. split; [|split; [done|congruence]].
  rewrite (insert_after_child_unfold n low es) by done. rewrite Hi.
  by rewrite (bindS_ok _ _ n n1 tt).
Qed.

Lemma insert_child_missing :
  insert_after low left (p, right) es = None ->
  insert_entry_after_child 1 (Leaf left) p (Leaf right) n = (n, Err ParentChildMissing).
Proof. intros Hi. rewrite (insert_after_child_unfold n low es) by done. by rewrite Hi. Qed.

Lemma insert_child_full es1 e es2 :
  insert_after low left (p, right) es = Some (es1 ++ e :: es2) ->
  (footprint es1 < INLINE_BUFFER_LEN < footprint (es1 ++ [e]))%nat ->
  exists n', insert_entry_after_child 1 (Leaf left) p (Leaf right) n = (n', Err NodeFull) /\
    repr n' low es1 /\ vlock n' = vlock n.
Proof.
  intros Hi Hf. destruct (reset_repr n low es low Hr) as (n1 & E1 & R1 & V1).
  destruct (append_all_full n1 low [] es1 e es2 R1) as (n2 & E2 & R2 & V2); [|done|].
  { pose proof (insert_after_ok _ _ _ _ _ Hi He (repr_ok _ _ _ Hr)) as Hall.
    rewrite cons_middle, (assoc_L (++)) in Hall. by apply Forall_app in Hall as [? _]. }
  exists n2. split; [|split; [done|congruence]].
  rewrite (insert_after_child_unfold n low es) by done. rewrite Hi.
  by rewrite (bindS_ok _ _ n n1 tt).
Qed.
End insert_child.

(** ** Routing a key *)

Lemma pivot_search_loop_spec n low es key fuel lo hi :
  repr n low es -> pivots_sorted es -> (lo <= hi <= length es)%nat -> (hi - lo <= fuel)%nat ->
  (forall i e, es !! i = Some e -> (i < lo)%nat -> bytes_le (fst e) key) ->
  (forall i e, es !! i = Some e -> (hi <= i)%nat -> bytes_lt key (fst e)) ->
  exists r, binary_search_loop fuel n key lo hi = Ok r /\ (r <= length es)%nat /\
    (forall i e, es !! i = Some e -> (i < r)%nat -> bytes_le (fst e) key) /\
    (forall i e, es !! i = Some e -> (r <= i)%nat -> bytes_lt key (fst e)).
Proof.
  intros Hr Hs. revert lo hi. induction fuel as [|fuel IH]; intros lo hi Hb Hfu Hlo Hhi; cbn [binary_search_loop].
  { rewrite (proj2 (Nat.ltb_ge lo hi)) by lia. exists lo. split; [done|]. split; [lia|]. split; [done|].
    intros i e Hi Hge. apply (Hhi i e Hi). lia. }
  destruct (Nat.ltb_spec lo hi) as [Hlt|Hge].
  2: { exists lo. split; [done|]. split; [lia|]. split; [done|]. intros i e Hi Hge'. apply (Hhi i e Hi). lia. }
  cbv zeta. set (mid := (lo + (hi - lo) / 2)%nat).
  assert (lo <= mid < hi)%nat as Hmid.
  { unfold mid. pose proof (Nat.div_lt (hi - lo) 2 ltac:(lia) ltac:(lia)). lia. }
  destruct (lookup_lt_is_Some_2 es mid) as [em Hem]; [lia|].
  rewrite (repr_get_key n low es Hr mid em Hem). cbn [mbind outcome_bind].
  assert (forall i j a b, es !! i = Some a -> es !! j = Some b -> (i < j)%nat -> bytes_lt (fst a) (fst b)) as Hord.
  { intros i j a b Ha Hb' Hij. eapply (StronglySorted_lookup bytes_lt (fst <$> es)); [done|exact Hij| |];
      rewrite list_lookup_fmap; [by rewrite Ha|by rewrite Hb']. }
  destruct (bytes_leb (fst em) key) eqn:Ecmp.
  - apply bytes_leb_le in Ecmp. apply IH; [lia|lia| |done].
    intros i e Hi Hlt'. destruct (decide (i = mid)) as [->|]; [by simplify_eq|].
    apply bytes_lt_le. eapply bytes_lt_le_trans; [|exact Ecmp]. apply (Hord i mid); [done|done|lia].
  - apply bytes_leb_false in Ecmp. apply IH; [lia|lia|done|].
    intros i e Hi Hge. destruct (decide (i = mid)) as [->|]; [by simplify_eq|].
    eapply bytes_lt_trans; [exact Ecmp|]. apply (Hord mid i); [done|done|lia].
Qed.

Lemma route_last low es1 es2 key :
  (forall e, e ∈ es1 -> bytes_le (fst e) key) ->
  (forall e, head es2 = Some e -> bytes_lt key (fst e)) ->
  route low (es1 ++ es2) key = default low (snd <$> last es1).
Proof.
  intros H1 H2. revert low. induction es1 as [|[k c] es1 IH]; intros low; simpl.
  - destruct es2 as [|[k c] es2]; simpl; [done|].
    by rewrite (proj2 (bytes_leb_false k key)) by (by apply (H2 (k, c))).
  - rewrite (proj2 (bytes_leb_le k key)) by (apply (H1 (k, c)); set_solver).
    rewrite IH by set_solver. destruct es1 as [|x es1]; [done|]. cbn [last].
    change (default c (snd <$> last (x :: es1)) = default low (snd <$> last (x :: es1))).
    destruct (last (x :: es1)) eqn:E; [done|]. by apply last_None in E.
Qed.

Lemma binary_search_partition n low es key :
  repr n low es -> pivots_sorted es ->
  exists r, binary_search n key = Ok (r - 1)%nat /\ (r <= length es)%nat /\
    (forall i e, es !! i = Some e -> (i < r)%nat -> bytes_le (fst e) key) /\
    (forall i e, es !! i = Some e -> (r <= i)%nat -> bytes_lt key (fst e)).
Proof.
  intros Hr Hs.
  destruct (pivot_search_loop_spec n low es key (count n) 0 (count n)) as (r & E & H1 & H2 & H3).
  - done.
  - done.
  - rewrite (repr_count _ _ _ Hr). lia.
  - lia.
  - lia.
  - intros i e Hi%lookup_lt_Some. rewrite (repr_count _ _ _ Hr). lia.
  - exists r. split; [|done]. unfold binary_search. by rewrite E.
Qed.

Lemma search_for_leaf_route n low es key :
  repr n low es -> pivots_sorted es -> es <> [] -> search_for_leaf n key = Ok (route low es key).
Proof.
  intros Hr Hs Hne. destruct (binary_search_partition n low es key Hr Hs) as (r & Eb & Hle & Hlo & Hhi).
  assert (route low es key = default low (snd <$> last (take r es))) as ->.
  { rewrite <-(take_drop r es) at 1. apply route_last.
    - intros e [i Hi]%list_elem_of_lookup. apply lookup_take_Some in Hi as [Hi Hlt]. eauto.
    - intros e He. apply (Hhi r e); [|lia].
      rewrite head_lookup, lookup_drop in He. by rewrite Nat.add_0_r in He. }
  unfold search_for_leaf. rewrite Eb. cbn [mbind outcome_bind].
  assert (r - 1 < length es)%nat as Hlt by (destruct es; simpl in *; [done|lia]).
  destruct (lookup_lt_is_Some_2 es (r - 1) Hlt) as [e He].
  rewrite (repr_get_key n low es Hr _ e He). cbn [mbind outcome_bind].
  destruct (decide (r = 0%nat)) as [->|Hr0].
  - rewrite (proj2 (bytes_ltb_lt _ _)) by (apply (Hhi 0%nat e); [exact He|lia]).
    by rewrite (repr_low _ _ _ Hr).
  - destruct (bytes_ltb key (fst e)) eqn:Ek.
    { apply bytes_ltb_lt in Ek. exfalso.
      exact (proj1 (bytes_le_nlt _ _) (Hlo (r - 1)%nat e He ltac:(lia)) Ek). }
    change (get_leaf_child n (r - 1) = Ok (default low (snd <$> last (take r es)))).
    rewrite (repr_get_child n low es Hr _ e He). f_equal.
    rewrite last_lookup, length_take, Nat.min_l by lia.
    rewrite lookup_take_lt by lia. replace (pred r) with (r - 1)%nat by lia. by rewrite He.
Qed.

Lemma route_elem low es key : route low es key ∈ low :: (snd <$> es).
Proof.
  revert low; induction es as [|[k c] es IH]; intros low; simpl; [set_solver|].
  destruct (bytes_leb k key); [|set_solver]. specialize (IH c). set_solver.
Qed.

Lemma last_child_elem low (es : list (bytes * Z)) :
  es <> [] -> default low (snd <$> last es) ∈ (snd <$> es).
Proof.
  intros Hne. destruct (last es) as [e|] eqn:E; [|by apply last_None in E]. simpl.
  apply list_elem_of_fmap. exists e. split; [done|]. by apply last_Some_elem_of.
Qed.

(** Recording a split between the entries [es1] and [es2]: the keys from the pivot on
    that went to the child in front of the pivot go to the new child. *)
Lemma route_split es1 es2 low p right key :
  NoDup (low :: (snd <$> es1 ++ es2)) -> pivots_sorted (es1 ++ (p, right) :: es2) ->
  let left := default low (snd <$> last es1) in
  route low (es1 ++ (p, right) :: es2) key =
    if decide (route low (es1 ++ es2) key = left)
    then (if bytes_leb p key then right else left)
    else route low (es1 ++ es2) key.
Proof.
  intros Hnd Hs left. subst left. revert low Hnd Hs. induction es1 as [|[k c] es1 IH]; intros low Hnd Hs.
  - simpl in *. apply NoDup_cons in Hnd as [Hlow _].
    apply StronglySorted_cons in Hs as [Hp _]. destruct es2 as [|[k c] es2]; simpl.
    { rewrite decide_True by done. done. }
    apply Forall_cons_iff in Hp as [Hpk _]. simpl in *.
    destruct (bytes_leb k key) eqn:Ek.
    + apply bytes_leb_le in Ek.
      rewrite (proj2 (bytes_leb_le p key)) by (apply bytes_lt_le; by eapply bytes_lt_le_trans).
      rewrite decide_False; [done|]. intros E. apply Hlow. rewrite <-E. apply route_elem.
    + rewrite decide_True by done. done.
  - assert (default low (snd <$> last ((k, c) :: es1)) = default c (snd <$> last es1)) as ->.
    { rewrite last_cons. by destruct (last es1). }
    simpl. simpl in Hnd. destruct (bytes_leb k key) eqn:Ek.
    + apply IH; [by apply NoDup_cons in Hnd as [_ ?]|]. by apply StronglySorted_cons in Hs as [_ ?].
    + rewrite decide_False; [done|]. apply NoDup_cons in Hnd as [Hlow _]. intros ->. apply Hlow.
      destruct es1 as [|x es1]; simpl; [set_solver|].
      pose proof (last_child_elem c (x :: es1)). set_solver.
Qed.

(** Where [insert_after] puts the new entry. *)
Lemma insert_after_split low left e es es' :
  insert_after low left e es = Some es' ->
  exists es1 es2, es = es1 ++ es2 /\ es' = es1 ++ e :: es2 /\ default low (snd <$> last es1) = left.
Proof.
  unfold insert_after. case_decide as Hd.
  - intros [= <-]. exists [], es. by subst.
  - unfold index_of. destruct (list_find _ _) as [[i c]|] eqn:Ef; [|done]. intros [= <-].
    apply list_find_Some in Ef as (Hi & -> & _). rewrite list_lookup_fmap in Hi.
    destruct (es !! i) as [x|] eqn:Ex; [|done]. simpl in Hi. injection Hi as Hx.
    exists (take (S i) es), (drop (S i) es). rewrite take_drop. split; [done|]. split; [done|].
    rewrite (take_S_r es i x Ex), last_snoc. done.
Qed.

Definition remove_after (low survivor removed : Z) (es : list (bytes * Z)) : option (list (bytes * Z)) :=
  let children := low :: (snd <$> es) in
  si ← index_of survivor children;
  ri ← index_of removed children;
  if decide (ri = si + 1)%nat then Some (vec_remove (ri - 1) es) else None.

Lemma index_of_Some c cs i : index_of c cs = Some i -> cs !! i = Some c.
Proof.
  unfold index_of. destruct (list_find _ _) as [[j d]|] eqn:E; [|done]. intros [= <-].
  by apply list_find_Some in E as (? & -> & _).
Qed.

Lemma remove_after_split low s r es es' :
  remove_after low s r es = Some es' ->
  exists es1 k es2, es = es1 ++ (k, r) :: es2 /\ es' = es1 ++ es2 /\ default low (snd <$> last es1) = s.
Proof.
  unfold remove_after. destruct (index_of s _) as [si|] eqn:Es; simpl; [|done].
  destruct (index_of r _) as [ri|] eqn:Er; simpl; [|done]. case_decide as Hd; [|done]. intros [= <-].
  apply index_of_Some in Es, Er. subst ri. rewrite Nat.add_1_r in *. simpl in Er.
  rewrite list_lookup_fmap in Er. destruct (es !! si) as [[k x]|] eqn:Ex; [|done]. simpl in Er. injection Er as ->.
  exists (take si es), k, (drop (S si) es). split; [by rewrite take_drop_middle|]. split.
  - unfold vec_remove. by replace (S si - 1)%nat with si by lia.
  - destruct si as [|si]; simpl in Es; [by injection Es|].
    rewrite list_lookup_fmap in Es. destruct (es !! si) as [y|] eqn:Ey; [|done]. simpl in Es. injection Es as <-.
    by rewrite (take_S_r es si y Ey), last_snoc.
Qed.

(** Removing the child behind a pivot hands its keys to the child in front of it. *)
Lemma route_merge es1 es2 low k r key :
  NoDup (low :: (snd <$> es1 ++ (k, r) :: es2)) -> pivots_sorted (es1 ++ (k, r) :: es2) ->
  let s := default low (snd <$> last es1) in
  route low (es1 ++ es2) key =
    if decide (route low (es1 ++ (k, r) :: es2) key = r) then s
    else route low (es1 ++ (k, r) :: es2) key.
Proof.
  intros Hnd Hs s. rewrite route_split; [|eapply sublist_NoDup; [exact Hnd|]|exact Hs].
  2: { rewrite !fmap_app, fmap_cons. apply sublist_skip, sublist_app; [done|]. by apply sublist_cons. }
  fold s. assert (r ∉ low :: (snd <$> es1 ++ es2)) as Hr.
  { rewrite fmap_app, fmap_cons in Hnd. simpl in Hnd. rewrite app_comm_cons in Hnd.
    apply NoDup_app in Hnd as (_ & Hd & Hn2). apply NoDup_cons in Hn2 as [Hr2 _].
    rewrite fmap_app, app_comm_cons. intros [Hin|Hin]%elem_of_app; [|done].
    apply (Hd r); [done|set_solver]. }
  assert (s <> r) as Hsr.
  { intros <-. apply Hr. unfold s. destruct es1 as [|x es1]; [set_solver|].
    pose proof (last_child_elem low (x :: es1)). set_solver. }
  pose proof (route_elem low (es1 ++ es2) key).
  destruct (decide (route low (es1 ++ es2) key = s)) as [E|Hne].
  - rewrite E. destruct (bytes_leb k key); [by rewrite decide_True|by rewrite decide_False].
  - rewrite decide_False; [done|]. intros E. by rewrite E in H.
Qed.

Lemma remove_entry_unfold n low es s r :
  repr n low es ->
  remove_entry_for_merge 1 (Leaf s) (Leaf r) n =
    match remove_after low s r es with
    | Some es' => (_ ← reset_for_level 1 (Leaf low); _ ← append_all 1 (leaf_entries es');
                   mret (match es' with [] => Some (Leaf low) | _ :: _ => None end)) n
    | None => (n, Err ParentChildMissing)
    end.
Proof.
  intros Hr. unfold remove_entry_for_merge.
  run_pure n n. rewrite (bindS_ok _ _ n n (leaf_entries es)).
  2: { unfold liftS. by rewrite (collect_entries_repr n low es Hr). }
  assert (forall c, position_of (Leaf c) (lowest_child_for_level n 1 :: (snd <$> leaf_entries es)) =
            index_of c (low :: (snd <$> es))) as Hpos.
  { intros c. unfold lowest_child_for_level. rewrite (repr_low _ _ _ Hr).
    apply (position_of_leaf c (([], low) :: es)). }
  cbv zeta. rewrite !Hpos. unfold remove_after. destruct (index_of s _) as [si|] eqn:Es; [|done].
  run_pure n si. destruct (index_of r _) as [ri|] eqn:Er; [|done].
  run_pure n ri. cbn [mbind option_bind].
  destruct (Nat.eqb_spec ri (si + 1)) as [->|Hne]; cbn [negb]; [|by rewrite decide_False].
  rewrite decide_True by done.
  assert (vec_remove (si + 1) (lowest_child_for_level n 1 :: (snd <$> leaf_entries es)) =
            Leaf low :: (snd <$> leaf_entries (vec_remove si es))) as Hc.
  { unfold lowest_child_for_level. rewrite (repr_low _ _ _ Hr). rewrite Nat.add_1_r.
    unfold vec_remove, leaf_entries. simpl. by rewrite !fmap_app, !fmap_take, !fmap_drop. }
  rewrite Hc. replace (si + 1 - 1)%nat with si by lia.
  assert (vec_remove si (fst <$> leaf_entries es) = fst <$> leaf_entries (vec_remove si es)) as Hp.
  { unfold vec_remove, leaf_entries. by rewrite !fmap_app, !fmap_take, !fmap_drop. }
  rewrite Hp. rewrite (bindS_ok _ _ n n (Leaf low)) by done. cbn [tail].
  replace (zip (fst <$> leaf_entries (vec_remove si es)) (snd <$> leaf_entries (vec_remove si es)))
    with (leaf_entries (vec_remove si es)).
  - by destruct (vec_remove si es).
  - symmetry. apply zip_fst_snd.
Qed.

Section remove_child.
Context (n : BPNode) (low : Z) (es : list (bytes * Z)) (Hr : repr n low es) (s r : Z).

Lemma remove_child_ok es' :
  remove_after low s r es = Some es' ->
  exists n', remove_entry_for_merge 1 (Leaf s) (Leaf r) n =
      (n', Ok (match es' with [] => Some (Leaf low) | _ :: _ => None end)) /\
    repr n' low es' /\ vlock n' = vlock n.
Proof.
  intros Hrem. destruct (reset_repr n low es low Hr) as (n1 & E1 & R1 & V1).
  destruct (remove_after_split _ _ _ _ _ Hrem) as (es1 & k & es2 & -> & -> & _).
  destruct (append_all_ok n1 low [] (es1 ++ es2) R1) as (n2 & E2 & R2 & V2).
  { pose proof (repr_ok _ _ _ Hr) as Hok. apply Forall_app in Hok as [? Hok].
    apply Forall_cons_iff in Hok as [_ ?]. by apply Forall_app. }
  { pose proof (footprint_le _ _ _ Hr) as Hf. rewrite (cons_middle (k, r)), !footprint_app in *. simpl in *. lia. }
  exists n2. split; [|split; [done|congruence]].
  rewrite (remove_entry_unfold n low _ s r Hr), Hrem.
  rewrite (bindS_ok _ _ n n1 tt) by done. by rewrite (bindS_ok _ _ n1 n2 tt).
Qed.

Lemma remove_child_missing :
  remove_after low s r es = None ->
  remove_entry_for_merge 1 (Leaf s) (Leaf r) n = (n, Err ParentChildMissing).
Proof. intros Hrem. by rewrite (remove_entry_unfold n low es s r Hr), Hrem. Qed.
End remove_child.

Lemma footprint_insert low left e es es' :
  insert_after low left e es = Some es' ->
  footprint es' = (footprint es + entry_cost e + BPKVMeta_size)%nat.
Proof.
  intros (es1 & es2 & -> & -> & _)%insert_after_split.
  rewrite (cons_middle e), !footprint_app. unfold footprint at 2, payload. unf. simpl. lia.
Qed.

Lemma insert_after_nonempty low left e es es' : insert_after low left e es = Some es' -> es' <> [].
Proof. intros (es1 & es2 & -> & -> & _)%insert_after_split. by destruct es1. Qed.

Lemma init_leaf_parent_repr n left right p :
  length (rest n) = INLINE_BUFFER_LEN -> entry_ok (p, right) ->
  exists n', init_leaf_parent left right p n = (n', Ok tt) /\ repr n' left [(p, right)] /\ vlock n' = vlock n.
Proof.
  intros Hlen Hok.
  destruct (reset_repr (mkBPNode (vlock n) 0 (INLINE_BUFFER_LEN - 1) left (rest n)) left [] left)
    as (n1 & E1 & R1 & V1).
  { split; simpl; try done; unfold payload; unf; simpl; lia. }
  injection E1 as <-. change 4071%nat with (INLINE_BUFFER_LEN - 1)%nat in *.
  pose proof Hok as [Hl Hc]. unfold fst, snd in *.
  destruct (append_leaf_entry_ok _ _ _ (p, right) R1 Hok) as (n2 & E2 & R2 & V2).
  { unfold footprint, payload. unf. simpl. lia. }
  exists n2. split; [|done]. rewrite <-E2. simpl fst. simpl snd.
  unfold init_leaf_parent, append_leaf_entry.
  rewrite (proj2 (Nat.ltb_ge MAX_KEY_LENGTH (length p))) by done.
  unfold reset_leaf_parent, getS, liftS, mbind, stM_bind.
  rewrite (proj2 (Nat.ltb_ge INLINE_BUFFER_LEN _)) by (unf; lia).
  rewrite (space_left_repr _ _ _ R1) by (unfold footprint, payload; unf; simpl; lia).
  rewrite (proj2 (Nat.ltb_ge _ _)) by (unfold footprint, payload; unf; simpl; lia).
  unfold bump_alloc. cbn [alloc_idx]. rewrite (proj2 (Nat.leb_le _ _)) by (unf; lia).
  cbn [alloc_idx rest vlock count lowest]. unfold rest_copy.
  cbn [alloc_idx rest vlock count lowest]. rewrite Nat.eqb_refl, andb_true_r.
  rewrite (proj2 (Nat.leb_le _ (length (rest n)))) by (unf; lia).
  cbn [alloc_idx rest vlock count lowest].
  rewrite length_splice, length_store_u48 by (unf; lia).
  rewrite (proj2 (Nat.leb_le _ (length (rest n)))) by (unf; lia).
  unfold put_meta. cbn [andb alloc_idx rest vlock count lowest Nat.eqb LEAF_CHILD_BYTES].
  rewrite !length_splice by (unf; rewrite ?length_splice, ?length_store_u48; unf; lia).
  rewrite (proj2 (Nat.leb_le _ (length (rest n)))) by (unf; lia). reflexivity.
Qed.

(** * Properties *)

(** C30. [search_for_leaf] on a leaf parent with at least one pivot returns the child the
    reference router picks: the one behind the last pivot not above the key, or the
    lowest child. The binary search over the encoded buffer always terminates. *)
Theorem search_for_leaf_correct n low es key :
  repr n low es -> pivots_sorted es -> es <> [] -> search_for_leaf n key = Ok (route low es key).
Proof. apply search_for_leaf_route. Qed.

(** [insert_entry_after_child] on a leaf parent with enough room rebuilds the node
    with the pivot and the right page placed after the left page, and afterwards
    [search_for_leaf] sends the keys of the left page from the pivot on to the right
    page and every other key where it went before. *)
Theorem insert_entry_after_child_correct n low es left p right es' :
  repr n low es -> entry_ok (p, right) ->
  insert_after low left (p, right) es = Some es' -> (footprint es' <= INLINE_BUFFER_LEN)%nat ->
  exists n', insert_entry_after_child 1 (Leaf left) p (Leaf right) n = (n', Ok tt) /\
    repr n' low es' /\ vlock n' = vlock n /\
    (NoDup (low :: (snd <$> es)) -> pivots_sorted es' -> forall key,
       search_for_leaf n' key =
         Ok (if decide (route low es key = left) then (if bytes_leb p key then right else left)
             else route low es key)).
Proof.
  intros Hr He Hi Hf. destruct (insert_child_ok n low es Hr left right p He es' Hi Hf) as (n' & E & R & V).
  exists n'. split; [done|]. split; [done|]. split; [done|]. intros Hnd Hs key.
  rewrite (search_for_leaf_route n' low es' key R Hs) by (by eapply insert_after_nonempty).
  destruct (insert_after_split _ _ _ _ _ Hi) as (es1 & es2 & -> & -> & <-).
  by rewrite route_split.
Qed.

(** C31. A leaf parent that [can_overflow] reports safe takes any pivot of at most
    [MAX_KEY_LENGTH] bytes: the insertion does not return [NodeFull], which is what the
    split protocol relies on when it locks from the overflow point. *)
Theorem can_overflow_false_insert n low es left p right es' :
  repr n low es -> can_overflow n 1 = Ok false -> entry_ok (p, right) ->
  insert_after low left (p, right) es = Some es' ->
  exists n', insert_entry_after_child 1 (Leaf left) p (Leaf right) n = (n', Ok tt) /\ repr n' low es'.
Proof.
  intros Hr Ho He Hi.
  assert (footprint es' <= INLINE_BUFFER_LEN)%nat as Hf.
  { rewrite (footprint_insert _ _ _ _ _ Hi). destruct He as [Hl _]. unfold can_overflow in Ho.
    pose proof (footprint_le _ _ _ Hr) as Hle.
    destruct (decide (footprint es = INLINE_BUFFER_LEN)) as [Heq|Hne].
    { by rewrite (space_left_full n low es Hr Heq) in Ho. }
    rewrite (space_left_repr n low es Hr) in Ho by lia. cbn [mbind outcome_bind] in Ho.
    injection Ho as Ho. apply Nat.ltb_ge in Ho. unf. simpl in *. lia. }
  destruct (insert_child_ok n low es Hr left right p He es' Hi Hf) as (n' & E & R & _). eauto.
Qed.

(** [remove_entry_for_merge] on a leaf parent drops the removed page and the pivot in
    front of it, reports the surviving child exactly when no pivot is left, and
    afterwards the keys of the removed page belong to the survivor. *)
Theorem remove_entry_for_merge_correct n low es s r es' :
  repr n low es -> remove_after low s r es = Some es' ->
  exists n', remove_entry_for_merge 1 (Leaf s) (Leaf r) n =
      (n', Ok (match es' with [] => Some (Leaf low) | _ :: _ => None end)) /\
    repr n' low es' /\
    (NoDup (low :: (snd <$> es)) -> pivots_sorted es -> forall key,
       route low es' key = if decide (route low es key = r) then s else route low es key).
Proof.
  intros Hr Hrem. destruct (remove_child_ok n low es Hr s r es' Hrem) as (n' & E & R & _).
  exists n'. split; [done|]. split; [done|]. intros Hnd Hs key.
  destruct (remove_after_split _ _ _ _ _ Hrem) as (es1 & k & es2 & -> & -> & <-).
  by apply route_merge.
Qed.

(** [insert_entry_after_child] is not atomic: when it returns [NodeFull] the node has
    already been rebuilt and holds only the entries in front of the first one that did
    not fit, so the entries behind it are gone from the node. *)
Theorem insert_entry_node_full_truncates n low es left p right es1 e es2 :
  repr n low es -> entry_ok (p, right) ->
  insert_after low left (p, right) es = Some (es1 ++ e :: es2) ->
  (footprint es1 < INLINE_BUFFER_LEN < footprint (es1 ++ [e]))%nat ->
  exists n', insert_entry_after_child 1 (Leaf left) p (Leaf right) n = (n', Err NodeFull) /\
    repr n' low es1.
Proof.
  intros Hr He Hi Hf. destruct (insert_child_full n low es Hr left right p He es1 e es2 Hi Hf) as (n' & E & R & _).
  eauto.
Qed.

(** No entry can be appended to a node above the leaf parents: [append_inner_entry]
    copies the eight bytes of [store_u32] into a four-byte range and never returns [Ok]. *)
Theorem append_inner_entry_never_ok n key child : snd (append_inner_entry key child n) <> Ok tt.
Proof.
  unfold append_inner_entry. destruct (_ <? _)%nat; [done|].
  unfold getS, liftS, mbind, stM_bind. destruct (space_left n) as [sp| |]; try done.
  destruct (_ <? _)%nat; [done|]. unfold bump_alloc. destruct (_ <=? _)%nat; [|done].
  unfold rest_copy at 1. destruct (_ && _); [|done].
  unfold rest_copy. rewrite length_store_u32. simpl. by rewrite andb_false_r.
Qed.

(** * Concrete nodes *)

#[global] Instance entry_ok_dec e : Decision (entry_ok e).
Proof. unfold entry_ok. apply _. Defined.

(** The node with the given lowest child and entries, built by the code. *)
Definition build (low : Z) (es : list (bytes * Z)) : BPNode :=
  fst ((_ ← reset_for_level 1 (Leaf low); append_all 1 (leaf_entries es)) blank).

Lemma build_repr low es :
  Forall entry_ok es -> (footprint es <= INLINE_BUFFER_LEN)%nat -> repr (build low es) low es.
Proof.
  intros Hok Hf. assert (repr (mkBPNode 0 0 (INLINE_BUFFER_LEN - 1) low (rest blank)) low []) as R0.
  { split; try done; unfold payload; unf; simpl; lia. }
  destruct (append_all_ok _ low [] es R0 Hok Hf) as (n' & E & R & _).
  unfold build. rewrite (bindS_ok _ _ blank (mkBPNode 0 0 (INLINE_BUFFER_LEN - 1) low (rest blank)) tt) by done.
  by rewrite E.
Qed.

(** Two pivots in front of the pages 1 and 2, page 0 the lowest. *)
Definition two_pivots : list (bytes * Z) := [([Byte.x14], 1); ([Byte.x28], 2)].

Lemma two_pivots_repr : repr (build 0 two_pivots) 0 two_pivots.
Proof. apply build_repr; [apply (bool_decide_unpack _); vm_compute; exact I|apply Nat.leb_le; reflexivity]. Qed.

Ltac decide_now := apply (bool_decide_unpack _); vm_compute; exact I.

Lemma two_pivots_sorted : pivots_sorted two_pivots.
Proof. repeat constructor. Qed.

Lemma search_for_leaf_correct_witness :
  search_for_leaf (build 0 two_pivots) [Byte.x1e] = Ok (route 0 two_pivots [Byte.x1e]) /\
  route 0 two_pivots [Byte.x1e] = 1.
Proof.
  split; [|reflexivity].
  apply (search_for_leaf_correct (build 0 two_pivots) 0 two_pivots [Byte.x1e]);
    [exact two_pivots_repr|exact two_pivots_sorted|discriminate].
Defined.

Lemma insert_entry_after_child_correct_witness :
  exists n', insert_entry_after_child 1 (Leaf 1) [Byte.x1e] (Leaf 7) (build 0 two_pivots) = (n', Ok tt) /\
    repr n' 0 [([Byte.x14], 1); ([Byte.x1e], 7); ([Byte.x28], 2)].
Proof.
  destruct (insert_entry_after_child_correct (build 0 two_pivots) 0 two_pivots 1 [Byte.x1e] 7
              [([Byte.x14], 1); ([Byte.x1e], 7); ([Byte.x28], 2)]) as (n' & E & R & _).
  - exact two_pivots_repr.
  - decide_now.
  - reflexivity.
  - apply Nat.leb_le; reflexivity.
  - exists n'. exact (conj E R).
Defined.

Lemma can_overflow_false_insert_witness :
  exists n', insert_entry_after_child 1 (Leaf 1) [Byte.x1e] (Leaf 7) (build 0 two_pivots) = (n', Ok tt) /\
    repr n' 0 [([Byte.x14], 1); ([Byte.x1e], 7); ([Byte.x28], 2)].
Proof.
  apply (can_overflow_false_insert (build 0 two_pivots) 0 two_pivots 1 [Byte.x1e] 7).
  - exact two_pivots_repr.
  - vm_compute. reflexivity.
  - decide_now.
  - reflexivity.
Defined.

Lemma remove_entry_for_merge_correct_witness :
  exists n', remove_entry_for_merge 1 (Leaf 1) (Leaf 2) (build 0 two_pivots) = (n', Ok None) /\
    repr n' 0 [([Byte.x14], 1)].
Proof.
  destruct (remove_entry_for_merge_correct (build 0 two_pivots) 0 two_pivots 1 2 [([Byte.x14], 1)])
    as (n' & E & R & _).
  - exact two_pivots_repr.
  - reflexivity.
  - exists n'. exact (conj E R).
Defined.

(** Fifty-five entries with 64-byte keys fill a node: 4070 of its 4072 bytes. *)
Definition long_key (i : Z) : bytes := replicate 63 Byte.x01 ++ [byte.of_Z i].
Definition full_entries : list (bytes * Z) := (fun i => (long_key i, i)) <$> seqZ 1 55.

Lemma full_entries_repr : repr (build 0 full_entries) 0 full_entries.
Proof. apply build_repr; [decide_now|apply Nat.leb_le; vm_compute; reflexivity]. Qed.

(** The page 55 is lost from the node. *)
Lemma insert_entry_node_full_truncates_witness :
  exists n', insert_entry_after_child 1 (Leaf 0) (long_key 0) (Leaf 99) (build 0 full_entries) =
      (n', Err NodeFull) /\
    repr n' 0 ((long_key 0, 99) :: take 54 full_entries).
Proof.
  apply (insert_entry_node_full_truncates (build 0 full_entries) 0 full_entries 0 (long_key 0) 99
           ((long_key 0, 99) :: take 54 full_entries) (long_key 55, 55) []).
  - exact full_entries_repr.
  - decide_now.
  - vm_compute. reflexivity.
  - split; apply Nat.ltb_lt; vm_compute; reflexivity.
Defined.
