(* ===== verification/Wal.v ===== *)
(** * The write-ahead log (src/wal.rs)

    The log file is the sequence of its bytes: a 32-byte manifest followed by groups,
    each a marker, a page id, a record count and the records.  The in-memory state
    mirrors it: the records, counters per page and totals.  Operations of the
    operating system are taken to succeed; [sync_data] and the file position need no
    state because every write goes to the end of the file or to its first 32 bytes. *)

From stdpp Require Import gmap.
From S2P Require Import Prelude Types BTreeMap.

Definition RECORD_TYPE_PUT : Z := 0.
Definition RECORD_TYPE_TOMBSTONE : Z := 1.
Definition RECORD_TYPE_TXN_BEGIN : Z := 2.
Definition RECORD_TYPE_TXN_COMMIT : Z := 3.
Definition RECORD_TYPE_TXN_ABORT : Z := 4.
Definition TXN_META_PAGE_ID : Z := u64_max.
Definition GROUP_MARKER : Z := 170.
Definition GROUP_HEADER_LEN : nat := (1 + 8 + 4)%nat.
(** ["WALM"] *)
Definition MANIFEST_MAGIC : bytes := [Byte.x57; Byte.x41; Byte.x4c; Byte.x4d].
Definition MANIFEST_VERSION : Z := 1.
Definition MANIFEST_LEN : nat := 32.

Inductive WalEntryKind := Redo | Undo.
Inductive WalTxnMarker := Begin | Commit | Abort_.
Inductive WalOp := Put (value : bytes) | Tombstone | TxnMarker (m : WalTxnMarker).

Record WalRecord := mkWalRecord {
  page_id : Z; key : bytes; lower_fence : bytes; upper_fence : bytes;
  kind : WalEntryKind; txn_id : Z; op : WalOp }.

#[global] Instance WalEntryKind_eq_dec : EqDecision WalEntryKind.
Proof. solve_decision. Defined.
#[global] Instance WalTxnMarker_eq_dec : EqDecision WalTxnMarker.
Proof. solve_decision. Defined.
#[global] Instance WalOp_eq_dec : EqDecision WalOp.
Proof. solve_decision. Defined.
#[global] Instance WalRecord_eq_dec : EqDecision WalRecord.
Proof. solve_decision. Defined.

Definition kind_as_byte (k : WalEntryKind) : Z := match k with Redo => 0 | Undo => 1 end.
Definition kind_from_byte (b : Z) : WalEntryKind := match b with 1 => Undo | _ => Redo end.

Definition to_record_type (m : WalTxnMarker) : Z :=
  match m with
  | Begin => RECORD_TYPE_TXN_BEGIN
  | Commit => RECORD_TYPE_TXN_COMMIT
  | Abort_ => RECORD_TYPE_TXN_ABORT
  end.

Definition from_record_type (tag : Z) : option WalTxnMarker :=
  if tag =? RECORD_TYPE_TXN_BEGIN then Some Begin
  else if tag =? RECORD_TYPE_TXN_COMMIT then Some Commit
  else if tag =? RECORD_TYPE_TXN_ABORT then Some Abort_
  else None.

(** [LeafWalStats] *)
Record LeafWalStats := mkStats { st_count : Z; st_bytes : Z }.

Record WalState := mkWalState {
  file : bytes;
  records : list WalRecord;
  leaf_counts : gmap Z LeafWalStats;
  total_records : Z;
  total_bytes : Z;
  checkpoint_len : Z }.

Definition sat_add (a b : Z) : Z := Z.min (a + b) u64_max.

(** ** Writing *)

Definition le32 (n : nat) : bytes := le_split 4 (u32 (Z.of_nat n)).

(** [write_record_payload]: the bytes written. *)
Definition write_record_payload (r : WalRecord) : bytes :=
  match op r with
  | Put value =>
      [byte.of_Z RECORD_TYPE_PUT] ++ [byte.of_Z (kind_as_byte (kind r))] ++ le_split 8 (txn_id r) ++
      le32 (length (key r)) ++ le32 (length value) ++
      le32 (length (lower_fence r)) ++ le32 (length (upper_fence r)) ++
      key r ++ value ++ lower_fence r ++ upper_fence r
  | Tombstone =>
      [byte.of_Z RECORD_TYPE_TOMBSTONE] ++ [byte.of_Z (kind_as_byte (kind r))] ++ le_split 8 (txn_id r) ++
      le32 (length (key r)) ++ le32 (length (lower_fence r)) ++ le32 (length (upper_fence r)) ++
      key r ++ lower_fence r ++ upper_fence r
  | TxnMarker m =>
      [byte.of_Z (to_record_type m)] ++ [byte.of_Z (kind_as_byte (kind r))] ++ le_split 8 (txn_id r)
  end.

(** The size [write_record_payload] returns, also the [record_size] of the reader. *)
Definition record_size (r : WalRecord) : nat :=
  match op r with
  | Put value =>
      (1 + 8 + 1 + 4 + 4 + 4 + 4 + length (key r) + length value
       + length (lower_fence r) + length (upper_fence r))%nat
  | Tombstone =>
      (1 + 8 + 1 + 4 + 4 + 4 + length (key r) + length (lower_fence r) + length (upper_fence r))%nat
  | TxnMarker _ => (1 + 8 + 1)%nat
  end.

(** [write_group] appends to the file and returns the number of bytes written. *)
Definition write_group (f : bytes) (page : Z) (rs : list WalRecord) : outcome QSError (bytes * nat) :=
  match rs with
  | [] => Ok (f, 0%nat)
  | _ :: _ =>
      let f := f ++ [byte.of_Z GROUP_MARKER] ++ le_split 8 page in
      count ← expect (if Z.of_nat (length rs) <? 2 ^ 32 then Some (Z.of_nat (length rs)) else None);
      let f := f ++ le_split 4 count in
      let f := foldl (fun f r => f ++ write_record_payload r) f rs in
      let payload := sum_list (record_size <$> rs) in
      Ok (f, (GROUP_HEADER_LEN + payload)%nat)
  end.

(** [write_manifest] overwrites the first 32 bytes. *)
Definition write_manifest (f : bytes) (checkpoint_len : Z) : bytes :=
  let buf := replicate MANIFEST_LEN Byte.x00 in
  let buf := splice buf 0 MANIFEST_MAGIC in
  let buf := splice buf 4 (le_split 4 MANIFEST_VERSION) in
  let buf := splice buf 8 (le_split 8 checkpoint_len) in
  buf ++ drop MANIFEST_LEN f.

(** [File::set_len] *)
Definition set_len (f : bytes) (n : nat) : bytes :=
  take n f ++ replicate (n - length f) Byte.x00.

Definition read_manifest (f : bytes) : bytes * Z :=
  let manifest := Z.of_nat MANIFEST_LEN in
  if (length f <? MANIFEST_LEN)%nat then
    (write_manifest (set_len f MANIFEST_LEN) manifest, manifest)
  else
    let header := take MANIFEST_LEN f in
    if negb (bool_decide (slice header 0 4 = MANIFEST_MAGIC)) ||
       negb (le_combine (slice header 4 4) =? MANIFEST_VERSION) then
      (write_manifest f manifest, manifest)
    else (f, Z.max (le_combine (slice header 8 8)) (Z.of_nat MANIFEST_LEN)).

(** ** Reading

    [bs] is the rest of the file from the parser's index on; [None] is the
    [break 'outer] of the source. *)

Definition take_u32 (bs : bytes) : Z * bytes := (le_combine (take 4 bs), drop 4 bs).

(** [bytes[idx..idx + n].to_vec()] *)
Definition take_vec (n : Z) (bs : bytes) : bytes * bytes := (take (Z.to_nat n) bs, drop (Z.to_nat n) bs).

Definition read_record (page : Z) (bs : bytes) : option (WalRecord * bytes) :=
  match bs with
  | [] => None
  | b0 :: bs =>
      let record_type := byte.unsigned b0 in
      if (length bs <? 1 + 8)%nat then None else
      let entry_kind := kind_from_byte (le_combine (take 1 bs)) in
      let bs := drop 1 bs in
      let txn := le_combine (take 8 bs) in
      let bs := drop 8 bs in
      if record_type =? RECORD_TYPE_TOMBSTONE then
        if (length bs <? 12)%nat then None else
        let '(key_len, bs) := take_u32 bs in
        let '(lower_len, bs) := take_u32 bs in
        let '(upper_len, bs) := take_u32 bs in
        if Z.of_nat (length bs) <? key_len + lower_len + upper_len then None else
        let '(k, bs) := take_vec key_len bs in
        let '(lo, bs) := take_vec lower_len bs in
        let '(up, bs) := take_vec upper_len bs in
        Some (mkWalRecord page k lo up entry_kind txn Tombstone, bs)
      else if record_type =? RECORD_TYPE_PUT then
        if (length bs <? 16)%nat then None else
        let '(key_len, bs) := take_u32 bs in
        let '(val_len, bs) := take_u32 bs in
        let '(lower_len, bs) := take_u32 bs in
        let '(upper_len, bs) := take_u32 bs in
        if Z.of_nat (length bs) <? key_len + val_len + lower_len + upper_len then None else
        let '(k, bs) := take_vec key_len bs in
        let '(v, bs) := take_vec val_len bs in
        let '(lo, bs) := take_vec lower_len bs in
        let '(up, bs) := take_vec upper_len bs in
        Some (mkWalRecord page k lo up entry_kind txn (Put v), bs)
      else
        match from_record_type record_type with
        | Some marker => Some (mkWalRecord page [] [] [] entry_kind txn (TxnMarker marker), bs)
        | None => None
        end
  end.

(** The inner loop: the records read, and, unless it broke out, the payload size and
    the rest of the input.  [fuel] bounds the iterations: a record takes ten bytes. *)
Fixpoint read_group (fuel : nat) (page remaining : Z) (bs : bytes)
    : list WalRecord * option (nat * bytes) :=
  if remaining <=? 0 then ([], Some (0%nat, bs))
  else
    match fuel with
    | O => ([], None)
    | S fuel =>
        match read_record page bs with
        | None => ([], None)
        | Some (r, bs) =>
            let '(rs, res) := read_group fuel page (remaining - 1) bs in
            (r :: rs, (fun '(p, bs) => ((record_size r + p)%nat, bs)) <$> res)
        end
    end.

Definition add_page_bytes (m : gmap Z Z) (page bytes : Z) : gmap Z Z :=
  <[page := match m !! page with Some b => sat_add b bytes | None => bytes end]> m.

(** The outer loop; [valid] is [valid_idx], the end of the last complete group. *)
Fixpoint read_groups (fuel : nat) (bs : bytes) (acc : list WalRecord) (page_bytes : gmap Z Z)
    (valid : nat) : list WalRecord * gmap Z Z * nat :=
  match fuel with
  | O => (acc, page_bytes, valid)
  | S fuel =>
      if (length bs <? GROUP_HEADER_LEN)%nat then (acc, page_bytes, valid) else
      if negb (le_combine (take 1 bs) =? GROUP_MARKER) then (acc, page_bytes, valid) else
      let bs := drop 1 bs in
      let page := le_combine (take 8 bs) in
      let bs := drop 8 bs in
      let '(record_count, bs) := take_u32 bs in
      let '(rs, res) := read_group (length bs) page record_count bs in
      match res with
      | None => (acc ++ rs, page_bytes, valid)
      | Some (payload, bs') =>
          let group_bytes := (GROUP_HEADER_LEN + payload)%nat in
          read_groups fuel bs' (acc ++ rs) (add_page_bytes page_bytes page (Z.of_nat group_bytes))
            (valid + (GROUP_HEADER_LEN + (length bs - length bs')))
      end
  end.

(** [read_records]: the records, the bytes per page and the valid length. *)
Definition read_records (f : bytes) : list WalRecord * gmap Z Z * nat :=
  let bs := drop MANIFEST_LEN f in
  let '(rs, pb, valid) := read_groups (S (length bs)) bs [] ∅ 0 in
  (rs, pb, (MANIFEST_LEN + valid)%nat).

(** ** The manager *)

Definition bump_count (m : gmap Z LeafWalStats) (page : Z) : gmap Z LeafWalStats :=
  let e := default (mkStats 0 0) (m !! page) in
  <[page := mkStats (st_count e + 1) (st_bytes e)]> m.

Definition set_bytes (m : gmap Z LeafWalStats) (page bytes : Z) : gmap Z LeafWalStats :=
  <[page := match m !! page with
            | Some e => mkStats (st_count e) bytes
            | None => mkStats 0 bytes
            end]> m.

Definition open (f : bytes) : WalState :=
  let '(f, manifest) := read_manifest f in
  let '(rs, page_bytes, valid_len) := read_records f in
  let file_len := length f in
  let f := if (valid_len <? file_len)%nat then set_len f valid_len else f in
  let '(f, manifest) :=
    if Z.of_nat valid_len <? manifest then (write_manifest f (Z.of_nat valid_len), Z.of_nat valid_len)
    else (f, manifest) in
  let leaf_counts := foldl (fun m r => bump_count m (page_id r)) ∅ rs in
  let leaf_counts := map_fold (fun page bytes m => set_bytes m page bytes) leaf_counts page_bytes in
  mkWalState f rs leaf_counts (Z.of_nat (length rs)) (Z.of_nat valid_len) manifest.

Definition records_grouped (s : WalState) : list (Z * list WalRecord) :=
  foldl (fun grouped r => bt_alter (fun o => default [] o ++ [r]) grouped (page_id r)) [] (records s).

Definition append_record (r : WalRecord) (s : WalState) : outcome QSError WalState :=
  let records := records s ++ [r] in
  let total_records := total_records s + 1 in
  let leaf_counts := bump_count (leaf_counts s) (page_id r) in
  '(file, bytes_written) ← write_group (file s) (page_id r) [r];
  let leaf_counts :=
    match leaf_counts !! page_id r with
    | Some e => <[page_id r := mkStats (st_count e) (sat_add (st_bytes e) (Z.of_nat bytes_written))]> leaf_counts
    | None => leaf_counts
    end in
  total_bytes ← expect (if total_bytes s + Z.of_nat bytes_written <=? u64_max
                        then Some (total_bytes s + Z.of_nat bytes_written) else None);
  Ok (mkWalState file records leaf_counts total_records total_bytes (checkpoint_len s)).

Definition append_tombstone (page : Z) (k lower upper : bytes) (knd : WalEntryKind) (txn : Z) :=
  append_record (mkWalRecord page k lower upper knd txn Tombstone).

Definition append_put (page : Z) (k value lower upper : bytes) (knd : WalEntryKind) (txn : Z) :=
  append_record (mkWalRecord page k lower upper knd txn (Put value)).

Definition append_txn_marker (m : WalTxnMarker) (knd : WalEntryKind) (txn : Z) :=
  append_record (mkWalRecord TXN_META_PAGE_ID [] [] [] knd txn (TxnMarker m)).

(** The maximal runs of consecutive records of one page, as the two nested loops of
    [rewrite_records] cut them. *)
Fixpoint split_run (page : Z) (rs : list WalRecord) : list WalRecord * list WalRecord :=
  match rs with
  | r :: rs' => if page_id r =? page then let '(run, rest) := split_run page rs' in (r :: run, rest) else ([], rs)
  | [] => ([], [])
  end.

Fixpoint rewrite_loop (fuel : nat) (f : bytes) (stats : gmap Z LeafWalStats) (rs : list WalRecord)
    : outcome QSError (bytes * gmap Z LeafWalStats) :=
  match rs with
  | [] => Ok (f, stats)
  | r :: rs' =>
      match fuel with
      | O => Halt Undefined
      | S fuel =>
          let page := page_id r in
          let '(run, rest) := split_run page rs' in
          let group := r :: run in
          '(f, bytes_written) ← write_group f page group;
          let stats := <[page := match stats !! page with
              | Some e => mkStats (st_count e + Z.of_nat (length group)) (sat_add (st_bytes e) (Z.of_nat bytes_written))
              | None => mkStats (Z.of_nat (length group)) (Z.of_nat bytes_written)
              end]> stats in
          rewrite_loop fuel f stats rest
      end
  end.

Definition rewrite_records (f : bytes) (rs : list WalRecord) : outcome QSError (bytes * gmap Z LeafWalStats) :=
  rewrite_loop (length rs) (set_len f MANIFEST_LEN) ∅ rs.

Definition checkpoint_page (page : Z) (s : WalState) : outcome QSError WalState :=
  if forallb (fun r => negb (page_id r =? page)) (records s) then Ok s else
  let records := filter (fun r => page_id r <> page) (records s) in
  '(file, stats) ← rewrite_records (file s) records;
  let total_bytes := map_fold (fun _ e acc => sat_add acc (st_bytes e)) 0 stats in
  let checkpoint_len := Z.of_nat MANIFEST_LEN + total_bytes in
  Ok (mkWalState (write_manifest file checkpoint_len) records stats
        (Z.of_nat (length records)) total_bytes checkpoint_len).

Definition clear (s : WalState) : WalState :=
  let manifest := Z.of_nat MANIFEST_LEN in
  mkWalState (write_manifest (set_len (file s) MANIFEST_LEN) manifest) [] ∅ 0 0 manifest.

Definition should_checkpoint_page (s : WalState) (page threshold : Z) : bool :=
  match leaf_counts s !! page with Some e => threshold <=? st_count e | None => false end.

Definition leaf_stats (s : WalState) (page : Z) : option (Z * Z) :=
  (fun e => (st_count e, st_bytes e)) <$> leaf_counts s !! page.

(** [max_by_key]: the last of the maximal elements in iteration order.  The order a
    [HashMap] is iterated in is the argument [iter]. *)
Definition max_by_bytes (l : list (Z * LeafWalStats)) : option (Z * LeafWalStats) :=
  foldl (fun acc e =>
    match acc with
    | Some m => if st_bytes (snd m) <=? st_bytes (snd e) then Some e else Some m
    | None => Some e
    end) None l.

Definition global_checkpoint_candidate (s : WalState) (iter : list (Z * LeafWalStats))
    (total_record_threshold total_byte_threshold : Z) : option Z :=
  if (total_records s <? total_record_threshold) && (total_bytes s <? total_byte_threshold) then None
  else fst <$> max_by_bytes (filter (fun e => e.1 <> TXN_META_PAGE_ID) iter).

(** * Encoding and decoding *)

(** A record the format can represent: 64-bit ids, 32-bit lengths, and no key or
    fences on a transaction marker. *)
Definition small (b : bytes) : Prop := Z.of_nat (length b) < 2 ^ 32.

Definition record_ok (r : WalRecord) : Prop :=
  is_u64 (page_id r) /\ is_u64 (txn_id r) /\ small (key r) /\ small (lower_fence r) /\ small (upper_fence r) /\
  match op r with
  | Put v => small v
  | Tombstone => True
  | TxnMarker _ => key r = [] /\ lower_fence r = [] /\ upper_fence r = []
  end.

#[global] Instance record_ok_dec r : Decision (record_ok r).
Proof. unfold record_ok, small, is_u64. destruct (op r); apply _. Defined.

Lemma length_le32 n : length (le32 n) = 4%nat.
Proof. apply length_le_split. Qed.

Lemma le_combine_u64 w tl : is_u64 w -> le_combine (take 8 (le_split 8 w ++ tl)) = w.
Proof.
  intros Hw. rewrite take_app_length' by (by rewrite length_le_split).
  rewrite le_combine_split. by apply Z.mod_small.
Qed.

Lemma drop_u64 w tl : drop 8 (le_split 8 w ++ tl) = tl.
Proof. by rewrite drop_app_length' by (by rewrite length_le_split). Qed.

Lemma take_u32_app b tl : small b -> take_u32 (le32 (length b) ++ tl) = (Z.of_nat (length b), tl).
Proof.
  intros Hb. unfold take_u32, le32. rewrite take_app_length' by (by rewrite length_le_split).
  rewrite drop_app_length' by (by rewrite length_le_split). rewrite le_combine_split.
  unfold small, u32 in *. by rewrite !Z.mod_small by (rewrite ?Z.mod_small; lia).
Qed.

Lemma take_vec_app b tl : take_vec (Z.of_nat (length b)) (b ++ tl) = (b, tl).
Proof. unfold take_vec. rewrite Nat2Z.id. by rewrite take_app_length, drop_app_length. Qed.

Lemma kind_roundtrip k : kind_from_byte (le_combine [byte.of_Z (kind_as_byte k)]) = k.
Proof. by destruct k. Qed.

(** The first ten bytes of a record. *)
Definition record_tag (r : WalRecord) : Z :=
  match op r with Put _ => RECORD_TYPE_PUT | Tombstone => RECORD_TYPE_TOMBSTONE | TxnMarker m => to_record_type m end.

Definition record_head (r : WalRecord) : bytes :=
  [byte.of_Z (record_tag r)] ++ [byte.of_Z (kind_as_byte (kind r))] ++ le_split 8 (txn_id r).

(** The lengths, and the data they announce. *)
Definition record_lens (r : WalRecord) : bytes :=
  match op r with
  | Put v => le32 (length (key r)) ++ le32 (length v) ++ le32 (length (lower_fence r)) ++ le32 (length (upper_fence r))
  | Tombstone => le32 (length (key r)) ++ le32 (length (lower_fence r)) ++ le32 (length (upper_fence r))
  | TxnMarker _ => []
  end.

Definition record_data (r : WalRecord) : bytes :=
  match op r with
  | Put v => key r ++ v ++ lower_fence r ++ upper_fence r
  | Tombstone => key r ++ lower_fence r ++ upper_fence r
  | TxnMarker _ => []
  end.

Lemma payload_parts r : write_record_payload r = record_head r ++ record_lens r ++ record_data r.
Proof.
  unfold write_record_payload, record_head, record_lens, record_data, record_tag.
  destruct (op r); rewrite ?app_nil_r; repeat rewrite <-(assoc_L (++)); done.
Qed.

Lemma length_record_head r : length (record_head r) = 10%nat.
Proof. unfold record_head. by rewrite !length_app, length_le_split. Qed.

Lemma length_payload r : length (write_record_payload r) = record_size r.
Proof.
  unfold write_record_payload, record_size. destruct (op r);
    rewrite !length_app, ?length_le32, ?length_le_split; simpl; lia.
Qed.

(** What [read_record] does after a complete head. *)
Definition read_body (page : Z) (r : WalRecord) (bs : bytes) : option (WalRecord * bytes) :=
  match op r with
  | Put _ =>
      if (length bs <? 16)%nat then None else
      let '(key_len, bs) := take_u32 bs in
      let '(val_len, bs) := take_u32 bs in
      let '(lower_len, bs) := take_u32 bs in
      let '(upper_len, bs) := take_u32 bs in
      if Z.of_nat (length bs) <? key_len + val_len + lower_len + upper_len then None else
      let '(k, bs) := take_vec key_len bs in
      let '(v, bs) := take_vec val_len bs in
      let '(lo, bs) := take_vec lower_len bs in
      let '(up, bs) := take_vec upper_len bs in
      Some (mkWalRecord page k lo up (kind r) (txn_id r) (Put v), bs)
  | Tombstone =>
      if (length bs <? 12)%nat then None else
      let '(key_len, bs) := take_u32 bs in
      let '(lower_len, bs) := take_u32 bs in
      let '(upper_len, bs) := take_u32 bs in
      if Z.of_nat (length bs) <? key_len + lower_len + upper_len then None else
      let '(k, bs) := take_vec key_len bs in
      let '(lo, bs) := take_vec lower_len bs in
      let '(up, bs) := take_vec upper_len bs in
      Some (mkWalRecord page k lo up (kind r) (txn_id r) Tombstone, bs)
  | TxnMarker m => Some (mkWalRecord page [] [] [] (kind r) (txn_id r) (TxnMarker m), bs)
  end.

Lemma read_record_head page r bs :
  is_u64 (txn_id r) -> read_record page (record_head r ++ bs) = read_body page r bs.
Proof.
  intros Ht. unfold record_head. rewrite <-!(assoc_L (++)). unfold read_record.
  cbn [app]. rewrite (proj2 (Nat.ltb_ge _ _)).
  2: { cbn [length]. rewrite length_app, length_le_split. lia. }
  change (take 1 (byte.of_Z (kind_as_byte (kind r)) :: le_split 8 (txn_id r) ++ bs))
    with [byte.of_Z (kind_as_byte (kind r))].
  rewrite kind_roundtrip.
  change (drop 1 (byte.of_Z (kind_as_byte (kind r)) :: le_split 8 (txn_id r) ++ bs))
    with (le_split 8 (txn_id r) ++ bs).
  rewrite le_combine_u64, drop_u64 by done.
  unfold read_body, record_tag. destruct (op r) as [v| |[]]; reflexivity.
Qed.

Lemma read_record_roundtrip r tl :
  record_ok r -> read_record (page_id r) (write_record_payload r ++ tl) = Some (r, tl).
Proof.
  intros (Hp & Ht & Hk & Hl & Hu & Ho). rewrite payload_parts, <-!(assoc_L (++)).
  rewrite read_record_head by done. unfold read_body, record_lens, record_data.
  destruct r as [page k lo up knd txn o]; cbn [page_id key lower_fence upper_fence kind txn_id op] in *. destruct o as [v| |m].
  - rewrite (proj2 (Nat.ltb_ge _ _)) by (rewrite !length_app, !length_le32; lia).
    rewrite <-!(assoc_L (++)). rewrite !take_u32_app by done.
    rewrite (proj2 (Z.ltb_ge _ _)) by (rewrite !length_app; lia).
    by rewrite !take_vec_app.
  - rewrite (proj2 (Nat.ltb_ge _ _)) by (rewrite !length_app, !length_le32; lia).
    rewrite <-!(assoc_L (++)). rewrite !take_u32_app by done.
    rewrite (proj2 (Z.ltb_ge _ _)) by (rewrite !length_app; lia).
    by rewrite !take_vec_app.
  - destruct Ho as (-> & -> & ->). done.
Qed.

(** A record cut short is not read. *)
Lemma read_record_torn r n :
  record_ok r -> (n < length (write_record_payload r))%nat ->
  read_record (page_id r) (take n (write_record_payload r)) = None.
Proof.
  intros (Hp & Ht & Hk & Hl & Hu & Ho) Hn. rewrite payload_parts in *.
  rewrite !length_app, length_record_head in Hn.
  destruct (decide (n < 10)%nat) as [Hlt|Hge].
  { rewrite take_app_le by (rewrite length_record_head; lia).
    assert (length (take n (record_head r)) = n) as Hln by (rewrite length_take, length_record_head; lia).
    destruct (take n (record_head r)) as [|b bs]; [done|]. simpl in *.
    by rewrite (proj2 (Nat.ltb_lt _ _)) by lia. }
  rewrite take_app_ge, length_record_head by (rewrite length_record_head; lia).
  rewrite read_record_head by done. unfold read_body, record_lens, record_data in *.
  destruct r as [page k lo up knd txn o]; cbn [page_id key lower_fence upper_fence kind txn_id op] in *. destruct o as [v| |m]; [| |simpl in Hn; lia].
  - rewrite <-!(assoc_L (++)). rewrite !length_app, !length_le32 in Hn.
    destruct (decide (n - 10 < 16)%nat).
    { by rewrite (proj2 (Nat.ltb_lt _ _)) by (rewrite length_take; lia). }
    do 4 (rewrite take_app_ge, length_le32 by (rewrite length_le32; lia)).
    rewrite (proj2 (Nat.ltb_ge _ _)) by (rewrite !length_app, !length_le32; lia).
    rewrite !take_u32_app by done.
    by rewrite (proj2 (Z.ltb_lt _ _)) by (rewrite length_take, !length_app; lia).
  - rewrite <-!(assoc_L (++)). rewrite !length_app, !length_le32 in Hn.
    destruct (decide (n - 10 < 12)%nat).
    { by rewrite (proj2 (Nat.ltb_lt _ _)) by (rewrite length_take; lia). }
    do 3 (rewrite take_app_ge, length_le32 by (rewrite length_le32; lia)).
    rewrite (proj2 (Nat.ltb_ge _ _)) by (rewrite !length_app, !length_le32; lia).
    rewrite !take_u32_app by done.
    by rewrite (proj2 (Z.ltb_lt _ _)) by (rewrite length_take, !length_app; lia).
Qed.

(** ** Groups *)

Abbreviation group := (Z * list WalRecord)%type.

Definition group_ok (g : group) : Prop :=
  g.2 <> [] /\ Z.of_nat (length g.2) < 2 ^ 32 /\ is_u64 g.1 /\
  Forall (fun r => page_id r = g.1 /\ record_ok r) g.2.

Definition payloads (rs : list WalRecord) : bytes := mjoin (write_record_payload <$> rs).

Definition encode_group (g : group) : bytes :=
  [byte.of_Z GROUP_MARKER] ++ le_split 8 g.1 ++ le_split 4 (Z.of_nat (length g.2)) ++ payloads g.2.

Definition encode_groups (gs : list group) : bytes := mjoin (encode_group <$> gs).

Definition group_size (g : group) : nat := (GROUP_HEADER_LEN + sum_list (record_size <$> g.2))%nat.

Lemma payloads_cons r rs : payloads (r :: rs) = write_record_payload r ++ payloads rs.
Proof. done. Qed.

Lemma length_payloads rs : length (payloads rs) = sum_list (record_size <$> rs).
Proof. induction rs as [|r rs IH]; [done|]. rewrite payloads_cons, length_app, length_payload, IH. done. Qed.

Lemma length_encode_group g : length (encode_group g) = group_size g.
Proof.
  unfold encode_group, group_size, GROUP_HEADER_LEN. rewrite !length_app, !length_le_split, length_payloads.
  simpl. lia.
Qed.

Lemma foldl_payloads f rs : foldl (fun f r => f ++ write_record_payload r) f rs = f ++ payloads rs.
Proof.
  revert f; induction rs as [|r rs IH]; intros f; simpl; [by rewrite app_nil_r|].
  by rewrite IH, payloads_cons, (assoc_L (++)).
Qed.

Lemma write_group_encode f g :
  g.2 <> [] -> Z.of_nat (length g.2) < 2 ^ 32 ->
  write_group f g.1 g.2 = Ok (f ++ encode_group g, group_size g).
Proof.
  destruct g as [page [|r rs]]; [done|]. simpl fst. simpl snd. intros _ Hc. unfold write_group.
  rewrite (proj2 (Z.ltb_lt _ _)) by done. cbn [mbind outcome_bind expect].
  rewrite foldl_payloads. unfold encode_group. simpl fst. simpl snd. by rewrite <-!(assoc_L (++)).
Qed.

Lemma record_size_pos r : (10 <= record_size r)%nat.
Proof. unfold record_size. destruct (op r); lia. Qed.

Lemma length_payloads_ge rs : (length rs <= length (payloads rs))%nat.
Proof.
  induction rs as [|r rs IH]; [done|]. rewrite payloads_cons, length_app, length_payload.
  pose proof (record_size_pos r). cbn [length]. lia.
Qed.

Lemma read_group_roundtrip page rs tl fuel :
  Forall (fun r => page_id r = page /\ record_ok r) rs -> (length rs <= fuel)%nat ->
  read_group fuel page (Z.of_nat (length rs)) (payloads rs ++ tl) =
    (rs, Some (sum_list (record_size <$> rs), tl)).
Proof.
  revert fuel; induction rs as [|r rs IH]; intros fuel Hok Hf; [by destruct fuel|].
  apply Forall_cons_iff in Hok as [[Hp Hr] Hok]. destruct fuel as [|fuel]; [simpl in Hf; lia|].
  cbn [read_group]. rewrite (proj2 (Z.leb_gt _ _)) by (simpl; lia).
  rewrite payloads_cons, <-(assoc_L (++)). rewrite <-Hp, read_record_roundtrip by done. rewrite Hp.
  replace (Z.of_nat (length (r :: rs)) - 1) with (Z.of_nat (length rs)) by (simpl; lia).
  rewrite IH by (done || (simpl in Hf; lia)). done.
Qed.

Definition add_group (pb : gmap Z Z) (g : group) : gmap Z Z :=
  add_page_bytes pb g.1 (Z.of_nat (group_size g)).

Lemma take_u32_small n tl :
  Z.of_nat n < 2 ^ 32 -> take_u32 (le_split 4 (Z.of_nat n) ++ tl) = (Z.of_nat n, tl).
Proof.
  intros Hn. unfold take_u32. rewrite take_app_length' by (by rewrite length_le_split).
  rewrite drop_app_length' by (by rewrite length_le_split).
  rewrite le_combine_split, Z.mod_small by (simpl; lia). done.
Qed.

(** One turn of the outer loop on a complete header. *)
Lemma read_groups_header fuel (g : group) (bs : bytes) acc pb v :
  is_u64 g.1 -> Z.of_nat (length g.2) < 2 ^ 32 ->
  read_groups (S fuel) ([byte.of_Z GROUP_MARKER] ++ le_split 8 g.1 ++ le_split 4 (Z.of_nat (length g.2)) ++ bs)
      acc pb v =
    let '(rs, res) := read_group (length bs) g.1 (Z.of_nat (length g.2)) bs in
    match res with
    | None => (acc ++ rs, pb, v)
    | Some (payload, bs') =>
        read_groups fuel bs' (acc ++ rs) (add_page_bytes pb g.1 (Z.of_nat (GROUP_HEADER_LEN + payload)))
          (v + (GROUP_HEADER_LEN + (length bs - length bs')))
    end.
Proof.
  intros Hp Hc. cbn [read_groups]. rewrite (proj2 (Nat.ltb_ge _ _)).
  2: { unfold GROUP_HEADER_LEN. rewrite !length_app, !length_le_split. simpl. lia. }
  change (take 1 ([byte.of_Z GROUP_MARKER] ++ ?x)) with [byte.of_Z GROUP_MARKER].
  change (le_combine [byte.of_Z GROUP_MARKER] =? GROUP_MARKER) with true. cbn [negb].
  change (drop 1 ([byte.of_Z GROUP_MARKER] ++ ?x)) with x.
  rewrite le_combine_u64, drop_u64 by done. by rewrite take_u32_small.
Qed.

Lemma read_groups_step fuel (g : group) (tl : bytes) acc pb v :
  group_ok g ->
  read_groups (S fuel) (encode_group g ++ tl) acc pb v =
    read_groups fuel tl (acc ++ g.2) (add_group pb g) (v + group_size g).
Proof.
  intros (Hne & Hc & Hp & Hok). unfold encode_group. rewrite <-!(assoc_L (++)).
  rewrite read_groups_header by done.
  rewrite read_group_roundtrip; [|done|rewrite length_app; pose proof (length_payloads_ge g.2); lia].
  unfold add_group, group_size. f_equal. rewrite length_app, length_payloads. lia.
Qed.

Lemma read_groups_app fuel (gs : list group) (tl : bytes) acc pb v :
  Forall group_ok gs ->
  read_groups (length gs + fuel) (encode_groups gs ++ tl) acc pb v =
    read_groups fuel tl (acc ++ mjoin (snd <$> gs)) (foldl add_group pb gs)
      (v + length (encode_groups gs)).
Proof.
  revert acc pb v; induction gs as [|g gs IH]; intros acc pb v Hok.
  - simpl. rewrite app_nil_r, Nat.add_0_r. done.
  - apply Forall_cons_iff in Hok as [Hg Hok]. unfold encode_groups in *. cbn [fmap list_fmap mjoin list_join].
    cbn [length Nat.add foldl]. rewrite <-(assoc_L (++)).
    rewrite read_groups_step, IH by done. rewrite <-(assoc_L (++)), length_app, length_encode_group.
    f_equal. symmetry. apply Nat.add_assoc.
Qed.

(** A group of one record cut short is not read: nothing of it is returned. *)
Lemma read_groups_torn fuel r n acc pb v :
  record_ok r -> (n < length (encode_group (page_id r, [r])))%nat ->
  read_groups fuel (take n (encode_group (page_id r, [r]))) acc pb v = (acc, pb, v).
Proof.
  intros Hr Hn. destruct fuel as [|fuel]; [done|]. pose proof Hr as (Hp & _).
  set (g := (page_id r, [r])) in *.
  destruct (decide (n < GROUP_HEADER_LEN)%nat) as [Hlt|Hge].
  { cbn [read_groups]. by rewrite (proj2 (Nat.ltb_lt _ _)) by (rewrite length_take; lia). }
  assert (take n (encode_group g) =
    [byte.of_Z GROUP_MARKER] ++ le_split 8 g.1 ++ le_split 4 (Z.of_nat (length g.2)) ++
      take (n - 13) (write_record_payload r)) as ->.
  { unfold encode_group, payloads. simpl (mjoin _). rewrite app_nil_r. unfold GROUP_HEADER_LEN in Hge.
    rewrite take_app_ge by (simpl; lia). rewrite take_app_ge by (rewrite length_le_split; simpl; lia).
    rewrite take_app_ge by (rewrite !length_le_split; simpl; lia). rewrite !length_le_split.
    do 4 f_equal. simpl; lia. }
  rewrite read_groups_header by (done || simpl; lia). rewrite length_encode_group in Hn.
  unfold group_size, GROUP_HEADER_LEN in *. simpl in Hn.
  assert (read_record g.1 (take (n - 13) (write_record_payload r)) = None) as Hnone.
  { apply read_record_torn; [done|]. rewrite length_payload. lia. }
  destruct (length (take (n - 13) _)); cbn [read_group]; [|rewrite Hnone];
    rewrite (proj2 (Z.leb_gt _ _)) by (simpl; lia); by rewrite app_nil_r.
Qed.

#[local] Arguments group_size : simpl never.
#[local] Arguments encode_group : simpl never.
#[local] Arguments record_size : simpl never.

(** * Statistics per page *)

(** The count and bytes of a page, as the groups of the file determine them. *)
Definition page_groups (page : Z) (gs : list group) : list group := filter (fun g => g.1 = page) gs.
Definition count_of (page : Z) (gs : list group) : Z :=
  Z.of_nat (sum_list ((fun g => length g.2) <$> page_groups page gs)).
Definition bytes_of (page : Z) (gs : list group) : Z :=
  Z.of_nat (sum_list (group_size <$> page_groups page gs)).
Definition total_size (gs : list group) : Z := Z.of_nat (sum_list (group_size <$> gs)).

Definition stats_of (gs : list group) (page : Z) : option LeafWalStats :=
  match page_groups page gs with
  | [] => None
  | _ :: _ => Some (mkStats (count_of page gs) (bytes_of page gs))
  end.

(** One group added to the statistics, as [rewrite_records] does. *)
Definition stat_add (m : gmap Z LeafWalStats) (g : group) : gmap Z LeafWalStats :=
  <[g.1 := match m !! g.1 with
      | Some e => mkStats (st_count e + Z.of_nat (length g.2)) (sat_add (st_bytes e) (Z.of_nat (group_size g)))
      | None => mkStats (Z.of_nat (length g.2)) (Z.of_nat (group_size g))
      end]> m.

Lemma page_groups_snoc page gs g :
  page_groups page (gs ++ [g]) = page_groups page gs ++ (if decide (g.1 = page) then [g] else []).
Proof. unfold page_groups. rewrite filter_app, filter_cons, filter_nil. done. Qed.

Lemma sum_list_snoc l x : sum_list (l ++ [x]) = (sum_list l + x)%nat.
Proof. induction l; simpl; lia. Qed.

Lemma total_size_snoc gs g : total_size (gs ++ [g]) = total_size gs + Z.of_nat (group_size g).
Proof. unfold total_size. rewrite fmap_app. simpl. rewrite sum_list_snoc. lia. Qed.

Lemma length_encode_groups gs : Z.of_nat (length (encode_groups gs)) = total_size gs.
Proof.
  unfold total_size, encode_groups. f_equal. induction gs as [|g gs IH]; [done|].
  change (length (encode_group g ++ mjoin (encode_group <$> gs)) =
          (group_size g + sum_list (group_size <$> gs))%nat).
  by rewrite length_app, length_encode_group, IH.
Qed.

Lemma bytes_of_le page gs : 0 <= bytes_of page gs <= total_size gs.
Proof.
  unfold bytes_of, total_size, page_groups. split; [lia|]. apply inj_le.
  induction gs as [|g gs IH]; [done|]. rewrite filter_cons, fmap_cons.
  case_decide; rewrite ?fmap_cons; cbn [sum_list]; lia.
Qed.

Lemma stats_of_snoc page gs g :
  stats_of (gs ++ [g]) page =
    if decide (g.1 = page) then
      Some (mkStats (default 0 (st_count <$> stats_of gs page) + Z.of_nat (length g.2))
              (default 0 (st_bytes <$> stats_of gs page) + Z.of_nat (group_size g)))
    else stats_of gs page.
Proof.
  unfold stats_of, count_of, bytes_of. rewrite page_groups_snoc. case_decide.
  - rewrite !fmap_app. simpl. rewrite !sum_list_snoc.
    destruct (page_groups page gs) as [|g' l]; simpl; f_equal; f_equal; lia.
  - rewrite app_nil_r. done.
Qed.

Lemma stat_add_lookup gs page :
  total_size gs <= u64_max -> foldl stat_add ∅ gs !! page = stats_of gs page.
Proof.
  induction gs as [|g gs IH] using rev_ind; intros Ht; [done|].
  rewrite total_size_snoc in Ht. rewrite foldl_app. cbn [foldl]. unfold stat_add at 1.
  rewrite lookup_insert, stats_of_snoc. case_decide as Hd; [|apply IH; lia].
  rewrite Hd, IH by lia. unfold stats_of at 1 2 3. pose proof (bytes_of_le page gs).
  unfold stats_of. destruct (page_groups page gs); simpl; [by rewrite !Z.add_0_l|].
  unfold sat_add. by rewrite Z.min_l by lia.
Qed.

Lemma stat_add_snoc gs g : foldl stat_add ∅ (gs ++ [g]) = stat_add (foldl stat_add ∅ gs) g.
Proof. by rewrite foldl_app. Qed.

(** The statistics built while opening the file agree. *)
Lemma bump_count_lookup rs m page :
  foldl (fun m r => bump_count m (page_id r)) m rs !! page =
    match length (filter (fun r => page_id r = page) rs) with
    | O => m !! page
    | n => let e := default (mkStats 0 0) (m !! page) in Some (mkStats (st_count e + Z.of_nat n) (st_bytes e))
    end.
Proof.
  revert m; induction rs as [|r rs IH]; intros m; [done|]. cbn [foldl]. rewrite IH, filter_cons.
  unfold bump_count at 1 2. rewrite lookup_insert. case_decide as Hd.
  - rewrite Hd. cbn [length].
    destruct (length (filter _ rs)); simpl; f_equal; f_equal; lia.
  - done.
Qed.

Lemma add_group_lookup gs page :
  total_size gs <= u64_max ->
  foldl add_group ∅ gs !! page =
    match page_groups page gs with [] => None | _ :: _ => Some (bytes_of page gs) end.
Proof.
  induction gs as [|g gs IH] using rev_ind; intros Ht; [done|].
  rewrite total_size_snoc in Ht. rewrite foldl_app. cbn [foldl]. unfold add_group at 1, add_page_bytes.
  rewrite lookup_insert. unfold bytes_of. rewrite page_groups_snoc. case_decide as Hd.
  - rewrite Hd, IH by lia. rewrite fmap_app. simpl. rewrite sum_list_snoc. unfold bytes_of.
    pose proof (bytes_of_le page gs) as Hb. unfold bytes_of in Hb.
    destruct (page_groups page gs) as [|g' l]; simpl in *; [f_equal; lia|].
    unfold sat_add. rewrite Z.min_l by lia. f_equal. lia.
  - rewrite app_nil_r. by apply IH; lia.
Qed.

Lemma set_bytes_fold (pb : gmap Z Z) (m : gmap Z LeafWalStats) page :
  map_fold (fun page bytes m => set_bytes m page bytes) m pb !! page =
    match pb !! page with
    | Some b => Some (mkStats (default 0 (st_count <$> m !! page)) b)
    | None => m !! page
    end.
Proof.
  revert page. apply (map_fold_weak_ind (fun m' pb => forall page, m' !! page =
    match pb !! page with
    | Some b => Some (mkStats (default 0 (st_count <$> m !! page)) b)
    | None => m !! page end)).
  - intros page. by rewrite lookup_empty.
  - intros i x pb' m' Hi IH page. unfold set_bytes. rewrite !lookup_insert. case_decide as Hd.
    + subst. rewrite IH, Hi. by destruct (m !! page).
    + apply IH.
Qed.

(** ** Rewriting *)

(** The groups a list of records is rewritten as: its maximal runs per page. *)
Definition runs (rs : list WalRecord) : list group :=
  foldr (fun r gs =>
    match gs with
    | (p, l) :: gs' => if p =? page_id r then (p, r :: l) :: gs' else (page_id r, [r]) :: gs
    | [] => [(page_id r, [r])]
    end) [] rs.

Lemma runs_cons r rs :
  runs (r :: rs) = match runs rs with
    | (p, l) :: gs' => if p =? page_id r then (p, r :: l) :: gs' else (page_id r, [r]) :: runs rs
    | [] => [(page_id r, [r])]
    end.
Proof. unfold runs. simpl. by destruct (foldr _ [] rs) as [|[]]. Qed.

#[local] Arguments runs : simpl never.

Lemma runs_head r rs : exists l gs, runs (r :: rs) = (page_id r, r :: l) :: gs.
Proof.
  rewrite runs_cons. destruct (runs rs) as [|[p l] gs]; [eauto|].
  destruct (Z.eqb_spec p (page_id r)) as [->|]; eauto.
Qed.

Lemma split_run_runs r rs run rest :
  split_run (page_id r) rs = (run, rest) -> runs (r :: rs) = (page_id r, r :: run) :: runs rest.
Proof.
  revert r run rest; induction rs as [|r' rs IH]; intros r run rest; simpl; [by intros [= <- <-]|].
  destruct (Z.eqb_spec (page_id r') (page_id r)) as [He|Hne].
  - destruct (split_run (page_id r) rs) as [run' rest'] eqn:E. intros [= <- <-].
    rewrite runs_cons, (IH r' run' rest') by (by rewrite He). by rewrite He, Z.eqb_refl.
  - intros [= <- <-]. rewrite (runs_cons r). destruct (runs_head r' rs) as (l & gs & ->).
    by rewrite (proj2 (Z.eqb_neq _ _)).
Qed.

Lemma split_run_app page rs run rest : split_run page rs = (run, rest) -> rs = run ++ rest.
Proof.
  revert run rest; induction rs as [|r rs IH]; intros run rest; simpl; [by intros [= <- <-]|].
  destruct (page_id r =? page); [|by intros [= <- <-]].
  destruct (split_run page rs) as [run' rest']. intros [= <- <-]. simpl. f_equal. by apply IH.
Qed.

Lemma runs_join rs : mjoin (snd <$> runs rs) = rs.
Proof.
  induction rs as [|r rs IH]; [done|]. rewrite runs_cons.
  destruct (runs rs) as [|[p l] gs]; simpl in *; [by subst|].
  destruct (p =? page_id r); simpl; by rewrite IH.
Qed.

(** [group_ok] with a bound on the number of records. *)
Definition run_ok (n : nat) (g : group) : Prop :=
  g.2 <> [] /\ (length g.2 <= n)%nat /\ is_u64 g.1 /\
  Forall (fun r => page_id r = g.1 /\ record_ok r) g.2.

Lemma run_ok_le n m g : (n <= m)%nat -> run_ok n g -> run_ok m g.
Proof. intros ? (?&?&?&?). split_and!; [done|lia|done..]. Qed.

Lemma run_ok_single n r : record_ok r -> run_ok (S n) (page_id r, [r]).
Proof. intros Hr. pose proof Hr as [Hp _]. split_and!; [done|simpl; lia|done|by apply Forall_singleton]. Qed.

Lemma runs_run_ok rs : Forall record_ok rs -> Forall (run_ok (length rs)) (runs rs).
Proof.
  induction 1 as [|r rs Hr Hok IH]; [constructor|]. rewrite runs_cons. cbn [length].
  assert (forall gs, Forall (run_ok (length rs)) gs -> Forall (run_ok (S (length rs))) gs) as Hm.
  { intros gs Hg. eapply Forall_impl; [exact Hg|]. intros g. apply run_ok_le. lia. }
  destruct (runs rs) as [|[p l] gs]; [by constructor; [apply run_ok_single|]|].
  destruct (Z.eqb_spec p (page_id r)) as [->|]; [|by constructor; [apply run_ok_single|apply Hm]].
  apply Forall_cons_iff in IH as [(?&?&?&?) IH]. constructor; [|by apply Hm].
  simpl in *. split_and!; simpl; [done|lia|done|by constructor].
Qed.

Lemma runs_ok rs :
  Forall record_ok rs -> Z.of_nat (length rs) < 2 ^ 32 -> Forall group_ok (runs rs).
Proof.
  intros Hok Hlen. eapply Forall_impl; [by apply runs_run_ok|]. intros g (?&?&?&?).
  split_and!; [done|lia|done..].
Qed.

Lemma rewrite_loop_runs fuel f stats rs :
  Z.of_nat (length rs) < 2 ^ 32 -> (length rs <= fuel)%nat ->
  rewrite_loop fuel f stats rs = Ok (f ++ encode_groups (runs rs), foldl stat_add stats (runs rs)).
Proof.
  revert f stats rs; induction fuel as [|fuel IH]; intros f stats [|r rs] Hlen Hf; simpl in Hf; try lia.
  - simpl. by rewrite app_nil_r.
  - simpl. by rewrite app_nil_r.
  - cbn [rewrite_loop]. destruct (split_run (page_id r) rs) as [run rest] eqn:E.
    pose proof (split_run_app _ _ _ _ E) as ->. rewrite length_app in *. cbn [length] in Hlen.
    rewrite length_app in Hlen.
    change (write_group f (page_id r) (r :: run))
      with (write_group f (page_id r, r :: run).1 (page_id r, r :: run).2).
    rewrite write_group_encode by (done || (cbn [snd length]; lia)).
    cbn [mbind outcome_bind]. rewrite IH by lia. rewrite (split_run_runs _ _ _ _ E).
    unfold encode_groups. by rewrite <-(assoc_L (++)).
Qed.

(** The bytes of all pages, as [checkpoint_page] adds them up. *)
Definition stats_bytes (m : gmap Z LeafWalStats) : Z := map_fold (fun _ e acc => acc + st_bytes e) 0 m.

Lemma stats_bytes_insert m i e :
  m !! i = None -> stats_bytes (<[i := e]> m) = stats_bytes m + st_bytes e.
Proof. intros Hi. unfold stats_bytes. rewrite map_fold_insert_L; [done|intros; lia|done]. Qed.

Lemma stats_bytes_replace m i e e' :
  m !! i = Some e -> stats_bytes (<[i := e']> m) = stats_bytes m - st_bytes e + st_bytes e'.
Proof.
  intros Hi. rewrite <-(insert_delete_id m i e Hi) at 2. rewrite <-insert_delete_eq.
  rewrite !stats_bytes_insert by apply lookup_delete_eq. lia.
Qed.

Lemma stats_bytes_total gs : total_size gs <= u64_max -> stats_bytes (foldl stat_add ∅ gs) = total_size gs.
Proof.
  induction gs as [|g gs IH] using rev_ind; intros Ht; [done|].
  rewrite total_size_snoc in *. rewrite stat_add_snoc. unfold stat_add at 1.
  pose proof (stat_add_lookup gs g.1 ltac:(lia)) as Hl.
  destruct (foldl stat_add ∅ gs !! g.1) as [e|] eqn:E.
  - rewrite (stats_bytes_replace _ _ e) by done. rewrite IH by lia. cbn [st_bytes].
    assert (st_bytes e <= total_size gs) as Hle.
    { unfold stats_of in Hl. destruct (page_groups g.1 gs); simplify_eq. apply bytes_of_le. }
    unfold sat_add. rewrite Z.min_l by lia. lia.
  - rewrite stats_bytes_insert by done. rewrite IH by lia. done.
Qed.

Lemma stats_bytes_sat (m : gmap Z LeafWalStats) :
  (forall i e, m !! i = Some e -> 0 <= st_bytes e) -> stats_bytes m <= u64_max ->
  map_fold (fun _ e acc => sat_add acc (st_bytes e)) 0 m = stats_bytes m.
Proof.
  unfold stats_bytes. rewrite !map_fold_foldr. intros Hpos.
  assert (Forall (fun p : Z * LeafWalStats => 0 <= st_bytes p.2) (map_to_list m)) as Hall.
  { apply Forall_forall. intros [i e] Hin. apply elem_of_map_to_list in Hin. eauto. }
  clear Hpos. induction Hall as [|[i e] l He Hall IH]; [done|]. simpl. intros Hb.
  assert (0 <= foldr (uncurry (fun (_ : Z) (e : LeafWalStats) (acc : Z) => acc + st_bytes e)) 0 l) as H0.
  { clear -Hall. induction Hall as [|[] ? ? ? IH]; simpl in *; lia. }
  simpl in He. rewrite IH by lia. unfold sat_add. lia.
Qed.

(** ** The manifest *)

Definition manifest (n : Z) : bytes := write_manifest [] n.

Lemma length_manifest n : length (manifest n) = MANIFEST_LEN.
Proof.
  unfold manifest, write_manifest. rewrite drop_nil, app_nil_r.
  repeat rewrite length_splice; unfold in_range; repeat rewrite length_splice; unfold in_range;
    rewrite ?length_le_split; vm_compute; lia.
Qed.

Lemma write_manifest_app f n : write_manifest f n = manifest n ++ drop MANIFEST_LEN f.
Proof. unfold manifest, write_manifest. by rewrite drop_nil, app_nil_r. Qed.

Lemma manifest_fields n :
  is_u64 n ->
  slice (manifest n) 0 4 = MANIFEST_MAGIC /\ le_combine (slice (manifest n) 4 4) = MANIFEST_VERSION /\
  le_combine (slice (manifest n) 8 8) = n.
Proof.
  intros Hn. unfold manifest, write_manifest. rewrite drop_nil, app_nil_r. split_and!.
  - rewrite slice_splice_ne; [done| |rewrite length_le_split; lia].
    unfold in_range. rewrite length_le_split. vm_compute. lia.
  - rewrite slice_splice_ne; [done| |rewrite length_le_split; lia].
    unfold in_range. rewrite length_le_split. vm_compute. lia.
  - pose proof (slice_splice_same (splice (splice (replicate MANIFEST_LEN Byte.x00) 0 MANIFEST_MAGIC) 4
      (le_split 4 MANIFEST_VERSION)) 8 (le_split 8 n)) as H.
    rewrite length_le_split in H. rewrite H by (unfold in_range; vm_compute; lia).
    rewrite le_combine_split. by apply Z.mod_small.
Qed.

Lemma read_manifest_ok n tl :
  32 <= n < 2 ^ 64 -> read_manifest (manifest n ++ tl) = (manifest n ++ tl, n).
Proof.
  intros Hn. destruct (manifest_fields n) as (Hm & Hv & Hc); [unfold is_u64; lia|].
  unfold read_manifest. rewrite (proj2 (Nat.ltb_ge _ _)) by (rewrite length_app, length_manifest; lia).
  rewrite take_app_length' by (by rewrite length_manifest). rewrite Hm, Hv, Hc.
  rewrite bool_decide_true by done. cbn [negb orb]. rewrite Z.eqb_refl. cbn [negb].
  by rewrite Z.max_l by (unfold MANIFEST_LEN; lia).
Qed.

(** * The invariant of the manager

    [gs] are the groups in the file.  The in-memory copies (the records, their number,
    the statistics) are functions of [gs].  [total_bytes] counts the manifest after
    [open] but not after [checkpoint_page] or [clear]. *)
Record wal_inv (s : WalState) (gs : list group) : Prop := {
  inv_ckpt : 32 <= checkpoint_len s < 2 ^ 64;
  inv_file : file s = manifest (checkpoint_len s) ++ encode_groups gs;
  inv_groups : Forall group_ok gs;
  inv_records : records s = mjoin (snd <$> gs);
  inv_total : total_records s = Z.of_nat (length (records s));
  inv_stats : leaf_counts s = foldl stat_add ∅ gs;
  inv_bytes : total_bytes s = total_size gs \/ total_bytes s = 32 + total_size gs;
  inv_bound : 32 + total_size gs <= u64_max }.

(** The records of the log, by page, are as many as the groups say. *)
Lemma count_of_filter gs page :
  Forall group_ok gs ->
  Z.of_nat (length (filter (fun r => page_id r = page) (mjoin (snd <$> gs)))) = count_of page gs.
Proof.
  unfold count_of. intros Hok. f_equal. unfold page_groups.
  induction Hok as [|g gs (_ & _ & _ & Hg) Hok IH]; [done|].
  change (length (filter (fun r => page_id r = page) (g.2 ++ mjoin (snd <$> gs))) =
    sum_list ((fun g => length g.2) <$> filter (fun g : group => g.1 = page) (g :: gs))).
  rewrite filter_app, length_app, IH, filter_cons. case_decide as Hd.
  - rewrite filter_all; [done|]. eapply Forall_impl; [exact Hg|]. naive_solver.
  - rewrite filter_none; [done|]. eapply Forall_impl; [exact Hg|]. naive_solver.
Qed.

Lemma page_groups_count gs page :
  Forall group_ok gs -> page_groups page gs = [] <-> count_of page gs = 0.
Proof.
  intros Hok. unfold count_of. split; [by intros ->|]. intros H0.
  destruct (page_groups page gs) as [|g l] eqn:E; [done|exfalso].
  assert (g ∈ page_groups page gs) as Hin by (rewrite E; set_solver).
  apply list_elem_of_filter in Hin as [_ Hin].
  apply (proj1 (Forall_forall _ _) Hok) in Hin as (Hne & _).
  rewrite fmap_cons in H0. cbn [sum_list] in H0. destruct g as [p [|]]; simpl in *; [done|lia].
Qed.

(** Opening the file: what the groups determine is rebuilt. *)
Lemma open_stats gs page_bytes :
  Forall group_ok gs -> total_size gs <= u64_max -> page_bytes = foldl add_group ∅ gs ->
  map_fold (fun page bytes m => set_bytes m page bytes)
    (foldl (fun m r => bump_count m (page_id r)) ∅ (mjoin (snd <$> gs))) page_bytes = foldl stat_add ∅ gs.
Proof.
  intros Hok Ht ->. apply map_eq. intros page.
  rewrite set_bytes_fold, add_group_lookup, stat_add_lookup, bump_count_lookup by done.
  pose proof (count_of_filter gs page Hok) as Hc. unfold stats_of.
  destruct (page_groups page gs) as [|g l] eqn:E.
  - apply (page_groups_count gs page Hok) in E. rewrite E in Hc.
    destruct (length (filter _ _)); [done|lia].
  - assert (count_of page gs <> 0) as Hne.
    { intros H. apply (page_groups_count gs page Hok) in H. congruence. }
    destruct (length (filter _ _)) as [|n]; [lia|]. rewrite lookup_empty. simpl.
    f_equal. f_equal. lia.
Qed.

(** A tail in which the reader finds no further record. *)
Definition unreadable (tl : bytes) : Prop :=
  forall fuel acc pb v, read_groups fuel tl acc pb v = (acc, pb, v).

Lemma unreadable_nil : unreadable [].
Proof. by intros [|fuel]. Qed.

Lemma unreadable_torn r n :
  record_ok r -> (n < length (encode_group (page_id r, [r])))%nat ->
  unreadable (take n (encode_group (page_id r, [r]))).
Proof. intros Hr Hn fuel acc pb v. by apply read_groups_torn. Qed.

Lemma length_encode_groups_ge gs : (length gs <= length (encode_groups gs))%nat.
Proof.
  induction gs as [|g gs IH]; [done|]. unfold encode_groups in *. 
  change (S (length gs) <= length (encode_group g ++ mjoin (encode_group <$> gs)))%nat.
  rewrite length_app, length_encode_group. unfold group_size, GROUP_HEADER_LEN. lia.
Qed.

Lemma read_records_ok n gs tl :
  Forall group_ok gs -> unreadable tl ->
  read_records (manifest n ++ encode_groups gs ++ tl) =
    (mjoin (snd <$> gs), foldl add_group ∅ gs, (MANIFEST_LEN + length (encode_groups gs))%nat).
Proof.
  intros Hok Htl. unfold read_records. rewrite drop_app_length' by (by rewrite length_manifest).
  set (bs := encode_groups gs ++ tl).
  assert (exists fuel, S (length bs) = (length gs + fuel)%nat) as [fuel ->].
  { exists (S (length bs) - length gs)%nat. unfold bs. rewrite length_app.
    pose proof (length_encode_groups_ge gs). lia. }
  unfold bs. rewrite read_groups_app by done. rewrite Htl. done.
Qed.

(** [open] on any file whose unread tail holds no record. *)
Lemma open_inv n gs tl :
  32 <= n < 2 ^ 64 -> Forall group_ok gs -> unreadable tl -> 32 + total_size gs <= u64_max ->
  wal_inv (open (manifest n ++ encode_groups gs ++ tl)) gs.
Proof.
  intros Hn Hok Htl Ht. unfold open. rewrite read_manifest_ok by done. rewrite read_records_ok by done.
  set (v := (MANIFEST_LEN + length (encode_groups gs))%nat).
  assert (Z.of_nat v = 32 + total_size gs) as Hv.
  { unfold v. rewrite Nat2Z.inj_add, length_encode_groups. done. }
  pose proof (bytes_of_le 0 gs) as Hts.
  assert ((if (v <? length (manifest n ++ encode_groups gs ++ tl))%nat
           then set_len (manifest n ++ encode_groups gs ++ tl) v
           else manifest n ++ encode_groups gs ++ tl) = manifest n ++ encode_groups gs) as ->.
  { assert (length (manifest n ++ encode_groups gs) = v) as Hl by (by rewrite length_app, length_manifest).
    rewrite (assoc_L (++)). rewrite length_app, Hl. destruct (Nat.ltb_spec v (v + length tl)).
    - unfold set_len. rewrite take_app_length' by done. rewrite length_app, Hl.
      replace (v - (v + length tl))%nat with 0%nat by lia. by rewrite app_nil_r.
    - destruct tl; [|simpl in *; lia]. by rewrite app_nil_r. }
  rewrite open_stats by (done || lia). unfold u64_max in *. rewrite Hv.
  destruct (Z.ltb_spec (32 + total_size gs) n); constructor; cbn [checkpoint_len file records leaf_counts total_records total_bytes];
    try done; try lia.
Qed.

Lemma total_bytes_bounds s gs : wal_inv s gs -> 0 <= total_bytes s <= 32 + total_size gs.
Proof. intros [? ? ? ? ? ? [->| ->] ?]; pose proof (bytes_of_le 0 gs); lia. Qed.

Lemma encode_groups_snoc gs g : encode_groups (gs ++ [g]) = encode_groups gs ++ encode_group g.
Proof. unfold encode_groups. rewrite fmap_app, join_app. simpl. by rewrite app_nil_r. Qed.

Lemma records_snoc (gs : list group) g : mjoin (snd <$> (gs ++ [g])) = mjoin (snd <$> gs) ++ g.2.
Proof. rewrite fmap_app, join_app. simpl. by rewrite app_nil_r. Qed.

(** The bytes one appended record takes. *)
Definition append_size (r : WalRecord) : Z := Z.of_nat (group_size (page_id r, [r])).

Lemma append_stats s gs r :
  wal_inv s gs -> 32 + total_size gs + append_size r <= u64_max ->
  (let m := bump_count (leaf_counts s) (page_id r) in
   match m !! page_id r with
   | Some e => <[page_id r := mkStats (st_count e) (sat_add (st_bytes e) (append_size r))]> m
   | None => m
   end) = foldl stat_add ∅ (gs ++ [(page_id r, [r])]).
Proof.
  intros Hinv Hb. rewrite (inv_stats _ _ Hinv), stat_add_snoc. unfold bump_count.
  set (m := foldl stat_add ∅ gs). unfold stat_add.
  rewrite lookup_insert_eq. cbn [fst snd length st_count st_bytes]. rewrite insert_insert_eq. f_equal.
  destruct (m !! page_id r) as [e|]; simpl; [done|].
  f_equal. unfold sat_add, append_size in *. pose proof (bytes_of_le 0 gs). lia.
Qed.

Lemma group_ok_single r : record_ok r -> group_ok (page_id r, [r]).
Proof. intros Hr. pose proof Hr as [Hp _]. split_and!; [done|simpl; lia|done|by apply Forall_singleton]. Qed.

Lemma append_inv s gs r :
  wal_inv s gs -> record_ok r -> 32 + total_size gs + append_size r <= u64_max ->
  exists s', append_record r s = Ok s' /\ wal_inv s' (gs ++ [(page_id r, [r])]) /\
    file s' = file s ++ encode_group (page_id r, [r]) /\ checkpoint_len s' = checkpoint_len s.
Proof.
  intros Hinv Hr Hb. unfold append_record.
  change (write_group (file s) (page_id r) [r])
    with (write_group (file s) (page_id r, [r]).1 (page_id r, [r]).2).
  rewrite write_group_encode by (done || (simpl; lia)). cbn [mbind outcome_bind].
  fold (append_size r). pose proof (total_bytes_bounds s gs Hinv) as Htb.
  rewrite (proj2 (Z.leb_le _ _)) by lia. cbn [mbind outcome_bind expect]. eexists. split; [done|].
  split; [|done]. pose proof (append_stats s gs r Hinv Hb) as Hst. cbn zeta in Hst. rewrite Hst.
  destruct Hinv as [H1 H2 H3 H4 H5 H6 H7 H8].
  constructor; cbn [checkpoint_len file records leaf_counts total_records total_bytes]; try done.
  - by rewrite H2, encode_groups_snoc, (assoc_L (++)).
  - apply Forall_app_2; [done|]. apply Forall_singleton. by apply group_ok_single.
  - by rewrite records_snoc, H4.
  - rewrite H5, length_app. simpl. lia.
  - rewrite total_size_snoc. fold (append_size r). lia.
  - rewrite total_size_snoc. fold (append_size r). lia.
Qed.

(** The size of a log in the worst case, one group per record. *)
Definition log_size (rs : list WalRecord) : Z := foldr (fun r n => append_size r + n) 0 rs.

Lemma append_size_eq r : append_size r = 13 + Z.of_nat (record_size r).
Proof. unfold append_size, group_size, GROUP_HEADER_LEN. simpl. lia. Qed.

Lemma total_size_cons (g : group) gs : total_size (g :: gs) = Z.of_nat (group_size g) + total_size gs.
Proof. unfold total_size. rewrite fmap_cons. cbn [sum_list]. apply Nat2Z.inj_add. Qed.

Lemma runs_size rs : total_size (runs rs) <= log_size rs.
Proof.
  induction rs as [|r rs IH]; [done|]. rewrite runs_cons. cbn [log_size foldr]. fold (log_size rs).
  destruct (runs rs) as [|[p l] gs] eqn:E; [rewrite total_size_cons; unfold append_size; lia|].
  destruct (p =? page_id r).
  - rewrite total_size_cons in *. rewrite append_size_eq. unfold group_size, GROUP_HEADER_LEN in *.
    cbn [snd fmap list_fmap sum_list] in *. change (id ?n) with n.
    change (sum_list_with id ?n) with (sum_list n) in *. lia.
  - rewrite total_size_cons. unfold append_size. lia.
Qed.

Lemma records_ok s gs : wal_inv s gs -> Forall record_ok (records s).
Proof.
  intros [_ _ Hok -> _ _ _ _]. induction Hok as [|g gs (_ & _ & _ & Hg) Hok IH]; [constructor|].
  apply Forall_app_2; [|done]. eapply Forall_impl; [exact Hg|]. by intros r [].
Qed.

Lemma set_len_manifest s gs : wal_inv s gs -> set_len (file s) MANIFEST_LEN = manifest (checkpoint_len s).
Proof.
  intros Hinv. unfold set_len. rewrite (inv_file _ _ Hinv), take_app_length' by (by rewrite length_manifest).
  rewrite length_app, length_manifest. replace (_ - _)%nat with 0%nat by lia. by rewrite app_nil_r.
Qed.

Lemma stats_total gs :
  total_size gs <= u64_max ->
  map_fold (fun _ e acc => sat_add acc (st_bytes e)) 0 (foldl stat_add ∅ gs) = total_size gs.
Proof.
  intros Ht. rewrite stats_bytes_sat; [by apply stats_bytes_total| |by rewrite stats_bytes_total].
  intros i e Hi. rewrite stat_add_lookup in Hi by done. unfold stats_of in Hi.
  destruct (page_groups i gs); simplify_eq. apply bytes_of_le.
Qed.

Lemma checkpoint_inv s gs page :
  wal_inv s gs -> Z.of_nat (length (records s)) < 2 ^ 32 -> 32 + log_size (records s) <= u64_max ->
  exists s' gs', checkpoint_page page s = Ok s' /\ wal_inv s' gs' /\
    records s' = filter (fun r => page_id r <> page) (records s).
Proof.
  intros Hinv Hlen Hb. unfold checkpoint_page.
  destruct (forallb _ _) eqn:E.
  { exists s, gs. split_and!; [done|done|]. symmetry. apply filter_all, Forall_forall.
    rewrite forallb_forall in E. intros r Hr. apply list_elem_of_In, E, negb_true_iff, Z.eqb_neq in Hr. done. }
  set (rs := filter (fun r => page_id r <> page) (records s)).
  assert (length rs <= length (records s))%nat as Hle by apply length_filter.
  assert (log_size rs <= log_size (records s)) as Hls.
  { unfold rs. clear. induction (records s) as [|r l IH]; [done|]. rewrite filter_cons.
    pose proof (append_size_eq r). case_decide; cbn [log_size foldr]; unfold log_size in *; lia. }
  unfold rewrite_records. rewrite rewrite_loop_runs by lia. cbn [mbind outcome_bind].
  pose proof (runs_size rs) as Hrs.
  rewrite (set_len_manifest s gs Hinv), stats_total by lia.
  eexists _, (runs rs). split; [done|]. split; [|done]. pose proof (bytes_of_le 0 (runs rs)).
  unfold u64_max in *.
  constructor; cbn [checkpoint_len file records leaf_counts total_records total_bytes]; try done; try lia.
  - change (Z.of_nat MANIFEST_LEN) with 32. lia.
  - apply runs_ok; [|lia]. apply Forall_forall. intros r [_ Hr]%list_elem_of_filter.
    by eapply (proj1 (Forall_forall _ _) (records_ok s gs Hinv)).
  - symmetry. apply runs_join.
  - unfold u64_max. lia.
Qed.

Lemma clear_inv s gs : wal_inv s gs -> wal_inv (clear s) [] /\ records (clear s) = [].
Proof.
  intros Hinv. split; [|done]. unfold clear. rewrite (set_len_manifest s gs Hinv).
  constructor; cbn [checkpoint_len file records leaf_counts total_records total_bytes]; try done; vm_compute; lia.
Qed.

(** * The log as a list of records

    The abstract specification of the manager is the list of the records of the log;
    every operation has an effect on that list, and a restart has none. *)
Inductive wal_cmd :=
| CAppend (r : WalRecord)
| CCheckpoint (page : Z)
| CClear
| CReopen.

Definition run_cmd (s : WalState) (c : wal_cmd) : outcome QSError WalState :=
  match c with
  | CAppend r => append_record r s
  | CCheckpoint page => checkpoint_page page s
  | CClear => Ok (clear s)
  | CReopen => Ok (open (file s))
  end.

Definition spec_cmd (log : list WalRecord) (c : wal_cmd) : list WalRecord :=
  match c with
  | CAppend r => log ++ [r]
  | CCheckpoint page => filter (fun r => page_id r <> page) log
  | CClear => []
  | CReopen => log
  end.

Definition cmd_ok (c : wal_cmd) : Prop := match c with CAppend r => record_ok r | _ => True end.
Definition cmd_size (c : wal_cmd) : Z := match c with CAppend r => append_size r | _ => 0 end.
Definition cmds_size (cs : list wal_cmd) : Z := foldr (fun c n => cmd_size c + n) 0 cs.

Lemma append_size_pos r : 23 <= append_size r.
Proof. rewrite append_size_eq. pose proof (record_size_pos r). lia. Qed.

Lemma log_size_pos rs : 0 <= log_size rs.
Proof.
  induction rs as [|r rs IH]; [done|]. cbn [log_size foldr]. fold (log_size rs).
  pose proof (append_size_pos r). lia.
Qed.

Lemma log_size_app l1 l2 : log_size (l1 ++ l2) = log_size l1 + log_size l2.
Proof. unfold log_size. induction l1 as [|r l IH]; cbn [app foldr]; [lia|]. rewrite IH. lia. Qed.

Lemma log_size_filter page rs : log_size (filter (fun r => page_id r <> page) rs) <= log_size rs.
Proof.
  induction rs as [|r l IH]; [done|]. rewrite filter_cons.
  pose proof (append_size_pos r). case_decide; cbn [log_size foldr]; unfold log_size in *; lia.
Qed.

Lemma cmds_size_pos cs : 0 <= cmds_size cs.
Proof.
  induction cs as [|c cs IH]; [done|]. cbn [cmds_size foldr]. fold (cmds_size cs).
  destruct c; simpl; pose proof append_size_pos; try lia. specialize (H r). lia.
Qed.

Lemma groups_size gs :
  Forall (fun g : group => g.2 <> []) gs -> total_size gs <= log_size (mjoin (snd <$> gs)).
Proof.
  induction 1 as [|g gs Hg _ IH]; [done|]. rewrite total_size_cons.
  change (mjoin (snd <$> g :: gs)) with (g.2 ++ mjoin (snd <$> gs)). rewrite log_size_app.
  enough (Z.of_nat (group_size g) <= log_size g.2) by lia.
  destruct g as [p [|r rs]]; [done|]. cbn [snd]. clear. unfold group_size. cbn [snd]. 
  change (record_size <$> r :: rs) with (record_size r :: (record_size <$> rs)).
  cbn [log_size foldr]. rewrite append_size_eq. fold (log_size rs). unfold GROUP_HEADER_LEN.
  change (sum_list (record_size r :: (record_size <$> rs)))
    with (record_size r + sum_list (record_size <$> rs))%nat.
  enough (Z.of_nat (sum_list (record_size <$> rs)) <= log_size rs) by lia.
  induction rs as [|r' rs IH]; [done|].
  change (sum_list (record_size <$> r' :: rs)) with (record_size r' + sum_list (record_size <$> rs))%nat.
  cbn [log_size foldr]. fold (log_size rs). rewrite append_size_eq. lia.
Qed.

Lemma inv_size s gs : wal_inv s gs -> total_size gs <= log_size (records s).
Proof.
  intros [_ _ Hok -> _ _ _ _]. apply groups_size. eapply Forall_impl; [exact Hok|]. by intros g [].
Qed.

Lemma reopen_inv s gs : wal_inv s gs -> wal_inv (open (file s)) gs.
Proof.
  intros [Hc Hf Hg Hr _ _ _ Ht]. rewrite Hf, <-(app_nil_r (encode_groups gs)).
  apply open_inv; [done..|apply unreadable_nil|done].
Qed.

(** One command, from any state that satisfies the invariant. *)
Lemma run_cmd_inv s gs c :
  wal_inv s gs -> cmd_ok c -> Z.of_nat (length (records s)) < 2 ^ 32 ->
  32 + log_size (records s) + cmd_size c <= u64_max ->
  exists s' gs', run_cmd s c = Ok s' /\ wal_inv s' gs' /\ records s' = spec_cmd (records s) c.
Proof.
  intros Hinv Hok Hlen Hb. pose proof (inv_size s gs Hinv) as Hsz. destruct c as [r|page| |]; simpl in Hok, Hb.
  - destruct (append_inv s gs r) as (s' & Happ & Hinv' & _); [done|done|lia|].
    exists s', (gs ++ [(page_id r, [r])]). split_and!; [done|done|]. simpl.
    by rewrite (inv_records _ _ Hinv'), records_snoc, (inv_records _ _ Hinv).
  - destruct (checkpoint_inv s gs page) as (s' & gs' & ?); [done|done|lia|]. by exists s', gs'.
  - exists (clear s), []. pose proof (clear_inv s gs Hinv) as [? ?]. done.
  - exists (open (file s)), gs. pose proof Hinv as [Hc Hf Hg Hr _ _ _ Ht].
    pose proof (reopen_inv s gs Hinv) as Hinv'.
    split_and!; [done|done|]. simpl. by rewrite (inv_records _ _ Hinv').
Qed.

Lemma run_cmds_inv cs s gs :
  wal_inv s gs -> Forall cmd_ok cs ->
  Z.of_nat (length (records s)) + Z.of_nat (length cs) < 2 ^ 32 ->
  32 + log_size (records s) + cmds_size cs <= u64_max ->
  exists s' gs', foldM run_cmd s cs = Ok s' /\ wal_inv s' gs' /\ records s' = foldl spec_cmd (records s) cs.
Proof.
  revert s gs; induction cs as [|c cs IH]; intros s gs Hinv Hok Hlen Hb; [by exists s, gs|].
  apply Forall_cons_iff in Hok as [Hc Hok]. cbn [cmds_size foldr] in Hb. fold (cmds_size cs) in Hb.
  pose proof (cmds_size_pos cs) as Hpos. cbn [length] in Hlen.
  destruct (run_cmd_inv s gs c) as (s1 & gs1 & Hrun & Hinv1 & Hrec); [done|done|lia|lia|].
  cbn [foldM foldl]. rewrite Hrun. cbn [mbind outcome_bind]. rewrite <-Hrec.
  assert (Z.of_nat (length (records s1)) <= Z.of_nat (length (records s)) + 1 /\
          log_size (records s1) <= log_size (records s) + cmd_size c) as [Hl1 Hb1].
  { rewrite Hrec. destruct c as [r|page| |]; cbn [spec_cmd cmd_size].
    - rewrite length_app, log_size_app. cbn [length log_size foldr]. lia.
    - pose proof (length_filter (fun r => page_id r <> page) (records s)).
      pose proof (log_size_filter page (records s)). lia.
    - pose proof (log_size_pos (records s)). cbn [length log_size foldr]. lia.
    - lia. }
  apply (IH s1 gs1); [done|done|lia|lia].
Qed.

Lemma open_fresh : wal_inv (open []) [].
Proof.
  assert (open [] = open (manifest 32 ++ encode_groups [] ++ [])) as -> by (vm_compute; reflexivity).
  apply open_inv; [lia|constructor|apply unreadable_nil|]. unfold total_size, u64_max. simpl. lia.
Qed.


(** A page is due for a checkpoint exactly when it has at least the threshold of records. *)
Lemma should_checkpoint_count s gs page n :
  wal_inv s gs -> 0 < n -> should_checkpoint_page s page n = true <-> n <= count_of page gs.
Proof.
  intros Hinv Hn. unfold should_checkpoint_page. rewrite (inv_stats _ _ Hinv), stat_add_lookup.
  2: { pose proof (inv_bound _ _ Hinv). lia. }
  unfold stats_of. destruct (page_groups page gs) as [|g l] eqn:E.
  - apply page_groups_count in E; [|apply Hinv]. split; [done|lia].
  - cbn [st_count]. apply Z.leb_le.
Qed.

(** C9. The log is the list of its records: any sequence of appends, page checkpoints,
    clears and restarts from an empty file succeeds, ends with exactly the records the
    abstract list has, with their number per page in the statistics, and what a restart
    then reads back from the file is that list.  The bounds: 2^32 commands and a file
    below 2^64 bytes. *)
Theorem wal_refines_list (cs : list wal_cmd) :
  Forall cmd_ok cs -> Z.of_nat (length cs) < 2 ^ 32 -> 32 + cmds_size cs <= u64_max ->
  exists s, foldM run_cmd (open []) cs = Ok s /\
    records s = foldl spec_cmd [] cs /\
    total_records s = Z.of_nat (length (foldl spec_cmd [] cs)) /\
    records (open (file s)) = foldl spec_cmd [] cs /\
    (forall page n,
      (0 < n -> should_checkpoint_page s page n = true <->
         n <= Z.of_nat (length (filter (fun r => page_id r = page) (foldl spec_cmd [] cs))))).
Proof.
  intros Hok Hlen Hb. destruct (run_cmds_inv cs (open []) []) as (s & gs & Hrun & Hinv & Hrec);
    [apply open_fresh|done|exact Hlen|exact Hb|].
  change (records (open [])) with (@nil WalRecord) in Hrec. exists s. rewrite <-Hrec. split_and!; [done|done| | |].
  - apply (inv_total _ _ Hinv).
  - by rewrite (inv_records _ _ (reopen_inv s gs Hinv)), (inv_records _ _ Hinv).
  - intros page n Hn. rewrite (inv_records _ _ Hinv), (count_of_filter gs page) by apply Hinv.
    apply (should_checkpoint_count s gs page n Hinv Hn).
Qed.

(** Two pages, an append, a checkpoint of one of them and a restart. *)
Definition rec_put (page : Z) (k v : bytes) : WalRecord := mkWalRecord page k [] [] Redo 7 (Put v).
Definition sample_cmds : list wal_cmd :=
  [CAppend (rec_put 0 [Byte.x61] [Byte.x01]); CAppend (rec_put 1 [Byte.x62] [Byte.x02]);
   CAppend (rec_put 0 [Byte.x63] [Byte.x03]); CCheckpoint 0; CReopen; CAppend (rec_put 1 [Byte.x64] [])].

Lemma wal_refines_list_witness :
  Forall cmd_ok sample_cmds /\ Z.of_nat (length sample_cmds) < 2 ^ 32 /\ 32 + cmds_size sample_cmds <= u64_max /\
  exists s, foldM run_cmd (open []) sample_cmds = Ok s /\
    records s = [rec_put 1 [Byte.x62] [Byte.x02]; rec_put 1 [Byte.x64] []].
Proof.
  assert (Forall cmd_ok sample_cmds) as Hok.
  { repeat constructor; vm_compute; congruence. }
  split_and!; [done|vm_compute; done|vm_compute; done|].
  destruct (wal_refines_list sample_cmds Hok) as (s & Hrun & Hrec & _);
    [vm_compute; done|vm_compute; done|].
  exists s. split; [exact Hrun|exact Hrec].
Defined.

(** C29. An append is atomic under a crash: whatever prefix of the appended bytes reached
    the file, the restart sees either the log before the append or the log after it, and
    the latter only when every byte was written. *)
Theorem append_crash_atomic (s s' : WalState) (gs : list group) (r : WalRecord) (n : nat) :
  wal_inv s gs -> record_ok r -> 32 + total_size gs + append_size r <= u64_max ->
  append_record r s = Ok s' -> (length (file s) <= n <= length (file s'))%nat ->
  records (open (take n (file s'))) = if decide (n < length (file s'))%nat then records s else records s ++ [r].
Proof.
  intros Hinv Hr Hb Happ Hn. destruct (append_inv s gs r Hinv Hr Hb) as (s2 & Happ2 & Hinv2 & Hf & Hc).
  rewrite Happ in Happ2. injection Happ2 as <-. case_decide as Hd.
  - rewrite Hf, take_app_ge by lia. rewrite (inv_file _ _ Hinv) at 1. rewrite <-(assoc_L (++)).
    rewrite (inv_records _ gs); [by rewrite (inv_records _ _ Hinv)|].
    pose proof (append_size_pos r). apply open_inv; [apply Hinv|apply Hinv| |lia].
    apply unreadable_torn; [done|]. rewrite Hf, length_app in Hd. lia.
  - rewrite take_ge by lia. rewrite (inv_records _ _ (reopen_inv s' _ Hinv2)), records_snoc.
    by rewrite (inv_records _ _ Hinv).
Qed.

(** A first append to an empty log: 41 bytes after the manifest. *)
Definition sample_append : WalState :=
  match append_record (rec_put 0 [Byte.x61] [Byte.x01]) (open []) with Ok s => s | _ => open [] end.

Lemma append_crash_atomic_witness :
  let r := rec_put 0 [Byte.x61] [Byte.x01] in
  wal_inv (open []) [] /\ record_ok r /\ append_record r (open []) = Ok sample_append /\
  length (file sample_append) = 73%nat /\
  records (open (take 60 (file sample_append))) = [] /\ records (open (take 73 (file sample_append))) = [r].
Proof.
  intros r. pose proof open_fresh as Hinv. assert (record_ok r) as Hr by (vm_compute; intuition congruence).
  assert (append_record r (open []) = Ok sample_append) as Ha by (vm_compute; reflexivity).
  split_and!; [done|done|done|vm_compute; reflexivity| |].
  - rewrite (append_crash_atomic (open []) sample_append [] r 60 Hinv Hr); [|vm_compute; done|done|vm_compute; lia].
    vm_compute. reflexivity.
  - rewrite (append_crash_atomic (open []) sample_append [] r 73 Hinv Hr); [|vm_compute; done|done|vm_compute; lia].
    vm_compute. reflexivity.
Defined.

(** * Choosing a page to checkpoint *)

Lemma max_by_bytes_spec l :
  match max_by_bytes l with
  | Some m => m ∈ l /\ Forall (fun e => st_bytes e.2 <= st_bytes m.2) l
  | None => l = []
  end.
Proof.
  unfold max_by_bytes. induction l as [|e l IH] using rev_ind; [done|].
  rewrite foldl_app. cbn [foldl]. destruct (foldl _ None l) as [m|].
  - destruct IH as [Hin Hall]. destruct (Z.leb_spec (st_bytes m.2) (st_bytes e.2)).
    + split; [set_solver|]. apply Forall_app_2; [|by apply Forall_singleton].
      eapply Forall_impl; [exact Hall|]. intros x Hx. simpl in Hx. lia.
    + split; [set_solver|]. apply Forall_app_2; [done|]. apply Forall_singleton. lia.
  - subst. split; [set_solver|]. by apply Forall_singleton.
Qed.

(** The global checkpoint candidate: nothing while both totals are below their
    thresholds; otherwise a page with the most logged bytes among all pages but the
    pseudo-page of the transaction markers, and none exactly when that is the only page
    in the log.  This does not depend on the order the hash map is iterated in. *)
Theorem global_checkpoint_candidate_spec (s : WalState) iter rt bt :
  iter ≡ₚ map_to_list (leaf_counts s) ->
  match global_checkpoint_candidate s iter rt bt with
  | Some p =>
      (rt <= total_records s \/ bt <= total_bytes s) /\ p <> TXN_META_PAGE_ID /\
      exists e, leaf_counts s !! p = Some e /\
        forall q e', q <> TXN_META_PAGE_ID -> leaf_counts s !! q = Some e' -> st_bytes e' <= st_bytes e
  | None =>
      (total_records s < rt /\ total_bytes s < bt) \/
      forall q, q <> TXN_META_PAGE_ID -> leaf_counts s !! q = None
  end.
Proof.
  intros Hiter. unfold global_checkpoint_candidate.
  destruct (Z.ltb_spec (total_records s) rt), (Z.ltb_spec (total_bytes s) bt); cbn [andb]; [by left|..];
    pose proof (max_by_bytes_spec (filter (fun e : Z * LeafWalStats => e.1 <> TXN_META_PAGE_ID) iter)) as Hmax;
    assert (forall q e, (q, e) ∈ iter <-> leaf_counts s !! q = Some e) as Hlk
      by (intros q e; rewrite Hiter; apply elem_of_map_to_list);
    destruct (max_by_bytes _) as [[p e]|]; cbn [fmap option_fmap option_map fst].
  1, 3, 5: destruct Hmax as [Hin Hall]; apply list_elem_of_filter in Hin as [Hp Hin]; apply Hlk in Hin;
    split_and!; [lia|done|]; exists e; split; [done|]; intros q e' Hq Hl; apply Hlk in Hl;
    apply (proj1 (Forall_forall _ _) Hall (q, e')); by apply list_elem_of_filter.
  all: right; intros q Hq; apply eq_None_not_Some; intros [e Hl]; apply Hlk in Hl;
    assert ((q, e) ∈ @nil (Z * LeafWalStats)) as Hno by (rewrite <-Hmax; by apply list_elem_of_filter);
    by apply not_elem_of_nil in Hno.
Qed.

(** Two pages and a commit marker, with a threshold of three records. *)
Definition sample_stats : WalState :=
  match foldM run_cmd (open [])
    [CAppend (rec_put 0 [Byte.x61] [Byte.x01]); CAppend (rec_put 1 [Byte.x62] [Byte.x01; Byte.x02]);
     CAppend (mkWalRecord TXN_META_PAGE_ID [] [] [] Redo 7 (TxnMarker Commit))] with
  | Ok s => s | _ => open [] end.

Lemma global_checkpoint_candidate_spec_witness :
  map_to_list (leaf_counts sample_stats) ≡ₚ map_to_list (leaf_counts sample_stats) /\
  global_checkpoint_candidate sample_stats (map_to_list (leaf_counts sample_stats)) 3 1000 = Some 1 /\
  exists e, leaf_counts sample_stats !! 1 = Some e.
Proof.
  split; [done|]. pose proof (global_checkpoint_candidate_spec sample_stats _ 3 1000
    (Permutation_refl (map_to_list (leaf_counts sample_stats)))) as H.
  assert (global_checkpoint_candidate sample_stats (map_to_list (leaf_counts sample_stats)) 3 1000 = Some 1) as E
    by (vm_compute; reflexivity).
  split; [exact E|]. rewrite E in H. destruct H as (_ & _ & e & He & _). by exists e.
Defined.

(** * Where the log is not atomic *)

(** [checkpoint_page] truncates the file to the manifest before it writes the records
    that stay: a crash at that point loses every record of the log, those of the other
    pages included. *)
Theorem checkpoint_truncation_loses_log (s : WalState) (gs : list group) :
  wal_inv s gs -> records (open (set_len (file s) MANIFEST_LEN)) = [].
Proof.
  intros Hinv. rewrite (set_len_manifest s gs Hinv).
  rewrite <-(app_nil_r (manifest _)). change [] with (encode_groups [] ++ []) at 1.
  rewrite (inv_records _ []); [done|].
  apply open_inv; [apply Hinv|constructor|apply unreadable_nil|]. unfold total_size, u64_max. simpl. lia.
Qed.

Lemma checkpoint_truncation_loses_log_witness :
  wal_inv sample_append [(0, [rec_put 0 [Byte.x61] [Byte.x01]])] /\
  records sample_append <> [] /\ records (open (set_len (file sample_append) MANIFEST_LEN)) = [].
Proof.
  assert (wal_inv sample_append [(0, [rec_put 0 [Byte.x61] [Byte.x01]])]) as Hinv.
  { destruct (append_inv (open []) [] (rec_put 0 [Byte.x61] [Byte.x01])) as (s' & Ha & Hi & _);
      [apply open_fresh|vm_compute; intuition congruence|vm_compute; done|].
    assert (append_record (rec_put 0 [Byte.x61] [Byte.x01]) (open []) = Ok sample_append) as Hb
      by (vm_compute; reflexivity).
    rewrite Hb in Ha. by injection Ha as <-. }
  split_and!; [exact Hinv|vm_compute; done|].
  exact (checkpoint_truncation_loses_log sample_append _ Hinv).
Defined.

(** The file of a checkpoint that left a group of two records. *)
Definition sample_group : WalState :=
  match foldM run_cmd (open [])
    [CAppend (rec_put 1 [Byte.x61] [Byte.x01]); CAppend (rec_put 1 [Byte.x62] [Byte.x02]);
     CAppend (rec_put 0 [Byte.x63] [Byte.x03]); CCheckpoint 0] with
  | Ok s => s | _ => open [] end.

(** A group of several records is not read atomically: with the last byte missing the
    first record is kept in memory and counted, although the file is cut before the
    group, so the next restart no longer sees it. *)
Theorem torn_group_ghost_records :
  let s := open (take (length (file sample_group) - 1) (file sample_group)) in
  records s = [rec_put 1 [Byte.x61] [Byte.x01]] /\ total_records s = 1 /\ leaf_stats s 1 = Some (1, 0) /\
  length (file s) = MANIFEST_LEN /\ records (open (file s)) = [].
Proof. vm_compute. done. Qed.

(** * Grouping for replay *)

Lemma records_grouped_loop rs (m : list (Z * list WalRecord)) :
  bt_sorted m ->
  let m' := foldl (fun grouped r => bt_alter (fun o => default [] o ++ [r]) grouped (page_id r)) m rs in
  bt_sorted m' /\ forall page, bt_get m' page =
    match filter (fun r => page_id r = page) rs with
    | [] => bt_get m page
    | l => Some (default [] (bt_get m page) ++ l)
    end.
Proof.
  revert m; induction rs as [|r rs IH]; intros m Hs; [done|]. cbn zeta. cbn [foldl].
  destruct (IH (bt_alter (fun o => default [] o ++ [r]) m (page_id r))) as [Hs' Hg];
    [by apply bt_alter_sorted|]. cbn zeta in *. split; [done|]. intros page.
  rewrite Hg, filter_cons, bt_get_alter by done. simpl. case_decide as Hd.
  - rewrite Hd, Z.compare_refl. destruct (filter _ rs); simpl; [done|]. by rewrite <-(assoc_L (++)).
  - destruct (Z.compare_spec (page_id r) page) as [?| |]; [done|..]; done.
Qed.

(** [records_grouped] gives each page of the log, in ascending order of the pages, its
    records in the order they were appended, and no other page. *)
Theorem records_grouped_spec (s : WalState) :
  bt_sorted (records_grouped s) /\
  forall page, bt_get (records_grouped s) page =
    match filter (fun r => page_id r = page) (records s) with [] => None | l => Some l end.
Proof.
  unfold records_grouped. destruct (records_grouped_loop (records s) []) as [Hs Hg]; [constructor|].
  split; [exact Hs|]. intros page. rewrite Hg. by destruct (filter _ (records s)).
Qed.
