(* ===== verification/Node.v ===== *)
(** * Leaf and mini-page nodes (src/node.rs)

    A node is the list of bytes of its page: the two header words of [NodeMeta], the
    array of [KVMeta] descriptors growing up from byte 16 and the keys with their values
    growing down from the end.  An access outside the page is undefined behaviour.
    Methods with [&mut self] run in the state monad over the page, so what they leave
    behind when they fail is visible. *)

From S2P Require Import Prelude Types BTreeMap.

(** [InsufficientSpace], the error of the insert path. *)
Inductive InsufficientSpace := mkInsufficientSpace.

#[global] Instance InsufficientSpace_eq_dec : EqDecision InsufficientSpace.
Proof. solve_decision. Defined.

(** A read of the page inside a method that may write it. *)
Definition asks {E A} (f : bytes -> outcome E A) : stM bytes E A := fun m => (m, f m).

(** ** Memory accesses *)

Definition read_word {E} (m : bytes) (off : nat) : outcome E Z :=
  if (off + 8 <=? length m)%nat then Ok (load_u64 m off) else Halt Undefined.
Definition read_raw {E} (m : bytes) (off len : nat) : outcome E bytes :=
  if (off + len <=? length m)%nat then Ok (slice m off len) else Halt Undefined.
Definition write_raw {E} (off : nat) (bs : bytes) : stM bytes E unit := fun m =>
  if (off + length bs <=? length m)%nat then (splice m off bs, Ok tt) else (m, Halt Undefined).
Definition write_word {E} (off : nat) (w : Z) : stM bytes E unit := write_raw off (le_split 8 w).

(** [copy_from_slice] into a slice of [len] bytes: panics on a length mismatch. *)
Definition copy_from_slice {E} (off len : nat) (bs : bytes) : stM bytes E unit :=
  _ ← asks (fun m => read_raw m off len);
  _ ← liftS (rassert (len =? length bs)%nat);
  write_raw off bs.

(** ** The header *)

Definition header (m : bytes) : NodeMeta.t := NodeMeta.mk (load_u64 m 0) (load_u64 m 8).
Definition set_header (m : bytes) (h : NodeMeta.t) : bytes :=
  store_u64 (store_u64 m 0 (NodeMeta.w0 h)) 8 (NodeMeta.w1 h).
Definition modify_header {E} (f : NodeMeta.t -> outcome E NodeMeta.t) : stM bytes E unit :=
  h ← asks (fun m => f (header m)); m ← getS; putS (set_header m h).

Definition record_count (m : bytes) : nat := Z.to_nat (NodeMeta.record_count (header m)).

(** ** Descriptors *)

(** [size_of::<KVMeta>()], and where descriptor [i] is. *)
Definition KVMeta_size : nat := 8.
Definition kv_meta_off (i : nat) : nat := (NodeMeta.size_of + KVMeta_size * i)%nat.

Definition get_kv_meta {E} (m : bytes) (kv_index : nat) : outcome E Z :=
  _ ← rassert (kv_index <? record_count m)%nat;
  read_word m (kv_meta_off kv_index).

(** The compare-and-swap finds the word it just read: nothing else runs in between. *)
Definition get_kv_meta_ensure_ref {E} (kv_index : nat) : stM bytes E Z :=
  out ← asks (fun m => get_kv_meta m kv_index);
  if KVMeta.ref_bit out then
    let new := KVMeta.set_ref_bit out true in
    _ ← write_word (kv_meta_off kv_index) new; mret new
  else mret out.

Definition set_kv_meta {E} (kv_index : nat) (val : Z) : stM bytes E unit :=
  rc ← asks (fun m => Ok (record_count m));
  _ ← liftS (rassert (kv_index <? rc)%nat);
  write_word (kv_meta_off kv_index) val.

Definition key_len (kv : Z) : nat := Z.to_nat (KVMeta.key_size kv).
Definition val_len (kv : Z) : nat := Z.to_nat (KVMeta.val_size kv).
Definition data_off (kv : Z) : nat := Z.to_nat (KVMeta.offset kv).

Definition get_stored_key_from_meta {E} (m : bytes) (kv : Z) : outcome E bytes :=
  read_raw m (data_off kv) (key_len kv).
Definition get_val_from_meta {E} (m : bytes) (kv : Z) : outcome E bytes :=
  read_raw m (data_off kv + key_len kv) (val_len kv).

(** [get_key_mut_from_meta(kv).copy_from_slice(bs)], and the same for the value. *)
Definition copy_to_key {E} (kv : Z) (bs : bytes) : stM bytes E unit :=
  copy_from_slice (data_off kv) (key_len kv) bs.
Definition copy_to_val {E} (kv : Z) (bs : bytes) : stM bytes E unit :=
  copy_from_slice (data_off kv + key_len kv) (val_len kv) bs.

(** ** Prefix and search *)

Fixpoint common_prefix (a b : bytes) : bytes :=
  match a, b with
  | x :: a, y :: b => if decide (x = y) then x :: common_prefix a b else []
  | _, _ => []
  end.

Definition fence_bounds {E} (m : bytes) : outcome E (bytes * bytes) :=
  lower_meta ← get_kv_meta m 0;
  last ← usub (record_count m) 1;
  upper_meta ← get_kv_meta m last;
  lo ← get_stored_key_from_meta m lower_meta;
  up ← get_stored_key_from_meta m upper_meta;
  Ok (lo, up).

Definition get_node_prefix {E} (m : bytes) : outcome E bytes :=
  low_fence_meta ← get_kv_meta m 0;
  low_fence_key ← get_stored_key_from_meta m low_fence_meta;
  last ← usub (record_count m) 1;
  high_fence_meta ← get_kv_meta m last;
  high_fence_key ← get_stored_key_from_meta m high_fence_meta;
  Ok (common_prefix low_fence_key high_fence_key).

(** [u16::from_be_bytes] of the first two bytes, zero where there is none. *)
Definition get_lookahead (key_suffix : bytes) : Z :=
  let b0 := byte.unsigned (default Byte.x00 (key_suffix !! 0%nat)) in
  let b1 := byte.unsigned (default Byte.x00 (key_suffix !! 1%nat)) in
  b0 * 256 + b1.

(** The [while] loop; [inl] is the [Ok] and [inr] the [Err] of the source.  Every turn
    shrinks the interval, so as many turns as records are enough. *)
Fixpoint binary_search_loop {E} (fuel : nat) (m key_suffix : bytes) (target_lookahead : Z)
    (lower upper : nat) : outcome E (nat + nat) :=
  if (upper <? lower)%nat then Ok (inr lower) else
  match fuel with
  | O => Halt Undefined
  | S fuel =>
      let mid := (lower + (upper - lower) / 2)%nat in
      mid_kv ← get_kv_meta m mid;
      match Z.compare target_lookahead (KVMeta.look_ahead mid_kv) with
      | Lt => if (mid =? 0)%nat then Ok (inr lower)
              else binary_search_loop fuel m key_suffix target_lookahead lower (mid - 1)
      | Eq =>
          mid_key_suffix ← get_stored_key_from_meta m mid_kv;
          match bytes_cmp key_suffix mid_key_suffix with
          | Lt => if (mid =? 0)%nat then Ok (inr lower)
                  else binary_search_loop fuel m key_suffix target_lookahead lower (mid - 1)
          | Eq => Ok (inl mid)
          | Gt => binary_search_loop fuel m key_suffix target_lookahead (mid + 1) upper
          end
      | Gt => binary_search_loop fuel m key_suffix target_lookahead (mid + 1) upper
      end
  end.

Definition binary_search {E} (m key_suffix : bytes) : outcome E (nat + nat) :=
  let target_lookahead := get_lookahead key_suffix in
  let rc := record_count m in
  if (rc <=? 2)%nat then Ok (inr 1%nat) else
  first ← get_kv_meta m 0;
  let lower := if KVMeta.fence first then 1%nat else 0%nat in
  let upper := (rc - 1)%nat in
  last ← get_kv_meta m upper;
  let upper := if KVMeta.fence last then (upper - 1)%nat else upper in
  if (upper <? lower)%nat then Ok (inr lower)
  else binary_search_loop rc m key_suffix target_lookahead lower upper.

(** ** Space *)

(** [find_min_offset]: the [min] over a non-empty range of records. *)
Definition find_min_offset {E} (m : bytes) : outcome E nat :=
  kvs ← mapM (get_kv_meta m) (seq 0 (record_count m));
  match data_off <$> kvs with
  | [] => Halt Panicked
  | o :: os => Ok (foldl Nat.min o os)
  end.

(** The loop: data below the record is said to move up, and the lowest offset is found. *)
Fixpoint erase_loop {E} (len target_offset : nat) (is_ : list nat) (min_offset : nat) : stM bytes E nat :=
  match is_ with
  | [] => mret min_offset
  | i :: is_ =>
      kv ← asks (fun m => get_kv_meta m i);
      let cur_offset := data_off kv in
      if (cur_offset <? target_offset)%nat then
        let min_offset := Nat.min min_offset cur_offset in
        let new_offset := (cur_offset + len)%nat in
        let kv := KVMeta.set_offset kv (u16 (Z.of_nat new_offset)) in
        let kv := KVMeta.set_offset kv (u16 (Z.of_nat new_offset)) in
        _ ← set_kv_meta i kv;
        erase_loop len target_offset is_ min_offset
      else erase_loop len target_offset is_ min_offset
  end.

Definition erase_kv_in_buffer {E} (kv : Z) : stM bytes E nat :=
  let len := (key_len kv + val_len kv)%nat in
  let target_offset := data_off kv in
  rc ← asks (fun m => Ok (record_count m));
  min_offset ← erase_loop len target_offset (seq 0 rc) target_offset;
  if (min_offset =? target_offset)%nat then mret (target_offset + len)%nat
  else
    bs ← asks (fun m => read_raw m min_offset len);
    _ ← write_raw (min_offset + len) bs;
    mret (min_offset + len)%nat.

(** ** Lookup and update *)

(** [&key[n..]], which panics beyond the end. *)
Definition slice_from {E} (key : bytes) (n : nat) : outcome E bytes :=
  if (n <=? length key)%nat then Ok (drop n key) else Halt Panicked.

Definition get {E} (m key : bytes) : outcome E (option bytes) :=
  prefix ← get_node_prefix m;
  _ ← rassert (starts_with key prefix);
  suffix ← slice_from key (length prefix);
  r ← binary_search m suffix;
  match r with
  | inr _ => Ok None
  | inl idx =>
      kv ← get_kv_meta m idx;
      if KVRecordType.exists_ (KVMeta.typ kv) then
        val ← get_val_from_meta m kv; Ok (Some val)
      else Ok None
  end.

Definition try_put_with_suffix (key_suffix val : bytes) : stM bytes InsufficientSpace unit :=
  r ← asks (fun m => binary_search m key_suffix);
  match r with
  | inl idx =>
      target_kv ← asks (fun m => get_kv_meta m idx);
      if (val_len target_kv =? length val)%nat then copy_to_val target_kv val
      else
        alloc_ptr ← erase_kv_in_buffer target_kv;
        let new_size := (length key_suffix + length val)%nat in
        new_offset ← liftS (usub alloc_ptr new_size);
        rc ← asks (fun m => Ok (record_count m));
        let meta_end := ((rc + 1) * KVMeta_size)%nat in
        if (new_offset <? meta_end)%nat then liftS (Err mkInsufficientSpace)
        else
          let target_kv := KVMeta.set_offset target_kv (u16 (Z.of_nat new_offset)) in
          target_kv ← liftS (KVMeta.set_val_size target_kv (u16 (Z.of_nat (length val))));
          let target_kv := KVMeta.set_ref_bit target_kv true in
          _ ← set_kv_meta idx target_kv;
          _ ← copy_to_key target_kv key_suffix;
          copy_to_val target_kv val
  | inr idx =>
      let size := (length key_suffix + length val)%nat in
      min_offset ← asks find_min_offset;
      new_offset ← liftS (if (size <=? min_offset)%nat then Ok (min_offset - size)%nat else Err mkInsufficientSpace);
      rc ← asks (fun m => Ok (record_count m));
      let meta_end := ((rc + 2) * KVMeta_size)%nat in
      if (new_offset <? meta_end)%nat then liftS (Err mkInsufficientSpace)
      else
        _ ← liftS (rassert (idx <=? rc)%nat);
        words ← asks (fun m => read_raw m (kv_meta_off idx) (KVMeta_size * (rc - idx)));
        _ ← write_raw (kv_meta_off (idx + 1)) words;
        let new_meta := KVMeta.new (Z.of_nat (length key_suffix)) (Z.of_nat (length val)) (Z.of_nat new_offset)
          KVRecordType.Insert false true (get_lookahead key_suffix) in
        _ ← set_kv_meta idx new_meta;
        _ ← modify_header NodeMeta.inc_record_count;
        _ ← copy_to_key new_meta key_suffix;
        copy_to_val new_meta val
  end.

Definition try_put (key val : bytes) : stM bytes InsufficientSpace unit :=
  _ ← asks (fun m => rassert (2 <=? record_count m)%nat);
  node_prefix ← asks get_node_prefix;
  key_suffix ← liftS (slice_from key (length node_prefix));
  _ ← liftS (rassert (starts_with key node_prefix));
  try_put_with_suffix key_suffix val.

Definition replay_entries (entries : list (bytes * bytes)) : stM bytes InsufficientSpace unit :=
  forM_ (fun '(key, value) => try_put key value) entries.

(** [LeafEntry] and the iterator of src/types.rs: [exists] is true of every record. *)
Record LeafEntry := mkLeafEntry { le_meta : Z; le_key_suffix : bytes; le_value : bytes }.

Definition entries {E} (m : bytes) : outcome E (list LeafEntry) :=
  kvs ← mapM (get_kv_meta m) (seq 0 (record_count m));
  mapM (fun kv =>
    k ← get_stored_key_from_meta m kv;
    v ← get_val_from_meta m kv;
    Ok (mkLeafEntry kv k v)) (filter (fun kv => KVRecordType.exists_ (KVMeta.typ kv) = true) kvs).

Definition user_entry_count {E} (m : bytes) : outcome E nat :=
  es ← entries m;
  Ok (length (filter (fun e => KVRecordType.exists_ (KVMeta.typ (le_meta e)) = true) es)).

(** ** Deletion *)

Definition mark_entry_tombstone {E} (idx : nat) : stM bytes E bool :=
  kv ← asks (fun m => get_kv_meta m idx);
  if KVMeta.fence kv || bool_decide (KVMeta.typ kv = KVRecordType.Tombstone) then mret false
  else
    _ ← set_kv_meta idx (KVMeta.set_record_type kv KVRecordType.Tombstone);
    mret true.

(** The index a key is found at, for the two operations that delete. *)
Definition find_key {E} (m key : bytes) : outcome E (option nat) :=
  prefix ← get_node_prefix m;
  if negb (starts_with key prefix) then Ok None
  else
    suffix ← slice_from key (length prefix);
    r ← binary_search m suffix;
    Ok (match r with inl idx => Some idx | inr _ => None end).

Definition mark_tombstone {E} (key : bytes) : stM bytes E bool :=
  r ← asks (fun m => find_key m key);
  match r with Some idx => mark_entry_tombstone idx | None => mret false end.

Definition shift_meta_left {E} (idx : nat) : stM bytes E unit :=
  total ← asks (fun m => Ok (record_count m));
  if (total <=? idx + 1)%nat then mret tt
  else
    words ← asks (fun m => read_raw m (kv_meta_off (idx + 1)) (KVMeta_size * (total - idx - 1)));
    write_raw (kv_meta_off idx) words.

Definition remove_entry {E} (idx : nat) : stM bytes E bool :=
  rc ← asks (fun m => Ok (record_count m));
  if (rc <=? idx)%nat then mret false
  else
    kv ← asks (fun m => get_kv_meta m idx);
    if KVMeta.fence kv then mret false
    else
      _ ← erase_kv_in_buffer kv;
      _ ← shift_meta_left idx;
      _ ← modify_header NodeMeta.dec_record_count;
      mret true.

Definition remove_entry_at {E} (idx : nat) : stM bytes E unit := _ ← remove_entry idx; mret tt.

Definition remove_key_physical {E} (key : bytes) : stM bytes E bool :=
  r ← asks (fun m => find_key m key);
  match r with Some idx => remove_entry idx | None => mret false end.

(** ** Formatting *)

Definition install_fences {E} (lower upper : bytes) : stM bytes E unit :=
  size ← asks (fun m => NodeMeta.size (header m));
  cursor ← liftS (usub (NodeSize.size_in_bytes size) (length upper));
  _ ← write_raw cursor upper;
  let upper_offset := u16 (Z.of_nat cursor) in
  cursor ← liftS (usub cursor (length lower));
  _ ← write_raw cursor lower;
  let lower_offset := u16 (Z.of_nat cursor) in
  _ ← modify_header (fun h => Ok (NodeMeta.set_record_count h 2));
  let lower_meta := KVMeta.new (Z.of_nat (length lower)) 0 0 KVRecordType.Cache true true 0 in
  _ ← set_kv_meta 0 (KVMeta.set_offset lower_meta lower_offset);
  let upper_meta := KVMeta.new (Z.of_nat (length upper)) 0 0 KVRecordType.Cache true true 0 in
  set_kv_meta 1 (KVMeta.set_offset upper_meta upper_offset).

Definition reset_user_entries_with_fences {E} (lower upper : bytes) : stM bytes E unit :=
  install_fences lower upper.

Definition reset_user_entries {E} : stM bytes E unit :=
  rc ← asks (fun m => Ok (record_count m));
  if (rc <=? 2)%nat then mret tt
  else
    '(lower, upper) ← asks fence_bounds;
    reset_user_entries_with_fences lower upper.

Definition LOWER_FENCE : bytes := [Byte.x00].
Definition UPPER_FENCE : bytes := [Byte.xff].

Definition ensure_fence_keys {E} : stM bytes E unit :=
  rc ← asks (fun m => Ok (record_count m));
  if (2 <=? rc)%nat then mret tt else install_fences LOWER_FENCE UPPER_FENCE.

Definition format_leaf {E} (page_id : Z) (size : NodeSize.t) (disk_addr : Z) : stM bytes E unit :=
  _ ← modify_header (fun h => Ok (NodeMeta.reset_header h page_id size disk_addr));
  ensure_fence_keys.

(** * Layout *)

(** One record as the node stores it. *)
Record slot := mkSlot { s_fence : bool; s_key : bytes; s_val : bytes; s_typ : KVRecordType.t }.

Definition fence_slot (k : bytes) : slot := mkSlot true k [] KVRecordType.Cache.

(** The fences are written with a lookahead of zero. *)
Definition slot_look (s : slot) : Z := if s_fence s then 0 else get_lookahead (s_key s).

Definition meta_at (m : bytes) (i : nat) : Z := load_u64 m (kv_meta_off i).

(** Where the data of descriptor [w] ends. *)
Definition data_end (w : Z) : nat := (data_off w + key_len w + val_len w)%nat.

(** Descriptor [i] of the page describes the record [s]. *)
Record slot_at (m : bytes) (i : nat) (s : slot) : Prop := {
  sa_klen : key_len (meta_at m i) = length (s_key s);
  sa_vlen : val_len (meta_at m i) = length (s_val s);
  sa_fence : KVMeta.fence (meta_at m i) = s_fence s;
  sa_typ : KVMeta.typ (meta_at m i) = s_typ s;
  sa_look : KVMeta.look_ahead (meta_at m i) = slot_look s;
  sa_end : (data_end (meta_at m i) <= length m)%nat;
  sa_key : slice m (data_off (meta_at m i)) (length (s_key s)) = s_key s;
  sa_val : slice m (data_off (meta_at m i) + length (s_key s)) (length (s_val s)) = s_val s }.

(** The page stores the records [ss]: as many descriptors, all below the data, and the
    data of different records disjoint. *)
Record node_repr (m : bytes) (ss : list slot) : Prop := {
  nr_size : (length m <= 4096)%nat;
  nr_fit : (kv_meta_off (length ss) <= length m)%nat;
  nr_count : record_count m = length ss;
  nr_slots : forall i s, ss !! i = Some s -> slot_at m i s;
  nr_above : forall i, (i < length ss)%nat -> (kv_meta_off (length ss) <= data_off (meta_at m i))%nat;
  nr_disj : forall i j, (i < length ss)%nat -> (j < length ss)%nat -> i <> j ->
    (data_end (meta_at m i) <= data_off (meta_at m j) \/ data_end (meta_at m j) <= data_off (meta_at m i))%nat }.

Lemma kv_meta_off_eq i : kv_meta_off i = (16 + 8 * i)%nat.
Proof. done. Qed.

Lemma slot_at_transfer m m' i j s :
  slot_at m i s -> length m' = length m -> meta_at m' j = meta_at m i ->
  (forall o l, (data_off (meta_at m i) <= o)%nat -> (o + l <= data_end (meta_at m i))%nat -> slice m' o l = slice m o l) ->
  slot_at m' j s.
Proof.
  intros [H1 H2 H3 H4 H5 H6 H7 H8] Hl Hm Hs. unfold data_end in *.
  constructor; rewrite ?Hm, ?Hl; try done; rewrite Hs; try done; rewrite ?H1, ?H2; lia.
Qed.

(** ** The monadic accesses succeed inside the page *)

Lemma run_asks {E A B} (f : bytes -> outcome E A) (k : A -> stM bytes E B) m a :
  f m = Ok a -> (asks f ≫= k) m = k a m.
Proof. intros H. unfold asks, mbind, stM_bind. by rewrite H. Qed.

Lemma run_lift {E A B} (o : outcome E A) (k : A -> stM bytes E B) m a :
  o = Ok a -> (liftS o ≫= k) m = k a m.
Proof. by intros ->. Qed.

Lemma run_write {E B} off bs (k : unit -> stM bytes E B) m :
  in_range m off (length bs) -> (write_raw off bs ≫= k) m = k tt (splice m off bs).
Proof.
  intros H. unfold write_raw, mbind, stM_bind. by rewrite (proj2 (Nat.leb_le _ _)).
Qed.

Lemma write_raw_ok {E} off bs m :
  in_range m off (length bs) -> write_raw (E := E) off bs m = (splice m off bs, Ok tt).
Proof. intros H. unfold write_raw. by rewrite (proj2 (Nat.leb_le _ _)). Qed.

Lemma read_raw_ok {E} m off len : in_range m off len -> read_raw (E := E) m off len = Ok (slice m off len).
Proof. intros H. unfold read_raw. by rewrite (proj2 (Nat.leb_le _ _)). Qed.

Lemma copy_from_slice_ok {E} m off len bs :
  len = length bs -> in_range m off len -> copy_from_slice (E := E) off len bs m = (splice m off bs, Ok tt).
Proof.
  intros -> Hr. unfold copy_from_slice. rewrite (run_asks _ _ _ (slice m off (length bs))) by (by apply read_raw_ok).
  rewrite (run_lift _ _ _ tt) by (unfold rassert; by rewrite Nat.eqb_refl). by apply write_raw_ok.
Qed.

Lemma get_kv_meta_ok {E} m i :
  (i < record_count m)%nat -> (kv_meta_off i + 8 <= length m)%nat -> get_kv_meta (E := E) m i = Ok (meta_at m i).
Proof.
  intros Hi Hl. unfold get_kv_meta, rassert, read_word. rewrite (proj2 (Nat.ltb_lt _ _)) by done.
  cbn [mbind outcome_bind]. by rewrite (proj2 (Nat.leb_le _ _)).
Qed.

Lemma set_kv_meta_ok {E} m i w :
  (i < record_count m)%nat -> (kv_meta_off i + 8 <= length m)%nat ->
  set_kv_meta (E := E) i w m = (store_u64 m (kv_meta_off i) w, Ok tt).
Proof.
  intros Hi Hl. unfold set_kv_meta. rewrite (run_asks _ _ _ (record_count m)) by done.
  rewrite (run_lift _ _ _ tt) by (unfold rassert; by rewrite (proj2 (Nat.ltb_lt _ _))).
  apply write_raw_ok. unfold in_range. by rewrite length_le_split.
Qed.

Lemma modify_header_ok {E} (f : NodeMeta.t -> outcome E NodeMeta.t) m h :
  f (header m) = Ok h -> modify_header f m = (set_header m h, Ok tt).
Proof. intros H. unfold modify_header. by rewrite (run_asks _ _ _ h). Qed.

(** ** The header words *)

Lemma header_wf m : NodeMetaFacts.wf (header m).
Proof. split; apply load_u64_range. Qed.

Lemma length_set_header m h : (16 <= length m)%nat -> length (set_header m h) = length m.
Proof. intros. unfold set_header. rewrite !length_store; unfold in_range; rewrite ?length_store; unfold in_range; lia. Qed.

Lemma header_set_header m h :
  (16 <= length m)%nat -> NodeMetaFacts.wf h -> header (set_header m h) = h.
Proof.
  intros Hl [H0 H1]. unfold header, set_header. destruct h as [w0 w1]; simpl in *.
  assert (in_range m 0 8) by (unfold in_range; lia).
  assert (in_range (store_u64 m 0 w0) 8 8) by (unfold in_range; rewrite length_store by done; lia).
  f_equal; [|by apply load_store_same].
  rewrite load_store_ne by (done || lia). by apply load_store_same.
Qed.

Lemma slice_set_header m h o l :
  (16 <= length m)%nat -> (16 <= o)%nat -> slice (set_header m h) o l = slice m o l.
Proof.
  intros Hl Ho. unfold set_header. assert (in_range m 0 8) by (unfold in_range; lia).
  rewrite !slice_store_ne; try done; try lia. unfold in_range; rewrite length_store by done; lia.
Qed.

(** A write above the header leaves it. *)
Lemma header_splice m off bs :
  in_range m off (length bs) -> (16 <= off)%nat -> header (splice m off bs) = header m.
Proof. intros Hr Ho. unfold header. by rewrite !load_splice_ne by (done || lia). Qed.

Lemma header_store m off w : in_range m off 8 -> (16 <= off)%nat -> header (store_u64 m off w) = header m.
Proof. intros. apply header_splice; by rewrite ?length_le_split. Qed.

Lemma meta_at_ext m m' i j : slice m' (kv_meta_off j) 8 = slice m (kv_meta_off i) 8 -> meta_at m' j = meta_at m i.
Proof. unfold meta_at, load_u64. by intros ->. Qed.

(** * Search *)

(** The records between the two fences. *)
Definition user_slots (lo up : bytes) (es : list slot) : list slot :=
  fence_slot lo :: es ++ [fence_slot up].

Definition keys_sorted (es : list slot) : Prop := StronglySorted bytes_lt (s_key <$> es).

Definition all_user (es : list slot) : Prop := Forall (fun s => s_fence s = false) es.

(** The page is a leaf with fences [lo] and [up] and the user records [es] in key order. *)
Record leaf_repr (m lo up : bytes) (es : list slot) : Prop := {
  lr_repr : node_repr m (user_slots lo up es);
  lr_sorted : keys_sorted es;
  lr_user : all_user es }.

(** What a search for [k] should answer. *)
Definition search_spec (es : list slot) (k : bytes) (r : nat + nat) : Prop :=
  match r with
  | inl i => exists j s, i = S j /\ es !! j = Some s /\ s_key s = k
  | inr i => exists j, i = S j /\ (j <= length es)%nat /\
      (forall i' s, (i' < j)%nat -> es !! i' = Some s -> bytes_lt (s_key s) k) /\
      (forall i' s, (j <= i')%nat -> es !! i' = Some s -> bytes_lt k (s_key s))
  end.

Lemma length_user_slots lo up es : length (user_slots lo up es) = (length es + 2)%nat.
Proof. unfold user_slots. simpl. rewrite length_app. simpl. lia. Qed.

Lemma user_slots_user lo up es j s : es !! j = Some s -> user_slots lo up es !! S j = Some s.
Proof. intros Hj. simpl. by apply lookup_app_l_Some. Qed.

Lemma user_slots_last lo up es : user_slots lo up es !! S (length es) = Some (fence_slot up).
Proof. simpl. by rewrite lookup_app_r, Nat.sub_diag by done. Qed.

Lemma unsigned_byte_lt x y : byte.compare x y = Lt <-> byte.unsigned x < byte.unsigned y.
Proof. apply Z.compare_lt_iff. Qed.

Lemma lookahead_bounds k : 0 <= get_lookahead k < 2 ^ 16.
Proof.
  unfold get_lookahead. pose proof (byte.unsigned_range (default Byte.x00 (k !! 0%nat))).
  pose proof (byte.unsigned_range (default Byte.x00 (k !! 1%nat))). lia.
Qed.

(** The lookahead never contradicts the order of the keys. *)
Lemma lookahead_mono a b : bytes_le a b -> get_lookahead a <= get_lookahead b.
Proof.
  unfold bytes_le, get_lookahead. destruct a as [|a0 a]; intros H.
  { simpl. pose proof (byte.unsigned_range (default Byte.x00 (b !! 0%nat))).
    pose proof (byte.unsigned_range (default Byte.x00 (b !! 1%nat))).
    change (byte.unsigned Byte.x00) with 0. lia. }
  destruct b as [|b0 b]; [done|]. cbn [bytes_cmp] in H. simpl.
  pose proof (byte.unsigned_range (default Byte.x00 (a !! 0%nat))).
  pose proof (byte.unsigned_range (default Byte.x00 (b !! 0%nat))).
  destruct (byte.compare a0 b0) eqn:E; [|rewrite unsigned_byte_lt in E; lia|done].
  apply byte_compare_eq in E as ->. apply Z.add_le_mono_l.
  destruct a as [|a1 a]; [simpl; change (byte.unsigned Byte.x00) with 0; lia|].
  destruct b as [|b1 b]; [done|]. cbn [bytes_cmp] in H. simpl.
  destruct (byte.compare a1 b1) eqn:E; [by apply byte_compare_eq in E as ->|rewrite unsigned_byte_lt in E; lia|done].
Qed.

Section search.
Context (m lo up : bytes) (es : list slot) (Hm : leaf_repr m lo up es).

Lemma leaf_count : record_count m = (length es + 2)%nat.
Proof. rewrite (nr_count _ _ (lr_repr _ _ _ _ Hm)). apply length_user_slots. Qed.

Lemma leaf_fit : (16 + 8 * (length es + 2) <= length m)%nat.
Proof. pose proof (nr_fit _ _ (lr_repr _ _ _ _ Hm)) as H. by rewrite length_user_slots, kv_meta_off_eq in H. Qed.

Lemma leaf_get_kv_meta {E} i : (i < length es + 2)%nat -> get_kv_meta (E := E) m i = Ok (meta_at m i).
Proof.
  intros Hi. pose proof leaf_fit. apply get_kv_meta_ok; [by rewrite leaf_count|rewrite kv_meta_off_eq; lia].
Qed.

Lemma leaf_slot j s : es !! j = Some s -> slot_at m (S j) s.
Proof. intros Hj. apply (nr_slots _ _ (lr_repr _ _ _ _ Hm)). by apply user_slots_user. Qed.

Lemma leaf_low : slot_at m 0 (fence_slot lo).
Proof. by apply (nr_slots _ _ (lr_repr _ _ _ _ Hm)). Qed.

Lemma leaf_high : slot_at m (S (length es)) (fence_slot up).
Proof. apply (nr_slots _ _ (lr_repr _ _ _ _ Hm)). apply user_slots_last. Qed.

Lemma slot_stored_key {E} i s : slot_at m i s -> get_stored_key_from_meta (E := E) m (meta_at m i) = Ok (s_key s).
Proof.
  intros [H1 H2 _ _ _ H6 H7 _]. unfold get_stored_key_from_meta. rewrite read_raw_ok, H1, H7; [done|].
  unfold in_range, data_end in *. lia.
Qed.

Lemma slot_val {E} i s : slot_at m i s -> get_val_from_meta (E := E) m (meta_at m i) = Ok (s_val s).
Proof.
  intros [H1 H2 _ _ _ H6 _ H8]. unfold get_val_from_meta. rewrite read_raw_ok, H1, H2, H8; [done|].
  unfold in_range, data_end in *. lia.
Qed.

Lemma keys_lt i j si sj : (i < j)%nat -> es !! i = Some si -> es !! j = Some sj -> bytes_lt (s_key si) (s_key sj).
Proof.
  intros Hij Hi Hj. eapply (StronglySorted_lookup _ (s_key <$> es)); [apply Hm|exact Hij|..];
    by rewrite list_lookup_fmap, ?Hi, ?Hj.
Qed.

Lemma binary_search_loop_spec {E} fuel k lower upper :
  (1 <= lower)%nat -> (upper <= length es)%nat -> (lower <= S upper)%nat -> (S upper - lower <= fuel)%nat ->
  (forall i s, (S i < lower)%nat -> es !! i = Some s -> bytes_lt (s_key s) k) ->
  (forall i s, (upper <= i)%nat -> es !! i = Some s -> bytes_lt k (s_key s)) ->
  exists r, binary_search_loop (E := E) fuel m k (get_lookahead k) lower upper = Ok r /\ search_spec es k r.
Proof.
  revert lower upper; induction fuel as [|fuel IH]; intros lower upper Hlo Hup Hlu Hf Hb Ha; cbn [binary_search_loop];
    (destruct (Nat.ltb_spec upper lower) as [Hlt|Hge];
      [eexists; split; [done|]; exists (lower - 1)%nat; split_and!;
        [lia|lia|intros i s Hi Hs; eapply Hb; [|done]; lia|intros i s Hi Hs; eapply Ha; [|done]; lia]|]); [lia|].
  set (mid := (lower + (upper - lower) / 2)%nat).
  assert (lower <= mid <= upper)%nat as Hmid.
  { unfold mid. pose proof (Nat.Div0.div_le_upper_bound (upper - lower) 2 (upper - lower)). lia. }
  clearbody mid. destruct mid as [|j]; [lia|].
  destruct (lookup_lt_is_Some_2 es j) as [s Hs]; [lia|]. pose proof (leaf_slot _ _ Hs) as Hslot.
  rewrite leaf_get_kv_meta by lia. cbn [mbind outcome_bind].
  rewrite (sa_look _ _ _ Hslot). unfold slot_look.
  rewrite (proj1 (Forall_lookup _ _) (lr_user _ _ _ _ Hm) j s Hs).
  assert (bytes_lt k (s_key s) -> exists r,
    (if (S j =? 0)%nat then Ok (inr lower) else binary_search_loop (E := E) fuel m k (get_lookahead k) lower (S j - 1))
      = Ok r /\ search_spec es k r) as Hleft.
  { intros Hlt. cbn [Nat.eqb]. apply IH; [lia|lia|lia|lia|done|]. intros i si Hi Hsi.
    destruct (decide (i = j)) as [->|]; [by simplify_eq|].
    eapply bytes_lt_trans; [exact Hlt|]. eapply (keys_lt j i); [lia|done..]. }
  assert (bytes_lt (s_key s) k -> exists r,
    binary_search_loop (E := E) fuel m k (get_lookahead k) (S j + 1) upper = Ok r /\ search_spec es k r) as Hright.
  { intros Hlt. apply IH; [lia|lia|lia|lia| |done]. intros i si Hi Hsi.
    destruct (decide (i = j)) as [->|]; [by simplify_eq|].
    eapply bytes_lt_trans; [|exact Hlt]. eapply (keys_lt i j); [lia|done..]. }
  destruct (Z.compare_spec (get_lookahead k) (get_lookahead (s_key s))) as [He|Hl|Hg].
  - rewrite (slot_stored_key _ _ Hslot). cbn [mbind outcome_bind].
    destruct (bytes_cmp k (s_key s)) eqn:Ec; [|by apply Hleft|by apply Hright, bytes_cmp_gt].
    apply bytes_cmp_eq in Ec. eexists. split; [done|]. exists j, s. done.
  - apply Hleft. destruct (bytes_cmp k (s_key s)) eqn:Ec; [apply bytes_cmp_eq in Ec; subst; lia|done|].
    apply bytes_cmp_gt, bytes_lt_le, lookahead_mono in Ec. lia.
  - apply Hright. destruct (bytes_cmp k (s_key s)) eqn:Ec; [apply bytes_cmp_eq in Ec; subst; lia| |by apply bytes_cmp_gt].
    assert (bytes_le k (s_key s)) as Hle by (unfold bytes_le; congruence). apply lookahead_mono in Hle. lia.
Qed.

Lemma binary_search_spec {E} k :
  exists r, binary_search (E := E) m k = Ok r /\ search_spec es k r.
Proof.
  unfold binary_search. rewrite leaf_count. destruct (Nat.leb_spec (length es + 2) 2).
  { destruct es; [|simpl in *; lia]. eexists. split; [done|]. exists 0%nat. split_and!; [done|done|done|].
    intros i s Hi Hs. done. }
  rewrite (leaf_get_kv_meta 0) by lia. cbn [mbind outcome_bind]. rewrite (sa_fence _ _ _ leaf_low). cbn [fence_slot s_fence].
  replace (length es + 2 - 1)%nat with (S (length es)) by lia.
  rewrite (leaf_get_kv_meta (S (length es))) by lia. cbn [mbind outcome_bind].
  rewrite (sa_fence _ _ _ leaf_high). cbn [fence_slot s_fence].
  replace (S (length es) - 1)%nat with (length es) by lia.
  destruct (Nat.ltb_spec (length es) 1); [lia|].
  apply binary_search_loop_spec; [lia|lia|lia|lia|intros; lia|].
  intros i s Hi Hs. apply lookup_lt_Some in Hs. lia.
Qed.
End search.

(** * Insertion *)

(** The page after a new record was written: descriptors shifted, the new one stored, the
    count incremented, key and value copied. *)
Definition inserted (m : bytes) (rc idx off : nat) (w : Z) (h : NodeMeta.t) (k v : bytes) : bytes :=
  let m := splice m (kv_meta_off (idx + 1)) (slice m (kv_meta_off idx) (KVMeta_size * (rc - idx))) in
  let m := store_u64 m (kv_meta_off idx) w in
  let m := set_header m h in
  let m := splice m off k in
  splice m (off + length k) v.

Definition new_meta (k v : bytes) (off : nat) : Z :=
  KVMeta.new (Z.of_nat (length k)) (Z.of_nat (length v)) (Z.of_nat off) KVRecordType.Insert false true (get_lookahead k).

Lemma new_meta_ranges (k v : bytes) off :
  (off + length k + length v <= 4096)%nat ->
  0 <= Z.of_nat (length k) < 2 ^ 14 /\ 0 <= Z.of_nat (length v) < 2 ^ 14 /\ 0 <= Z.of_nat off < 2 ^ 16 /\
  0 <= get_lookahead k < 2 ^ 16.
Proof. pose proof (lookahead_bounds k). lia. Qed.

Lemma new_meta_is_u64 (k v : bytes) off : (off + length k + length v <= 4096)%nat -> is_u64 (new_meta k v off).
Proof.
  intros (?&?&?&?)%new_meta_ranges. unfold new_meta. apply KVMetaFacts.new_is_u64; assumption.
Qed.

Lemma new_meta_fields (k v : bytes) off :
  (off + length k + length v <= 4096)%nat ->
  let w := new_meta k v off in
  key_len w = length k /\ val_len w = length v /\ data_off w = off /\ KVMeta.fence w = false /\
  KVMeta.typ w = KVRecordType.Insert /\ KVMeta.look_ahead w = get_lookahead k.
Proof.
  intros (?&?&?&?)%new_meta_ranges w. unfold w, key_len, val_len, data_off, new_meta.
  rewrite KVMetaFacts.new_key_size, KVMetaFacts.new_val_size, KVMetaFacts.new_offset, KVMetaFacts.new_fence,
    KVMetaFacts.new_typ, KVMetaFacts.new_look_ahead by assumption. split_and!; (reflexivity || apply Nat2Z.id).
Qed.

Section insert.
Context (m : bytes) (ss : list slot) (Hm : node_repr m ss).
Context (idx off : nat) (k v : bytes).
Context (Hidx : (idx < length ss)%nat) (Hcap : (length ss + 1 < 512)%nat).
Context (Hoff : (24 + 8 * length ss <= off)%nat) (Hend : (off + length k + length v <= length m)%nat).
Context (Hbelow : forall i, (i < length ss)%nat -> (off + length k + length v <= data_off (meta_at m i))%nat).

Let w := new_meta k v off.
Let h := NodeMeta.set_record_count (header m) (Z.of_nat (length ss + 1)).
Let m' := inserted m (length ss) idx off w h k v.

Lemma insert_lengths :
  let m1 := splice m (kv_meta_off (idx + 1)) (slice m (kv_meta_off idx) (KVMeta_size * (length ss - idx))) in
  let m2 := store_u64 m1 (kv_meta_off idx) w in
  length (slice m (kv_meta_off idx) (KVMeta_size * (length ss - idx))) = (KVMeta_size * (length ss - idx))%nat /\
  length m1 = length m /\ length m2 = length m /\ length (set_header m2 h) = length m /\
  length (splice (set_header m2 h) off k) = length m /\ length m' = length m.
Proof.
  intros m1 m2. pose proof (nr_fit _ _ Hm) as Hf. rewrite !kv_meta_off_eq in *. unfold KVMeta_size in *.
  assert (length (slice m (16 + 8 * idx) (8 * (length ss - idx))) = (8 * (length ss - idx))%nat) as H0
    by (apply length_slice; unfold in_range; lia).
  assert (length m1 = length m) as H1.
  { unfold m1. apply length_splice. rewrite kv_meta_off_eq. unfold in_range, KVMeta_size.
    rewrite kv_meta_off_eq, H0. lia. }
  assert (length m2 = length m) as H2.
  { unfold m2. rewrite length_store; [done|]. rewrite kv_meta_off_eq. unfold in_range. lia. }
  assert (length (set_header m2 h) = length m) as H3 by (rewrite length_set_header; [done|lia]).
  assert (length (splice (set_header m2 h) off k) = length m) as H4.
  { rewrite length_splice; [done|]. unfold in_range. rewrite H3. lia. }
  split_and!; [exact H0|done..|]. unfold m', inserted. fold m1 m2.
  rewrite length_splice; [exact H4|]. unfold in_range. etransitivity; [exact Hend|]. apply Nat.eq_le_incl. symmetry. exact H4.
Qed.

(** Data of the old records is not touched. *)
Lemma insert_slice_data o l : (off + length k + length v <= o)%nat -> slice m' o l = slice m o l.
Proof.
  intros Ho. destruct insert_lengths as (H0 & H1 & H2 & H3 & H4 & H5).
  unfold m', inserted. pose proof (nr_fit _ _ Hm) as Hf. rewrite !kv_meta_off_eq in *. unfold KVMeta_size in *.
  rewrite slice_splice_ne by (unfold in_range in *; lia).
  rewrite slice_splice_ne by (unfold in_range in *; lia).
  rewrite slice_set_header by lia.
  rewrite slice_store_ne by (unfold in_range in *; lia).
  rewrite slice_splice_ne by (unfold in_range in *; lia). done.
Qed.

(** The descriptor array is shifted. *)
Lemma insert_meta j :
  (j <= length ss)%nat ->
  meta_at m' j = if decide (j < idx)%nat then meta_at m j else if decide (j = idx) then w else meta_at m (j - 1).
Proof.
  intros Hj. destruct insert_lengths as (H0 & H1 & H2 & H3 & H4 & H5).
  unfold m', inserted, meta_at, load_u64. pose proof (nr_fit _ _ Hm) as Hf. rewrite !kv_meta_off_eq in *. unfold KVMeta_size in *.
  rewrite slice_splice_ne by (unfold in_range in *; lia).
  rewrite slice_splice_ne by (unfold in_range in *; lia).
  rewrite slice_set_header by lia.
  case_decide; [|case_decide].
  - rewrite slice_store_ne by (unfold in_range in *; lia). by rewrite slice_splice_ne by (unfold in_range in *; lia).
  - subst j. fold (load_u64 (store_u64 (splice m (16 + 8 * (idx + 1)) (slice m (16 + 8 * idx) (8 * (length ss - idx)))) (16 + 8 * idx) w) (16 + 8 * idx)).
    pose proof (nr_size _ _ Hm).
    apply load_store_same; [unfold in_range in *; lia|apply new_meta_is_u64; lia].
  - rewrite slice_store_ne by (unfold in_range in *; lia). f_equal.
    apply list_eq; intros i. rewrite !lookup_slice. case_decide; [|done].
    rewrite lookup_splice by (unfold in_range in *; lia). rewrite decide_True by lia.
    rewrite lookup_slice, decide_True by lia. f_equal. lia.
Qed.

Lemma insert_key_val :
  slice m' off (length k) = k /\ slice m' (off + length k) (length v) = v.
Proof.
  destruct insert_lengths as (H0 & H1 & H2 & H3 & H4 & H5). unfold m', inserted. split.
  - rewrite slice_splice_ne by (unfold in_range in *; lia). apply slice_splice_same. unfold in_range in *. lia.
  - apply slice_splice_same. unfold in_range in *. lia.
Qed.

Lemma insert_count : record_count m' = (length ss + 1)%nat.
Proof.
  destruct insert_lengths as (H0 & H1 & H2 & H3 & H4 & H5). pose proof (nr_fit _ _ Hm) as Hf.
  unfold m', inserted, record_count. rewrite !kv_meta_off_eq in *. unfold KVMeta_size in *.
  rewrite !header_splice by (unfold in_range in *; lia).
  rewrite header_set_header.
  - unfold h. rewrite NodeMetaFacts.set_record_count_same by lia. lia.
  - lia.
  - apply NodeMetaFacts.set_record_count_wf; [apply header_wf|lia].
Qed.

Lemma insert_leaf_addr : NodeMeta.leaf (header m') = NodeMeta.leaf (header m).
Proof.
  destruct insert_lengths as (H0 & H1 & H2 & H3 & H4 & H5). pose proof (nr_fit _ _ Hm) as Hf.
  unfold m', inserted. rewrite !kv_meta_off_eq in *. unfold KVMeta_size in *.
  rewrite !header_splice by (unfold in_range in *; lia).
  rewrite header_set_header; [|lia|apply NodeMetaFacts.set_record_count_wf; [apply header_wf|lia]].
  apply NodeMetaFacts.set_record_count_leaf, header_wf.
Qed.

Lemma insert_repr : node_repr m' (vec_insert idx (mkSlot false k v KVRecordType.Insert) ss).
Proof.
  destruct insert_lengths as (H0 & H1 & H2 & H3 & H4 & H5).
  pose proof (nr_size _ _ Hm) as Hsz.
  destruct (new_meta_fields k v off) as (F1 & F2 & F3 & F4 & F5 & F6); [lia|]. fold w in F1, F2, F3, F4, F5, F6.
  assert (length (vec_insert idx (mkSlot false k v KVRecordType.Insert) ss) = (length ss + 1)%nat) as Hlen.
  { rewrite length_vec_insert; lia. }
  assert (forall j, (j <= length ss)%nat -> j <> idx -> exists i, (i < length ss)%nat /\ meta_at m' j = meta_at m i /\
    (j = i \/ j = S i) /\ vec_insert idx (mkSlot false k v KVRecordType.Insert) ss !! j = ss !! i /\
    (j < idx /\ i = j \/ idx < j /\ S i = j)%nat) as Hold.
  { intros j Hj Hne. unfold vec_insert. rewrite insert_meta by done. destruct (decide (j < idx)%nat).
    - exists j. split_and!; [lia|done|lia| |lia]. rewrite lookup_app_l by (rewrite length_take; lia).
      by apply lookup_take_lt.
    - exists (j - 1)%nat. rewrite decide_False by done. split_and!; [lia|done|lia| |lia].
      rewrite lookup_app_r by (rewrite length_take; lia). rewrite length_take, Nat.min_l by lia.
      destruct (j - idx)%nat as [|d] eqn:E; [lia|]. change (drop idx ss !! d = ss !! (j - 1)%nat).
      rewrite lookup_drop. f_equal. lia. }
  assert (meta_at m' idx = w) as Hnew.
  { rewrite insert_meta by lia. rewrite decide_False, decide_True by lia. done. }
  constructor; rewrite ?Hlen, ?H5.
  - apply Hm.
  - rewrite kv_meta_off_eq. lia.
  - apply insert_count.
  - intros j s Hs. pose proof (lookup_lt_Some _ _ _ Hs) as Hj. rewrite Hlen in Hj.
    destruct (decide (j = idx)) as [->|Hne].
    + unfold vec_insert in Hs. rewrite lookup_app_r in Hs by (rewrite length_take; lia).
      rewrite length_take, Nat.min_l, Nat.sub_diag in Hs by lia. injection Hs as <-.
      destruct insert_key_val as [Hk Hv].
      constructor; cbn [s_key s_val s_fence s_typ]; rewrite ?Hnew; unfold data_end; rewrite ?F1, ?F2, ?F3; done || lia.
    + destruct (Hold j) as (i & Hi & Hmeta & _ & Hss & _); [lia|done|]. rewrite Hss in Hs.
      apply (slot_at_transfer m m' i j s); [by apply Hm|done|done|].
      intros o l Ho _. apply insert_slice_data. specialize (Hbelow i Hi). lia.
  - intros j Hj. rewrite kv_meta_off_eq. destruct (decide (j = idx)) as [->|Hne]; [rewrite Hnew, F3; lia|].
    destruct (Hold j) as (i & Hi & -> & _); [lia|done|]. specialize (Hbelow i Hi). lia.
  - intros i j Hi Hj Hij. unfold data_end.
    destruct (decide (i = idx)) as [->|Hi']; [|destruct (decide (j = idx)) as [->|Hj']].
    + destruct (Hold j) as (i & Hi2 & -> & _); [lia|done|]. specialize (Hbelow i Hi2).
      rewrite Hnew, F1, F2, F3. lia.
    + destruct (Hold i) as (i2 & Hi2 & -> & _); [lia|done|]. specialize (Hbelow i2 Hi2).
      rewrite Hnew, F1, F2, F3. lia.
    + destruct (Hold i) as (i2 & Hi2 & -> & _ & _ & E1); [lia|done|].
      destruct (Hold j) as (j2 & Hj2 & -> & _ & _ & E2); [lia|done|].
      apply (nr_disj _ _ Hm i2 j2); lia.
Qed.
End insert.

(** * Functional behaviour *)

(** The content of a leaf as an ordered map from key suffixes to values with their state. *)
Definition content (es : list slot) : list (bytes * (bytes * KVRecordType.t)) :=
  (fun s => (s_key s, (s_val s, s_typ s))) <$> es.

(** What [try_put] does to it: a new record is an [Insert]; an existing one keeps its state. *)
Definition put_value (v : bytes) (o : option (bytes * KVRecordType.t)) : bytes * KVRecordType.t :=
  match o with Some (_, t) => (v, t) | None => (v, KVRecordType.Insert) end.

Lemma content_sorted es : keys_sorted es -> bt_sorted (content es).
Proof.
  unfold keys_sorted, bt_sorted, content. rewrite <-list_fmap_compose. done.
Qed.

(** ** The space check *)

(** The bytes between the descriptors and the data. *)
Definition free_space (m : bytes) : nat :=
  match find_min_offset (E := unit) m with
  | Ok min_offset => (min_offset - kv_meta_off (record_count m))%nat
  | _ => 0%nat
  end.

Lemma foldl_min_le l o : (foldl Nat.min o l <= o)%nat /\ Forall (fun x => foldl Nat.min o l <= x)%nat l.
Proof.
  revert o; induction l as [|x l IH]; intros o; [by split|]. cbn [foldl].
  destruct (IH (Nat.min o x)) as [H1 H2]. split; [lia|]. constructor; [lia|done].
Qed.

Lemma foldl_min_in l o : foldl Nat.min o l = o \/ foldl Nat.min o l ∈ l.
Proof.
  revert o; induction l as [|x l IH]; intros o; [by left|]. cbn [foldl].
  destruct (IH (Nat.min o x)) as [->|H]; [|set_solver]. destruct (Nat.min_spec o x) as [[_ ->]|[_ ->]]; set_solver.
Qed.

Section space.
Context (m : bytes) (ss : list slot) (Hm : node_repr m ss) (Hne : ss <> []).

Lemma repr_get_kv_meta {E} i : (i < length ss)%nat -> get_kv_meta (E := E) m i = Ok (meta_at m i).
Proof.
  intros Hi. pose proof (nr_fit _ _ Hm). rewrite kv_meta_off_eq in *.
  apply get_kv_meta_ok; [by rewrite (nr_count _ _ Hm)|rewrite kv_meta_off_eq; lia].
Qed.

Lemma find_min_offset_spec :
  exists mo, (forall E, find_min_offset (E := E) m = Ok mo) /\ (mo <= length m)%nat /\
    (kv_meta_off (length ss) <= mo)%nat /\ (forall i, (i < length ss)%nat -> (mo <= data_off (meta_at m i))%nat) /\
    exists i, (i < length ss)%nat /\ mo = data_off (meta_at m i).
Proof.
  set (offs := (fun i => data_off (meta_at m i)) <$> seq 0 (length ss)).
  assert (forall x, x ∈ offs -> exists i, (i < length ss)%nat /\ x = data_off (meta_at m i)) as Hin.
  { intros x (i & -> & Hi)%list_elem_of_fmap. apply elem_of_seq in Hi. exists i. split; [lia|done]. }
  assert (forall E, mapM (get_kv_meta (E := E) m) (seq 0 (record_count m)) = Ok (meta_at m <$> seq 0 (length ss))) as Hmap.
  { intros E. rewrite (nr_count _ _ Hm). apply mapM_ok. intros i Hi%elem_of_seq. apply repr_get_kv_meta. lia. }
  assert (data_off <$> (meta_at m <$> seq 0 (length ss)) = offs) as Hoffs by (by rewrite <-list_fmap_compose).
  destruct offs as [|o os] eqn:Eo.
  { apply (f_equal length) in Hoffs. rewrite !length_fmap, length_seq in Hoffs. by destruct ss. }
  exists (foldl Nat.min o os). split.
  { intros E. unfold find_min_offset. rewrite Hmap. cbn [mbind outcome_bind]. by rewrite Hoffs. }
  destruct (foldl_min_le os o) as [Hle Hall].
  assert (exists i, (i < length ss)%nat /\ foldl Nat.min o os = data_off (meta_at m i)) as (i & Hi & Hmo).
  { apply Hin. destruct (foldl_min_in os o) as [->|]; set_solver. }
  split_and!.
  - rewrite Hmo. destruct (lookup_lt_is_Some_2 ss i Hi) as [s Hs].
    pose proof (sa_end _ _ _ (nr_slots _ _ Hm i s Hs)) as He. unfold data_end in He. lia.
  - rewrite Hmo. by apply Hm.
  - intros j Hj. assert (data_off (meta_at m j) ∈ o :: os) as Hin'.
    { rewrite <-Eo. unfold offs. apply list_elem_of_fmap. exists j. split; [done|]. apply elem_of_seq. lia. }
    apply elem_of_cons in Hin' as [->|Hin']; [done|]. by apply (proj1 (Forall_forall _ _) Hall).
  - by exists i.
Qed.

(** The free space from a lowest offset that is attained. *)
Lemma free_space_eq mo i0 :
  (forall i, (i < length ss)%nat -> (mo <= data_off (meta_at m i))%nat) ->
  (i0 < length ss)%nat -> data_off (meta_at m i0) = mo -> free_space m = (mo - kv_meta_off (length ss))%nat.
Proof.
  intros Hlow Hi0 Hmo. destruct find_min_offset_spec as (mo' & Hf & _ & _ & Hlow' & i & Hi & Hmo').
  unfold free_space. rewrite Hf, (nr_count _ _ Hm). specialize (Hlow i Hi). specialize (Hlow' i0 Hi0). f_equal. lia.
Qed.
End space.

Section put.
Context (m lo up : bytes) (es : list slot) (Hm : leaf_repr m lo up es).
Context (k v : bytes).

(** The page after [try_put_with_suffix] inserted at descriptor [idx]. *)
Lemma put_insert_run idx mo :
  binary_search (E := InsufficientSpace) m k = Ok (inr idx) -> (idx < length es + 2)%nat ->
  (forall E, find_min_offset (E := E) m = Ok mo) -> (mo <= length m)%nat ->
  (length k + length v + 8 + kv_meta_off (length es + 2) <= mo)%nat ->
  try_put_with_suffix k v m =
    (inserted m (length es + 2) idx (mo - (length k + length v)) (new_meta k v (mo - (length k + length v)))
       (NodeMeta.set_record_count (header m) (Z.of_nat (length es + 2 + 1))) k v, Ok tt).
Proof.
  intros Hs Hidx Hmo Hmol Hsp. pose proof (leaf_count _ _ _ _ Hm) as Hrc. pose proof (leaf_fit _ _ _ _ Hm) as Hfit.
  pose proof (lr_repr _ _ _ _ Hm) as Hr. pose proof (nr_size _ _ Hr) as Hsz.
  rewrite kv_meta_off_eq in Hsp.
  destruct (insert_lengths m _ Hr idx (mo - (length k + length v)) k v) as (H0 & H1 & H2 & H3 & H4 & H5);
    [rewrite length_user_slots; lia..|lia|].
  destruct (new_meta_fields k v (mo - (length k + length v))) as (F1 & F2 & F3 & _); [lia|].
  rewrite length_user_slots in *.
  set (off := (mo - (length k + length v))%nat) in *. set (w := new_meta k v off) in *.
  set (m1 := splice m (kv_meta_off (idx + 1)) (slice m (kv_meta_off idx) (KVMeta_size * (length es + 2 - idx)))) in *.
  set (m2 := store_u64 m1 (kv_meta_off idx) w) in *.
  set (h := NodeMeta.set_record_count (header m) (Z.of_nat (length es + 2 + 1))) in *.
  unfold try_put_with_suffix. rewrite (run_asks (fun m => binary_search m k) _ _ (inr idx) Hs). rewrite (run_asks find_min_offset _ _ mo (Hmo _)).
  rewrite (run_lift _ _ _ off) by (rewrite (proj2 (Nat.leb_le _ _)) by lia; done).
  rewrite (run_asks _ _ _ (length es + 2)%nat) by (by rewrite Hrc).
  rewrite (proj2 (Nat.ltb_ge _ _)) by (unfold KVMeta_size, off; lia).
  rewrite (run_lift _ _ _ tt) by (unfold rassert; by rewrite (proj2 (Nat.leb_le _ _)) by lia).
  rewrite (run_asks _ _ _ (slice m (kv_meta_off idx) (KVMeta_size * (length es + 2 - idx)))).
  2: { apply read_raw_ok. unfold in_range, KVMeta_size. rewrite kv_meta_off_eq. lia. }
  rewrite run_write by (rewrite H0; unfold in_range, KVMeta_size; rewrite kv_meta_off_eq; lia). fold m1.
  change (KVMeta.new _ _ _ _ _ _ _) with w.
  assert (header m1 = header m) as Hh1.
  { unfold m1. apply header_splice; [rewrite H0; unfold in_range, KVMeta_size|]; rewrite ?kv_meta_off_eq; lia. }
  assert (header m2 = header m) as Hh2.
  { unfold m2. rewrite header_store; [done|unfold in_range; rewrite H1|]; rewrite kv_meta_off_eq; lia. }
  assert (set_kv_meta (E := InsufficientSpace) idx w m1 = (m2, Ok tt)) as Hset.
  { apply set_kv_meta_ok; [unfold record_count; rewrite Hh1; fold (record_count m); lia|].
    rewrite H1, kv_meta_off_eq. lia. }
  run Hset.
  assert (modify_header (E := InsufficientSpace) NodeMeta.inc_record_count m2 = (set_header m2 h, Ok tt)) as Hinc.
  { apply modify_header_ok. rewrite Hh2. unfold NodeMeta.inc_record_count.
    assert (NodeMeta.record_count (header m) = Z.of_nat (length es + 2)) as Hz.
    { pose proof (NodeMetaFacts.record_count_range (header m)). unfold record_count in Hrc. lia. }
    rewrite Hz. rewrite (proj2 (Z.ltb_lt _ _)) by lia. cbn [expect mbind outcome_bind]. unfold h. do 2 f_equal. lia. }
  run Hinc.
  unfold copy_to_key, copy_to_val. rewrite F1, F2, F3.
  rewrite (bindS_ok _ _ _ (splice (set_header m2 h) off k) tt).
  2: { apply copy_from_slice_ok; [done|]. unfold in_range. rewrite H3. unfold off. lia. }
  rewrite copy_from_slice_ok; [done|done|]. unfold in_range. rewrite H4. unfold off. lia.
Qed.

Lemma vec_insert_user j s :
  (j <= length es)%nat -> vec_insert (S j) s (user_slots lo up es) = user_slots lo up (vec_insert j s es).
Proof.
  intros Hj. unfold vec_insert, user_slots. simpl. f_equal.
  rewrite take_app_le, drop_app_le by done. by rewrite <-(assoc_L (++)).
Qed.

(** Entries on either side of a search position. *)
Lemma split_at j :
  (forall i s, (i < j)%nat -> es !! i = Some s -> bytes_lt (s_key s) k) ->
  (forall i s, (j <= i)%nat -> es !! i = Some s -> bytes_lt k (s_key s)) ->
  Forall (fun s => bytes_lt (s_key s) k) (take j es) /\ Forall (fun s => bytes_lt k (s_key s)) (drop j es).
Proof.
  intros Hb Ha. split; apply Forall_lookup; intros i s Hi.
  - apply lookup_take_Some in Hi as [Hi Hlt]. by eapply Hb.
  - rewrite lookup_drop in Hi. eapply Ha; [|exact Hi]. lia.
Qed.

Lemma vec_insert_content j s :
  s_key s = k -> s_val s = v -> s_typ s = KVRecordType.Insert ->
  Forall (fun s => bytes_lt (s_key s) k) (take j es) -> Forall (fun s => bytes_lt k (s_key s)) (drop j es) ->
  content (vec_insert j s es) = bt_alter (put_value v) (content es) k.
Proof.
  intros Hk Hv Ht Hb Ha. rewrite <-(take_drop j es) at 2. unfold vec_insert, content. rewrite !fmap_app.
  rewrite bt_alter_at; [|by apply Forall_fmap..]. rewrite fmap_cons, Hk, Hv, Ht. done.
Qed.

Lemma bt_sorted_content es' : bt_sorted (content es') -> keys_sorted es'.
Proof. unfold keys_sorted, bt_sorted, content. by rewrite <-list_fmap_compose. Qed.

(** An insertion with room for the record and its descriptor. *)
Lemma put_insert_leaf j :
  search_spec es k (inr (S j)) -> binary_search (E := InsufficientSpace) m k = Ok (inr (S j)) ->
  (length k + length v + 8 <= free_space m)%nat ->
  exists m' es', try_put_with_suffix k v m = (m', Ok tt) /\ leaf_repr m' lo up es' /\
    content es' = bt_alter (put_value v) (content es) k /\ length m' = length m /\
    (free_space m' + (length k + length v + 8))%nat = free_space m /\
    NodeMeta.leaf (header m') = NodeMeta.leaf (header m).
Proof.
  intros (j' & [= <-] & Hj & Hb & Ha) Hs Hsp. pose proof (lr_repr _ _ _ _ Hm) as Hr.
  destruct (find_min_offset_spec m _ Hr) as (mo & Hmo & Hmol & Hmo1 & Hmo2 & _); [done|].
  assert (free_space m = (mo - kv_meta_off (length es + 2))%nat) as Hfree.
  { unfold free_space. by rewrite Hmo, (leaf_count _ _ _ _ Hm). }
  rewrite Hfree in *. pose proof (nr_size _ _ Hr) as Hsz. rewrite length_user_slots in *. rewrite kv_meta_off_eq in *.
  set (off := (mo - (length k + length v))%nat).
  assert (24 + 8 * (length es + 2) <= off /\ off + length k + length v <= length m)%nat as [Ho1 Ho2] by lia.
  assert (forall i, (i < length es + 2)%nat -> (off + length k + length v <= data_off (meta_at m i))%nat) as Hbelow.
  { intros i Hi. specialize (Hmo2 i Hi). lia. }
  set (s := mkSlot false k v KVRecordType.Insert).
  pose proof (insert_repr m _ Hr (S j) off k v) as Hins. pose proof (insert_lengths m _ Hr (S j) off k v) as Hlens.
  pose proof (insert_meta m _ Hr (S j) off k v) as Hmeta.
  pose proof (insert_leaf_addr m _ Hr (S j) off k v) as Haddr. rewrite length_user_slots in *.
  destruct Hlens as (_ & _ & _ & _ & _ & Hl'); [lia..|].
  specialize (Hins ltac:(lia) ltac:(lia) ltac:(lia) ltac:(lia) Hbelow).
  assert (content (vec_insert j s es) = bt_alter (put_value v) (content es) k) as Hc
    by (destruct (split_at j Hb Ha); by apply vec_insert_content).
  set (m' := inserted _ _ _ _ _ _ _ _) in *. exists m', (vec_insert j s es).
  split; [apply (put_insert_run (S j) mo); [done|lia|done|done|rewrite kv_meta_off_eq; lia]|].
  split_and!; [constructor|done|done| |apply Haddr; lia].
  - by rewrite <-vec_insert_user.
  - apply bt_sorted_content. rewrite Hc. apply bt_alter_sorted, content_sorted, Hm.
  - unfold all_user, vec_insert. apply Forall_app. split; [by apply Forall_take, Hm|].
    constructor; [done|]. by apply Forall_drop, Hm.
  - rewrite (free_space_eq m' _ Hins) with (mo := off) (i0 := S j).
    + rewrite length_vec_insert, length_user_slots, kv_meta_off_eq by (rewrite length_user_slots; lia). lia.
    + by rewrite vec_insert_user.
    + rewrite length_vec_insert, length_user_slots by (rewrite length_user_slots; lia). intros i Hi. rewrite Hmeta by lia.
      case_decide; [specialize (Hbelow i ltac:(lia)); lia|]. case_decide; [|specialize (Hbelow (i - 1)%nat ltac:(lia)); lia].
      destruct (new_meta_fields k v off) as (_ & _ & -> & _); lia.
    + rewrite length_vec_insert, length_user_slots by (rewrite length_user_slots; lia). lia.
    + rewrite Hmeta by lia. rewrite decide_False, decide_True by lia.
      by destruct (new_meta_fields k v off) as (_ & _ & -> & _); [lia|].
Qed.

(** No room: nothing is written. *)
Lemma put_insert_full j :
  binary_search (E := InsufficientSpace) m k = Ok (inr (S j)) ->
  (free_space m < length k + length v)%nat ->
  try_put_with_suffix k v m = (m, Err mkInsufficientSpace).
Proof.
  intros Hs Hsp. pose proof (lr_repr _ _ _ _ Hm) as Hr.
  destruct (find_min_offset_spec m _ Hr) as (mo & Hmo & Hmol & Hmo1 & Hmo2 & _); [done|].
  unfold free_space in Hsp. rewrite Hmo, (leaf_count _ _ _ _ Hm) in Hsp. rewrite length_user_slots in *.
  rewrite kv_meta_off_eq in *.
  unfold try_put_with_suffix. rewrite (run_asks (fun m => binary_search m k) _ _ (inr (S j)) Hs), (run_asks find_min_offset _ _ mo (Hmo _)).
  destruct (Nat.leb_spec (length k + length v) mo); [|done].
  rewrite (run_lift _ _ _ (mo - (length k + length v))%nat) by done.
  rewrite (run_asks _ _ _ (length es + 2)%nat) by (by rewrite (leaf_count _ _ _ _ Hm)).
  by rewrite (proj2 (Nat.ltb_lt _ _)) by (unfold KVMeta_size; lia).
Qed.
End put.

(** ** Changing one record in place *)

(** The page after a change of record [i] that keeps the place of its data, where the
    data of every other record and the header are untouched. *)
Lemma update_repr m m' ss i s :
  node_repr m ss -> (i < length ss)%nat -> length m' = length m -> header m' = header m ->
  data_off (meta_at m' i) = data_off (meta_at m i) -> data_end (meta_at m' i) = data_end (meta_at m i) ->
  (forall j, (j < length ss)%nat -> j <> i -> meta_at m' j = meta_at m j) ->
  (forall j o l, (j < length ss)%nat -> j <> i -> (data_off (meta_at m j) <= o)%nat ->
     (o + l <= data_end (meta_at m j))%nat -> slice m' o l = slice m o l) ->
  slot_at m' i s -> node_repr m' (<[i := s]> ss).
Proof.
  intros Hm Hi Hl Hh Ho He Hmeta Hdata Hs.
  assert (forall j, (j < length ss)%nat -> data_off (meta_at m' j) = data_off (meta_at m j) /\
    data_end (meta_at m' j) = data_end (meta_at m j)) as Hall.
  { intros j Hj. destruct (decide (j = i)) as [->|]; [done|]. by rewrite Hmeta. }
  constructor; rewrite ?length_insert, ?Hl.
  - apply Hm.
  - apply Hm.
  - unfold record_count. rewrite Hh. apply Hm.
  - intros j sj Hj. apply list_lookup_insert_Some in Hj as [(<- & <- & _)|[Hne Hj]]; [done|].
    pose proof (lookup_lt_Some _ _ _ Hj) as Hlt.
    apply (slot_at_transfer m m' j j sj); [by apply Hm|done|by apply Hmeta; [|done]|].
    intros o l H1 H2. by apply (Hdata j).
  - intros j Hj. destruct (Hall j Hj) as [-> _]. by apply Hm.
  - intros j j' Hj Hj' Hne. destruct (Hall j Hj) as [-> ->], (Hall j' Hj') as [-> ->]. by apply Hm.
Qed.

(** The value rewritten by one of the same length. *)
Lemma overwrite_repr m ss i s v :
  node_repr m ss -> ss !! i = Some s -> length v = length (s_val s) ->
  node_repr (splice m (data_off (meta_at m i) + key_len (meta_at m i)) v)
    (<[i := mkSlot (s_fence s) (s_key s) v (s_typ s)]> ss).
Proof.
  intros Hm Hs Hv. pose proof (lookup_lt_Some _ _ _ Hs) as Hi. pose proof (nr_slots _ _ Hm i s Hs) as Hsl.
  pose proof (nr_above _ _ Hm i Hi) as Hab. pose proof (nr_fit _ _ Hm) as Hfit. rewrite kv_meta_off_eq in *.
  destruct Hsl as [F1 F2 F3 F4 F5 F6 F7 F8]. unfold data_end in F6.
  set (p := (data_off (meta_at m i) + key_len (meta_at m i))%nat).
  assert (in_range m p (length v)) as Hr by (unfold in_range, p; lia).
  assert (forall j, (j < length ss)%nat -> meta_at (splice m p v) j = meta_at m j) as Hmeta.
  { intros j Hj. apply meta_at_ext. rewrite kv_meta_off_eq. apply slice_splice_ne; [done|]. unfold p. lia. }
  apply (update_repr m); try done.
  - by apply length_splice.
  - apply header_splice; [done|]. unfold p. lia.
  - by rewrite Hmeta.
  - by rewrite Hmeta.
  - intros j Hj _. by apply Hmeta.
  - intros j o l Hj Hne Ho Hl. apply slice_splice_ne; [done|].
    destruct (nr_disj _ _ Hm i j Hi Hj) as [Hd|Hd]; [done|..]; unfold data_end, p in *; lia.
  - constructor; cbn [s_fence s_key s_val s_typ]; rewrite ?Hmeta by done; try done; unfold data_end.
    + by rewrite F2.
    + rewrite length_splice by done. lia.
    + rewrite slice_splice_ne; [done|done|]. unfold p. lia.
    + rewrite <-F1. by apply slice_splice_same.
Qed.

Lemma overwrite_free m ss i s v :
  node_repr m ss -> ss !! i = Some s -> length v = length (s_val s) ->
  let m' := splice m (data_off (meta_at m i) + key_len (meta_at m i)) v in
  length m' = length m /\ free_space m' = free_space m.
Proof.
  intros Hm Hs Hv m'. pose proof (overwrite_repr m ss i s v Hm Hs Hv) as Hm'. fold m' in Hm'.
  pose proof (lookup_lt_Some _ _ _ Hs) as Hi. assert (ss <> []) as Hne by (by intros ->).
  assert (<[i := mkSlot (s_fence s) (s_key s) v (s_typ s)]> ss <> []) as Hne'.
  { intros H%(f_equal length). rewrite length_insert in H. destruct ss; [done|simpl in H; lia]. }
  pose proof (nr_slots _ _ Hm i s Hs) as [F1 F2 _ _ _ F6 _ _]. unfold data_end in F6.
  pose proof (nr_above _ _ Hm i Hi) as Hab. rewrite kv_meta_off_eq in Hab.
  assert (in_range m (data_off (meta_at m i) + key_len (meta_at m i)) (length v)) as Hr by (unfold in_range; lia).
  split; [by apply length_splice|].
  destruct (find_min_offset_spec m ss Hm Hne) as (mo & _ & _ & _ & Hlow & i0 & Hi0 & Hmo).
  assert (forall j, (j < length ss)%nat -> meta_at m' j = meta_at m j) as Hmeta.
  { intros j Hj. apply meta_at_ext. rewrite kv_meta_off_eq. apply slice_splice_ne; [done|]. lia. }
  rewrite (free_space_eq m ss Hm Hne mo i0), (free_space_eq m' _ Hm' Hne' mo i0); rewrite ?length_insert, ?Hmeta; try done.
  intros j Hj. rewrite Hmeta by done. by apply Hlow.
Qed.

Lemma set_type_fields w t :
  is_u64 w ->
  let w' := KVMeta.set_record_type w t in
  key_len w' = key_len w /\ val_len w' = val_len w /\ data_off w' = data_off w /\
  KVMeta.fence w' = KVMeta.fence w /\ KVMeta.typ w' = t /\ KVMeta.look_ahead w' = KVMeta.look_ahead w.
Proof.
  intros Hw w'. pose proof (KVMetaFacts.set_record_type_fields w Hw t) as H.
  unfold KVMetaFacts.fields_of in H. injection H as H1 H2 H3 H4 H5 H6 H7. fold w' in H1, H2, H3, H4, H5, H6, H7.
  unfold key_len, val_len, data_off. by rewrite H1, H2, H3.
Qed.

(** The state of a record rewritten. *)
Lemma set_type_repr m ss i s t :
  node_repr m ss -> ss !! i = Some s ->
  node_repr (store_u64 m (kv_meta_off i) (KVMeta.set_record_type (meta_at m i) t))
    (<[i := mkSlot (s_fence s) (s_key s) (s_val s) t]> ss).
Proof.
  intros Hm Hs. pose proof (lookup_lt_Some _ _ _ Hs) as Hi. pose proof (nr_slots _ _ Hm i s Hs) as Hsl.
  pose proof (nr_fit _ _ Hm) as Hfit. rewrite kv_meta_off_eq in Hfit.
  set (w := KVMeta.set_record_type (meta_at m i) t).
  assert (is_u64 (meta_at m i)) as Hu by apply load_u64_range.
  destruct (set_type_fields (meta_at m i) t Hu) as (G1 & G2 & G3 & G4 & G5 & G6). fold w in G1, G2, G3, G4, G5, G6.
  assert (in_range m (kv_meta_off i) 8) as Hr by (unfold in_range; rewrite kv_meta_off_eq; lia).
  assert (meta_at (store_u64 m (kv_meta_off i) w) i = w) as Hw.
  { apply load_store_same; [done|]. by apply KVMetaFacts.set_record_type_is_u64. }
  assert (forall j o l, (j < length ss)%nat -> (data_off (meta_at m j) <= o)%nat ->
    slice (store_u64 m (kv_meta_off i) w) o l = slice m o l) as Hdata.
  { intros j o l Hj Ho. pose proof (nr_above _ _ Hm j Hj) as Hab. rewrite kv_meta_off_eq in Hab.
    apply slice_store_ne; [done|]. rewrite kv_meta_off_eq. lia. }
  destruct Hsl as [F1 F2 F3 F4 F5 F6 F7 F8].
  apply (update_repr m); try done.
  - by apply length_store.
  - apply header_store; [done|]. rewrite kv_meta_off_eq. lia.
  - by rewrite Hw.
  - rewrite Hw. unfold data_end. by rewrite G1, G2, G3.
  - intros j Hj Hne. apply meta_at_ext. apply slice_store_ne; [done|]. rewrite !kv_meta_off_eq. lia.
  - intros j o l Hj _ Ho _. by apply (Hdata j).
  - unfold slot_look in F5. constructor; unfold slot_look; cbn [s_fence s_key s_val s_typ]; rewrite ?Hw; try congruence.
    + unfold data_end in *. rewrite length_store by done. by rewrite G1, G2, G3.
    + rewrite G3, Hdata with (j := i) by done. done.
    + rewrite G3, Hdata with (j := i) by lia. done.
Qed.

(** ** The same at the level of leaves *)

Lemma insert_user_slots lo up es j s :
  (j < length es)%nat -> <[S j := s]> (user_slots lo up es) = user_slots lo up (<[j := s]> es).
Proof. intros Hj. unfold user_slots. simpl. f_equal. by apply insert_app_l. Qed.

Lemma update_leaf m' lo up es j s s' :
  keys_sorted es -> all_user es -> es !! j = Some s -> s_key s' = s_key s -> s_fence s' = false ->
  node_repr m' (<[S j := s']> (user_slots lo up es)) -> leaf_repr m' lo up (<[j := s']> es).
Proof.
  intros Hso Hu Hs Hk Hf Hr. pose proof (lookup_lt_Some _ _ _ Hs) as Hj. constructor.
  - by rewrite <-insert_user_slots.
  - unfold keys_sorted in *. rewrite list_fmap_insert, list_insert_id; [done|]. by rewrite list_lookup_fmap, Hs, Hk.
  - by apply Forall_insert.
Qed.

(** The entries before a position are below its key. *)
Lemma sorted_take es j s :
  keys_sorted es -> es !! j = Some s -> Forall (fun s' => bytes_lt (s_key s') (s_key s)) (take j es).
Proof.
  intros Hso Hs. apply Forall_lookup. intros i s' Hi. apply lookup_take_Some in Hi as [Hi Hlt].
  eapply (StronglySorted_lookup _ (s_key <$> es) i j); [exact Hso|lia|..]; by rewrite list_lookup_fmap, ?Hi, ?Hs.
Qed.

Lemma content_at es j s :
  keys_sorted es -> es !! j = Some s ->
  bt_get (content es) (s_key s) = Some (s_val s, s_typ s) /\
  forall f v t, f (Some (s_val s, s_typ s)) = (v, t) ->
    content (<[j := mkSlot (s_fence s) (s_key s) v t]> es) = bt_alter f (content es) (s_key s).
Proof.
  intros Hso Hs. pose proof (lookup_lt_Some _ _ _ Hs) as Hj.
  pose proof (sorted_take es j s Hso Hs) as Hb.
  assert (content es = content (take j es) ++ (s_key s, (s_val s, s_typ s)) :: content (drop (S j) es)) as Hc.
  { rewrite <-(take_drop_middle es j s Hs) at 1. unfold content. by rewrite fmap_app, fmap_cons. }
  assert (Forall (fun e : bytes * (bytes * KVRecordType.t) => klt e.1 (s_key s)) (content (take j es))) as Hb'
    by (by apply Forall_fmap).
  split; [rewrite Hc; by apply bt_get_found|]. intros f v t Hf.
  rewrite Hc, bt_alter_found by done. rewrite Hf. rewrite insert_take_drop by done. unfold content.
  by rewrite fmap_app, fmap_cons.
Qed.

Lemma content_absent es j k :
  keys_sorted es -> search_spec es k (inr (S j)) -> bt_get (content es) k = None.
Proof.
  intros Hso (j' & [= <-] & Hj & Hb & Ha). apply bt_get_notin. intros k' v Hin ->.
  apply list_elem_of_fmap in Hin as (s & [= -> _] & Hin). apply list_elem_of_lookup in Hin as [i Hi].
  destruct (Nat.lt_ge_cases i j) as [Hlt|Hge].
  - by apply (bytes_lt_irrefl (s_key s)), (Hb i s).
  - by apply (bytes_lt_irrefl (s_key s)), (Ha i s).
Qed.

Section leaf_ops.
Context (m lo up : bytes) (es : list slot) (Hm : leaf_repr m lo up es).

Lemma node_prefix_ok {E} : get_node_prefix (E := E) m = Ok (common_prefix lo up).
Proof.
  unfold get_node_prefix. rewrite (leaf_get_kv_meta m lo up es Hm 0) by lia. cbn [mbind outcome_bind].
  rewrite (slot_stored_key m 0 _ (leaf_low _ _ _ _ Hm)). cbn [mbind outcome_bind].
  rewrite (leaf_count _ _ _ _ Hm). unfold usub. rewrite (proj2 (Nat.leb_le _ _)) by lia. cbn [mbind outcome_bind].
  replace (length es + 2 - 1)%nat with (S (length es)) by lia.
  rewrite (leaf_get_kv_meta m lo up es Hm) by lia. cbn [mbind outcome_bind].
  by rewrite (slot_stored_key m _ _ (leaf_high _ _ _ _ Hm)).
Qed.

Lemma fence_bounds_ok {E} : fence_bounds (E := E) m = Ok (lo, up).
Proof.
  unfold fence_bounds. rewrite (leaf_get_kv_meta m lo up es Hm 0) by lia. cbn [mbind outcome_bind].
  rewrite (leaf_count _ _ _ _ Hm). unfold usub. rewrite (proj2 (Nat.leb_le _ _)) by lia. cbn [mbind outcome_bind].
  replace (length es + 2 - 1)%nat with (S (length es)) by lia.
  rewrite (leaf_get_kv_meta m lo up es Hm) by lia. cbn [mbind outcome_bind].
  rewrite (slot_stored_key m 0 _ (leaf_low _ _ _ _ Hm)). cbn [mbind outcome_bind].
  by rewrite (slot_stored_key m _ _ (leaf_high _ _ _ _ Hm)).
Qed.

Lemma strip_prefix {E} (p k : bytes) : slice_from (E := E) (p ++ k) (length p) = Ok k.
Proof.
  unfold slice_from. rewrite (proj2 (Nat.leb_le _ _)) by (rewrite length_app; lia). by rewrite drop_app_length.
Qed.

Lemma starts_with_prefix (p k : bytes) : starts_with (p ++ k) p = true.
Proof. apply starts_with_app. eauto. Qed.

Lemma get_leaf {E} k :
  get (E := E) m (common_prefix lo up ++ k) = Ok (fst <$> bt_get (content es) k).
Proof.
  unfold get. rewrite node_prefix_ok. cbn [mbind outcome_bind]. rewrite starts_with_prefix. cbn [rassert mbind outcome_bind].
  rewrite strip_prefix. cbn [mbind outcome_bind].
  destruct (binary_search_spec m lo up es Hm (E := E) k) as ([i|i] & -> & Hsp); cbn [mbind outcome_bind].
  - destruct Hsp as (j & s & -> & Hs & <-). pose proof (lookup_lt_Some _ _ _ Hs).
    rewrite (leaf_get_kv_meta m lo up es Hm) by lia. cbn [mbind outcome_bind].
    destruct (content_at es j s) as [-> _]; [apply Hm|done|].
    rewrite (slot_val m _ _ (leaf_slot _ _ _ _ Hm j s Hs)). by destruct (KVMeta.typ _).
  - destruct Hsp as (j & -> & Hsp). rewrite (content_absent es j k); [done|apply Hm|]. exists j. done.
Qed.
End leaf_ops.

(** ** Formatting *)

Definition fence_meta (k : bytes) (off : nat) : Z :=
  KVMeta.set_offset (KVMeta.new (Z.of_nat (length k)) 0 0 KVRecordType.Cache true true 0) (u16 (Z.of_nat off)).

Lemma fence_meta_fields (k : bytes) off :
  (off + length k <= 4096)%nat ->
  let w := fence_meta k off in
  is_u64 w /\ key_len w = length k /\ val_len w = 0%nat /\ data_off w = off /\ KVMeta.fence w = true /\
  KVMeta.typ w = KVRecordType.Cache /\ KVMeta.look_ahead w = 0.
Proof.
  intros Ho w. set (w0 := KVMeta.new (Z.of_nat (length k)) 0 0 KVRecordType.Cache true true 0).
  assert (u16 (Z.of_nat off) = Z.of_nat off) as Hu by (apply Z.mod_small; lia).
  assert (is_u64 w0) as Hw0 by (apply KVMetaFacts.new_is_u64; lia).
  pose proof (KVMetaFacts.set_offset_fields w0 Hw0 (Z.of_nat off) ltac:(lia)) as H.
  unfold KVMetaFacts.fields_of in H. injection H as H1 H2 H3 H4 H5 H6 H7.
  assert (w = KVMeta.set_offset w0 (Z.of_nat off)) as Hw by (unfold w, fence_meta; by rewrite Hu).
  split; [rewrite Hw; apply KVMetaFacts.set_offset_is_u64; [done|lia]|].
  unfold key_len, val_len, data_off. rewrite Hw, H1, H2, H3, H4, H5, H7. unfold w0.
  rewrite KVMetaFacts.new_key_size, KVMetaFacts.new_val_size, KVMetaFacts.new_fence,
    KVMetaFacts.new_typ, KVMetaFacts.new_look_ahead by lia. split_and!; (reflexivity || apply Nat2Z.id).
Qed.

(** The page is as large as its header says. *)
Definition sized (m : bytes) : Prop :=
  exists s, (forall E, NodeMeta.size (E := E) (header m) = Ok s) /\ length m = NodeSize.size_in_bytes s.

Lemma size_in_bytes_bounds s : (64 <= NodeSize.size_in_bytes s <= 4096)%nat.
Proof. destruct s; vm_compute; lia. Qed.

Lemma fence_slot_at m i k :
  (data_off (meta_at m i) + length k <= length m)%nat -> slice m (data_off (meta_at m i)) (length k) = k ->
  meta_at m i = fence_meta k (data_off (meta_at m i)) -> (length m <= 4096)%nat -> slot_at m i (fence_slot k).
Proof.
  intros Hl Hk Hw Hsz. destruct (fence_meta_fields k (data_off (meta_at m i))) as (_ & F1 & F2 & F3 & F4 & F5 & F6);
    [lia|]. rewrite <-Hw in F1, F2, F3, F4, F5, F6.
  constructor; cbn [fence_slot s_key s_val s_fence s_typ]; try done.
  unfold data_end. lia.
Qed.

(** The page after the fences were written at [cl] and [cu]. *)
Definition fenced (m lo up : bytes) (cl cu : nat) : bytes :=
  let m' := splice (splice m cu up) cl lo in
  let m' := set_header m' (NodeMeta.set_record_count (header m) 2) in
  store_u64 (store_u64 m' 16 (fence_meta lo cl)) 24 (fence_meta up cu).

Section install.
Context (m lo up : bytes) (cl cu : nat).
Context (Hsz : (length m <= 4096)%nat) (Hcl : (32 <= cl)%nat).
Context (Hlo : (cl + length lo = cu)%nat) (Hup : (cu + length up = length m)%nat).

Let m2 := splice (splice m cu up) cl lo.
Let m3 := set_header m2 (NodeMeta.set_record_count (header m) 2).
Let m4 := store_u64 m3 16 (fence_meta lo cl).

Lemma fenced_lengths :
  length (splice m cu up) = length m /\ length m2 = length m /\ length m3 = length m /\ length m4 = length m /\
  length (fenced m lo up cl cu) = length m.
Proof.
  assert (length (splice m cu up) = length m) as N1 by (apply length_splice; unfold in_range; lia).
  assert (length m2 = length m) as N2 by (unfold m2; rewrite length_splice; unfold in_range; lia).
  assert (length m3 = length m) as N3 by (unfold m3; rewrite length_set_header; lia).
  assert (length m4 = length m) as N4 by (unfold m4; rewrite length_store; unfold in_range; lia).
  split_and!; try done. unfold fenced. fold m2 m3 m4. rewrite length_store; unfold in_range; lia.
Qed.

Lemma fenced_headers :
  header m2 = header m /\ header m3 = NodeMeta.set_record_count (header m) 2 /\ header m4 = header m3 /\
  header (fenced m lo up cl cu) = header m3.
Proof.
  destruct fenced_lengths as (N1 & N2 & N3 & N4 & N5).
  assert (header m4 = header m3) as Hh4 by (apply header_store; unfold in_range; lia). split_and!.
  - unfold m2. rewrite !header_splice; try done; unfold in_range; lia.
  - unfold m3. apply header_set_header; [lia|]. apply NodeMetaFacts.set_record_count_wf; [apply header_wf|lia].
  - done.
  - unfold fenced. fold m2 m3 m4. rewrite header_store; [done|unfold in_range; lia|lia].
Qed.

Lemma fenced_count :
  record_count m3 = 2%nat /\ record_count m4 = 2%nat /\ record_count (fenced m lo up cl cu) = 2%nat.
Proof.
  destruct fenced_headers as (_ & H3 & H4 & H5). unfold record_count.
  rewrite H5, H4, H3, NodeMetaFacts.set_record_count_same by lia. done.
Qed.

Lemma install_fences_run {E} s :
  NodeMeta.size (E := E) (header m) = Ok s -> length m = NodeSize.size_in_bytes s ->
  install_fences (E := E) lo up m = (fenced m lo up cl cu, Ok tt).
Proof.
  intros Hs Hl. destruct fenced_lengths as (N1 & N2 & N3 & N4 & N5), fenced_headers as (H2 & _),
    fenced_count as (C3 & C4 & _).
  unfold install_fences. rewrite (run_asks (fun m => NodeMeta.size (header m)) _ _ s) by done.
  rewrite (run_lift _ _ _ cu) by (unfold usub; rewrite <-Hl, (proj2 (Nat.leb_le _ _)) by lia; f_equal; lia).
  rewrite run_write by (unfold in_range; lia).
  rewrite (run_lift _ _ _ cl) by (unfold usub; rewrite (proj2 (Nat.leb_le _ _)) by lia; f_equal; lia).
  rewrite run_write by (unfold in_range; lia). fold m2.
  rewrite (bindS_ok _ _ _ m3 tt) by (unfold m3; rewrite <-H2; by apply modify_header_ok).
  rewrite (bindS_ok _ _ _ m4 tt) by (apply set_kv_meta_ok; rewrite ?kv_meta_off_eq; lia).
  apply set_kv_meta_ok; rewrite ?kv_meta_off_eq; lia.
Qed.

Lemma fenced_data :
  meta_at (fenced m lo up cl cu) 0 = fence_meta lo cl /\ meta_at (fenced m lo up cl cu) 1 = fence_meta up cu /\
  slice (fenced m lo up cl cu) cl (length lo) = lo /\ slice (fenced m lo up cl cu) cu (length up) = up.
Proof.
  destruct fenced_lengths as (N1 & N2 & N3 & N4 & N5).
  destruct (fence_meta_fields lo cl) as (L0 & _); [lia|]. destruct (fence_meta_fields up cu) as (U0 & _); [lia|].
  assert (forall o l, (32 <= o)%nat -> slice (fenced m lo up cl cu) o l = slice m2 o l) as Hdata.
  { intros o l Ho. unfold fenced. fold m2 m3 m4. rewrite slice_store_ne by (unfold in_range; lia).
    unfold m4. rewrite slice_store_ne by (unfold in_range; lia). apply slice_set_header; lia. }
  split_and!.
  - unfold fenced. fold m2 m3 m4. unfold meta_at. change (kv_meta_off 0) with 16%nat.
    rewrite load_store_ne by (unfold in_range; lia). apply load_store_same; [unfold in_range; lia|done].
  - unfold meta_at. change (kv_meta_off 1) with 24%nat. unfold fenced. fold m2 m3 m4.
    apply load_store_same; [unfold in_range; lia|done].
  - rewrite Hdata by lia. apply slice_splice_same. unfold in_range. lia.
  - rewrite Hdata by lia. unfold m2. rewrite slice_splice_ne by (unfold in_range; lia).
    apply slice_splice_same. unfold in_range. lia.
Qed.

Lemma fenced_leaf : leaf_repr (fenced m lo up cl cu) lo up [].
Proof.
  destruct fenced_lengths as (_ & _ & _ & _ & N5), fenced_data as (Hm0 & Hm1 & Dl & Du),
    fenced_count as (_ & _ & Hc).
  destruct (fence_meta_fields lo cl) as (L0 & L1 & L2 & L3 & _); [lia|].
  destruct (fence_meta_fields up cu) as (U0 & U1 & U2 & U3 & _); [lia|].
  constructor; [|constructor|constructor]. constructor; cbn [user_slots app length].
  - lia.
  - rewrite kv_meta_off_eq. lia.
  - done.
  - intros i si Hi. destruct i as [|[|i]]; [| |by destruct i]; injection Hi as <-; apply fence_slot_at;
      rewrite ?Hm0, ?Hm1, ?L3, ?U3, ?N5; done || lia.
  - intros i Hi. rewrite kv_meta_off_eq. destruct i as [|[|i]]; [rewrite Hm0|rewrite Hm1|]; lia.
  - intros i j Hi Hj Hne. unfold data_end. destruct i as [|[|i]], j as [|[|j]]; try lia; rewrite Hm0, Hm1; lia.
Qed.
End install.

Lemma install_fences_leaf {E} m lo up :
  sized m -> (length lo + length up + 32 <= length m)%nat ->
  exists m', install_fences (E := E) lo up m = (m', Ok tt) /\ leaf_repr m' lo up [] /\
    length m' = length m /\ header m' = NodeMeta.set_record_count (header m) 2.
Proof.
  intros (s & Hsize & Hlen) Hsp. pose proof (size_in_bytes_bounds s) as Hsb.
  set (cu := (length m - length up)%nat). set (cl := (cu - length lo)%nat).
  exists (fenced m lo up cl cu). split_and!.
  - apply (install_fences_run m lo up cl cu) with (s := s); done || lia.
  - apply fenced_leaf; lia.
  - apply fenced_lengths; lia.
  - destruct (fenced_headers m lo up cl cu) as (_ & H3 & _ & ->); [lia..|]. done.
Qed.

Lemma format_leaf_leaf {E} m p s a :
  length m = NodeSize.size_in_bytes s -> 0 <= p < 2 ^ 48 -> 0 <= a < 2 ^ 48 ->
  exists m', format_leaf (E := E) p s a m = (m', Ok tt) /\ leaf_repr m' LOWER_FENCE UPPER_FENCE [] /\
    NodeMeta.page_id (header m') = p /\ NodeMeta.leaf (header m') = a.
Proof.
  intros Hl Hp Ha. pose proof (size_in_bytes_bounds s) as Hsb.
  set (h := NodeMeta.reset_header (header m) p s a). set (m1 := set_header m h).
  assert (NodeMetaFacts.wf h) as Hwf by (by apply NodeMetaFacts.reset_header_wf).
  assert (header m1 = h) as Hh by (apply header_set_header; [lia|done]).
  destruct (NodeMetaFacts.reset_header_fields (header m) s p a Hp Ha E) as (R1 & R2 & _ & R4 & _).
  fold h in R1, R2, R4.
  destruct (install_fences_leaf (E := E) m1 LOWER_FENCE UPPER_FENCE) as (m' & Hrun & Hrepr & Hl' & Hh').
  { exists s. split; [|unfold m1; by rewrite length_set_header by lia].
    intros E'. rewrite Hh. by apply NodeMetaFacts.reset_header_fields. }
  { unfold m1. rewrite length_set_header by lia. simpl. lia. }
  exists m'. split_and!; [|done|rewrite Hh', Hh|rewrite Hh', Hh].
  - unfold format_leaf. rewrite (bindS_ok _ _ _ m1 tt) by (by apply modify_header_ok).
    unfold ensure_fence_keys. rewrite (run_asks _ _ _ 0%nat); [done|].
    unfold record_count. rewrite Hh, R4. done.
  - done.
  - rewrite NodeMetaFacts.set_record_count_leaf by (done || lia). done.
Qed.

(** ** Writing a record *)

Lemma try_put_strip m lo up es k v :
  leaf_repr m lo up es -> try_put (common_prefix lo up ++ k) v m = try_put_with_suffix k v m.
Proof.
  intros Hm. unfold try_put. rewrite (run_asks _ _ _ tt).
  2: { rewrite (leaf_count _ _ _ _ Hm). unfold rassert. by rewrite (proj2 (Nat.leb_le _ _)) by lia. }
  rewrite (run_asks get_node_prefix _ _ _ (node_prefix_ok _ _ _ _ Hm)).
  rewrite (run_lift _ _ _ _ (strip_prefix _ _)).
  by rewrite (run_lift _ _ _ tt) by (by rewrite starts_with_prefix).
Qed.

(** Where the key is found. *)
Lemma search_found {E} m lo up es k v0 t0 :
  leaf_repr m lo up es -> bt_get (content es) k = Some (v0, t0) ->
  exists j s, binary_search (E := E) m k = Ok (inl (S j)) /\ es !! j = Some s /\
    s_key s = k /\ s_val s = v0 /\ s_typ s = t0.
Proof.
  intros Hm Hg. destruct (binary_search_spec m lo up es Hm (E := E) k) as ([i|i] & Hb & Hsp).
  - destruct Hsp as (j & s & -> & Hs & Hk). exists j, s.
    destruct (content_at es j s) as [Hc _]; [apply Hm|done|]. rewrite Hk, Hg in Hc. injection Hc as -> ->. done.
  - destruct Hsp as (j & -> & Hsp). rewrite (content_absent es j k) in Hg; [done|apply Hm|]. exists j. done.
Qed.

Lemma search_absent {E} m lo up es k :
  leaf_repr m lo up es -> bt_get (content es) k = None ->
  exists j, binary_search (E := E) m k = Ok (inr (S j)) /\ search_spec es k (inr (S j)).
Proof.
  intros Hm Hg. destruct (binary_search_spec m lo up es Hm (E := E) k) as ([i|i] & Hb & Hsp).
  - destruct Hsp as (j & s & -> & Hs & Hk). exfalso.
    destruct (content_at es j s) as [Hc _]; [apply Hm|done|]. rewrite Hk, Hg in Hc. done.
  - pose proof Hsp as (j & -> & _). by exists j.
Qed.

Lemma put_same_length m lo up es k v v0 t0 :
  leaf_repr m lo up es -> bt_get (content es) k = Some (v0, t0) -> length v = length v0 ->
  exists m' es', try_put_with_suffix k v m = (m', Ok tt) /\ leaf_repr m' lo up es' /\
    content es' = bt_alter (put_value v) (content es) k /\ length m' = length m /\ free_space m' = free_space m /\
    NodeMeta.leaf (header m') = NodeMeta.leaf (header m).
Proof.
  intros Hm Hg Hlen. destruct (search_found (E := InsufficientSpace) _ _ _ _ _ _ _ Hm Hg) as (j & s & Hb & Hs & <- & <- & <-).
  pose proof (leaf_slot _ _ _ _ Hm j s Hs) as Hsl. pose proof (lookup_lt_Some _ _ _ Hs) as Hj.
  exists (splice m (data_off (meta_at m (S j)) + key_len (meta_at m (S j))) v),
    (<[j := mkSlot false (s_key s) v (s_typ s)]> es).
  assert (s_fence s = false) as Hf by (by apply (proj1 (Forall_lookup _ _) (lr_user _ _ _ _ Hm) j)).
  split_and!.
  - unfold try_put_with_suffix. rewrite (run_asks (fun m => binary_search m (s_key s)) _ _ _ Hb).
    rewrite (run_asks _ _ _ _ (leaf_get_kv_meta m lo up es Hm (S j) ltac:(lia))).
    rewrite (proj2 (Nat.eqb_eq _ _)) by (rewrite (sa_vlen _ _ _ Hsl); lia).
    apply copy_from_slice_ok; [rewrite (sa_vlen _ _ _ Hsl); lia|].
    pose proof (sa_end _ _ _ Hsl) as He. unfold data_end in He. unfold in_range. lia.
  - apply (update_leaf _ lo up es j s); [apply Hm|apply Hm|done..|]. rewrite <-Hf.
    apply overwrite_repr; [apply Hm|by apply user_slots_user|done].
  - rewrite <-Hf. destruct (content_at es j s) as [_ Hc]; [apply Hm|done|]. by apply Hc.
  - apply (overwrite_free m _ _ s v (lr_repr _ _ _ _ Hm)); [by apply user_slots_user|done].
  - apply (overwrite_free m _ _ s v (lr_repr _ _ _ _ Hm)); [by apply user_slots_user|done].
  - pose proof (sa_end _ _ _ Hsl) as He. pose proof (nr_above _ _ (lr_repr _ _ _ _ Hm) (S j)) as Hab.
    rewrite length_user_slots, kv_meta_off_eq in Hab. unfold data_end in He. rewrite header_splice; [done|..].
    + unfold in_range. rewrite Hlen. pose proof (sa_vlen _ _ _ Hsl). lia.
    + specialize (Hab ltac:(lia)). lia.
Qed.

(** ** Several records *)

(** The space a record takes: its data and a descriptor. *)
Definition record_cost (kv : bytes * bytes) : nat := (length kv.1 + length kv.2 + 8)%nat.

Definition put_all (c : list (bytes * (bytes * KVRecordType.t))) (kvs : list (bytes * bytes)) :=
  foldl (fun c kv => bt_alter (put_value kv.2) c kv.1) c kvs.

(** What a put adds to a page with the given content: nothing when the key is there. *)
Definition new_cost (c : list (bytes * (bytes * KVRecordType.t))) (kv : bytes * bytes) : nat :=
  match bt_get c kv.1 with Some _ => 0 | None => record_cost kv end.

(** A put that finds room, whether or not the key is there. *)
Lemma put_room m lo up es k v :
  leaf_repr m lo up es -> (forall v0 t0, bt_get (content es) k = Some (v0, t0) -> length v = length v0) ->
  (new_cost (content es) (k, v) <= free_space m)%nat ->
  exists m' es', try_put_with_suffix k v m = (m', Ok tt) /\ leaf_repr m' lo up es' /\
    content es' = bt_alter (put_value v) (content es) k /\ length m' = length m /\
    (free_space m <= free_space m' + new_cost (content es) (k, v))%nat /\
    NodeMeta.leaf (header m') = NodeMeta.leaf (header m).
Proof.
  intros Hm Hlen Hsp. unfold new_cost, record_cost in *. cbn [fst snd] in *.
  destruct (bt_get (content es) k) as [[v0 t0]|] eqn:Hg.
  - destruct (put_same_length m lo up es k v v0 t0) as (m' & es' & ? & ? & ? & ? & Hf & ?); [done|done|by eapply Hlen|].
    exists m', es'. split_and!; try done. lia.
  - destruct (search_absent (E := InsufficientSpace) _ _ _ _ _ Hm Hg) as (j & Hb & Hss).
    destruct (put_insert_leaf _ _ _ _ Hm k v j) as (m' & es' & ? & ? & ? & ? & Hf & ?); [done..|].
    exists m', es'. split_and!; try done. lia.
Qed.

Lemma new_cost_le c kv : (new_cost c kv <= record_cost kv)%nat.
Proof. unfold new_cost. destruct (bt_get c kv.1); lia. Qed.

Lemma put_any m lo up es k v :
  leaf_repr m lo up es -> (forall v0 t0, bt_get (content es) k = Some (v0, t0) -> length v = length v0) ->
  (record_cost (k, v) <= free_space m)%nat ->
  exists m' es', try_put_with_suffix k v m = (m', Ok tt) /\ leaf_repr m' lo up es' /\
    content es' = bt_alter (put_value v) (content es) k /\ length m' = length m /\
    (free_space m <= free_space m' + record_cost (k, v))%nat.
Proof.
  intros Hm Hlen Hsp. pose proof (new_cost_le (content es) (k, v)) as Hle.
  destruct (put_room m lo up es k v Hm Hlen) as (m' & es' & ? & ? & ? & ? & ? & _); [lia|].
  exists m', es'. split_and!; try done. lia.
Qed.

(** Every record of a list with distinct keys is put, when each either is new or replaces a
    value of its length. *)
Lemma puts_all {E} (f : bytes * bytes -> stM bytes E unit) kvs m lo up es :
  (forall kv m es m', leaf_repr m lo up es -> kv ∈ kvs -> try_put_with_suffix kv.1 kv.2 m = (m', Ok tt) -> f kv m = (m', Ok tt)) ->
  leaf_repr m lo up es -> NoDup kvs.*1 ->
  (forall k v v0 t0, (k, v) ∈ kvs -> bt_get (content es) k = Some (v0, t0) -> length v = length v0) ->
  (sum_list (record_cost <$> kvs) <= free_space m)%nat ->
  exists m' es', forM_ f kvs m = (m', Ok tt) /\ leaf_repr m' lo up es' /\
    content es' = put_all (content es) kvs /\ length m' = length m.
Proof.
  revert m es; induction kvs as [|[k v] kvs IH]; intros m es Hf Hm Hnd Hlen Hsp; [by exists m, es|].
  rewrite fmap_cons in Hsp. cbn [sum_list] in Hsp. change (sum_list_with id ?x) with (sum_list x) in Hsp.
  change (id ?x) with x in Hsp. rewrite fmap_cons in Hnd. apply NoDup_cons in Hnd as [Hni Hnd].
  destruct (put_any m lo up es k v) as (m1 & es1 & Hrun & Hm1 & Hc1 & Hl1 & Hf1);
    [done|intros v0 t0; apply Hlen; set_solver|lia|].
  rewrite forM_cons. rewrite (bindS_ok _ _ _ m1 tt) by (eapply Hf; [done|set_solver|done]).
  destruct (IH m1 es1) as (m' & es' & ? & ? & Hc & ?); [|done|done| |lia|].
  - intros kv m2 es2 m3 H1 H2 H3. eapply Hf; [done|set_solver|done].
  - intros k' v' v0 t0 Hin Hg. rewrite Hc1, bt_get_alter in Hg by apply content_sorted, Hm.
    destruct (kcmp k k') eqn:Ek; [|by apply (Hlen k' v' v0 t0); [set_solver|]..].
    apply kcmp_eq in Ek as ->. exfalso. apply Hni. apply list_elem_of_fmap. by exists (k', v').
  - exists m', es'. split_and!; [done|done| |congruence]. by rewrite Hc, Hc1.
Qed.

Lemma replay_all kvs m lo up es :
  leaf_repr m lo up es -> NoDup kvs.*1 ->
  (forall k v v0 t0, (k, v) ∈ kvs -> bt_get (content es) k = Some (v0, t0) -> length v = length v0) ->
  (sum_list (record_cost <$> kvs) <= free_space m)%nat ->
  exists m' es', replay_entries ((fun kv => (common_prefix lo up ++ kv.1, kv.2)) <$> kvs) m = (m', Ok tt) /\
    leaf_repr m' lo up es' /\ content es' = put_all (content es) kvs /\ length m' = length m.
Proof.
  intros Hm Hnd Hlen Hsp. unfold replay_entries.
  destruct (puts_all (fun kv => try_put (common_prefix lo up ++ kv.1) kv.2) kvs m lo up es)
    as (m' & es' & Hrun & ?); [|done..|].
  - intros [k v] m1 es1 m2 Hm1 _ Hp. by rewrite (try_put_strip _ _ _ _ _ _ Hm1).
  - exists m', es'. split; [|done]. rewrite <-Hrun. clear. revert m.
    induction kvs as [|[k v] kvs IH]; intros m; [done|]. rewrite fmap_cons, !forM_cons.
    unfold mbind, stM_bind. cbn [fst snd]. destruct (try_put _ _ _) as [m1 [[]| |]]; [apply IH|done|done].
Qed.

(** Records in ascending order, put into an empty leaf, are its content. *)
Lemma put_all_sorted kvs c :
  StronglySorted bytes_lt (c.*1 ++ kvs.*1) ->
  put_all c kvs = c ++ ((fun kv => (kv.1, (kv.2, KVRecordType.Insert))) <$> kvs).
Proof.
  revert c; induction kvs as [|[k v] kvs IH]; intros c Hs; [by rewrite app_nil_r|].
  unfold put_all in *. cbn [foldl fst snd]. rewrite fmap_cons in Hs. cbn [fst] in Hs.
  assert (bt_alter (put_value v) c k = c ++ [(k, (v, KVRecordType.Insert))]) as ->.
  { rewrite <-(app_nil_r c) at 1. rewrite bt_alter_at; [done| |constructor].
    apply Forall_forall. intros e He. eapply StronglySorted_app_1_elem_of; [exact Hs| |set_solver].
    by apply list_elem_of_fmap_2. }
  rewrite IH; [by rewrite <-(assoc_L (++))|]. rewrite fmap_app, <-(assoc_L (++)). exact Hs.
Qed.

(** Changing the header of a leaf without its record count. *)
Lemma leaf_set_header m lo up es h :
  leaf_repr m lo up es -> NodeMetaFacts.wf h -> NodeMeta.record_count h = NodeMeta.record_count (header m) ->
  leaf_repr (set_header m h) lo up es /\ header (set_header m h) = h /\ length (set_header m h) = length m.
Proof.
  intros Hm Hwf Hc. pose proof (leaf_fit _ _ _ _ Hm) as Hfit.
  assert (16 <= length m)%nat as H16 by lia.
  assert (header (set_header m h) = h) as Hh by (by apply header_set_header).
  assert (length (set_header m h) = length m) as Hl by (by apply length_set_header).
  split; [|done]. destruct Hm as [[N1 N2 N3 N4 N5 N6] Hs Hu].
  assert (forall i, meta_at (set_header m h) i = meta_at m i) as Hmeta.
  { intros i. unfold meta_at, load_u64. rewrite slice_set_header; [done|done|]. rewrite kv_meta_off_eq. lia. }
  split; [|done|done]. split; try (by rewrite ?Hl).
  - rewrite <-N3. unfold record_count. by rewrite Hh, Hc.
  - intros i s Hi. apply (slot_at_transfer m _ i i s); [by apply N4|done|done|].
    intros o l Ho _. apply slice_set_header; [done|]. pose proof (lookup_lt_Some _ _ _ Hi) as Hlt.
    pose proof (N5 i Hlt) as H5. rewrite kv_meta_off_eq in H5. lia.
  - intros i Hi. rewrite Hmeta. by apply N5.
  - intros i j Hi Hj Hne. rewrite !Hmeta. by apply N6.
Qed.

Lemma set_header_free_space m lo up es h :
  leaf_repr m lo up es -> NodeMetaFacts.wf h -> NodeMeta.record_count h = NodeMeta.record_count (header m) ->
  free_space (set_header m h) = free_space m.
Proof.
  intros Hm Hwf Hc. destruct (leaf_set_header m lo up es h Hm Hwf Hc) as (Hm' & _ & _).
  pose proof (lr_repr _ _ _ _ Hm) as Hr. pose proof (leaf_fit _ _ _ _ Hm) as Hfit.
  assert (forall i, meta_at (set_header m h) i = meta_at m i) as Hmeta.
  { intros i. unfold meta_at, load_u64. rewrite slice_set_header; [done|lia|]. rewrite kv_meta_off_eq. lia. }
  destruct (find_min_offset_spec m _ Hr) as (mo & _ & _ & _ & Hlow & i0 & Hi0 & Hmo); [done|].
  rewrite (free_space_eq m _ Hr) with (mo := mo) (i0 := i0) by done.
  apply (free_space_eq _ _ (lr_repr _ _ _ _ Hm') ltac:(done) mo i0); [|done|by rewrite Hmeta].
  intros i Hi. rewrite Hmeta. by apply Hlow.
Qed.

(** What a key has after all of [kvs] were put. *)
Lemma put_all_get c kvs k :
  bt_sorted c -> NoDup kvs.*1 ->
  (forall v, (k, v) ∈ kvs -> fst <$> bt_get (put_all c kvs) k = Some v) /\
  (k ∉ kvs.*1 -> bt_get (put_all c kvs) k = bt_get c k).
Proof.
  revert c. induction kvs as [|[k1 v1] kvs IH]; intros c Hs Hnd; [split; [set_solver|done]|].
  rewrite fmap_cons in Hnd. apply NoDup_cons in Hnd as [Hni Hnd]. unfold put_all in *. cbn [foldl fst snd].
  assert (bt_sorted (bt_alter (put_value v1) c k1)) as Hs' by (by apply bt_alter_sorted).
  destruct (IH _ Hs' Hnd) as [H1 H2]. split.
  - intros v [Heq|Hin]%elem_of_cons; [|by apply H1]. injection Heq as -> ->. rewrite H2 by done.
    rewrite bt_get_alter by done. rewrite kcmp_refl. cbn. by destruct (bt_get c k1) as [[]|].
  - intros Hk. rewrite fmap_cons in Hk. cbn [fst] in Hk. rewrite H2 by set_solver. rewrite bt_get_alter by done.
    destruct (kcmp k1 k) eqn:E; try done. apply kcmp_eq in E. set_solver.
Qed.

(** * Properties *)

(** C20. A leaf is an ordered map: on a page that stores the records [es] between its
    fences, [get] of a key with the node's prefix returns exactly the value the map has
    for the suffix, through the binary search over lookahead bytes and stored keys; it
    reads nothing outside the page and needs at most as many steps as records. *)
Theorem leaf_get_correct (m lo up : bytes) (es : list slot) (k : bytes) :
  leaf_repr m lo up es ->
  get (E := unit) m (common_prefix lo up ++ k) = Ok (fst <$> bt_get (content es) k).
Proof. intros Hm. by apply (get_leaf m lo up es Hm). Qed.

(** A value cannot be replaced by one of another length: whatever the page holds, a
    [try_put] that finds the key with a different value length never returns [Ok]
    ([KVMeta::set_val_size] is unimplemented and panics). *)
Theorem put_other_length_never_ok (m : bytes) (k v : bytes) (idx : nat) (kv : Z) :
  binary_search (E := InsufficientSpace) m k = Ok (inl idx) ->
  get_kv_meta (E := InsufficientSpace) m idx = Ok kv -> val_len kv <> length v ->
  snd (try_put_with_suffix k v m) <> Ok tt.
Proof.
  intros Hb Hkv Hl. unfold try_put_with_suffix. rewrite (run_asks (fun m => binary_search m k) _ _ _ Hb).
  rewrite (run_asks (fun m => get_kv_meta m idx) _ _ _ Hkv), (proj2 (Nat.eqb_neq _ _)) by done. unfold mbind, stM_bind at 1.
  destruct (erase_kv_in_buffer kv m) as [m1 [a| |]]; [|done|done].
  unfold stM_bind, liftS, usub, asks. destruct (_ <=? a)%nat; [|done]. destruct (_ <? _)%nat; done.
Qed.

(** C21. [try_put] on a leaf.  A new key is inserted in order when its data and descriptor fit
    into the free space; when the data alone is larger than the free space the page is
    unchanged and the answer is [InsufficientSpace] (in between, by up to the eight bytes of a
    descriptor, nothing is claimed).  An existing key gets a value of the same length in
    place and keeps its record state; a value of another length is never stored. *)
Theorem try_put_correct (m lo up : bytes) (es : list slot) (k v : bytes) :
  leaf_repr m lo up es ->
  let put := try_put (common_prefix lo up ++ k) v m in
  let stored := exists m' es', put = (m', Ok tt) /\ leaf_repr m' lo up es' /\
    content es' = bt_alter (put_value v) (content es) k in
  match bt_get (content es) k with
  | Some (v0, _) => (length v = length v0 -> stored) /\ (length v <> length v0 -> snd put <> Ok tt)
  | None =>
      ((length k + length v + 8 <= free_space m)%nat -> stored) /\
      ((free_space m < length k + length v)%nat -> put = (m, Err mkInsufficientSpace))
  end.
Proof.
  intros Hm put stored. unfold stored, put. rewrite (try_put_strip _ _ _ _ _ _ Hm).
  destruct (bt_get (content es) k) as [[v0 t0]|] eqn:Hg.
  - split.
    + intros Hl. destruct (put_same_length m lo up es k v v0 t0) as (m' & es' & ? & ? & ? & _); eauto.
    + intros Hl. destruct (search_found (E := InsufficientSpace) _ _ _ _ _ _ _ Hm Hg) as (j & s & Hb & Hs & _ & Hv & _).
      pose proof (lookup_lt_Some _ _ _ Hs). eapply (put_other_length_never_ok m k v _ _ Hb).
      * apply (leaf_get_kv_meta m lo up es Hm). lia.
      * rewrite (sa_vlen _ _ _ (leaf_slot _ _ _ _ Hm j s Hs)), Hv. by apply not_eq_sym.
  - destruct (search_absent (E := InsufficientSpace) _ _ _ _ _ Hm Hg) as (j & Hb & Hsp). split.
    + intros Hsp'. destruct (put_insert_leaf _ _ _ _ Hm k v j) as (m' & es' & ? & ? & ? & _); eauto.
    + by apply (put_insert_full _ _ _ _ Hm _ _ j).
Qed.

(** What was put is read back, and every other key keeps its value. *)
Theorem put_get (m lo up : bytes) (es : list slot) (k v : bytes) :
  leaf_repr m lo up es -> bt_get (content es) k = None ->
  (length k + length v + 8 <= free_space m)%nat ->
  exists m', try_put (common_prefix lo up ++ k) v m = (m', Ok tt) /\
    get (E := unit) m' (common_prefix lo up ++ k) = Ok (Some v) /\
    forall k', k' <> k -> get (E := unit) m' (common_prefix lo up ++ k') = get m (common_prefix lo up ++ k').
Proof.
  intros Hm Hg Hsp. destruct (search_absent (E := InsufficientSpace) _ _ _ _ _ Hm Hg) as (j & Hb & Hss).
  destruct (put_insert_leaf _ _ _ _ Hm k v j) as (m' & es' & Hrun & Hm' & Hc & _); [done..|].
  pose proof (content_sorted es (lr_sorted _ _ _ _ Hm)) as Hso.
  exists m'. split_and!.
  - by rewrite (try_put_strip _ _ _ _ _ _ Hm).
  - rewrite (get_leaf _ _ _ _ Hm'), Hc, bt_get_alter by done. rewrite kcmp_refl, Hg. done.
  - intros k' Hne. rewrite (get_leaf _ _ _ _ Hm'), (get_leaf _ _ _ _ Hm), Hc, bt_get_alter by done.
    destruct (kcmp k k') eqn:E; [|done|done]. apply kcmp_eq in E. by subst.
Qed.

(** A 128-byte page, formatted, and with one record. *)
Definition sample0 : bytes := fst (format_leaf (E := unit) 3 NodeSize.N128 5 (replicate 128 Byte.x00)).
Definition sample1 : bytes := fst (try_put [Byte.x62] [Byte.x01; Byte.x02] sample0).

Lemma sample0_leaf : leaf_repr sample0 LOWER_FENCE UPPER_FENCE [].
Proof.
  destruct (format_leaf_leaf (E := unit) (replicate 128 Byte.x00) 3 NodeSize.N128 5) as (m' & Hrun & Hm' & _);
    [done|lia|lia|]. unfold sample0. by rewrite Hrun.
Qed.

Lemma sample1_leaf :
  exists es, leaf_repr sample1 LOWER_FENCE UPPER_FENCE es /\
    content es = [([Byte.x62], ([Byte.x01; Byte.x02], KVRecordType.Insert))].
Proof.
  destruct (search_absent (E := InsufficientSpace) _ _ _ _ [Byte.x62] sample0_leaf eq_refl) as (j & Hb & Hss).
  destruct (put_insert_leaf _ _ _ _ sample0_leaf [Byte.x62] [Byte.x01; Byte.x02] j) as (m' & es' & Hrun & Hm' & Hc & _);
    [done|done|vm_compute; lia|]. exists es'.
  rewrite <-(try_put_strip _ _ _ _ _ _ sample0_leaf) in Hrun.
  change (common_prefix LOWER_FENCE UPPER_FENCE ++ [Byte.x62]) with [Byte.x62] in Hrun.
  unfold sample1. rewrite Hrun. split; [exact Hm'|exact Hc].
Qed.

Lemma leaf_get_correct_witness :
  exists es, leaf_repr sample1 LOWER_FENCE UPPER_FENCE es /\
    get (E := unit) sample1 [Byte.x62] = Ok (Some [Byte.x01; Byte.x02]).
Proof.
  destruct sample1_leaf as (es & Hm & Hc). exists es. split; [exact Hm|].
  pose proof (leaf_get_correct sample1 _ _ es [Byte.x62] Hm) as H. rewrite Hc in H. exact H.
Defined.

Lemma try_put_correct_witness :
  exists m' es', try_put [Byte.x61] [Byte.x07] sample1 = (m', Ok tt) /\ leaf_repr m' LOWER_FENCE UPPER_FENCE es' /\
    content es' = [([Byte.x61], ([Byte.x07], KVRecordType.Insert));
                   ([Byte.x62], ([Byte.x01; Byte.x02], KVRecordType.Insert))].
Proof.
  destruct sample1_leaf as (es & Hm & Hc).
  pose proof (try_put_correct sample1 _ _ es [Byte.x61] [Byte.x07] Hm) as H. rewrite Hc in H.
  apply H. vm_compute. lia.
Defined.

Lemma put_get_witness :
  exists m', try_put [Byte.x61] [Byte.x07] sample0 = (m', Ok tt) /\ get (E := unit) m' [Byte.x61] = Ok (Some [Byte.x07]).
Proof.
  destruct (put_get sample0 _ _ [] [Byte.x61] [Byte.x07] sample0_leaf) as (m' & H1 & H2 & _);
    [reflexivity|vm_compute; lia|]. exists m'. split; [exact H1|exact H2].
Defined.

(** [format_leaf] turns any page of one of the seven sizes into an empty leaf between
    the fences [0x00] and [0xFF] with the given page id and disk address. *)
Theorem format_leaf_correct (m : bytes) (p : Z) (s : NodeSize.t) (a : Z) :
  length m = NodeSize.size_in_bytes s -> 0 <= p < 2 ^ 48 -> 0 <= a < 2 ^ 48 ->
  exists m', format_leaf (E := unit) p s a m = (m', Ok tt) /\ leaf_repr m' LOWER_FENCE UPPER_FENCE [] /\
    NodeMeta.page_id (header m') = p /\ NodeMeta.leaf (header m') = a.
Proof. apply format_leaf_leaf. Qed.

Lemma format_leaf_correct_witness :
  exists m', format_leaf (E := unit) 3 NodeSize.N64 5 (replicate 64 Byte.x00) = (m', Ok tt) /\
    leaf_repr m' LOWER_FENCE UPPER_FENCE [].
Proof.
  destruct (format_leaf_correct (replicate 64 Byte.x00) 3 NodeSize.N64 5) as (m' & H1 & H2 & _);
    [reflexivity|lia|lia|]. exists m'. split; [exact H1|exact H2].
Defined.

Lemma find_key_ok {E} m lo up es k r :
  leaf_repr m lo up es -> binary_search (E := E) m k = Ok r ->
  find_key (E := E) m (common_prefix lo up ++ k) = Ok (match r with inl i => Some i | inr _ => None end).
Proof.
  intros Hm Hr. unfold find_key. rewrite (node_prefix_ok _ _ _ _ Hm). cbn [mbind outcome_bind].
  rewrite starts_with_prefix. cbn [negb]. rewrite strip_prefix. cbn [mbind outcome_bind]. by rewrite Hr.
Qed.

(** Marking a live record; everything else of the page stays. *)
Lemma mark_live {E} m lo up es k v t :
  leaf_repr m lo up es -> bt_get (content es) k = Some (v, t) -> t <> KVRecordType.Tombstone ->
  exists m' es', mark_tombstone (E := E) (common_prefix lo up ++ k) m = (m', Ok true) /\
    leaf_repr m' lo up es' /\ content es' = bt_alter (fun _ => (v, KVRecordType.Tombstone)) (content es) k /\
    length es' = length es /\ length m' = length m /\ header m' = header m.
Proof.
  intros Hm Hg Ht. destruct (search_found (E := E) _ _ _ _ _ _ _ Hm Hg) as (j & s & Hb & Hs & <- & <- & <-).
  pose proof (leaf_slot _ _ _ _ Hm j s Hs) as Hsl. pose proof (lookup_lt_Some _ _ _ Hs) as Hj.
  pose proof (leaf_fit _ _ _ _ Hm) as Hfit.
  assert (s_fence s = false) as Hfe by (by apply (proj1 (Forall_lookup _ _) (lr_user _ _ _ _ Hm) j)).
  assert (in_range m (kv_meta_off (S j)) 8) as Hin by (unfold in_range; rewrite kv_meta_off_eq; lia).
  eexists _, (<[j := mkSlot false (s_key s) (s_val s) KVRecordType.Tombstone]> es). split_and!.
  - unfold mark_tombstone. rewrite (run_asks (fun m => find_key m (common_prefix lo up ++ s_key s)) _ _ _ (find_key_ok _ _ _ _ _ _ Hm Hb)).
    unfold mark_entry_tombstone. rewrite (run_asks _ _ _ _ (leaf_get_kv_meta m lo up es Hm (S j) ltac:(lia))).
    rewrite (sa_fence _ _ _ Hsl), Hfe, (sa_typ _ _ _ Hsl), bool_decide_false by done. cbn [orb]. erewrite bindS_ok; [done|].
    apply set_kv_meta_ok; [rewrite (leaf_count _ _ _ _ Hm)|rewrite kv_meta_off_eq]; lia.
  - apply (update_leaf _ lo up es j s); [apply Hm|apply Hm|done..|]. rewrite <-Hfe.
    apply set_type_repr; [apply Hm|by apply user_slots_user].
  - rewrite <-Hfe. destruct (content_at es j s) as [_ Hc]; [apply Hm|done|]. by apply Hc.
  - by rewrite length_insert.
  - by rewrite length_store.
  - apply header_store; [done|]. rewrite kv_meta_off_eq. lia.
Qed.

Lemma mark_dead {E} m lo up es k :
  leaf_repr m lo up es -> (forall v t, bt_get (content es) k = Some (v, t) -> t = KVRecordType.Tombstone) ->
  mark_tombstone (E := E) (common_prefix lo up ++ k) m = (m, Ok false).
Proof.
  intros Hm Hd. unfold mark_tombstone. destruct (bt_get (content es) k) as [[v t]|] eqn:Hg.
  - destruct (search_found (E := E) _ _ _ _ _ _ _ Hm Hg) as (j & s & Hb & Hs & <- & <- & Ht).
    pose proof (leaf_slot _ _ _ _ Hm j s Hs) as Hsl. pose proof (lookup_lt_Some _ _ _ Hs) as Hj.
    rewrite (run_asks (fun m => find_key m (common_prefix lo up ++ s_key s)) _ _ _ (find_key_ok _ _ _ _ _ _ Hm Hb)).
    unfold mark_entry_tombstone. rewrite (run_asks _ _ _ _ (leaf_get_kv_meta m lo up es Hm (S j) ltac:(lia))).
    rewrite (sa_typ _ _ _ Hsl), Ht, (bool_decide_true (t = _)), orb_true_r by eauto. done.
  - destruct (search_absent (E := E) _ _ _ _ _ Hm Hg) as (j & Hb & Hsp).
    by rewrite (run_asks (fun m => find_key m (common_prefix lo up ++ k)) _ _ _ (find_key_ok _ _ _ _ _ _ Hm Hb)).
Qed.

(** [mark_tombstone] finds the record of a key, changes its state to [Tombstone] and
    nothing else, and answers [true]; it answers [false] and writes nothing for an absent
    key and for a key already deleted. *)
Theorem mark_tombstone_correct (m lo up : bytes) (es : list slot) (k : bytes) :
  leaf_repr m lo up es ->
  match bt_get (content es) k with
  | Some (v, t) =>
      if decide (t = KVRecordType.Tombstone)
      then mark_tombstone (E := unit) (common_prefix lo up ++ k) m = (m, Ok false)
      else exists m' es', mark_tombstone (E := unit) (common_prefix lo up ++ k) m = (m', Ok true) /\
        leaf_repr m' lo up es' /\
        content es' = bt_alter (fun _ => (v, KVRecordType.Tombstone)) (content es) k
  | None => mark_tombstone (E := unit) (common_prefix lo up ++ k) m = (m, Ok false)
  end.
Proof.
  intros Hm. destruct (bt_get (content es) k) as [[v t]|] eqn:Hg; [case_decide as Ht|].
  - apply (mark_dead _ _ _ es); [done|]. intros v0 t0. rewrite Hg. by intros [= _ <-].
  - destruct (mark_live (E := unit) _ _ _ _ _ _ _ Hm Hg Ht) as (m' & es' & ? & ? & ? & _). by exists m', es'.
  - apply (mark_dead _ _ _ es); [done|]. by rewrite Hg.
Qed.

Lemma mark_tombstone_correct_witness :
  exists m' es', mark_tombstone (E := unit) [Byte.x62] sample1 = (m', Ok true) /\
    leaf_repr m' LOWER_FENCE UPPER_FENCE es' /\
    content es' = [([Byte.x62], ([Byte.x01; Byte.x02], KVRecordType.Tombstone))].
Proof.
  destruct sample1_leaf as (es & Hm & Hc).
  pose proof (mark_tombstone_correct sample1 _ _ es [Byte.x62] Hm) as H. rewrite Hc in H. exact H.
Defined.

Lemma put_other_length_never_ok_witness :
  snd (try_put_with_suffix [Byte.x62] [Byte.x01] sample1) <> Ok tt /\
  snd (try_put_with_suffix [Byte.x62] [Byte.x01] sample1) = Halt Panicked.
Proof.
  split; [|vm_compute; reflexivity].
  apply (put_other_length_never_ok sample1 [Byte.x62] [Byte.x01] 1 (meta_at sample1 1));
    [vm_compute; reflexivity|vm_compute; reflexivity|vm_compute; lia].
Defined.

(** The space check is one descriptor short: on a freshly formatted 64-byte page a
    record of 30 bytes is accepted although its descriptor needs the last 8 of the 30 free
    bytes; the key is written over the descriptor of the upper fence, and the very next
    lookup reads outside the page. *)
Theorem try_put_overwrites_fence :
  let m := fst (format_leaf (E := unit) 3 NodeSize.N64 5 (replicate 64 Byte.x00)) in
  let r := try_put [Byte.x62] (replicate 29 Byte.x02) m in
  free_space m = 30%nat /\ snd r = Ok tt /\ get (E := unit) (fst r) [Byte.x62] = Halt Undefined.
Proof. vm_compute. done. Qed.

(** Removing a record moves the wrong number of bytes: [erase_kv_in_buffer] copies as
    many bytes as the removed record had instead of all bytes below it.  After three
    inserts of different lengths and the removal of the first, the descriptor of the
    second no longer finds its bytes. *)
Theorem erase_corrupts_other_record :
  let m := fst (format_leaf (E := unit) 3 NodeSize.N128 5 (replicate 128 Byte.x00)) in
  let m := fst (try_put [Byte.x61] [Byte.x01] m) in
  let m := fst (try_put [Byte.x62] [Byte.x02; Byte.x03; Byte.x04; Byte.x05] m) in
  let r := remove_key_physical (E := unit) [Byte.x61] m in
  snd r = Ok true /\ get (E := unit) m [Byte.x62] = Ok (Some [Byte.x02; Byte.x03; Byte.x04; Byte.x05]) /\
  get (E := unit) (fst r) [Byte.x62] <> Ok (Some [Byte.x02; Byte.x03; Byte.x04; Byte.x05]).
Proof. vm_compute. done. Qed.
