(* ===== verification/Layout.v ===== *)
(** * Records in the order of their data (src/node.rs)

    New records go below all others, so the data of the records that a transaction inserted
    are a stack.  Taking the lowest record out of a page ([remove_key_physical]) moves no data
    and leaves the rest of the page as it was before the record came. *)

From S2P Require Import Prelude Types BTreeMap Node.

(** The records of a page in key order, each with the offset of its data; a fence has no key. *)
Definition tag (m : bytes) (i : nat) : option bytes :=
  if KVMeta.fence (meta_at m i) then None else Some (slice m (data_off (meta_at m i)) (key_len (meta_at m i))).
Definition layout (m : bytes) : list (option bytes * nat) :=
  (fun i => (tag m i, data_off (meta_at m i))) <$> seq 0 (record_count m).

(** The records of [ks] lie below all others, the first one lowest, the next one lowest when
    the first is gone, and so on. *)
Fixpoint stacked (L : list (option bytes * nat)) (ks : list bytes) : Prop :=
  match ks with
  | [] => True
  | k :: ks => exists L1 o L2, L = L1 ++ (Some k, o) :: L2 /\ Forall (fun e => o <= e.2)%nat (L1 ++ L2) /\ stacked (L1 ++ L2) ks
  end.

Definition slot_tag (s : slot) : option bytes := if s_fence s then None else Some (s_key s).

Lemma layout_lookup m ss i s :
  node_repr m ss -> ss !! i = Some s -> layout m !! i = Some (slot_tag s, data_off (meta_at m i)).
Proof.
  intros Hm Hs. pose proof (lookup_lt_Some _ _ _ Hs) as Hi. unfold layout. rewrite list_lookup_fmap, (nr_count _ _ Hm), lookup_seq_lt by done.
  destruct (nr_slots _ _ Hm i s Hs) as [F1 _ F3 _ _ _ F7 _]. cbn. unfold tag, slot_tag. rewrite F3, F1, F7. done.
Qed.

Lemma length_layout m ss : node_repr m ss -> length (layout m) = length ss.
Proof. intros Hm. unfold layout. by rewrite length_fmap, length_seq, (nr_count _ _ Hm). Qed.

(** Two pages with the same layout, entry by entry. *)
Lemma layout_ext m ss L :
  node_repr m ss -> length L = length ss ->
  (forall i s, ss !! i = Some s -> L !! i = Some (slot_tag s, data_off (meta_at m i))) -> layout m = L.
Proof.
  intros Hm Hl H. apply list_eq. intros i. destruct (ss !! i) as [s|] eqn:Hs.
  - by rewrite (H i s Hs), (layout_lookup m ss i s Hm Hs).
  - apply lookup_ge_None in Hs. rewrite !lookup_ge_None_2; [done|lia|]. rewrite (length_layout m ss Hm). lia.
Qed.

(** A change of flags in the header leaves the layout. *)
Lemma layout_set_header m lo up es h :
  leaf_repr m lo up es -> NodeMetaFacts.wf h -> NodeMeta.record_count h = NodeMeta.record_count (header m) ->
  layout (set_header m h) = layout m.
Proof.
  intros Hm Hwf Hc. pose proof (leaf_fit _ _ _ _ Hm) as Hfit. destruct (leaf_set_header m lo up es h Hm Hwf Hc) as (Hm' & _ & _).
  apply (layout_ext _ _ _ (lr_repr _ _ _ _ Hm')); [by rewrite (length_layout m _ (lr_repr _ _ _ _ Hm))|].
  intros i s Hs. rewrite (layout_lookup m _ i s (lr_repr _ _ _ _ Hm) Hs). do 2 f_equal. f_equal. symmetry.
  apply meta_at_ext, slice_set_header; rewrite ?kv_meta_off_eq; lia.
Qed.

(** ** Inserting *)

(** A new record goes on top of the stack. *)
Lemma put_stacked m lo up es k v m' ks :
  leaf_repr m lo up es -> bt_get (content es) k = None -> (record_cost (k, v) <= free_space m)%nat ->
  try_put_with_suffix k v m = (m', Ok tt) -> stacked (layout m) ks -> stacked (layout m') (k :: ks).
Proof.
  intros Hm Hg Hsp Hrun Hst. pose proof (lr_repr _ _ _ _ Hm) as Hr. unfold record_cost in Hsp. cbn [fst snd] in Hsp.
  destruct (search_absent (E := InsufficientSpace) m lo up es k Hm Hg) as (j & Hs & j' & [= <-] & Hj & _).
  destruct (find_min_offset_spec m _ Hr) as (mo & Hmo & Hmol & Hmo1 & Hmo2 & _); [done|].
  assert (free_space m = (mo - kv_meta_off (length es + 2))%nat) as Hfree.
  { unfold free_space. by rewrite Hmo, (leaf_count _ _ _ _ Hm). }
  pose proof (nr_size _ _ Hr) as Hsz. rewrite length_user_slots in *. rewrite kv_meta_off_eq in *.
  rewrite (put_insert_run m lo up es Hm k v (S j) mo) in Hrun; [|done|lia|done|done|rewrite kv_meta_off_eq; lia].
  set (off := (mo - (length k + length v))%nat) in *.
  assert (forall i, (i < length es + 2)%nat -> (off + length k + length v <= data_off (meta_at m i))%nat) as Hbelow.
  { intros i Hi. specialize (Hmo2 i Hi). lia. }
  pose proof (insert_repr m _ Hr (S j) off k v) as Hins. pose proof (insert_meta m _ Hr (S j) off k v) as Hmeta.
  rewrite length_user_slots in *. specialize (Hins ltac:(lia) ltac:(lia) ltac:(lia) ltac:(lia) Hbelow).
  set (m1 := inserted _ _ _ _ _ _ _ _) in *. assert (m' = m1) as -> by congruence.
  assert (length (layout m) = (length es + 2)%nat) as Hll by (by rewrite (length_layout m _ Hr), length_user_slots).
  assert (layout m1 = take (S j) (layout m) ++ (Some k, off) :: drop (S j) (layout m)) as HL.
  { apply (layout_ext _ _ _ Hins).
    - rewrite length_app, length_take. cbn [length]. rewrite length_drop, Hll, length_vec_insert, length_user_slots; rewrite ?length_user_slots; lia.
    - intros i s Hi. pose proof (lookup_lt_Some _ _ _ Hi) as Hlt. rewrite length_vec_insert, length_user_slots in Hlt by (rewrite length_user_slots; lia).
      rewrite Hmeta by lia. unfold vec_insert in Hi. destruct (Nat.lt_trichotomy i (S j)) as [Hc|[->|Hc]].
      + rewrite decide_True by done. rewrite lookup_app_l in Hi by (rewrite length_take, length_user_slots; lia).
        rewrite lookup_app_l by (rewrite length_take; lia). rewrite lookup_take_lt in Hi by done. rewrite lookup_take_lt by done.
        exact (layout_lookup m _ i s Hr Hi).
      + rewrite decide_False, decide_True by lia. rewrite lookup_app_r in Hi by (rewrite length_take, length_user_slots; lia).
        rewrite length_take, length_user_slots, Nat.min_l, Nat.sub_diag in Hi by lia. injection Hi as <-.
        rewrite lookup_app_r by (rewrite length_take; lia). rewrite length_take, Hll, Nat.min_l, Nat.sub_diag by lia. cbn [lookup list_lookup slot_tag s_fence s_key].
        destruct (new_meta_fields k v off) as (_ & _ & -> & _); [lia|done].
      + rewrite !decide_False by lia. rewrite lookup_app_r in Hi by (rewrite length_take, length_user_slots; lia).
        rewrite lookup_app_r by (rewrite length_take; lia). rewrite length_take, length_user_slots, Nat.min_l in Hi by lia.
        rewrite length_take, Hll, Nat.min_l by lia. destruct (i - S j)%nat as [|d] eqn:Ed; [lia|].
        change (drop (S j) (user_slots lo up es) !! d = Some s) in Hi. change (drop (S j) (layout m) !! d = Some (slot_tag s, data_off (meta_at m (i - 1)))).
        rewrite lookup_drop in Hi. rewrite lookup_drop. replace (i - 1)%nat with (S j + d)%nat by lia. exact (layout_lookup m _ _ s Hr Hi). }
  rewrite HL. exists (take (S j) (layout m)), off, (drop (S j) (layout m)). rewrite take_drop. split; [done|]. split; [|done].
  apply Forall_lookup. intros i [t o] Hi. pose proof (lookup_lt_Some _ _ _ Hi) as Hlt. rewrite Hll in Hlt.
  destruct (lookup_lt_is_Some_2 (user_slots lo up es) i) as [s Hs']; [by rewrite length_user_slots|].
  rewrite (layout_lookup m _ i s Hr Hs') in Hi. injection Hi as <- <-. specialize (Hbelow i Hlt). cbn [snd]. lia.
Qed.

(** ** Removing the lowest record *)

Definition without (m : bytes) (n idx : nat) : bytes :=
  set_header (splice m (kv_meta_off idx) (slice m (kv_meta_off (idx + 1)) (KVMeta_size * (n - idx - 1))))
    (NodeMeta.set_record_count (header m) (Z.of_nat (n - 1))).

Section remove.
Context (m : bytes) (ss : list slot) (Hm : node_repr m ss) (Hcap : (length ss < 512)%nat).
Context (idx : nat) (s : slot) (Hs : ss !! idx = Some s) (Hlast : (S idx < length ss)%nat) (Hf : s_fence s = false).
Context (Hlow : forall i, (i < length ss)%nat -> (data_off (meta_at m idx) <= data_off (meta_at m i))%nat).
Let m' := without m (length ss) idx.

(** No data is below that of the record, so none moves. *)
Lemma erase_lowest {E} :
  erase_kv_in_buffer (E := E) (meta_at m idx) m = (m, Ok (data_off (meta_at m idx) + (key_len (meta_at m idx) + val_len (meta_at m idx)))%nat).
Proof.
  unfold erase_kv_in_buffer. cbv zeta. rewrite (run_asks _ _ _ (length ss)) by (by rewrite (nr_count _ _ Hm)).
  assert (forall l t, Forall (fun i => i < length ss)%nat l ->
    erase_loop (E := E) (key_len (meta_at m idx) + val_len (meta_at m idx)) (data_off (meta_at m idx)) l t m = (m, Ok t)) as Hgo.
  { induction l as [|i l IH]; intros t Hl; [done|]. apply Forall_cons_iff in Hl as [Hi Hl]. cbn [erase_loop].
    rewrite (run_asks _ _ _ (meta_at m i)) by (by apply (repr_get_kv_meta m ss Hm)).
    cbv zeta. rewrite (proj2 (Nat.ltb_ge _ _)) by (by apply Hlow). by apply IH. }
  rewrite (bindS_ok _ _ _ _ _ (Hgo (seq 0 (length ss)) _ ltac:(apply Forall_seq; intros; lia))).
  by rewrite Nat.eqb_refl.
Qed.

Lemma without_lengths :
  let bs := slice m (kv_meta_off (idx + 1)) (KVMeta_size * (length ss - idx - 1)) in
  length bs = (8 * (length ss - idx - 1))%nat /\ in_range m (kv_meta_off idx) (length bs) /\
  length (splice m (kv_meta_off idx) bs) = length m /\ length m' = length m /\
  header (splice m (kv_meta_off idx) bs) = header m.
Proof.
  pose proof (nr_fit _ _ Hm) as Hfit. unfold m', without. cbv zeta. rewrite !kv_meta_off_eq in *. unfold KVMeta_size in *.
  assert (length (slice m (16 + 8 * (idx + 1)) (8 * (length ss - idx - 1))) = (8 * (length ss - idx - 1))%nat) as H0
    by (apply length_slice; unfold in_range; lia).
  assert (in_range m (16 + 8 * idx) (length (slice m (16 + 8 * (idx + 1)) (8 * (length ss - idx - 1))))) as H1
    by (rewrite H0; unfold in_range; lia).
  split_and!; [done|done|by apply length_splice| |apply header_splice; [done|lia]].
  rewrite length_set_header; rewrite length_splice by done; [done|lia].
Qed.

Lemma remove_run {E} : remove_entry (E := E) idx m = (m', Ok true).
Proof.
  destruct without_lengths as (H0 & H1 & H2 & H3 & H4). pose proof (nr_fit _ _ Hm) as Hfit. unfold remove_entry.
  rewrite (run_asks _ _ _ (length ss)) by (by rewrite (nr_count _ _ Hm)). rewrite (proj2 (Nat.leb_gt _ _)) by lia.
  rewrite (run_asks _ _ _ (meta_at m idx)) by (apply (repr_get_kv_meta m ss Hm); lia).
  rewrite (sa_fence _ _ _ (nr_slots _ _ Hm idx s Hs)), Hf. rewrite (bindS_ok _ _ _ _ _ erase_lowest).
  rewrite (bindS_ok _ _ _ (splice m (kv_meta_off idx) (slice m (kv_meta_off (idx + 1)) (KVMeta_size * (length ss - idx - 1)))) tt).
  - rewrite (bindS_ok _ _ _ m' tt); [done|]. apply modify_header_ok. rewrite H4. unfold NodeMeta.dec_record_count.
    assert (NodeMeta.record_count (header m) = Z.of_nat (length ss)) as ->.
    { pose proof (NodeMetaFacts.record_count_range (header m)). pose proof (nr_count _ _ Hm) as Hc. unfold record_count in Hc. lia. }
    rewrite (proj2 (Z.ltb_lt _ _)) by lia. cbn [expect mbind outcome_bind]. do 2 f_equal. lia.
  - unfold shift_meta_left. rewrite (run_asks _ _ _ (length ss)) by (by rewrite (nr_count _ _ Hm)).
    rewrite (proj2 (Nat.leb_gt _ _)) by lia. rewrite (run_asks _ _ _ (slice m (kv_meta_off (idx + 1)) (KVMeta_size * (length ss - idx - 1)))).
    + by apply write_raw_ok.
    + apply read_raw_ok. rewrite kv_meta_off_eq in *. unfold in_range, KVMeta_size. lia.
Qed.

(** The descriptors behind the record move down by one. *)
Lemma without_meta j :
  (j < length ss - 1)%nat -> meta_at m' j = meta_at m (if decide (j < idx)%nat then j else S j).
Proof.
  intros Hj. destruct without_lengths as (H0 & H1 & H2 & H3 & H4). pose proof (nr_fit _ _ Hm) as Hfit.
  unfold m', without. apply meta_at_ext. rewrite !kv_meta_off_eq in *. rewrite slice_set_header by lia. case_decide.
  - rewrite slice_splice_ne; [done|done|]. rewrite H0. lia.
  - apply list_eq; intros i. rewrite !lookup_slice. case_decide; [|done].
    rewrite lookup_splice by done. rewrite H0, decide_True by lia. rewrite lookup_slice, decide_True by (unfold KVMeta_size; lia). f_equal. lia.
Qed.

Lemma without_data o l : (kv_meta_off (length ss) <= o)%nat -> slice m' o l = slice m o l.
Proof.
  intros Ho. destruct without_lengths as (H0 & H1 & H2 & H3 & H4). pose proof (nr_fit _ _ Hm) as Hfit. unfold m', without.
  rewrite !kv_meta_off_eq in *. rewrite slice_set_header by lia. apply slice_splice_ne; [done|]. rewrite H0. lia.
Qed.

Lemma without_header :
  record_count m' = (length ss - 1)%nat /\ NodeMeta.leaf (header m') = NodeMeta.leaf (header m).
Proof.
  destruct without_lengths as (H0 & H1 & H2 & H3 & H4). pose proof (nr_fit _ _ Hm) as Hfit. rewrite kv_meta_off_eq in Hfit.
  pose proof (NodeMetaFacts.set_record_count_wf (header m) (header_wf m) (Z.of_nat (length ss - 1)) ltac:(lia)) as Hwf.
  unfold record_count, m', without. rewrite header_set_header by (done || lia). split.
  - rewrite NodeMetaFacts.set_record_count_same by lia. lia.
  - apply NodeMetaFacts.set_record_count_leaf, header_wf.
Qed.

Lemma delete_at j : delete idx ss !! j = ss !! (if decide (j < idx)%nat then j else S j).
Proof. case_decide; [by rewrite list_lookup_delete_lt|by rewrite list_lookup_delete_ge by lia]. Qed.

Lemma without_repr : node_repr m' (delete idx ss).
Proof.
  destruct without_lengths as (_ & _ & _ & H3 & _). pose proof (nr_fit _ _ Hm) as Hfit.
  assert (length (delete idx ss) = (length ss - 1)%nat) as Hl by (rewrite length_delete by (by rewrite Hs); lia).
  assert (forall j, (j < length ss - 1)%nat -> (if decide (j < idx)%nat then j else S j) < length ss)%nat as Hb by (intros j Hj; case_decide; lia).
  constructor; rewrite ?Hl, ?H3.
  - apply Hm.
  - rewrite kv_meta_off_eq in *. lia.
  - apply without_header.
  - intros j sj Hj. pose proof (lookup_lt_Some _ _ _ Hj) as Hlt. rewrite Hl in Hlt. rewrite delete_at in Hj.
    apply (slot_at_transfer m m' _ j sj (nr_slots _ _ Hm _ _ Hj)); [done|by apply without_meta|].
    intros o l Ho _. apply without_data. pose proof (nr_above _ _ Hm _ (Hb j Hlt)). lia.
  - intros j Hj. rewrite without_meta by done. pose proof (nr_above _ _ Hm _ (Hb j Hj)). rewrite kv_meta_off_eq in *. lia.
  - intros i j Hi Hj Hne. rewrite !without_meta by done. apply Hm; [by apply Hb..|]. repeat case_decide; lia.
Qed.

Lemma without_layout : layout m' = delete idx (layout m).
Proof.
  assert (length (delete idx ss) = (length ss - 1)%nat) as Hl by (rewrite length_delete by (by rewrite Hs); lia).
  apply (layout_ext _ _ _ without_repr).
  - pose proof (length_layout m ss Hm) as Hll. rewrite length_delete, Hll, Hl; [done|]. apply lookup_lt_is_Some. lia.
  - intros j sj Hj. pose proof (lookup_lt_Some _ _ _ Hj) as Hlt. rewrite Hl in Hlt. rewrite delete_at in Hj.
    rewrite without_meta by done. case_decide.
    + rewrite list_lookup_delete_lt by done. exact (layout_lookup m ss j sj Hm Hj).
    + rewrite list_lookup_delete_ge by lia. exact (layout_lookup m ss (S j) sj Hm Hj).
Qed.
End remove.

(** ** The record on top of the stack *)

Lemma keys_unique es i j si sj :
  keys_sorted es -> es !! i = Some si -> es !! j = Some sj -> s_key si = s_key sj -> i = j.
Proof.
  intros Hso Hi Hj He. destruct (Nat.lt_trichotomy i j) as [H|[H|H]]; [|done|]; exfalso.
  - apply (bytes_lt_irrefl (s_key sj)). rewrite <-He at 1.
    eapply (StronglySorted_lookup _ (s_key <$> es) i j); [exact Hso|exact H|..]; by rewrite list_lookup_fmap, ?Hi, ?Hj.
  - apply (bytes_lt_irrefl (s_key si)). rewrite He at 1.
    eapply (StronglySorted_lookup _ (s_key <$> es) j i); [exact Hso|exact H|..]; by rewrite list_lookup_fmap, ?Hi, ?Hj.
Qed.

Lemma user_slots_inv lo up es n s :
  user_slots lo up es !! n = Some s -> s_fence s = false -> exists j, n = S j /\ es !! j = Some s.
Proof.
  destruct n as [|j]; [by intros [= <-]|]. intros H Hf. change ((es ++ [fence_slot up]) !! j = Some s) in H. exists j. split; [done|].
  destruct (decide (j < length es)%nat); [by rewrite (lookup_app_l es [fence_slot up]) in H|]. rewrite (lookup_app_r es [fence_slot up]) in H by lia.
  destruct (j - length es)%nat as [|d]; [by injection H as <-|done].
Qed.

Lemma user_slots_delete lo up es j :
  (j < length es)%nat -> delete (S j) (user_slots lo up es) = user_slots lo up (delete j es).
Proof.
  intros Hj. unfold user_slots. change (fence_slot lo :: delete j (es ++ [fence_slot up]) = fence_slot lo :: delete j es ++ [fence_slot up]). f_equal.
  rewrite (delete_take_drop (es ++ _)), (delete_take_drop es). rewrite take_app_le, drop_app_le by lia. by rewrite <-(assoc_L (++)).
Qed.

(** The map without the key at a position. *)
Lemma content_delete es j s :
  keys_sorted es -> es !! j = Some s -> content (delete j es) = bt_remove (content es) (s_key s).
Proof.
  intros Hso Hs. pose proof (sorted_take es j s Hso Hs) as Hb. rewrite <-(take_drop_middle es j s Hs) at 2.
  rewrite delete_take_drop. unfold content. rewrite !fmap_app, fmap_cons. symmetry. apply bt_remove_found. by apply Forall_fmap.
Qed.

(** Taking the key on top of the stack out of the page. *)
Lemma remove_top {E} m lo up es k ks :
  leaf_repr m lo up es -> stacked (layout m) (k :: ks) ->
  exists m' es', remove_key_physical (E := E) (common_prefix lo up ++ k) m = (m', Ok true) /\ leaf_repr m' lo up es' /\
    content es' = bt_remove (content es) k /\ stacked (layout m') ks /\
    length m' = length m /\ NodeMeta.leaf (header m') = NodeMeta.leaf (header m).
Proof.
  intros Hm (L1 & o & L2 & HL & Hlow & Hst). pose proof (lr_repr _ _ _ _ Hm) as Hr. pose proof (lr_sorted _ _ _ _ Hm) as Hso.
  pose proof (length_layout m _ Hr) as Hll. rewrite HL, length_app in Hll. cbn [length] in Hll.
  destruct (lookup_lt_is_Some_2 (user_slots lo up es) (length L1)) as [s Hs]; [lia|].
  pose proof (layout_lookup m _ _ s Hr Hs) as Hl. rewrite HL, list_lookup_middle in Hl by done. injection Hl as Htag Ho.
  unfold slot_tag in Htag. destruct (s_fence s) eqn:Hf; [done|]. injection Htag as ->.
  destruct (user_slots_inv lo up es _ s Hs Hf) as (j & Hj & Hes). pose proof (lookup_lt_Some _ _ _ Hes) as Hjl. rewrite length_user_slots in Hll.
  destruct (content_at es j s Hso Hes) as [Hg _].
  destruct (search_found (E := E) m lo up es _ _ _ Hm Hg) as (j' & s' & Hb & Hes' & Hk' & _).
  pose proof (keys_unique es j' j s' s Hso Hes' Hes Hk') as ->. rewrite Hj in *.
  assert (forall i, (i < length (user_slots lo up es))%nat -> (data_off (meta_at m (S j)) <= data_off (meta_at m i))%nat) as Hlow'.
  { intros i Hi. destruct (lookup_lt_is_Some_2 _ _ Hi) as [si Hsi]. pose proof (layout_lookup m _ _ si Hr Hsi) as Hli.
    rewrite HL in Hli. rewrite <-Ho. apply list_elem_of_lookup_2 in Hli. rewrite elem_of_app, elem_of_cons in Hli.
    rewrite Forall_app, !Forall_forall in Hlow. destruct Hlow as [H1 H2].
    destruct Hli as [H|[[= _ <-]|H]]; [by apply (H1 _ H)|done|by apply (H2 _ H)]. }
  assert (length (user_slots lo up es) < 512)%nat as Hcap.
  { pose proof (nr_fit _ _ Hr). pose proof (nr_size _ _ Hr). rewrite kv_meta_off_eq in *. lia. }
  assert (S (S j) < length (user_slots lo up es))%nat as Hlast by (rewrite length_user_slots; lia).
  exists (without m (length (user_slots lo up es)) (S j)), (delete j es). split_and!.
  - unfold remove_key_physical. rewrite (run_asks (fun m => find_key m _) _ _ _ (find_key_ok _ _ _ _ _ _ Hm Hb)).
    exact (remove_run m _ Hr Hcap (S j) s Hs Hlast Hf Hlow').
  - constructor.
    + rewrite <-user_slots_delete by done. exact (without_repr m _ Hr Hcap (S j) s Hs Hlast).
    + apply bt_sorted_content. rewrite (content_delete es j s Hso Hes). by apply bt_remove_sorted, content_sorted.
    + unfold all_user. rewrite delete_take_drop. apply Forall_app. split; [by apply Forall_take, Hm|by apply Forall_drop, Hm].
  - exact (content_delete es j s Hso Hes).
  - rewrite (without_layout m _ Hr Hcap (S j) s Hs Hlast), HL, <-Hj, delete_middle. exact Hst.
  - apply (without_lengths m _ Hr Hcap (S j) Hlast).
  - apply (without_header m _ Hr Hcap (S j) Hlast).
Qed.
