(* ===== verification/MapTable.v ===== *)
(** * The mapping table and its page locks (src/map_table.rs)

    Every page has one 64-bit entry: the address (48 bits), whether it is a disk address
    (1 bit), a write-pending flag (1 bit) and the lock state (14 bits: the number of
    readers, or all ones for a writer).  [PageEntry] models the word, [MapTable] the
    table; [Locks] models the lock operations as threads that take one atomic step on
    the word of a page at a time, with the spurious failures of
    [compare_exchange_weak]. *)

From stdpp Require Import relations.
From S2P Require Import Prelude Types.

(** [NodeRef] of src/types.rs: a disk address or an index into the mini-page buffer. *)
Inductive NodeRef := NLeaf (addr : Z) | NMiniPage (index : Z).

#[global] Instance NodeRef_eq_dec : EqDecision NodeRef.
Proof. solve_decision. Defined.

(** [SPIN_RETRIES] of src/lib.rs: [2 ^ 12] is an exclusive or. *)
Definition SPIN_RETRIES : nat := Z.to_nat (Z.lxor 2 12).

Module PageEntry.
Definition WRITE_LOCK_STATE : Z := Z.shiftl 1 14 - 1.

(** [self.0 as u16 & WRITE_LOCK_STATE] *)
Definition state (e : Z) : Z := Z.land (u16 e) WRITE_LOCK_STATE.

Definition set_state (e new_state : Z) : Z :=
  let CLEAR_MASK := not64 WRITE_LOCK_STATE in
  Z.lor (Z.land e CLEAR_MASK) new_state.

Definition new_write_locked (index : Z) : Z := set_state (shl64 index 16) WRITE_LOCK_STATE.

Definition leaf (addr : Z) : Z := Z.lor (shl64 addr 16) (Z.shiftl 1 15).

Definition get_ref (e : Z) : NodeRef :=
  let is_leaf := Z.land (shr64 e 15) 1 =? 1 in
  let addr := shr64 e 16 in
  if is_leaf then NLeaf addr else NMiniPage addr.

Definition pending_write (e : Z) : bool := Z.land (shr64 e 14) 1 =? 1.

Definition set_pending_write (e : Z) (new : bool) : Z :=
  let e := Z.land e (not64 (Z.shiftl 1 14)) in
  Z.lor e (shl64 (Z.b2z new) 14).
End PageEntry.

Module MapTable.
Record t := mk { indirection_arr : list Z; next_free : nat; cap : nat }.

Definition new (leaf_upper_bound : nat) : t := mk (replicate leaf_upper_bound 0) 0 leaf_upper_bound.

(** The zero page id, and the table. *)
Definition init_leaf_entry {E} (mt : t) (disk_addr : Z) : outcome E (t * Z) :=
  if (cap mt =? 0)%nat then Halt Panicked
  else Ok (mk (<[0%nat := PageEntry.leaf disk_addr]> (indirection_arr mt)) 1 (cap mt), 0).

Definition capacity (mt : t) : nat := cap mt.

(** The index is taken before the capacity is checked. *)
Definition create_page_entry {E} (mt : t) (node : Z) : t * outcome E (Z * Z) :=
  let target_idx := next_free mt in
  let mt := mk (indirection_arr mt) (S target_idx) (cap mt) in
  if (cap mt <=? target_idx)%nat then (mt, Halt Panicked)
  else
    let val := PageEntry.new_write_locked node in
    (mk (<[target_idx := val]> (indirection_arr mt)) (next_free mt) (cap mt), Ok (Z.of_nat target_idx, val)).

(** [get_ref]: the entry of a page; beyond the allocation it is undefined behaviour. *)
Definition get_ref {E} (mt : t) (page : Z) : outcome E Z :=
  match indirection_arr mt !! Z.to_nat page with Some e => Ok e | None => Halt Undefined end.

Definition has_entry {E} (mt : t) (page : Z) : outcome E bool :=
  if Z.of_nat (cap mt) <=? page then Ok false
  else e ← get_ref mt page; Ok (negb (e =? 0)).
End MapTable.

Module Locks.
Import PageEntry.

(** Where a thread is in a lock operation of one page.  [e] is the local copy of the
    entry, [n] the iterations left, [node] the entry kept in a guard. *)
Inductive pc :=
| Idle
| Reading (e : Z) (n : nat)
| Writing (e : Z) (n : nat)
| HoldR (node : Z)
| HoldW (node : Z)
| Upgrading (node e : Z) (n : nat)
| DroppingR (node e : Z)
| DroppingW (node e : Z)
| Downgrading (node e : Z)
| Crashed.

(** [compare_exchange_weak]: the word after it, and the word read when it failed. *)
Definition cas_weak (spurious : bool) (w e new : Z) : Z * option Z :=
  if negb spurious && (w =? e) then (new, None) else (w, Some w).

(** One iteration of the loop of [read_page_entry]; the [continue] on a pending write
    does not load the entry again. *)
Definition read_iter (spurious : bool) (w e : Z) (n : nat) : Z * pc :=
  match n with
  | O => (w, Idle)
  | S n =>
      if pending_write e then (w, Reading e n)
      else
        let lock_state := state e in
        if WRITE_LOCK_STATE <=? lock_state then (w, Reading w n)
        else
          match cas_weak spurious w e (set_state e (lock_state + 1)) with
          | (w, None) => (w, HoldR e)
          | (w, Some e) => (w, Reading e n)
          end
  end.

(** One iteration of the loop of [write_page_entry]. *)
Definition write_iter (spurious : bool) (w e : Z) (n : nat) : Z * pc :=
  match n with
  | O => (w, Idle)
  | S n =>
      if state e =? 0 then
        match cas_weak spurious w e (set_pending_write (set_state e WRITE_LOCK_STATE) false) with
        | (w, None) => (w, HoldW e)
        | (w, Some e) => (w, Writing e n)
        end
      else if negb (pending_write e) then
        match cas_weak spurious w e (set_pending_write e true) with
        | (w, None) => (w, Writing e n)
        | (w, Some e) => (w, Writing e n)
        end
      else (w, Writing w n)
  end.

(** One iteration of the loop of [upgrade]; the exchange is the strong one. *)
Definition upgrade_iter (w node e : Z) (n : nat) : Z * pc :=
  match n with
  | O => (w, HoldR node)
  | S n =>
      if state e =? 1 then
        match cas_weak false w e (set_state e WRITE_LOCK_STATE) with
        | (w, None) => (w, HoldW node)
        | (w, Some e) => (w, Upgrading node e n)
        end
      else (w, Upgrading node w n)
  end.

(** One iteration of [PageReadGuard::drop], where [old_state - 1] panics on an unlocked
    entry, and of [PageWriteGuard::drop]. *)
Definition drop_read_iter (spurious : bool) (w node e : Z) : Z * pc :=
  if state e =? 0 then (w, Crashed) else
  match cas_weak spurious w e (set_state e (state e - 1)) with
  | (w, None) => (w, Idle)
  | (w, Some e) => (w, DroppingR node e)
  end.
Definition drop_write_iter (spurious : bool) (w node e : Z) : Z * pc :=
  match cas_weak spurious w e (set_state e 0) with
  | (w, None) => (w, Idle)
  | (w, Some e) => (w, DroppingW node e)
  end.

(** What a thread that is between operations may start; each start loads the entry,
    except the store of [set_mini_page] and [set_leaf]. *)
Inductive call :=
| CRead | CWrite | CUpgrade | CDropR | CDropW | CDowngrade | CSetMini (index : Z) | CSetLeaf (addr : Z).

Definition start (c : call) (w : Z) (p : pc) : option (Z * pc) :=
  match c, p with
  | CRead, Idle => Some (w, Reading w SPIN_RETRIES)
  | CWrite, Idle => Some (w, Writing w SPIN_RETRIES)
  | CUpgrade, HoldR node => Some (w, Upgrading node w SPIN_RETRIES)
  | CDropR, HoldR node => Some (w, DroppingR node w)
  | CDropW, HoldW node => Some (w, DroppingW node w)
  | CDowngrade, HoldW node => Some (w, Downgrading node w)
  | CSetMini index, HoldW _ => Some (new_write_locked index, HoldW (new_write_locked index))
  | CSetLeaf addr, HoldW _ => Some (leaf addr, HoldW (leaf addr))
  | _, _ => None
  end.

(** The next atomic step of a thread inside an operation. *)
Definition continue (spurious : bool) (w : Z) (p : pc) : option (Z * pc) :=
  match p with
  | Idle | HoldR _ | HoldW _ | Crashed => None
  | Reading e n => Some (read_iter spurious w e n)
  | Writing e n => Some (write_iter spurious w e n)
  | Upgrading node e n => Some (upgrade_iter w node e n)
  | DroppingR node e => Some (drop_read_iter spurious w node e)
  | DroppingW node e => Some (drop_write_iter spurious w node e)
  | Downgrading node e => Some (set_state e 1, HoldR node)
  end.

(** The word of one page and the threads that use it. *)
Record sys := mkSys { word : Z; threads : list pc }.

(** A scheduling choice: which thread moves, and what it does. *)
Inductive action := AStart (t : nat) (c : call) | AStep (t : nat) (spurious : bool).

Definition act (a : action) (s : sys) : option sys :=
  let '(t, f) := match a with AStart t c => (t, start c) | AStep t sp => (t, continue sp) end in
  match threads s !! t with
  | Some p => (fun '(w, p') => mkSys w (<[t := p']> (threads s))) <$> f (word s) p
  | None => None
  end.

(** Steps of a system in which [set_leaf] is not called. *)
Inductive step : sys -> sys -> Prop :=
| step_act a s s' :
    (forall t addr, a <> AStart t (CSetLeaf addr)) ->
    (forall t i, a = AStart t (CSetMini i) -> 0 <= i < 2 ^ 48) ->
    act a s = Some s' -> step s s'.

(** A trace, for concrete schedules. *)
Fixpoint run (l : list action) (s : sys) : option sys :=
  match l with
  | [] => Some s
  | a :: l => act a s ≫= run l
  end.

(** Who holds what.  An operation that still has a lock counts as holding it. *)
Definition reads (p : pc) : nat :=
  match p with HoldR _ | Upgrading _ _ _ | DroppingR _ _ => 1 | _ => 0 end.
Definition writes (p : pc) : nat :=
  match p with HoldW _ | DroppingW _ _ | Downgrading _ _ => 1 | _ => 0 end.

Definition readers (s : sys) : nat := sum_list (reads <$> threads s).
Definition writers (s : sys) : nat := sum_list (writes <$> threads s).

Definition initial (w : Z) (n : nat) : sys := mkSys w (replicate n Idle).

(** ** One thread alone: the functions the rest of the program calls *)

Fixpoint solo (fuel : nat) (w : Z) (p : pc) : Z * pc :=
  match fuel with
  | O => (w, p)
  | S fuel =>
      match continue false w p with
      | Some (w, p) => solo fuel w p
      | None => (w, p)
      end
  end.

(** [read_page_entry] and [write_page_entry] when nobody interferes. *)
Definition read_page_entry (w : Z) : Z * outcome QSError Z :=
  match solo (S SPIN_RETRIES) w (Reading w SPIN_RETRIES) with
  | (w, HoldR node) => (w, Ok node)
  | (w, Idle) => (w, Err PageLockFail)
  | (w, _) => (w, Halt Undefined)
  end.

Definition write_page_entry (w : Z) : Z * outcome QSError Z :=
  match solo (S SPIN_RETRIES) w (Writing w SPIN_RETRIES) with
  | (w, HoldW node) => (w, Ok node)
  | (w, Idle) => (w, Err PageLockFail)
  | (w, _) => (w, Halt Undefined)
  end.
End Locks.

Module PageEntryFacts.
Import PageEntry.

Lemma wls_eq : WRITE_LOCK_STATE = Z.ones 14.
Proof. done. Qed.

(** Where the page is: the address and the leaf flag. *)
Definition loc (e : Z) : Z := Z.shiftr e 15.

Lemma state_range e : 0 <= state e < 2 ^ 14.
Proof. unfold state. rewrite wls_eq, Z.land_ones by lia. apply Z.mod_pos_bound. lia. Qed.

Lemma loc_get_ref e e' : loc e = loc e' -> get_ref e = get_ref e'.
Proof.
  unfold loc, get_ref, shr64. intros H. rewrite H.
  replace (Z.shiftr e 16) with (Z.shiftr (Z.shiftr e 15) 1) by (by rewrite Z.shiftr_shiftr by lia).
  replace (Z.shiftr e' 16) with (Z.shiftr (Z.shiftr e' 15) 1) by (by rewrite Z.shiftr_shiftr by lia).
  by rewrite H.
Qed.

Section set_state.
Context (e s : Z) (He : is_u64 e) (Hs : 0 <= s < 2 ^ 14).

Lemma set_state_is_u64 : is_u64 (set_state e s).
Proof. unfold set_state. rewrite wls_eq. word_range. Qed.
Lemma state_set_state : state (set_state e s) = s.
Proof. unfold state, set_state. rewrite wls_eq. bits. Qed.
Lemma loc_set_state : loc (set_state e s) = loc e.
Proof. unfold loc, set_state. rewrite wls_eq. bits. Qed.
Lemma pending_set_state : pending_write (set_state e s) = pending_write e.
Proof. unfold pending_write. f_equal. unfold set_state. rewrite wls_eq. bits. Qed.
End set_state.

Section set_pending.
Context (e : Z) (b : bool) (He : is_u64 e).

Lemma set_pending_is_u64 : is_u64 (set_pending_write e b).
Proof. unfold set_pending_write. word_range. Qed.
Lemma state_set_pending : state (set_pending_write e b) = state e.
Proof. unfold state, set_pending_write. rewrite wls_eq. bits. Qed.
Lemma loc_set_pending : loc (set_pending_write e b) = loc e.
Proof. unfold loc, set_pending_write. bits. Qed.
Lemma pending_set_pending : pending_write (set_pending_write e b) = b.
Proof.
  unfold pending_write. replace (Z.land (shr64 (set_pending_write e b) 14) 1) with (Z.b2z b); [by destruct b|].
  change 1 with (Z.ones 1). unfold set_pending_write. bits.
Qed.
End set_pending.

Section new_entries.
Context (i : Z) (Hi : 0 <= i < 2 ^ 48).

Lemma new_write_locked_is_u64 : is_u64 (new_write_locked i).
Proof. unfold new_write_locked. apply set_state_is_u64; [apply u64_range|vm_compute; split; congruence]. Qed.
Lemma new_write_locked_state : state (new_write_locked i) = WRITE_LOCK_STATE.
Proof. apply state_set_state. vm_compute. split; congruence. Qed.
Lemma new_write_locked_ref : get_ref (new_write_locked i) = NMiniPage i.
Proof.
  unfold get_ref. replace (Z.land (shr64 (new_write_locked i) 15) 1) with 0.
  - simpl. f_equal. unfold new_write_locked, set_state. rewrite wls_eq. bits.
  - change 1 with (Z.ones 1). unfold new_write_locked, set_state. rewrite wls_eq. bits.
Qed.
Lemma new_write_locked_pending : pending_write (new_write_locked i) = false.
Proof.
  unfold pending_write. replace (Z.land (shr64 (new_write_locked i) 14) 1) with 0; [done|].
  change 1 with (Z.ones 1). unfold new_write_locked, set_state. rewrite wls_eq. bits.
Qed.
Lemma leaf_is_u64 : is_u64 (leaf i).
Proof. unfold leaf. word_range. Qed.
Lemma leaf_state : state (leaf i) = 0.
Proof. unfold state, leaf. rewrite wls_eq. bits. Qed.
Lemma leaf_ref : get_ref (leaf i) = NLeaf i.
Proof.
  unfold get_ref. replace (Z.land (shr64 (leaf i) 15) 1) with 1.
  - simpl. f_equal. unfold leaf. bits.
  - change 1 with (Z.ones 1) at 2. unfold leaf. bits.
Qed.
Lemma leaf_pending : pending_write (leaf i) = false.
Proof.
  unfold pending_write. replace (Z.land (shr64 (leaf i) 14) 1) with 0; [done|].
  change 1 with (Z.ones 1). unfold leaf. bits.
Qed.
End new_entries.
End PageEntryFacts.

Module LockFacts.
Import PageEntry PageEntryFacts Locks.

(** A thread's guard refers to where the page is, and its local copies are words. *)
Definition pc_ok (w : Z) (p : pc) : Prop :=
  match p with
  | Idle => True
  | Crashed => False
  | Reading e _ | Writing e _ => is_u64 e
  | HoldR node | HoldW node => loc node = loc w
  | Upgrading node e _ | DroppingW node e => loc node = loc w /\ is_u64 e
  | DroppingR node e => loc node = loc w /\ is_u64 e /\ 0 < state e
  | Downgrading node e => loc node = loc w /\ loc e = loc w /\ is_u64 e
  end.

(** What one step of one thread does to the lock. *)
Inductive effect (w w' : Z) (p p' : pc) : Prop :=
| eff_none : state w' = state w -> loc w' = loc w -> reads p' = reads p -> writes p' = writes p -> effect w w' p p'
| eff_acquire_read : state w < WRITE_LOCK_STATE -> state w' = state w + 1 -> loc w' = loc w ->
    reads p = 0%nat -> writes p = 0%nat -> reads p' = 1%nat -> writes p' = 0%nat -> effect w w' p p'
| eff_acquire_write : state w = 0 -> state w' = WRITE_LOCK_STATE -> loc w' = loc w ->
    reads p = 0%nat -> writes p = 0%nat -> reads p' = 0%nat -> writes p' = 1%nat -> effect w w' p p'
| eff_upgrade : state w = 1 -> state w' = WRITE_LOCK_STATE -> loc w' = loc w ->
    reads p = 1%nat -> writes p = 0%nat -> reads p' = 0%nat -> writes p' = 1%nat -> effect w w' p p'
| eff_release_read : 0 < state w -> state w' = state w - 1 -> loc w' = loc w ->
    reads p = 1%nat -> writes p = 0%nat -> reads p' = 0%nat -> writes p' = 0%nat -> effect w w' p p'
| eff_release_write : state w' = 0 -> loc w' = loc w ->
    reads p = 0%nat -> writes p = 1%nat -> reads p' = 0%nat -> writes p' = 0%nat -> effect w w' p p'
| eff_downgrade : state w' = 1 -> loc w' = loc w ->
    reads p = 0%nat -> writes p = 1%nat -> reads p' = 1%nat -> writes p' = 0%nat -> effect w w' p p'
| eff_move : state w' = WRITE_LOCK_STATE ->
    reads p = 0%nat -> writes p = 1%nat -> reads p' = 0%nat -> writes p' = 1%nat -> effect w w' p p'.

Lemma wls_range : 0 <= WRITE_LOCK_STATE < 2 ^ 14.
Proof. vm_compute. split; congruence. Qed.

Lemma cas_weak_cases sp w e new :
  (cas_weak sp w e new = (new, None) /\ w = e) \/ cas_weak sp w e new = (w, Some w).
Proof. unfold cas_weak. destruct sp; simpl; [by right|]. destruct (Z.eqb_spec w e); [by left|by right]. Qed.

Definition good (w : Z) (p : pc) (w' : Z) (p' : pc) : Prop :=
  effect w w' p p' /\ is_u64 w' /\ pc_ok w' p'.

Lemma good_stay w p p' :
  is_u64 w -> reads p' = reads p -> writes p' = writes p -> pc_ok w p' -> good w p w p'.
Proof. intros. split; [by apply eff_none|]. done. Qed.

Section thread.
Context (w : Z) (Hw : is_u64 w).

Lemma read_iter_good sp e n : is_u64 e ->
  let '(w', p') := read_iter sp w e n in good w (Reading e n) w' p'.
Proof.
  intros He. pose proof (state_range e). destruct n as [|n]; [by apply good_stay|]. cbn [read_iter].
  destruct (pending_write e); [by apply good_stay|].
  destruct (Z.leb_spec WRITE_LOCK_STATE (state e)); [by apply good_stay|].
  destruct (cas_weak_cases sp w e (set_state e (state e + 1))) as [[-> ->]| ->]; [|by apply good_stay].
  pose proof wls_range. assert (0 <= state e + 1 < 2 ^ 14) by lia. split_and!; [|by apply set_state_is_u64|].
  - apply eff_acquire_read; try done; [by apply state_set_state|by apply loc_set_state].
  - symmetry. by apply loc_set_state.
Qed.

Lemma write_iter_good sp e n : is_u64 e ->
  let '(w', p') := write_iter sp w e n in good w (Writing e n) w' p'.
Proof.
  intros He. pose proof wls_range. destruct n as [|n]; [by apply good_stay|]. cbn [write_iter].
  destruct (Z.eqb_spec (state e) 0).
  - destruct (cas_weak_cases sp w e (set_pending_write (set_state e WRITE_LOCK_STATE) false)) as [[-> ->]| ->];
      [|by apply good_stay].
    assert (is_u64 (set_state e WRITE_LOCK_STATE)) by (by apply set_state_is_u64).
    assert (loc (set_pending_write (set_state e WRITE_LOCK_STATE) false) = loc e)
      by (rewrite loc_set_pending by done; by apply loc_set_state).
    split_and!; [|by apply set_pending_is_u64|done].
    apply eff_acquire_write; try done. rewrite state_set_pending by done. by apply state_set_state.
  - destruct (pending_write e); cbn [negb]; [by apply good_stay|].
    destruct (cas_weak_cases sp w e (set_pending_write e true)) as [[-> ->]| ->]; [|by apply good_stay].
    split_and!; [|by apply set_pending_is_u64|done].
    apply eff_none; [by apply state_set_pending|by apply loc_set_pending|done|done].
Qed.

Lemma upgrade_iter_good node e n : loc node = loc w -> is_u64 e ->
  let '(w', p') := upgrade_iter w node e n in good w (Upgrading node e n) w' p'.
Proof.
  intros Hn He. pose proof wls_range. destruct n as [|n]; [by apply good_stay|]. cbn [upgrade_iter].
  destruct (Z.eqb_spec (state e) 1); [|by apply good_stay].
  destruct (cas_weak_cases false w e (set_state e WRITE_LOCK_STATE)) as [[-> ->]| ->]; [|by apply good_stay].
  split_and!; [|by apply set_state_is_u64|].
  - apply eff_upgrade; try done; [by apply state_set_state|by apply loc_set_state].
  - simpl. by rewrite loc_set_state.
Qed.

Lemma drop_read_iter_good sp node e : loc node = loc w -> is_u64 e -> 0 < state e -> 0 < state w ->
  let '(w', p') := drop_read_iter sp w node e in good w (DroppingR node e) w' p'.
Proof.
  intros Hn He Hpos Hpos'. pose proof (state_range e). unfold drop_read_iter.
  destruct (Z.eqb_spec (state e) 0); [lia|].
  destruct (cas_weak_cases sp w e (set_state e (state e - 1))) as [[-> ->]| ->]; [|by apply good_stay].
  assert (0 <= state e - 1 < 2 ^ 14) by lia. split_and!; [|by apply set_state_is_u64|done].
  apply eff_release_read; try done; [by apply state_set_state|by apply loc_set_state].
Qed.

Lemma drop_write_iter_good sp node e : loc node = loc w -> is_u64 e ->
  let '(w', p') := drop_write_iter sp w node e in good w (DroppingW node e) w' p'.
Proof.
  intros Hn He. unfold drop_write_iter.
  destruct (cas_weak_cases sp w e (set_state e 0)) as [[-> ->]| ->]; [|by apply good_stay].
  split_and!; [|apply set_state_is_u64; [done|lia]|done].
  apply eff_release_write; try done; [apply state_set_state; lia|apply loc_set_state; [done|lia]].
Qed.

(** Any step of a thread, from a page whose lock is not free while the thread reads. *)
Lemma continue_good sp p w' p' :
  pc_ok w p -> (reads p = 1%nat -> 0 < state w) -> continue sp w p = Some (w', p') -> good w p w' p'.
Proof.
  intros Hok Hr Hc. destruct p as [|e n|e n|node|node|node e n|node e|node e|node e|]; cbn [continue] in Hc;
    simplify_eq; cbn [pc_ok] in Hok.
  - pose proof (read_iter_good sp e n Hok) as H. by rewrite Hc in H.
  - pose proof (write_iter_good sp e n Hok) as H. by rewrite Hc in H.
  - destruct Hok as [Hl He]. pose proof (upgrade_iter_good node e n Hl He) as H. by rewrite Hc in H.
  - destruct Hok as (Hl & He & Hp). pose proof (drop_read_iter_good sp node e Hl He Hp (Hr eq_refl)) as H. by rewrite Hc in H.
  - destruct Hok as [Hl He]. pose proof (drop_write_iter_good sp node e Hl He) as H. by rewrite Hc in H.
  - destruct Hok as (Hl & Hle & He).
    assert (loc (set_state e 1) = loc w) as Hloc by (rewrite loc_set_state; [done|done|lia]).
    split_and!; [|apply set_state_is_u64; [done|lia]|simpl; by rewrite Hloc].
    apply eff_downgrade; try done. apply state_set_state; lia.
Qed.

Lemma start_good c p w' p' :
  pc_ok w p -> (reads p = 1%nat -> 0 < state w) ->
  (forall addr, c <> CSetLeaf addr) -> (forall i, c = CSetMini i -> 0 <= i < 2 ^ 48) ->
  start c w p = Some (w', p') -> good w p w' p'.
Proof.
  intros Hok Hr Hnl Hmini Hs.
  destruct c as [| | | | | |i|addr], p; cbn [start] in Hs; simplify_eq; cbn [pc_ok] in Hok;
    try (by apply good_stay; cbn [pc_ok]; auto).
  - specialize (Hmini i eq_refl). split_and!; [|by apply new_write_locked_is_u64|done].
    apply eff_move; try done. by apply new_write_locked_state.
  - by destruct (Hnl addr).
Qed.
End thread.

(** ** The invariant *)

Definition inv (s : sys) : Prop :=
  is_u64 (word s) /\ Z.of_nat (length (threads s)) < WRITE_LOCK_STATE /\
  ((writers s = 1%nat /\ readers s = 0%nat /\ state (word s) = WRITE_LOCK_STATE) \/
   (writers s = 0%nat /\ state (word s) = Z.of_nat (readers s))) /\
  forall t p, threads s !! t = Some p -> pc_ok (word s) p.

(** A sum over the threads when one of them changes. *)
Lemma sum_update (f : pc -> nat) l t p p' :
  l !! t = Some p -> (sum_list (f <$> <[t := p']> l) + f p = sum_list (f <$> l) + f p')%nat.
Proof.
  revert t; induction l as [|x l IH]; intros [|t] Ht; simplify_eq/=; [lia|]. specialize (IH t Ht).
  change (sum_list_with id ?x) with (sum_list x) in *. lia.
Qed.

Lemma sum_ge (f : pc -> nat) l t p : l !! t = Some p -> (f p <= sum_list (f <$> l))%nat.
Proof.
  revert t; induction l as [|x l IH]; intros [|t] Ht; simplify_eq/=; [lia|]. specialize (IH t Ht).
  change (sum_list_with id ?x) with (sum_list x) in *. lia.
Qed.

Lemma sum_ge2 (f : pc -> nat) l t1 t2 p1 p2 :
  t1 <> t2 -> l !! t1 = Some p1 -> l !! t2 = Some p2 -> (f p1 + f p2 <= sum_list (f <$> l))%nat.
Proof.
  revert t1 t2; induction l as [|x l IH]; intros [|t1] [|t2] Hne H1 H2; simplify_eq/=;
    change (sum_list_with id ?x) with (sum_list x) in *.
  - pose proof (sum_ge f l t2 p2 H2). lia.
  - pose proof (sum_ge f l t1 p1 H1). lia.
  - specialize (IH t1 t2 ltac:(lia) H1 H2). lia.
Qed.

Lemma readers_bound s : (readers s <= length (threads s))%nat.
Proof.
  unfold readers. induction (threads s) as [|p l IH]; [done|]. rewrite fmap_cons. cbn [sum_list length].
  change (sum_list_with id ?x) with (sum_list x). destruct p; simpl; lia.
Qed.

(** A thread that reads keeps the lock from being free. *)
Lemma reading_positive s t p :
  inv s -> threads s !! t = Some p -> reads p = 1%nat -> 0 < state (word s).
Proof.
  intros (_ & _ & Hst & _) Ht Hr. pose proof (sum_ge reads _ t p Ht) as Hg. fold (readers s) in Hg.
  pose proof wls_range. destruct Hst as [(?&?&?)|[? ?]]; lia.
Qed.

(** A step of one thread keeps the invariant. *)
Lemma good_inv s t p w' p' :
  inv s -> threads s !! t = Some p -> good (word s) p w' p' -> inv (mkSys w' (<[t := p']> (threads s))).
Proof.
  intros Hinv Ht (He & Hw' & Hp'). pose proof Hinv as (Hw & Hlen & Hst & Hok).
  pose proof (sum_update reads _ t p p' Ht) as HR. pose proof (sum_update writes _ t p p' Ht) as HW.
  pose proof (sum_ge reads _ t p Ht) as GR. pose proof (sum_ge writes _ t p Ht) as GW.
  fold (readers s) in HR, GR. fold (writers s) in HW, GW.
  pose proof (readers_bound s) as Hrb. pose proof wls_range as Hwls. pose proof (state_range w') as Hsr.
  unfold inv. cbn [word threads]. rewrite length_insert.
  unfold readers, writers in *. cbn [threads]. split_and!; [done|done| |].
  - destruct He; destruct Hst as [(?&?&?)|[? ?]]; lia.
  - intros t' q Hq. apply list_lookup_insert_Some in Hq as [(<- & <- & _)|[Hne Hq]]; [done|].
    specialize (Hok t' q Hq).
    assert (loc w' = loc (word s) \/ (writes p = 1%nat)) as [Hl|Hwp] by (destruct He; auto).
    + destruct q; cbn [pc_ok] in *; rewrite ?Hl; done.
    + pose proof (sum_ge2 writes _ t t' p q ltac:(done) Ht Hq) as Hq2.
      pose proof (sum_ge reads _ t' q Hq) as Hq3.
      destruct q; cbn [pc_ok] in *; try done; cbn [writes reads] in *; lia.
Qed.

Lemma step_inv s s' : inv s -> step s s' -> inv s'.
Proof.
  intros Hinv Hstep. destruct Hstep as [a s s' Hnl Hmini Ha].
  destruct a as [t c|t sp]; unfold act in Ha; destruct (threads s !! t) as [p|] eqn:Ht; simplify_eq/=.
  - destruct (start c (word s) p) as [[w' p']|] eqn:Hs; simplify_eq/=. apply (good_inv s t p); [done..|].
    eapply start_good; [apply Hinv|by eapply Hinv|intros; by eapply reading_positive| | |done].
    + intros addr ->. by apply (Hnl t addr).
    + intros i ->. by apply (Hmini t).
  - destruct (continue sp (word s) p) as [[w' p']|] eqn:Hs; simplify_eq/=. apply (good_inv s t p); [done..|].
    eapply continue_good; [apply Hinv|by eapply Hinv|intros; by eapply reading_positive|done].
Qed.

Lemma initial_inv w n : is_u64 w -> state w = 0 -> Z.of_nat n < WRITE_LOCK_STATE -> inv (initial w n).
Proof.
  intros Hw Hs Hn. unfold inv, initial, readers, writers. cbn [word threads]. rewrite length_replicate.
  assert (sum_list (reads <$> replicate n Idle) = 0%nat /\ sum_list (writes <$> replicate n Idle) = 0%nat) as [-> ->].
  { clear. induction n as [|n IH]; [done|]. exact IH. }
  split_and!; [done|done|right; split; [done|by rewrite Hs]|].
  intros t p Hp. apply lookup_replicate in Hp as [-> _]. done.
Qed.
End LockFacts.

(** The lock functions at their first try: a shared or free entry that no writer waits for
    is read-locked, a free entry is write-locked. *)
Lemma read_page_entry_shared w :
  PageEntry.pending_write w = false -> PageEntry.state w < PageEntry.WRITE_LOCK_STATE ->
  Locks.read_page_entry w = (PageEntry.set_state w (PageEntry.state w + 1), Ok w).
Proof.
  intros Hp Hs. unfold Locks.read_page_entry. change SPIN_RETRIES with 14%nat.
  cbn [Locks.solo Locks.continue Locks.read_iter].
  rewrite Hp, (proj2 (Z.leb_gt _ _)) by done. unfold Locks.cas_weak. cbn [negb andb]. by rewrite Z.eqb_refl.
Qed.

Lemma write_page_entry_free w :
  PageEntry.state w = 0 ->
  Locks.write_page_entry w =
    (PageEntry.set_pending_write (PageEntry.set_state w PageEntry.WRITE_LOCK_STATE) false, Ok w).
Proof.
  intros Hs. unfold Locks.write_page_entry. change SPIN_RETRIES with 14%nat.
  cbn [Locks.solo Locks.continue Locks.write_iter].
  rewrite Hs. cbn [Z.eqb]. unfold Locks.cas_weak. cbn [negb andb]. by rewrite Z.eqb_refl.
Qed.

(** * Properties *)

Import PageEntry Locks LockFacts PageEntryFacts.

(** C10. Mutual exclusion of the page lock: starting from an unlocked entry with fewer than
    16383 threads, in every state reachable by interleaved atomic steps (lock, upgrade,
    downgrade, unlock and relocation into the buffer, with spurious exchange failures) a
    writer excludes every other reader and writer, the lock state counts exactly the
    readers or marks the writer, no thread panics, and every guard names the place
    where the page currently is. *)
Theorem page_lock_mutual_exclusion (w : Z) (n : nat) (s : sys) :
  is_u64 w -> state w = 0 -> Z.of_nat n < WRITE_LOCK_STATE -> rtc step (initial w n) s ->
  (forall t1 t2 p1 p2, threads s !! t1 = Some p1 -> threads s !! t2 = Some p2 -> t1 <> t2 ->
     writes p1 = 1%nat -> reads p2 = 0%nat /\ writes p2 = 0%nat) /\
  (state (word s) = if decide (writers s = 0%nat) then Z.of_nat (readers s) else WRITE_LOCK_STATE) /\
  (forall t p, threads s !! t = Some p -> p <> Crashed) /\
  (forall t node, threads s !! t = Some (HoldR node) \/ threads s !! t = Some (HoldW node) ->
     get_ref node = get_ref (word s)).
Proof.
  intros Hw Hs Hn Hrtc. assert (inv s) as Hinv.
  { pose proof (initial_inv w n Hw Hs Hn) as H0. induction Hrtc as [|x y z Hxy _ IH]; [done|].
    apply IH. by eapply step_inv. }
  destruct Hinv as (_ & _ & Hst & Hok). split_and!.
  - intros t1 t2 p1 p2 H1 H2 Hne Hw1.
    pose proof (sum_ge2 writes _ t1 t2 p1 p2 Hne H1 H2) as G1. pose proof (sum_ge writes _ t1 p1 H1) as G2.
    pose proof (sum_ge reads _ t2 p2 H2) as G3. fold (writers s) in G1, G2. fold (readers s) in G3. lia.
  - case_decide; destruct Hst as [(?&?&?)|[? ?]]; congruence || lia.
  - intros t p Ht ->. exact (Hok t _ Ht).
  - intros t node [Ht|Ht]; apply loc_get_ref; exact (Hok t _ Ht).
Qed.

(** Two readers on a leaf entry, one of which leaves, and then an upgrade. *)
Definition sample_schedule : list action :=
  [AStart 0 CRead; AStart 1 CRead; AStep 0 false; AStep 1 false; AStep 1 true; AStep 1 false;
   AStart 0 CDropR; AStep 0 false; AStart 1 CUpgrade; AStep 1 false; AStart 1 (CSetMini 8)].

Definition sample_end : sys :=
  match run sample_schedule (initial (leaf 7) 3) with Some s => s | None => initial 0 0 end.

Lemma run_rtc l s s' :
  Forall (fun a => match a with AStart _ (CSetLeaf _) => False | AStart _ (CSetMini i) => 0 <= i < 2 ^ 48 | _ => True end) l ->
  run l s = Some s' -> rtc step s s'.
Proof.
  revert s; induction l as [|a l IH]; intros s Hl Hr; [by injection Hr as ->; apply rtc_refl|].
  apply Forall_cons_iff in Hl as [Ha Hl]. cbn [run] in Hr.
  destruct (act a s) as [s1|] eqn:E; [|done]. eapply rtc_l; [|by apply IH].
  apply (step_act a); [intros t addr ->; done|intros t i ->; done|done].
Qed.

Lemma page_lock_mutual_exclusion_witness :
  rtc step (initial (leaf 7) 3) sample_end /\ threads sample_end = [Idle; HoldW (new_write_locked 8); Idle] /\
  state (word sample_end) = WRITE_LOCK_STATE.
Proof.
  assert (rtc step (initial (leaf 7) 3) sample_end) as Hr.
  { apply (run_rtc sample_schedule); [|vm_compute; reflexivity].
    repeat (constructor; [done || (vm_compute; split; congruence)|]). constructor. }
  split; [exact Hr|]. split; [vm_compute; reflexivity|].
  destruct (page_lock_mutual_exclusion (leaf 7) 3 sample_end) as (_ & Hst & _);
    [vm_compute; split; congruence|vm_compute; reflexivity|vm_compute; reflexivity|exact Hr|].
  rewrite Hst. vm_compute. reflexivity.
Defined.

(** [set_leaf] releases the lock while its guard lives: the entry it stores is
    unlocked, so another thread can read the page next to the writer, and the writer's
    own drop then frees that reader's lock; a third thread becomes a writer while the
    reader still holds its guard. *)
Theorem set_leaf_breaks_exclusion :
  exists s, run [AStart 0 CWrite; AStep 0 false; AStart 0 (CSetLeaf 9);
                 AStart 1 CRead; AStep 1 false;
                 AStart 0 CDropW; AStep 0 false;
                 AStart 2 CWrite; AStep 2 false] (initial (leaf 7) 3) = Some s /\
    readers s = 1%nat /\ writers s = 1%nat.
Proof. eexists. split; [vm_compute; reflexivity|]. vm_compute. done. Qed.

(** An attempt to write that gives up leaves the pending flag set, and a reader never
    reloads an entry it first saw with that flag: after the lock is free again every
    [read_page_entry] fails with [PageLockFail], until some writer gets the lock. *)
Theorem stale_pending_blocks_readers (w : Z) :
  is_u64 w -> pending_write w = true -> read_page_entry w = (w, Err PageLockFail).
Proof.
  intros Hw Hp. unfold read_page_entry.
  assert (forall n fuel, (n < fuel)%nat -> solo fuel w (Reading w n) = (w, Idle)) as Hsolo.
  { induction n as [|n IH]; intros [|fuel] Hf; try lia; cbn [solo continue read_iter].
    - by destruct fuel.
    - rewrite Hp. apply IH. lia. }
  by rewrite Hsolo by lia.
Qed.

(** The flag left behind: a reader holds the lock while a writer tries, then leaves. *)
Definition pending_left : sys :=
  match run ([AStart 0 CRead; AStep 0 false; AStart 1 CWrite] ++ replicate 15 (AStep 1 false) ++
             [AStart 0 CDropR; AStep 0 false]) (initial (leaf 7) 2) with
  | Some s => s | None => initial 0 0 end.

Lemma stale_pending_blocks_readers_witness :
  threads pending_left = [Idle; Idle] /\ state (word pending_left) = 0 /\
  read_page_entry (word pending_left) = (word pending_left, Err PageLockFail).
Proof.
  split; [vm_compute; reflexivity|]. split; [vm_compute; reflexivity|].
  apply (stale_pending_blocks_readers (word pending_left)); [vm_compute; split; congruence|vm_compute; reflexivity].
Defined.

(** Without interference the lock functions do what they say: a free or shared entry
    that no writer waits for is read-locked, a free entry is write-locked and the pending
    flag cleared, a write-locked entry is refused; the guard names the page's place. *)
Theorem lock_functions_alone (w : Z) :
  is_u64 w ->
  (pending_write w = false -> state w < WRITE_LOCK_STATE ->
     read_page_entry w = (set_state w (state w + 1), Ok w)) /\
  (state w = WRITE_LOCK_STATE -> snd (read_page_entry w) = Err PageLockFail) /\
  (state w = 0 ->
     write_page_entry w = (set_pending_write (set_state w WRITE_LOCK_STATE) false, Ok w)) /\
  (state w <> 0 -> snd (write_page_entry w) = Err PageLockFail).
Proof.
  intros Hw. split_and!.
  - apply read_page_entry_shared.
  - intros Hs. unfold read_page_entry.
    assert (forall n fuel, (n < fuel)%nat -> solo fuel w (Reading w n) = (w, Idle)) as Hsolo.
    { induction n as [|n IH]; intros [|fuel] Hf; try lia; cbn [solo continue read_iter].
      - by destruct fuel.
      - destruct (pending_write w); [apply IH; lia|]. rewrite (proj2 (Z.leb_le _ _)) by lia. apply IH. lia. }
    by rewrite Hsolo by lia.
  - apply write_page_entry_free.
  - intros Hs. unfold write_page_entry.
    assert (forall n fuel w e, is_u64 w -> is_u64 e -> state w <> 0 -> state e <> 0 -> (n < fuel)%nat ->
      exists w', solo fuel w (Writing e n) = (w', Idle)) as Hsolo.
    { clear. induction n as [|n IH]; intros [|fuel] w e Hw He Hsw Hse Hf; try lia; cbn [solo continue write_iter].
      - exists w. by destruct fuel.
      - rewrite (proj2 (Z.eqb_neq _ _)) by done. destruct (pending_write e); cbn [negb]; [apply IH; (done || lia)|].
        destruct (cas_weak_cases false w e (set_pending_write e true)) as [[-> ->]| ->]; apply IH; try done; try lia.
        + by apply set_pending_is_u64.
        + by rewrite state_set_pending. }
    destruct (Hsolo SPIN_RETRIES (S SPIN_RETRIES) w w) as [w' ->]; [done..|lia|]. done.
Qed.

Lemma lock_functions_alone_witness :
  read_page_entry (leaf 7) = (set_state (leaf 7) 1, Ok (leaf 7)) /\
  snd (write_page_entry (set_state (leaf 7) 1)) = Err PageLockFail.
Proof.
  split.
  - apply (lock_functions_alone (leaf 7)); [vm_compute; split; congruence|reflexivity|reflexivity].
  - apply (lock_functions_alone (set_state (leaf 7) 1)); [vm_compute; split; congruence|vm_compute; congruence].
Defined.

(** The table: [create_page_entry] gives each call a fresh page id, below the capacity,
    whose entry is write-locked and points to the given mini-page, and leaves every other
    entry; [has_entry] does not see an unlocked mini-page at index zero. *)
Theorem create_page_entry_correct (mt mt' : MapTable.t) (i page node : Z) :
  0 <= i < 2 ^ 48 -> MapTable.cap mt = length (MapTable.indirection_arr mt) ->
  MapTable.create_page_entry (E := QSError) mt i = (mt', Ok (page, node)) ->
  page = Z.of_nat (MapTable.next_free mt) /\ (MapTable.next_free mt < MapTable.cap mt)%nat /\
  MapTable.next_free mt' = S (MapTable.next_free mt) /\
  MapTable.get_ref (E := QSError) mt' page = Ok node /\ get_ref node = NMiniPage i /\ state node = WRITE_LOCK_STATE /\
  (forall q, q <> page -> 0 <= q -> MapTable.get_ref (E := QSError) mt' q = MapTable.get_ref mt q) /\
  MapTable.has_entry (E := QSError) (MapTable.mk [set_state (new_write_locked 0) 0] 1 1) 0 = Ok false.
Proof.
  intros Hi Hcap H. unfold MapTable.create_page_entry in H. cbn [MapTable.cap MapTable.indirection_arr MapTable.next_free] in H.
  destruct (Nat.leb_spec (MapTable.cap mt) (MapTable.next_free mt)) as [|Hlt]; simplify_eq.
  unfold MapTable.get_ref. cbn [MapTable.cap MapTable.indirection_arr MapTable.next_free]. split_and!; try done.
  - rewrite Nat2Z.id, list_lookup_insert_eq by lia. done.
  - by apply new_write_locked_ref.
  - by apply new_write_locked_state.
  - intros q Hq H0. rewrite list_lookup_insert_ne by lia. done.
Qed.

Lemma create_page_entry_correct_witness :
  exists mt' node, MapTable.create_page_entry (E := QSError) (MapTable.new 2) 8 = (mt', Ok (0, node)) /\
    get_ref node = NMiniPage 8.
Proof.
  destruct (MapTable.create_page_entry (E := QSError) (MapTable.new 2) 8) as [mt' [[page node]| |]] eqn:E;
    [|vm_compute in E; congruence..].
  destruct (create_page_entry_correct (MapTable.new 2) mt' 8 page node) as (Hp & _ & _ & _ & Href & _);
    [lia|reflexivity|exact E|]. exists mt', node. split; [by rewrite Hp|exact Href].
Defined.
