(* ===== verification/Live.v ===== *)
(** * Progress of the page locks (src/map_table.rs)

    Mutual exclusion says that nothing bad happens; here is what does happen.  An attempt to
    lock a page ends after a fixed number of its own steps, whatever the other threads do
    meanwhile, and from no state that threads can reach is the page lost: they can always
    finish, and then any of them can have it. *)

From stdpp Require Import relations.
From S2P Require Import Prelude Types MapTable.
Import PageEntry Locks LockFacts PageEntryFacts.

(** ** Attempts end *)

(** The steps an attempt to lock, or to upgrade, has left; [None] outside of attempts. *)
Definition tries (p : pc) : option nat :=
  match p with Reading _ n | Writing _ n | Upgrading _ _ n => Some n | _ => None end.

(** The thread is back in its program, with the lock or without it. *)
Definition returned (p : pc) : Prop :=
  match p with Idle | HoldR _ | HoldW _ => True | _ => False end.

Definition actor (a : action) : nat := match a with AStart t _ | AStep t _ => t end.
Definition own_steps (t : nat) (l : list action) : nat := length (filter (fun a => actor a = t) l).

Lemma own_cons t a l : own_steps t (a :: l) = ((if decide (actor a = t) then 1 else 0) + own_steps t l)%nat.
Proof. unfold own_steps. rewrite filter_cons. by case_decide. Qed.

(** One step of an attempt. *)
Lemma tries_continue sp w p w' p' n :
  tries p = Some n -> continue sp w p = Some (w', p') -> returned p' \/ exists n', n = S n' /\ tries p' = Some n'.
Proof.
  intros Hn Hc. destruct p as [|e k|e k|nd|nd|nd e k|nd e|nd e|nd e|]; cbn [tries] in Hn; try done;
    injection Hn as ->; cbn [continue] in Hc; injection Hc as Hc.
  - destruct n as [|n]; cbn [read_iter] in Hc; [injection Hc as <- <-; by left|].
    destruct (pending_write e); [injection Hc as <- <-; right; by exists n|].
    destruct (_ <=? _); [injection Hc as <- <-; right; by exists n|].
    destruct (cas_weak _ _ _ _) as [? [?|]]; injection Hc as <- <-; [right; by exists n|by left].
  - destruct n as [|n]; cbn [write_iter] in Hc; [injection Hc as <- <-; by left|].
    destruct (_ =? _); [destruct (cas_weak _ _ _ _) as [? [?|]]; injection Hc as <- <-; [right; by exists n|by left]|].
    destruct (negb _); [destruct (cas_weak _ _ _ _) as [? [?|]]|]; injection Hc as <- <-; right; by exists n.
  - destruct n as [|n]; cbn [upgrade_iter] in Hc; [injection Hc as <- <-; by left|].
    destruct (_ =? _); [destruct (cas_weak _ _ _ _) as [? [?|]]; injection Hc as <- <-; [right; by exists n|by left]|].
    injection Hc as <- <-. right. by exists n.
Qed.

(** A thread inside an attempt starts nothing else, and the others do not move it. *)
Lemma act_other a s s' t :
  act a s = Some s' -> actor a <> t -> threads s' !! t = threads s !! t.
Proof.
  intros Ha Hne. unfold act in Ha. destruct a as [t' c|t' sp]; cbn [actor] in Hne; destruct (threads s !! t') as [q|]; try done;
    [destruct (start c (word s) q) as [[w' q']|]|destruct (continue sp (word s) q) as [[w' q']|]]; try done;
    injection Ha as <-; cbn [threads]; by rewrite list_lookup_insert_ne.
Qed.

Lemma attempt_ends l s s' t p n :
  run l s = Some s' -> threads s !! t = Some p -> tries p = Some n -> (n < own_steps t l)%nat ->
  exists l1 l2 s1 p1, l = l1 ++ l2 /\ run l1 s = Some s1 /\ threads s1 !! t = Some p1 /\ returned p1 /\
    (own_steps t l1 <= S n)%nat.
Proof.
  revert s p n; induction l as [|a l IH]; intros s p n Hr Ht Hn Hk; [cbn in Hk; lia|].
  cbn [run] in Hr. destruct (act a s) as [s1|] eqn:Ea; [|done]. cbn [mbind option_bind] in Hr. rewrite own_cons in Hk.
  destruct (decide (actor a = t)) as [Hown|Hoth].
  - destruct a as [t' c|t' sp]; cbn [actor] in Hown; subst t'; unfold act in Ea; rewrite Ht in Ea; cbn in Ea.
    { by destruct p, c. }
    destruct (continue sp (word s) p) as [[w' p']|] eqn:Ec; [|done]. injection Ea as <-.
    assert (threads (mkSys w' (<[t := p']> (threads s))) !! t = Some p') as Ht'.
    { cbn [threads]. apply list_lookup_insert_eq. by eapply lookup_lt_Some. }
    destruct (tries_continue sp (word s) p w' p' n Hn Ec) as [Hret|(n' & -> & Hn')].
    + exists [AStep t sp], l, (mkSys w' (<[t := p']> (threads s))), p'. split_and!; try done.
      * cbn [run]. unfold act. rewrite Ht. cbn. by rewrite Ec.
      * rewrite own_cons, decide_True by done. cbn. lia.
    + destruct (IH _ p' n' Hr Ht' Hn') as (l1 & l2 & s2 & p2 & -> & Hr2 & H2 & Hret & Hle); [lia|].
      exists (AStep t sp :: l1), l2, s2, p2. split_and!; try done.
      * cbn [run]. unfold act. rewrite Ht. cbn. by rewrite Ec.
      * rewrite own_cons, decide_True by done. lia.
  - assert (threads s1 !! t = Some p) as Ht1.
    { by rewrite (act_other a s s1 t Ea). }
    destruct (IH s1 p n Hr Ht1 Hn) as (l1 & l2 & s2 & p2 & -> & Hr2 & H2 & Hret & Hle).
    { lia. }
    exists (a :: l1), l2, s2, p2. split_and!; try done.
    + cbn [run]. by rewrite Ea.
    + rewrite own_cons, decide_False by done. lia.
Qed.

(** ** The page is never lost *)

(** A continuation without [set_leaf]. *)
Definition allowed (a : action) : Prop :=
  match a with AStart _ (CSetLeaf _) => False | AStart _ (CSetMini i) => 0 <= i < 2 ^ 48 | _ => True end.
Definition reaches (s s' : sys) : Prop := exists l, Forall allowed l /\ run l s = Some s'.

Lemma run_app l1 l2 s : run (l1 ++ l2) s = run l1 s ≫= run l2.
Proof. revert s; induction l1 as [|a l1 IH]; intros s; [done|]. cbn. destruct (act a s); [apply IH|done]. Qed.

#[global] Instance reaches_preorder : PreOrder reaches.
Proof.
  split; [by intros s; exists []|]. intros s1 s2 s3 (l1 & A1 & R1) (l2 & A2 & R2). exists (l1 ++ l2).
  split; [by apply Forall_app|]. by rewrite run_app, R1.
Qed.

Lemma reaches_rtc s s' : reaches s s' -> rtc step s s'.
Proof. intros (l & Ha & Hr). by eapply run_rtc. Qed.

Lemma reaches_inv s s' : inv s -> reaches s s' -> inv s'.
Proof. intros Hi Hr%reaches_rtc. induction Hr as [|x y z Hxy _ IH]; [done|]. apply IH. by eapply step_inv. Qed.

Definition with_thread (s : sys) (t : nat) (w : Z) (p : pc) : sys := mkSys w (<[t := p]> (threads s)).

Section thread.
Context (t : nat).

Lemma thread_start s p c w' p' :
  threads s !! t = Some p -> (forall addr, c <> CSetLeaf addr) -> (forall i, c <> CSetMini i) ->
  start c (word s) p = Some (w', p') -> reaches s (with_thread s t w' p').
Proof.
  intros Ht H1 H2 Hs. exists [AStart t c]. split; [|cbn; rewrite Ht; cbn; by rewrite Hs].
  repeat constructor. destruct c; try done; [by destruct (H2 index)|by destruct (H1 addr)].
Qed.
Lemma thread_step s p w' p' :
  threads s !! t = Some p -> continue false (word s) p = Some (w', p') -> reaches s (with_thread s t w' p').
Proof. intros Ht Hs. exists [AStep t false]. split; [by repeat constructor|]. cbn. rewrite Ht. cbn. by rewrite Hs. Qed.

Lemma with_thread_at s p w' p' : threads s !! t = Some p -> threads (with_thread s t w' p') !! t = Some p'.
Proof. intros Ht. apply list_lookup_insert_eq. by eapply lookup_lt_Some. Qed.
Lemma with_thread_twice s w p w' p' : with_thread (with_thread s t w p) t w' p' = with_thread s t w' p'.
Proof. unfold with_thread. cbn [threads]. by rewrite list_insert_insert_eq. Qed.

(** The thread finishes what it is doing and gives its lock back. *)
Definition idles (s : sys) : Prop := exists w, reaches s (with_thread s t w Idle).

Lemma idles_step s p w' p' :
  threads s !! t = Some p -> reaches s (with_thread s t w' p') -> idles (with_thread s t w' p') -> idles s.
Proof. intros Ht Hr [w Hw]. exists w. rewrite with_thread_twice in Hw. by transitivity (with_thread s t w' p'). Qed.

Lemma dropping_r_idles s node e : inv s -> threads s !! t = Some (DroppingR node e) -> idles s.
Proof.
  intros Hi Ht. pose proof (reading_positive s t _ Hi Ht eq_refl) as Hp.
  destruct Hi as (_ & _ & _ & Hok). destruct (Hok t _ Ht) as (_ & _ & He).
  assert (forall s e, threads s !! t = Some (DroppingR node e) -> word s = e -> 0 < state e -> idles s) as Hlast.
  { clear. intros s e Ht <- Hp. eexists. apply (thread_step s _ _ _ Ht). cbn [continue]. unfold drop_read_iter, cas_weak.
    rewrite (proj2 (Z.eqb_neq _ _)) by lia. cbn [negb andb]. by rewrite Z.eqb_refl. }
  destruct (decide (word s = e)) as [Heq|Hne]; [by apply (Hlast s e)|].
  apply (idles_step s _ (word s) (DroppingR node (word s)) Ht).
  - apply (thread_step s _ _ _ Ht). cbn [continue]. unfold drop_read_iter, cas_weak.
    rewrite (proj2 (Z.eqb_neq (state e) 0)) by lia. cbn [negb andb]. by rewrite (proj2 (Z.eqb_neq _ _)).
  - apply (Hlast _ (word s)); [by eapply with_thread_at|done|done].
Qed.

Lemma dropping_w_idles s node e : threads s !! t = Some (DroppingW node e) -> idles s.
Proof.
  intros Ht. assert (forall s e, threads s !! t = Some (DroppingW node e) -> word s = e -> idles s) as Hlast.
  { clear. intros s e Ht <-. eexists. apply (thread_step s _ _ _ Ht). cbn [continue]. unfold drop_write_iter, cas_weak.
    cbn [negb andb]. by rewrite Z.eqb_refl. }
  destruct (decide (word s = e)) as [Heq|Hne]; [by apply (Hlast s e)|].
  apply (idles_step s _ (word s) (DroppingW node (word s)) Ht).
  - apply (thread_step s _ _ _ Ht). cbn [continue]. unfold drop_write_iter, cas_weak.
    cbn [negb andb]. by rewrite (proj2 (Z.eqb_neq _ _)).
  - apply (Hlast _ (word s)); [by eapply with_thread_at|done].
Qed.

Lemma returned_idles s p : inv s -> threads s !! t = Some p -> returned p -> idles s.
Proof.
  intros Hi Ht Hp. destruct p as [| | |node|node| | | | |]; try done.
  - exists (word s). unfold with_thread. rewrite list_insert_id by done. by destruct s.
  - assert (reaches s (with_thread s t (word s) (DroppingR node (word s)))) as Hr by (by apply (thread_start s _ CDropR _ _ Ht)).
    apply (idles_step s _ _ _ Ht Hr). eapply dropping_r_idles; [by eapply reaches_inv|by eapply with_thread_at].
  - assert (reaches s (with_thread s t (word s) (DroppingW node (word s)))) as Hr by (by apply (thread_start s _ CDropW _ _ Ht)).
    apply (idles_step s _ _ _ Ht Hr). eapply dropping_w_idles. by eapply with_thread_at.
Qed.

Lemma attempt_idles n s p : inv s -> threads s !! t = Some p -> tries p = Some n -> idles s.
Proof.
  revert s p; induction n as [n IH] using lt_wf_ind; intros s p Hi Ht Hn.
  destruct (continue false (word s) p) as [[w' p']|] eqn:E; [|by destruct p].
  pose proof (thread_step s p w' p' Ht E) as Hr. apply (idles_step s p w' p' Ht Hr).
  pose proof (reaches_inv _ _ Hi Hr) as Hi'. pose proof (with_thread_at s p w' p' Ht) as Ht'.
  destruct (tries_continue false (word s) p w' p' n Hn E) as [Hret|(n' & -> & Hn')].
  - by eapply returned_idles.
  - eapply (IH n'); [lia|done|done|done].
Qed.

Lemma thread_idles s p : inv s -> threads s !! t = Some p -> idles s.
Proof.
  intros Hi Ht. destruct p as [|e n|e n|node|node|node e n|node e|node e|node e|] eqn:Ep.
  1,4,5: by eapply returned_idles.
  1,2,3: by eapply (attempt_idles n).
  - by eapply dropping_r_idles.
  - by eapply dropping_w_idles.
  - pose proof (thread_step s _ (set_state e 1) (HoldR node) Ht eq_refl) as Hr. apply (idles_step s _ _ _ Ht Hr).
    eapply returned_idles; [by eapply reaches_inv|by eapply with_thread_at|done].
  - destruct Hi as (_ & _ & _ & Hok). by destruct (Hok t _ Ht).
Qed.
End thread.

(** All of them, one after the other. *)
Lemma all_idle s : inv s -> exists w, reaches s (mkSys w (replicate (length (threads s)) Idle)).
Proof.
  intros Hi. assert (forall k, (k <= length (threads s))%nat ->
    exists w, reaches s (mkSys w (replicate k Idle ++ drop k (threads s)))) as H.
  { induction k as [|k IH]; intros Hk; [exists (word s); cbn; destruct s; done|].
    destruct (IH ltac:(lia)) as [w Hw]. set (s1 := mkSys w _) in Hw.
    destruct (lookup_lt_is_Some_2 (threads s) k) as [p Hp]; [lia|].
    assert (drop k (threads s) = p :: drop (S k) (threads s)) as Hd by (by apply drop_S).
    destruct (thread_idles k s1 p) as [w' Hw']; [by eapply reaches_inv| |].
    { subst s1. cbn [threads]. by rewrite Hd, list_lookup_middle by (by rewrite length_replicate). }
    exists w'. transitivity s1; [done|]. enough (with_thread s1 k w' Idle = mkSys w' (replicate (S k) Idle ++ drop (S k) (threads s))) as <- by done.
    unfold with_thread, s1. cbn [threads]. f_equal. rewrite Hd, insert_app_r_alt, length_replicate, Nat.sub_diag by (by rewrite length_replicate).
    rewrite replicate_S_end. by rewrite <-(assoc_L (++)). }
  destruct (H (length (threads s)) ltac:(lia)) as [w Hw]. exists w. by rewrite drop_ge, app_nil_r in Hw by lia.
Qed.

(** ** Properties *)

(** C19. The page lock makes progress.  In every state that fewer than 16383 threads reach by any
    interleaving of lock, upgrade, downgrade and unlock, whatever they are doing, they can finish
    and release what they hold, and then the entry is free and any thread that asks gets the
    write lock.  And an attempt to lock or to upgrade ends, with the lock or without it, within
    as many of its own steps as it has tries left, and one more, whatever the other threads do. *)
Theorem page_lock_progress (w : Z) (n : nat) (s : sys) (t : nat) (p : pc) :
  is_u64 w -> state w = 0 -> Z.of_nat n < WRITE_LOCK_STATE -> rtc step (initial w n) s -> threads s !! t = Some p ->
  (exists s' node, rtc step s s' /\ threads s' = <[t := HoldW node]> (replicate (length (threads s)) Idle)) /\
  (forall k l s', tries p = Some k -> run l s = Some s' -> (k < own_steps t l)%nat ->
     exists l1 l2 s1 p1, l = l1 ++ l2 /\ run l1 s = Some s1 /\ threads s1 !! t = Some p1 /\ returned p1 /\
       (own_steps t l1 <= S k)%nat).
Proof.
  intros Hw Hs Hn Hrtc Ht. split; [|intros k l s' Hk Hr; by apply (attempt_ends l s s' t p k)].
  assert (inv s) as Hinv.
  { pose proof (initial_inv w n Hw Hs Hn) as H0. clear Ht. induction Hrtc as [|x y z Hxy _ IH]; [done|]. apply IH. by eapply step_inv. }
  destruct (all_idle s Hinv) as [w1 Hr1]. set (s1 := mkSys w1 _) in Hr1. pose proof (reaches_inv _ _ Hinv Hr1) as Hinv1.
  assert (threads s1 !! t = Some Idle) as Ht1 by (cbn; apply lookup_replicate_2; by eapply lookup_lt_Some).
  assert (state w1 = 0) as Hst1.
  { destruct Hinv1 as (_ & _ & Hst & _). cbn [word s1] in Hst. unfold readers, writers in Hst. cbn [threads s1] in Hst.
    assert (forall k, sum_list (reads <$> replicate k Idle) = 0%nat /\ sum_list (writes <$> replicate k Idle) = 0%nat) as H0
      by (induction k as [|k IH]; [done|exact IH]).
    destruct (H0 (length (threads s))) as [Hr0 Hw0]. rewrite Hr0, Hw0 in Hst. destruct Hst as [(? & _)|(_ & ?)]; [lia|done]. }
  pose proof (thread_start t s1 Idle CWrite w1 _ Ht1 ltac:(done) ltac:(done) eq_refl) as Hr2.
  set (s2 := with_thread s1 t w1 _) in Hr2.
  pose proof (thread_step t s2 _ (set_pending_write (set_state w1 WRITE_LOCK_STATE) false) (HoldW w1) (with_thread_at t s1 _ _ _ Ht1)) as Hr3.
  unfold s2 in Hr3. rewrite with_thread_twice in Hr3. fold s2 in Hr3. exists (with_thread s1 t (set_pending_write (set_state w1 WRITE_LOCK_STATE) false) (HoldW w1)), w1.
  split; [|done]. apply reaches_rtc. transitivity s1; [done|]. transitivity s2; [done|]. apply Hr3.
  change (Some (write_iter false w1 w1 SPIN_RETRIES) = Some (set_pending_write (set_state w1 WRITE_LOCK_STATE) false, HoldW w1)).
  change SPIN_RETRIES with 14%nat. cbn [write_iter]. rewrite (proj2 (Z.eqb_eq (state w1) 0) Hst1).
  unfold cas_weak. cbn [negb andb]. by rewrite Z.eqb_refl.
Qed.

(** Thread 1 waits to write while thread 0 reads. *)
Definition waiting : sys :=
  match run [AStart 0 CRead; AStep 0 false; AStart 1 CWrite; AStep 1 false] (initial (leaf 7) 2) with
  | Some s => s | None => initial 0 0 end.

Lemma page_lock_progress_witness :
  exists s' node, rtc step waiting s' /\ threads s' = <[1%nat := HoldW node]> [Idle; Idle].
Proof.
  refine (proj1 (page_lock_progress (leaf 7) 2 waiting 1 (Writing (set_pending_write (set_state (leaf 7) 1) false) 13) _ _ _ _ _)).
  - vm_compute. split; congruence.
  - vm_compute. reflexivity.
  - vm_compute. reflexivity.
  - apply (run_rtc [AStart 0 CRead; AStep 0 false; AStart 1 CWrite; AStep 1 false]); [by repeat constructor|vm_compute; reflexivity].
  - vm_compute. reflexivity.
Defined.
