(* ===== verification/IoEngine.v ===== *)
(** * The data file (src/io_engine.rs)

    The file is the list of its bytes: a metadata page of 4096 bytes and then the leaf
    pages, page [a] at offset [(a + 1) * 4096].  Calls of the operating system are taken
    to succeed, except a read past the end, where [read_exact_at] fails and the
    program panics. *)

From S2P Require Import Prelude.

Record IoEngine := mkIo { io_file : bytes; next_addr : Z }.

Definition PAGE : nat := 4096.

Definition zeros (n : nat) : bytes := replicate n Byte.x00.

(** [open]: at least the metadata page and one leaf. *)
Definition open (existing : bytes) : IoEngine :=
  let min_len := (2 * 4096)%nat in
  let f := if (length existing <? min_len)%nat then existing ++ zeros (min_len - length existing) else existing in
  mkIo f (Z.max (Z.of_nat (length f) / 4096 - 1) 0).

Definition calc_offset (page_addr : Z) : nat := Z.to_nat ((page_addr + 1) * 4096).

Definition get_page {E} (io : IoEngine) (page_addr : Z) : outcome E bytes :=
  let offset := calc_offset page_addr in
  if (offset + 4096 <=? length (io_file io))%nat then Ok (slice (io_file io) offset 4096) else Halt Panicked.

(** [write_at] beyond the end extends the file with zeros. *)
Definition write_page (io : IoEngine) (page_addr : Z) (leaf : bytes) : IoEngine :=
  let offset := calc_offset page_addr in
  let f := io_file io ++ zeros (offset + length leaf - length (io_file io)) in
  mkIo (splice f offset leaf) (next_addr io).

Definition get_new_addr (io : IoEngine) : IoEngine * Z :=
  (mkIo (io_file io) (u64 (next_addr io + 1)), next_addr io).

(** ** Facts *)

Lemma length_zeros n : length (zeros n) = n.
Proof. apply length_replicate. Qed.

Lemma calc_offset_eq a : 0 <= a -> calc_offset a = (4096 + 4096 * Z.to_nat a)%nat.
Proof. unfold calc_offset. lia. Qed.

(** A page lies inside the file. *)
Definition present (io : IoEngine) (a : Z) : Prop := (calc_offset a + 4096 <= length (io_file io))%nat.

Lemma get_page_present {E} io a : present io a -> get_page (E := E) io a = Ok (slice (io_file io) (calc_offset a) 4096).
Proof. unfold present, get_page. intros H. by rewrite (proj2 (Nat.leb_le _ _)). Qed.

Lemma write_page_length io a leaf :
  length leaf = 4096%nat ->
  length (io_file (write_page io a leaf)) = Nat.max (length (io_file io)) (calc_offset a + 4096).
Proof.
  intros Hl. unfold write_page. cbn [io_file]. rewrite length_splice; rewrite ?length_app, ?length_zeros; [lia|].
  unfold in_range. rewrite length_app, length_zeros. lia.
Qed.

Lemma write_page_present io a b leaf :
  length leaf = 4096%nat -> a = b \/ present io b -> present (write_page io a leaf) b.
Proof.
  intros Hl [->|Hp]; unfold present in *; rewrite write_page_length by done; lia.
Qed.

Lemma get_page_length {E} (io : IoEngine) addr d : get_page (E := E) io addr = Ok d -> length d = 4096%nat.
Proof.
  unfold get_page. destruct (_ <=? _)%nat eqn:Hle; [|done]. intros [= <-]. apply length_slice. by apply Nat.leb_le in Hle.
Qed.

Lemma get_write_same {E} io a leaf :
  length leaf = 4096%nat -> get_page (E := E) (write_page io a leaf) a = Ok leaf.
Proof.
  intros Hl. rewrite get_page_present by (apply write_page_present; auto). f_equal.
  unfold write_page. cbn [io_file].
  pose proof (slice_splice_same (io_file io ++ zeros (calc_offset a + length leaf - length (io_file io)))
    (calc_offset a) leaf) as Hs. rewrite Hl in *. apply Hs.
  unfold in_range. rewrite length_app, length_zeros. lia.
Qed.

Lemma get_write_other {E} io a b leaf :
  length leaf = 4096%nat -> 0 <= a -> 0 <= b -> a <> b -> present io b ->
  get_page (E := E) (write_page io a leaf) b = get_page io b.
Proof.
  intros Hl Ha Hb Hne Hp. rewrite !get_page_present by (done || apply write_page_present; auto). f_equal.
  unfold present in Hp. rewrite calc_offset_eq in Hp by done.
  unfold write_page. cbn [io_file]. rewrite !calc_offset_eq by done.
  rewrite slice_splice_ne.
  - apply list_eq; intros i. rewrite !lookup_slice. case_decide; [|done]. apply lookup_app_l. lia.
  - unfold in_range. rewrite length_app, length_zeros. lia.
  - lia.
Qed.

(** * Properties *)

(** Pages of the data file are independent cells: a page read after it was written is
    what was written, and writing a page changes no other page of the file. *)
Theorem page_write_read (io : IoEngine) (a b : Z) (leaf : bytes) :
  length leaf = 4096%nat -> 0 <= a -> 0 <= b -> present io b ->
  get_page (E := unit) (write_page io a leaf) b = if decide (a = b) then Ok leaf else get_page io b.
Proof.
  intros. case_decide as Hd; [subst; by apply get_write_same|by apply get_write_other].
Qed.

Lemma page_write_read_witness :
  present (open []) 0 /\ get_page (E := unit) (write_page (open []) 1 (replicate 4096 Byte.x07)) 0 = Ok (zeros 4096).
Proof.
  assert (present (open []) 0) as Hp by (apply Nat.leb_le; vm_compute; reflexivity).
  split; [exact Hp|].
  rewrite (page_write_read (open []) 1 0 (replicate 4096 Byte.x07)); [vm_compute; reflexivity|reflexivity|lia|lia|exact Hp].
Defined.

(** A fresh address names a page that was not in the file: on a file of whole pages the
    first address handed out after [open] lies at its end, later ones beyond it, and no two
    are the same.  Reading such a page before it is written panics. *)
Theorem new_addr_fresh (f : bytes) (n : nat) :
  length f = (4096 * n)%nat -> Z.of_nat n < 2 ^ 48 ->
  let io := open f in
  let '(io1, a1) := get_new_addr io in
  let '(_, a2) := get_new_addr io1 in
  (length (io_file io) <= calc_offset a1)%nat /\ a2 = a1 + 1 /\ get_page (E := unit) io a1 = Halt Panicked.
Proof.
  intros Hf Hn. cbn zeta. unfold get_new_addr. cbn [next_addr io_file].
  assert (exists k, length (io_file (open f)) = (4096 * k)%nat /\ (2 <= k)%nat /\ Z.of_nat k < 2 ^ 48) as (k & Hk & Hk2 & Hk3).
  { unfold open. cbn [io_file]. destruct (Nat.ltb_spec (length f) (2 * 4096)).
    - exists 2%nat. rewrite length_app, length_zeros. lia.
    - exists n. lia. }
  assert (next_addr (open f) = Z.of_nat k - 1) as Ha.
  { unfold open in *. cbn [io_file next_addr] in *. rewrite Hk.
    replace (Z.of_nat (4096 * k)) with (Z.of_nat k * 4096) by lia. rewrite Z.div_mul by lia. lia. }
  rewrite Ha. assert (calc_offset (Z.of_nat k - 1) = (4096 * k)%nat) as Hc by (unfold calc_offset; lia).
  split_and!.
  - rewrite Hc, Hk. lia.
  - unfold u64. rewrite Z.mod_small by lia. lia.
  - unfold get_page. rewrite Hc, Hk. by rewrite (proj2 (Nat.leb_gt _ _)) by lia.
Qed.

Lemma new_addr_fresh_witness :
  let '(io1, a1) := get_new_addr (open []) in
  (length (io_file (open [])) <= calc_offset a1)%nat.
Proof. apply (new_addr_fresh [] 0); [reflexivity|lia]. Defined.
