(* ===== verification/PageOp.v ===== *)
(** * Page operations (src/page_op.rs)

    Split and merge plans of leaves, writing a mini-page back to its disk leaf, and the
    read and write paths of one page.  A mini-page is the list of its bytes; the disk is
    the [IoEngine]. *)

From S2P Require Import Prelude Types BTreeMap Node IoEngine MapTable.

(** [LeafEntryOwned]: full key and value. *)
Abbreviation LeafEntryOwned := (bytes * bytes)%type.

Definition from_entry (prefix : bytes) (entry : LeafEntry) : LeafEntryOwned :=
  (prefix ++ le_key_suffix entry, le_value entry).

Definition owned_entries {E} (m : bytes) : outcome E (list LeafEntryOwned) :=
  prefix ← get_node_prefix m;
  es ← entries m;
  let live : list LeafEntry := filter (fun e => KVMeta.fence (le_meta e) = false) es in
  Ok (from_entry prefix <$> live).

Record LeafSplitPlan := mkSplitPlan {
  sp_prefix : bytes; pivot_key : bytes;
  left_entries : list LeafEntryOwned; right_entries : list LeafEntryOwned;
  sp_lower_fence : bytes; sp_upper_fence : bytes }.

Definition from_node {E} (m : bytes) : outcome E LeafSplitPlan :=
  prefix ← get_node_prefix m;
  es ← entries m;
  let live_entries : list LeafEntry := filter (fun e => KVMeta.fence (le_meta e) = false) es in
  let move_start := (length live_entries / 2)%nat in
  match live_entries !! move_start with
  | None => Halt Panicked
  | Some pivot_entry =>
      let pivot := prefix ++ le_key_suffix pivot_entry in
      '(lo, up) ← fence_bounds m;
      Ok (mkSplitPlan prefix pivot (from_entry prefix <$> take move_start live_entries)
            (from_entry prefix <$> drop move_start live_entries) lo up)
  end.

Record LeafSplitOutcome := mkSplitOutcome { so_pivot_key : bytes; left_count : nat; right_count : nat }.

(** Running a method on one of the two pages. *)
Definition on_left {E A} (f : stM bytes E A) : stM (bytes * bytes) E A := fun '(l, r) =>
  let '(l, a) := f l in ((l, r), a).
Definition on_right {E A} (f : stM bytes E A) : stM (bytes * bytes) E A := fun '(l, r) =>
  let '(r, a) := f r in ((l, r), a).

(** [LeafSplitPlan::apply] on the pages (left, right). *)
Definition apply_split (p : LeafSplitPlan) : stM (bytes * bytes) InsufficientSpace LeafSplitOutcome :=
  _ ← on_left (reset_user_entries_with_fences (sp_lower_fence p) (pivot_key p));
  _ ← on_left (replay_entries (left_entries p));
  _ ← on_right (reset_user_entries_with_fences (pivot_key p) (sp_upper_fence p));
  _ ← on_right (replay_entries (right_entries p));
  mret (mkSplitOutcome (pivot_key p) (length (left_entries p)) (length (right_entries p))).

Record LeafMergePlan := mkMergePlan {
  mp_entries : list LeafEntryOwned; survivor_lower : bytes; survivor_upper : bytes;
  removed_lower : bytes; removed_upper : bytes }.

Definition from_nodes {E} (left right : bytes) : outcome E LeafMergePlan :=
  el ← owned_entries left;
  er ← owned_entries right;
  '(left_lower, _) ← fence_bounds left;
  '(right_lower, right_upper) ← fence_bounds right;
  Ok (mkMergePlan (el ++ er) left_lower right_upper right_lower right_upper).

(** [LeafMergePlan::apply] on the pages (survivor, removed). *)
Definition apply_merge (p : LeafMergePlan) : stM (bytes * bytes) InsufficientSpace nat :=
  _ ← on_left (reset_user_entries_with_fences (survivor_lower p) (survivor_upper p));
  _ ← on_left (replay_entries (mp_entries p));
  _ ← on_right (reset_user_entries_with_fences (removed_lower p) (removed_upper p));
  mret (length (mp_entries p)).

(** ** Writing back *)

(** [disk_leaf.get_or_insert_with(|| io_engine.get_page(leaf_addr))] *)
Definition get_or_load {E} (io : IoEngine) (addr : Z) (disk_leaf : option bytes) : outcome E bytes :=
  match disk_leaf with Some d => Ok d | None => get_page io addr end.

(** [expect] on the result of a method of the disk page. *)
Definition expect_ok {E F A} (r : bytes * outcome E A) : outcome F bytes :=
  match r with
  | (d, Ok _) => Ok d
  | (_, Err _) => Halt Panicked
  | (_, Halt h) => Halt h
  end.

(** One turn of the loop over the records, with the disk leaf and the tombstones seen. *)
Definition flush_one {E} (io : IoEngine) (m : bytes) (st : option bytes * list nat) (i : nat)
    : outcome E (option bytes * list nat) :=
  let '(disk_leaf, tombstones) := st in
  kv ← get_kv_meta m i;
  if KVMeta.fence kv then Ok st
  else
    match KVMeta.typ kv with
    | KVRecordType.Tombstone =>
        d ← get_or_load io (NodeMeta.leaf (header m)) disk_leaf;
        prefix ← get_node_prefix m;
        suffix ← get_stored_key_from_meta m kv;
        d ← expect_ok (remove_key_physical (E := unit) (prefix ++ suffix) d);
        Ok (Some d, tombstones ++ [i])
    | typ =>
        if KVRecordType.is_dirty typ then
          d ← get_or_load io (NodeMeta.leaf (header m)) disk_leaf;
          key_suffix ← get_stored_key_from_meta m kv;
          val ← get_val_from_meta m kv;
          d ← expect_ok (try_put_with_suffix key_suffix val d);
          Ok (Some d, tombstones)
        else Ok st
    end.

Definition flush_dirty_entries {E} (m : bytes) (io : IoEngine) : outcome E (bytes * IoEngine) :=
  '(disk_leaf, tombstones) ← foldM (flush_one io m) (None, []) (seq 0 (record_count m));
  let io' := match disk_leaf with
             | Some d => write_page io (NodeMeta.leaf (header m)) d
             | None => io
             end in
  m' ← foldM (fun m idx => expect_ok (remove_entry_at (E := unit) idx m)) m (rev tombstones);
  Ok (m', io').

(** ** One page, read and written *)

(** [ensure_page], also [PageGuard::load_leaf]: the leaf kept in the guard is not read
    again. *)
Definition ensure_page {E} (io : IoEngine) (cache : option bytes) (addr : Z) : outcome E bytes :=
  match cache with Some l => Ok l | None => get_page io addr end.

(** [PageGuard::get]; the bytes of the mini-page are the argument where the node is one. *)
Definition page_get {E} (io : IoEngine) (cache : option bytes) (node : NodeRef) (mini key : bytes)
    : outcome E (option bytes) :=
  match node with
  | NLeaf addr => leaf ← ensure_page io cache addr; get leaf key
  | NMiniPage _ =>
      prefix ← get_node_prefix mini;
      key_suffix ← slice_from key (length prefix);
      r ← binary_search mini key_suffix;
      match r with
      | inl i =>
          kv ← get_kv_meta mini i;
          if KVRecordType.exists_ (KVMeta.typ kv)
          then v ← get_val_from_meta mini kv; Ok (Some v)
          else Ok None
      | inr _ =>
          leaf ← ensure_page io cache (NodeMeta.leaf (header mini));
          get leaf key
      end
  end.

Inductive TryPutResult := Success | NeedsPromotion (addr : Z) | NeedsSplit.

(** [WriteGuardWrapper::try_put], with the mini-page it leaves. *)
Definition page_try_put (node : NodeRef) (mini key val : bytes) : bytes * outcome unit TryPutResult :=
  match node with
  | NLeaf addr => (mini, Ok (NeedsPromotion addr))
  | NMiniPage _ =>
      match try_put key val mini with
      | (mini, Ok _) => (set_header mini (NodeMeta.mark_hot (header mini)), Ok Success)
      | (mini, Err _) => (mini, Ok NeedsSplit)
      | (mini, Halt h) => (mini, Halt h)
      end
  end.

Definition merge_to_disk {E} (node : NodeRef) (mini : bytes) (io : IoEngine) : outcome E (bytes * IoEngine) :=
  match node with
  | NLeaf _ => Halt Panicked
  | NMiniPage _ => flush_dirty_entries mini io
  end.

(** * Entries *)

(** What [entries] returns for the records of a node. *)
Definition entry_of (m : bytes) (i : nat) (s : slot) : LeafEntry := mkLeafEntry (meta_at m i) (s_key s) (s_val s).

Lemma exists_always t : KVRecordType.exists_ t = true.
Proof. by destruct t. Qed.

Lemma mapM_imap {E A B} (f : nat -> outcome E A) (g : nat -> B -> A) (l : list B) k :
  (forall i b, l !! i = Some b -> f (k + i)%nat = Ok (g (k + i)%nat b)) ->
  mapM f (seq k (length l)) = Ok (imap (fun i b => g (k + i)%nat b) l).
Proof.
  revert k; induction l as [|b l IH]; intros k H; [done|]. cbn [length seq mapM].
  pose proof (H 0%nat b eq_refl) as H0. rewrite Nat.add_0_r in H0. rewrite H0. cbn [mbind outcome_bind].
  rewrite (IH (S k)).
  - cbn [mbind outcome_bind mret outcome_ret imap]. rewrite Nat.add_0_r. do 2 f_equal.
    apply imap_ext. intros i b' _. simpl. f_equal. lia.
  - intros i b' Hi. specialize (H (S i) b' Hi). rewrite Nat.add_succ_r in H. exact H.
Qed.

Lemma entries_repr {E} m ss : node_repr m ss -> entries (E := E) m = Ok (imap (entry_of m) ss).
Proof.
  intros Hm. unfold entries. rewrite (nr_count _ _ Hm).
  rewrite (mapM_imap _ (fun i _ => meta_at m i) ss 0).
  2: { intros i s Hi. apply (repr_get_kv_meta m ss Hm). by eapply lookup_lt_Some. }
  cbn [mbind outcome_bind]. rewrite filter_all by (apply Forall_forall; intros; apply exists_always).
  assert (forall i s, ss !! i = Some s -> slot_at m i s) as Hs by apply Hm.
  clear Hm. change (fun i (b : slot) => meta_at m (0 + i)%nat) with (fun i (b : slot) => meta_at m i).
  assert (forall k, (forall i s, ss !! i = Some s -> slot_at m (k + i) s) ->
    mapM (fun kv => k0 ← get_stored_key_from_meta (E := E) m kv; v ← get_val_from_meta m kv; Ok (mkLeafEntry kv k0 v))
      (imap (fun i (_ : slot) => meta_at m (k + i)%nat) ss) = Ok (imap (fun i s => entry_of m (k + i)%nat s) ss)) as H.
  { clear Hs. induction ss as [|s ss IH]; intros k Hs; [done|]. cbn [imap mapM].
    pose proof (Hs 0%nat s eq_refl) as H0. rewrite (slot_stored_key m _ _ H0). cbn [mbind outcome_bind].
    rewrite (slot_val m _ _ H0). cbn [mbind outcome_bind].
    rewrite (imap_ext _ (fun i _ => meta_at m (S k + i)%nat)) by (intros; simpl; f_equal; lia).
    rewrite IH.
    - cbn [mbind outcome_bind mret outcome_ret]. do 2 f_equal. apply imap_ext. intros; simpl; f_equal; lia.
    - intros i s' Hi. replace (S k + i)%nat with (k + S i)%nat by lia. by apply Hs. }
  apply (H 0%nat). exact Hs.
Qed.

(** A record with its full key. *)
Definition full (prefix : bytes) (s : slot) : LeafEntryOwned := (prefix ++ s_key s, s_val s).

Section plans.
Context (m lo up : bytes) (es : list slot) (Hm : leaf_repr m lo up es).

Lemma live_entries_ok :
  filter (fun e => KVMeta.fence (le_meta e) = false) (imap (entry_of m) (user_slots lo up es)) =
    imap (fun i s => entry_of m (S i) s) es.
Proof.
  unfold user_slots. cbn [imap]. rewrite filter_cons_False.
  2: { cbn [entry_of le_meta]. rewrite (sa_fence _ _ _ (leaf_low _ _ _ _ Hm)). done. }
  rewrite imap_app, filter_app. cbn [imap]. rewrite filter_cons_False.
  2: { unfold compose, entry_of. cbn [le_meta]. rewrite Nat.add_0_r, (sa_fence _ _ _ (leaf_high _ _ _ _ Hm)). done. }
  rewrite filter_nil, app_nil_r. apply filter_all. apply Forall_lookup. intros i e He.
  rewrite list_lookup_imap in He. destruct (es !! i) as [s|] eqn:Hs; [|done]. injection He as <-.
  unfold compose, entry_of. cbn [le_meta]. rewrite (sa_fence _ _ _ (leaf_slot _ _ _ _ Hm i s Hs)).
  by apply (proj1 (Forall_lookup _ _) (lr_user _ _ _ _ Hm) i).
Qed.

Lemma from_entry_imap prefix (l : list slot) k :
  from_entry prefix <$> imap (fun i s => entry_of m (k + i)%nat s) l = full prefix <$> l.
Proof.
  revert k; induction l as [|s l IH]; intros k; [done|]. cbn [imap]. rewrite !fmap_cons. f_equal.
  rewrite <-(IH (S k)). f_equal. apply imap_ext. intros; simpl; f_equal; lia.
Qed.

Lemma owned_entries_ok {E} : owned_entries (E := E) m = Ok (full (common_prefix lo up) <$> es).
Proof.
  unfold owned_entries. rewrite (node_prefix_ok _ _ _ _ Hm). cbn [mbind outcome_bind].
  rewrite (entries_repr m _ (lr_repr _ _ _ _ Hm)). cbn [mbind outcome_bind].
  rewrite live_entries_ok. f_equal. apply (from_entry_imap _ es 1).
Qed.

Lemma from_node_ok {E} s :
  es !! (length es / 2)%nat = Some s ->
  let n := (length es / 2)%nat in
  from_node (E := E) m = Ok (mkSplitPlan (common_prefix lo up) (common_prefix lo up ++ s_key s)
    (full (common_prefix lo up) <$> take n es) (full (common_prefix lo up) <$> drop n es) lo up).
Proof.
  intros Hs n. unfold from_node. rewrite (node_prefix_ok _ _ _ _ Hm). cbn [mbind outcome_bind].
  rewrite (entries_repr m _ (lr_repr _ _ _ _ Hm)). cbn [mbind outcome_bind].
  rewrite live_entries_ok, length_imap. fold n in Hs |- *. rewrite list_lookup_imap, Hs.
  cbn [fmap option_fmap option_map]. rewrite (fence_bounds_ok _ _ _ _ Hm). cbn [mbind outcome_bind].
  f_equal. f_equal.
  - rewrite fmap_take, (from_entry_imap _ es 1). by rewrite fmap_take.
  - rewrite fmap_drop, (from_entry_imap _ es 1). by rewrite fmap_drop.
Qed.
End plans.

(** A key between two fences has their common prefix. *)
Lemma between_common_prefix a b k :
  bytes_le a k -> bytes_le k b -> exists s, k = common_prefix a b ++ s.
Proof.
  revert b k; induction a as [|x a IH]; intros b k Ha Hb; [by exists k|].
  destruct b as [|y b]; [by exists k|]. simpl. case_decide as Hxy; [subst|by exists k].
  destruct k as [|z k]; [by destruct Ha|]. unfold bytes_le in *. cbn [bytes_cmp] in Ha, Hb.
  assert (z = y) as ->.
  { apply byte_compare_eq. unfold byte.compare in *.
    rewrite (Z.compare_antisym (byte.unsigned z) (byte.unsigned y)) in Ha.
    destruct (byte.unsigned z ?= byte.unsigned y); simpl in *; done. }
  rewrite (proj2 (byte_compare_eq y y) eq_refl) in *.
  destruct (IH b k) as [s ->]; [done|done|]. by exists s.
Qed.

(** Replaying full keys that lie between the fences. *)
Definition suffix_of (lo up : bytes) (kv : LeafEntryOwned) : bytes * bytes :=
  (drop (length (common_prefix lo up)) kv.1, kv.2).

Lemma suffix_full lo up kv :
  bytes_le lo kv.1 -> bytes_le kv.1 up ->
  kv = (common_prefix lo up ++ (suffix_of lo up kv).1, (suffix_of lo up kv).2).
Proof.
  intros H1 H2. destruct kv as [k v]. cbn [fst snd suffix_of] in *.
  destruct (between_common_prefix lo up k H1 H2) as [s ->]. by rewrite drop_app_length.
Qed.

(** The user records of a leaf, with full keys. *)
Definition full_entries (lo up : bytes) (es : list slot) : list LeafEntryOwned := full (common_prefix lo up) <$> es.

(** The fences and the records fit a page of [n] bytes, counting full keys. *)
Definition fits (n : nat) (lo up : bytes) (kvs : list LeafEntryOwned) : Prop :=
  (length lo + length up + 32 + sum_list (record_cost <$> kvs) <= n)%nat.

Definition between (lo up : bytes) (kvs : list LeafEntryOwned) : Prop :=
  Forall (fun kv => bytes_le lo kv.1 /\ bytes_le kv.1 up) kvs.

Lemma fence_free_space m lo up cl cu :
  (length m <= 4096)%nat -> (32 <= cl)%nat -> (cl + length lo = cu)%nat -> (cu + length up = length m)%nat ->
  free_space (fenced m lo up cl cu) = (cl - 32)%nat.
Proof.
  intros Hsz Hcl Hlo Hup. pose proof (fenced_leaf m lo up cl cu Hsz Hcl Hlo Hup) as Hl.
  destruct (fenced_data m lo up cl cu) as (Hm0 & Hm1 & _); [done..|].
  destruct (fence_meta_fields lo cl) as (_ & _ & _ & L3 & _); [lia|].
  destruct (fence_meta_fields up cu) as (_ & _ & _ & U3 & _); [lia|].
  rewrite (free_space_eq _ _ (lr_repr _ _ _ _ Hl)) with (mo := cl) (i0 := 0%nat); try done.
  - intros [|[|i]] Hi; [rewrite Hm0, L3; lia|rewrite Hm1, U3; lia|simpl in Hi; lia].
  - simpl. lia.
  - by rewrite Hm0.
Qed.

Lemma suffixes_full lo up kvs :
  between lo up kvs -> kvs = (fun kv => (common_prefix lo up ++ kv.1, kv.2)) <$> (suffix_of lo up <$> kvs).
Proof.
  induction 1 as [|kv kvs [H1 H2] _ IH]; [done|]. rewrite !fmap_cons, <-IH. f_equal. by apply suffix_full.
Qed.

Lemma suffixes_cost lo up kvs :
  (sum_list (record_cost <$> (suffix_of lo up <$> kvs)) <= sum_list (record_cost <$> kvs))%nat.
Proof.
  induction kvs as [|kv kvs IH]; [done|]. rewrite !fmap_cons. cbn [sum_list].
  change (sum_list_with id ?x) with (sum_list x). change (id ?x) with x. unfold record_cost at 1 3, suffix_of at 1 2.
  cbn [fst snd]. rewrite length_drop. lia.
Qed.

Lemma sorted_app_inv p (ks : list bytes) :
  StronglySorted bytes_lt ((fun k => p ++ k) <$> ks) -> StronglySorted bytes_lt ks.
Proof.
  induction ks as [|k ks IH]; [constructor|]. rewrite fmap_cons. intros [Hs Hall]%StronglySorted_inv.
  constructor; [by apply IH|]. apply Forall_forall. intros k' Hk'.
  pose proof (proj1 (Forall_fmap _ _ _) Hall) as H. apply (proj1 (Forall_forall _ _) H) in Hk'.
  unfold compose, bytes_lt in Hk'. by rewrite bytes_cmp_app in Hk'.
Qed.

Lemma sorted_nodup (ks : list bytes) : StronglySorted bytes_lt ks -> NoDup ks.
Proof.
  induction 1 as [|k ks _ IH Hall]; [constructor|]. constructor; [|done]. intros Hin.
  apply (bytes_lt_irrefl k). by apply (proj1 (Forall_forall _ _) Hall).
Qed.

(** Rebuilding a page from full keys in order. *)
Lemma rebuild m lo up kvs :
  sized m -> between lo up kvs -> StronglySorted bytes_lt kvs.*1 -> fits (length m) lo up kvs ->
  exists m1 m2 es, reset_user_entries_with_fences (E := InsufficientSpace) lo up m = (m1, Ok tt) /\ replay_entries kvs m1 = (m2, Ok tt) /\
    leaf_repr m2 lo up es /\ full_entries lo up es = kvs /\ Forall (fun s => s_typ s = KVRecordType.Insert) es /\
    length m2 = length m.
Proof.
  intros (sz & Hsz & Hlen) Hbt Hso Hfit. unfold fits in Hfit. pose proof (size_in_bytes_bounds sz) as Hb.
  set (cu := (length m - length up)%nat). set (cl := (cu - length lo)%nat).
  assert (32 <= cl /\ cl + length lo = cu /\ cu + length up = length m /\ length m <= 4096)%nat as (H1 & H2 & H3 & H4) by lia.
  pose proof (fenced_leaf m lo up cl cu H4 H1 H2 H3) as Hl1.
  set (kvs' := suffix_of lo up <$> kvs).
  assert (StronglySorted bytes_lt kvs'.*1) as Hso'.
  { apply (sorted_app_inv (common_prefix lo up)). rewrite (suffixes_full lo up kvs Hbt) in Hso. fold kvs' in Hso.
    rewrite <-list_fmap_compose in Hso. rewrite <-list_fmap_compose. exact Hso. }
  destruct (replay_all kvs' (fenced m lo up cl cu) lo up []) as (m2 & es & Hrun & Hl2 & Hc & Hlen2);
    [done|by apply sorted_nodup|done| |].
  { rewrite fence_free_space by done. pose proof (suffixes_cost lo up kvs) as Hcost. fold kvs' in Hcost. lia. }
  exists (fenced m lo up cl cu), m2, es.
  rewrite put_all_sorted in Hc by done. cbn [content fmap list_fmap app] in Hc.
  assert (full_entries lo up es = kvs /\ Forall (fun s => s_typ s = KVRecordType.Insert) es) as [Hfull Htyp].
  { rewrite (suffixes_full lo up kvs Hbt). fold kvs'. clear -Hc. revert es Hc.
    induction kvs' as [|[k v] l IH]; intros [|s es] Hc; try done. unfold content in Hc. rewrite !fmap_cons in Hc.
    injection Hc as H1 H2 H3 Hc. destruct (IH es Hc) as [IH1 IH2]. unfold full_entries, full in *.
    rewrite !fmap_cons, IH1. cbn [fst snd] in *. subst. split; [done|by constructor]. }
  split_and!; try done.
  - apply (install_fences_run m lo up cl cu) with (s := sz); done.
  - rewrite (suffixes_full lo up kvs Hbt). exact Hrun.
  - rewrite Hlen2. by apply fenced_lengths.
Qed.

(** ** The bounds of a split *)

Lemma full_sorted p es : keys_sorted es -> StronglySorted bytes_lt (full p <$> es).*1.
Proof.
  unfold keys_sorted. rewrite <-list_fmap_compose. induction es as [|s es IH]; [constructor|].
  rewrite !fmap_cons. intros [Hs Hall]%StronglySorted_inv. constructor; [by apply IH|].
  apply Forall_fmap. rewrite Forall_fmap in Hall. eapply Forall_impl; [exact Hall|]. intros s' Hs'.
  unfold compose, full, bytes_lt in *. cbn [fst] in *. by rewrite bytes_cmp_app.
Qed.

Lemma keys_sorted_app es1 es2 : keys_sorted (es1 ++ es2) -> keys_sorted es1 /\ keys_sorted es2.
Proof. unfold keys_sorted. rewrite fmap_app. intros H. apply StronglySorted_app in H as (_ & ? & ?). done. Qed.

(** The middle key as pivot: the keys before it are below it, the others are not. *)
Lemma pivot_splits p es n s :
  keys_sorted es -> es !! n = Some s ->
  Forall (fun kv => bytes_lt kv.1 (p ++ s_key s)) (full p <$> take n es) /\
  Forall (fun kv => bytes_le (p ++ s_key s) kv.1) (full p <$> drop n es) /\
  fst <$> head (full p <$> drop n es) = Some (p ++ s_key s).
Proof.
  intros Hso Hs. split_and!.
  - rewrite Forall_fmap. eapply Forall_impl; [exact (sorted_take es n s Hso Hs)|].
    intros s' H. unfold compose, full, bytes_lt in *. cbn [fst]. by rewrite bytes_cmp_app.
  - rewrite Forall_fmap. apply Forall_lookup. intros i s' Hi. rewrite lookup_drop in Hi. unfold compose, full. cbn [fst].
    destruct i as [|i].
    + rewrite Nat.add_0_r in Hi. simplify_eq. unfold bytes_le. by rewrite (proj2 (bytes_cmp_eq _ _) eq_refl).
    + apply bytes_lt_le. unfold bytes_lt. rewrite bytes_cmp_app.
      eapply (StronglySorted_lookup bytes_lt (s_key <$> es) n (n + S i)); [exact Hso|lia|..];
        by rewrite list_lookup_fmap, ?Hs, ?Hi.
  - by rewrite (drop_S es s n Hs).
Qed.

Lemma split_bounds lo up es n s :
  keys_sorted es -> es !! n = Some s -> between lo up (full_entries lo up es) ->
  let pivot := common_prefix lo up ++ s_key s in
  between lo pivot (full (common_prefix lo up) <$> take n es) /\
  between pivot up (full (common_prefix lo up) <$> drop n es).
Proof.
  intros Hso Hs Hbt pivot. destruct (pivot_splits (common_prefix lo up) es n s Hso Hs) as (H1 & H2 & _).
  unfold between, full_entries in *. rewrite <-(take_drop n es), fmap_app, Forall_app in Hbt. destruct Hbt as [B1 B2].
  rewrite Forall_forall in H1, H2, B1, B2. split; apply Forall_forall; intros kv Hin.
  - split; [by apply (B1 kv Hin)|by apply bytes_lt_le, (H1 kv Hin)].
  - split; [by apply (H2 kv Hin)|by apply (B2 kv Hin)].
Qed.

Lemma run_on_left {E A B} (f : stM bytes E A) (k : A -> stM (bytes * bytes) E B) l l' r a :
  f l = (l', Ok a) -> (on_left f ≫= k) (l, r) = k a (l', r).
Proof. intros H. unfold mbind, stM_bind, on_left. by rewrite H. Qed.

Lemma run_on_right {E A B} (f : stM bytes E A) (k : A -> stM (bytes * bytes) E B) l r r' a :
  f r = (r', Ok a) -> (on_right f ≫= k) (l, r) = k a (l, r').
Proof. intros H. unfold mbind, stM_bind, on_right. by rewrite H. Qed.

(** * Properties *)

Section split.
Context (m lo up : bytes) (es : list slot) (l r : bytes) (plan : LeafSplitPlan).

(** A leaf with keys between its fences, its plan, and two pages with room; the headers of the
    pages give their sizes (those of hot leaf-sized pages do not). *)
Record splittable : Prop := {
  spl_leaf : leaf_repr m lo up es;
  spl_some : es <> [];
  spl_between : between lo up (full_entries lo up es);
  spl_plan : from_node (E := unit) m = Ok plan;
  spl_left : sized l;
  spl_right : sized r;
  spl_left_fits : fits (length l) lo (pivot_key plan) (left_entries plan);
  spl_right_fits : fits (length r) (pivot_key plan) up (right_entries plan) }.

Lemma split_ok :
  splittable ->
  exists l' r' el er, apply_split plan (l, r) =
      ((l', r'), Ok (mkSplitOutcome (pivot_key plan) (length el) (length er))) /\
    leaf_repr l' lo (pivot_key plan) el /\ leaf_repr r' (pivot_key plan) up er /\
    full_entries lo (pivot_key plan) el ++ full_entries (pivot_key plan) up er = full_entries lo up es /\
    length el = (length es / 2)%nat /\
    Forall (fun kv => bytes_lt kv.1 (pivot_key plan)) (full_entries lo (pivot_key plan) el) /\
    Forall (fun kv => bytes_le (pivot_key plan) kv.1) (full_entries (pivot_key plan) up er) /\
    fst <$> head (full_entries (pivot_key plan) up er) = Some (pivot_key plan) /\
    Forall (fun s => s_typ s = KVRecordType.Insert) (el ++ er).
Proof.
  intros [Hm Hne Hbt Hplan Hl Hr Hfl Hfr]. set (n := (length es / 2)%nat).
  assert (n < length es)%nat as Hn by (apply Nat.div_lt; [destruct es; simpl; [done|lia]|lia]).
  destruct (lookup_lt_is_Some_2 es n Hn) as [s Hs].
  rewrite (from_node_ok m lo up es Hm s Hs) in Hplan. injection Hplan as <-.
  cbn [pivot_key left_entries right_entries] in *. fold n in Hfl, Hfr |- *.
  destruct (split_bounds lo up es n s (lr_sorted _ _ _ _ Hm) Hs Hbt) as [Hbl Hbr].
  destruct (pivot_splits (common_prefix lo up) es n s (lr_sorted _ _ _ _ Hm) Hs) as (Hp1 & Hp2 & Hp3).
  pose proof (lr_sorted _ _ _ _ Hm) as Hso. rewrite <-(take_drop n es) in Hso. apply keys_sorted_app in Hso as [Hso1 Hso2].
  destruct (rebuild l lo (common_prefix lo up ++ s_key s) (full (common_prefix lo up) <$> take n es))
    as (l1 & l2 & el & Hl1 & Hl2 & Hll & Hle & Hlt & _); [done|done|by apply full_sorted|done|].
  destruct (rebuild r (common_prefix lo up ++ s_key s) up (full (common_prefix lo up) <$> drop n es))
    as (r1 & r2 & er & Hr1 & Hr2 & Hrl & Hre & Hrt & _); [done|done|by apply full_sorted|done|].
  assert (length el = length (full (common_prefix lo up) <$> take n es)) as Hlen1
    by (rewrite <-Hle; unfold full_entries; by rewrite length_fmap).
  assert (length er = length (full (common_prefix lo up) <$> drop n es)) as Hlen2
    by (rewrite <-Hre; unfold full_entries; by rewrite length_fmap).
  exists l2, r2, el, er. rewrite Hle, Hre. split_and!; [|done|done| | |done|done|done|by apply Forall_app].
  - unfold apply_split. cbn [sp_lower_fence sp_upper_fence pivot_key left_entries right_entries].
    rewrite (run_on_left _ _ _ _ _ _ Hl1), (run_on_left _ _ _ _ _ _ Hl2),
      (run_on_right _ _ _ _ _ _ Hr1), (run_on_right _ _ _ _ _ _ Hr2). by rewrite Hlen1, Hlen2.
  - unfold full_entries. by rewrite <-fmap_app, take_drop.
  - rewrite Hlen1, length_fmap, length_take. lia.
Qed.
End split.

Lemma merge_ok a lo mid b up ea eb l r :
  leaf_repr a lo mid ea -> leaf_repr b mid up eb ->
  between lo up (full_entries lo mid ea ++ full_entries mid up eb) ->
  StronglySorted bytes_lt (full_entries lo mid ea ++ full_entries mid up eb).*1 ->
  sized l -> sized r ->
  fits (length l) lo up (full_entries lo mid ea ++ full_entries mid up eb) -> fits (length r) mid up [] ->
  exists plan l' r' es, from_nodes (E := unit) a b = Ok plan /\
    apply_merge plan (l, r) = ((l', r'), Ok (length ea + length eb)%nat) /\
    leaf_repr l' lo up es /\ leaf_repr r' mid up [] /\
    full_entries lo up es = full_entries lo mid ea ++ full_entries mid up eb.
Proof.
  intros Ha Hb Hbt Hso Hl Hr Hfl Hfr. unfold from_nodes.
  rewrite (owned_entries_ok a lo mid ea Ha), (owned_entries_ok b mid up eb Hb). cbn [mbind outcome_bind].
  rewrite (fence_bounds_ok _ _ _ _ Ha), (fence_bounds_ok _ _ _ _ Hb). cbn [mbind outcome_bind].
  destruct (rebuild l lo up (full_entries lo mid ea ++ full_entries mid up eb))
    as (l1 & l2 & es & Hl1 & Hl2 & Hll & Hle & _); [done..|].
  destruct (rebuild r mid up []) as (r1 & r2 & er & Hr1 & Hr2 & Hrl & Hre & _); [done|constructor|constructor|done|].
  destruct er; [|done]. injection Hr2 as <-.
  eexists _, l2, r1, es. split; [reflexivity|]. split_and!; [|done|done|done].
  unfold apply_merge. cbn [survivor_lower survivor_upper removed_lower removed_upper mp_entries].
  fold (full_entries lo mid ea) (full_entries mid up eb).
  rewrite (run_on_left _ _ _ _ _ _ Hl1), (run_on_left _ _ _ _ _ _ Hl2), (run_on_right _ _ _ _ _ _ Hr1).
  unfold full_entries. by rewrite length_app, !length_fmap.
Qed.

(** C22. A leaf split loses no record and keeps the order: on a non-empty leaf whose keys lie
    between its fences, the plan takes the middle key as pivot, and applied to two pages with
    room whose headers give their sizes it leaves the lower half on the left page with fences
    (lower, pivot) and the upper half on the right page with fences (pivot, upper), each record
    with its full key and value.  Every key on the left is below the pivot, every key on the
    right is not, and the pivot is the first of them.  Every record comes out in state
    [Insert], deleted ones included. *)
Theorem leaf_split_correct (m lo up : bytes) (es : list slot) (l r : bytes) (plan : LeafSplitPlan) :
  splittable m lo up es l r plan ->
  exists l' r' el er, apply_split plan (l, r) =
      ((l', r'), Ok (mkSplitOutcome (pivot_key plan) (length el) (length er))) /\
    leaf_repr l' lo (pivot_key plan) el /\ leaf_repr r' (pivot_key plan) up er /\
    full_entries lo (pivot_key plan) el ++ full_entries (pivot_key plan) up er = full_entries lo up es /\
    length el = (length es / 2)%nat /\
    Forall (fun kv => bytes_lt kv.1 (pivot_key plan)) (full_entries lo (pivot_key plan) el) /\
    Forall (fun kv => bytes_le (pivot_key plan) kv.1) (full_entries (pivot_key plan) up er) /\
    fst <$> head (full_entries (pivot_key plan) up er) = Some (pivot_key plan) /\
    Forall (fun s => s_typ s = KVRecordType.Insert) (el ++ er).
Proof. apply split_ok. Qed.

(** C23. A merge keeps every record of both leaves: where the left leaf's upper fence is the
    right leaf's lower fence, the keys of both together are in order between the outer fences,
    and the pages written to have headers that give their sizes and room, the survivor holds
    the records of both in order between the outer fences, and the removed page is empty. *)
Theorem leaf_merge_correct (a lo mid b up : bytes) (ea eb : list slot) (l r : bytes) (plan : LeafMergePlan) :
  leaf_repr a lo mid ea -> leaf_repr b mid up eb ->
  between lo up (full_entries lo mid ea ++ full_entries mid up eb) ->
  StronglySorted bytes_lt (full_entries lo mid ea ++ full_entries mid up eb).*1 ->
  from_nodes (E := unit) a b = Ok plan -> sized l -> sized r ->
  fits (length l) lo up (full_entries lo mid ea ++ full_entries mid up eb) -> fits (length r) mid up [] ->
  exists l' r' es, apply_merge plan (l, r) = ((l', r'), Ok (length ea + length eb)%nat) /\
    leaf_repr l' lo up es /\ leaf_repr r' mid up [] /\
    full_entries lo up es = full_entries lo mid ea ++ full_entries mid up eb.
Proof.
  intros Ha Hb Hbt Hso Hplan Hl Hr Hfl Hfr.
  destruct (merge_ok a lo mid b up ea eb l r) as (plan' & l' & r' & es & E & H); [done..|].
  exists l', r', es. by rewrite E in Hplan; injection Hplan as <-.
Qed.

(** C24. A split is undone by a merge: the two pages that a split leaves are neighbours that can
    be merged, and merging them, onto any two pages with room whose headers give their sizes,
    gives one leaf with the fences and the records the split leaf had, and an empty page. *)
Theorem split_merge_roundtrip (m lo up : bytes) (es : list slot) (l r a b : bytes) (plan : LeafSplitPlan) :
  splittable m lo up es l r plan -> sized a -> sized b ->
  fits (length a) lo up (full_entries lo up es) -> fits (length b) (pivot_key plan) up [] ->
  exists l' r' outcome merge a' b' es', apply_split plan (l, r) = ((l', r'), Ok outcome) /\
    from_nodes (E := unit) l' r' = Ok merge /\ apply_merge merge (a, b) = ((a', b'), Ok (length es)) /\
    leaf_repr a' lo up es' /\ full_entries lo up es' = full_entries lo up es /\ leaf_repr b' (pivot_key plan) up [].
Proof.
  intros Hs Ha Hb Hfa Hfb. destruct (split_ok _ _ _ _ _ _ _ Hs) as (l' & r' & el & er & Hrun & Hl & Hr & Hes & _).
  destruct (merge_ok l' lo (pivot_key plan) r' up el er a b) as (mp & a' & b' & es' & Hmp & Hm & Ha' & Hb' & Hes'); try done.
  { rewrite Hes. apply Hs. }
  { rewrite Hes. apply full_sorted, (spl_leaf _ _ _ _ _ _ _ Hs). }
  { by rewrite Hes. }
  assert (length es = (length el + length er)%nat) as ->.
  { apply (f_equal length) in Hes. unfold full_entries in Hes. rewrite length_app, !length_fmap in Hes. lia. }
  eexists l', r', _, mp, a', b', es'. split_and!; try done. by rewrite Hes'.
Qed.

(** A read through a mini-page, over a disk leaf with the same prefix. *)
Lemma page_get_over {E} (io : IoEngine) (cache : option bytes) (i : Z) (m d lo up lo' up' : bytes) (es ds : list slot) (k : bytes) :
  leaf_repr m lo up es -> leaf_repr d lo' up' ds -> common_prefix lo' up' = common_prefix lo up ->
  ensure_page (E := E) io cache (NodeMeta.leaf (header m)) = Ok d ->
  page_get (E := E) io cache (NMiniPage i) m (common_prefix lo up ++ k) =
    Ok (match bt_get (content es) k with Some (v, _) => Some v | None => fst <$> bt_get (content ds) k end).
Proof.
  intros Hm Hd Hp Hio. unfold page_get. rewrite (node_prefix_ok _ _ _ _ Hm). cbn [mbind outcome_bind].
  rewrite strip_prefix. cbn [mbind outcome_bind]. destruct (bt_get (content es) k) as [[v t]|] eqn:Hg.
  - destruct (search_found (E := E) _ _ _ _ _ _ _ Hm Hg) as (j & s & -> & Hs & <- & <- & <-). cbn [mbind outcome_bind].
    pose proof (lookup_lt_Some _ _ _ Hs). rewrite (leaf_get_kv_meta m lo up es Hm) by lia. cbn [mbind outcome_bind].
    rewrite exists_always, (slot_val m _ _ (leaf_slot _ _ _ _ Hm j s Hs)). done.
  - destruct (search_absent (E := E) _ _ _ _ _ Hm Hg) as (j & -> & _). cbn [mbind outcome_bind].
    rewrite Hio, <-Hp. cbn [mbind outcome_bind]. apply (get_leaf _ _ _ _ Hd).
Qed.

Lemma page_get_mini {E} (io : IoEngine) (cache : option bytes) (i : Z) (m d lo up : bytes) (es ds : list slot) (k : bytes) :
  leaf_repr m lo up es -> leaf_repr d lo up ds -> ensure_page (E := E) io cache (NodeMeta.leaf (header m)) = Ok d ->
  page_get (E := E) io cache (NMiniPage i) m (common_prefix lo up ++ k) =
    Ok (match bt_get (content es) k with Some (v, _) => Some v | None => fst <$> bt_get (content ds) k end).
Proof. intros Hm Hd. by apply (page_get_over io cache i m d lo up lo up es ds k Hm Hd). Qed.

(** Reading through: a key of the mini-page is answered from the mini-page, any other key
    from the disk leaf, as if the mini-page's records were laid over the leaf's. *)
Theorem page_get_read_through (io : IoEngine) (i : Z) (m d lo up : bytes) (es ds : list slot) (k : bytes) :
  leaf_repr m lo up es -> leaf_repr d lo up ds -> get_page (E := unit) io (NodeMeta.leaf (header m)) = Ok d ->
  page_get (E := unit) io None (NMiniPage i) m (common_prefix lo up ++ k) =
    Ok (match bt_get (content es) k with Some (v, _) => Some v | None => fst <$> bt_get (content ds) k end).
Proof. apply (page_get_mini io None). Qed.

(** ** Writing back *)

Definition kv_of (s : slot) : bytes * bytes := (s_key s, s_val s).

Section flush.
Context (io : IoEngine) (m lo up : bytes) (es : list slot) (Hm : leaf_repr m lo up es).
Context (lo' up' : bytes).

(** The user records from position [k] on, none of them deleted. *)
Lemma flush_loop {E} es' k opt d ds :
  (forall i s, es' !! i = Some s -> es !! (k + i)%nat = Some s /\ s_typ s <> KVRecordType.Tombstone) ->
  get_or_load (E := E) io (NodeMeta.leaf (header m)) opt = Ok d -> leaf_repr d lo' up' ds ->
  NoDup (s_key <$> es') ->
  (forall s v0 t0, s ∈ es' -> bt_get (content ds) (s_key s) = Some (v0, t0) -> length (s_val s) = length v0) ->
  (sum_list (new_cost (content ds) <$> (kv_of <$> es')) <= free_space d)%nat ->
  exists opt' d' ds', foldM (flush_one (E := E) io m) (opt, []) (seq (S k) (length es')) = Ok (opt', []) /\
    (es' <> [] -> opt' = Some d') /\ leaf_repr d' lo' up' ds' /\
    content ds' = put_all (content ds) (kv_of <$> es') /\ length d' = length d /\
    NodeMeta.leaf (header d') = NodeMeta.leaf (header d).
Proof.
  revert k opt d ds; induction es' as [|s es' IH]; intros k opt d ds Hes Hload Hd Hnd Hlen Hsp; [by exists opt, d, ds|].
  destruct (Hes 0%nat s eq_refl) as [Hs Ht]. rewrite Nat.add_0_r in Hs.
  rewrite !fmap_cons in Hsp. cbn [sum_list] in Hsp. change (sum_list_with id ?x) with (sum_list x) in Hsp.
  change (id ?x) with x in Hsp. rewrite fmap_cons in Hnd. apply NoDup_cons in Hnd as [Hni Hnd].
  pose proof (leaf_slot _ _ _ _ Hm k s Hs) as Hsl. pose proof (lookup_lt_Some _ _ _ Hs) as Hk.
  destruct (put_room d lo' up' ds (s_key s) (s_val s)) as (d1 & ds1 & Hrun & Hd1 & Hc1 & Hl1 & Hf1 & Ha1);
    [done|intros v0 t0; apply Hlen; set_solver|unfold kv_of in Hsp; lia|].
  cbn [length seq foldM].
  assert (flush_one (E := E) io m (opt, []) (S k) = Ok (Some d1, [])) as ->.
  { unfold flush_one. rewrite (leaf_get_kv_meta m lo up es Hm) by lia. cbn [mbind outcome_bind].
    rewrite (sa_fence _ _ _ Hsl), (sa_typ _ _ _ Hsl).
    rewrite (proj1 (Forall_lookup _ _) (lr_user _ _ _ _ Hm) k s Hs).
    destruct (s_typ s); try done; cbn [KVRecordType.is_dirty]; rewrite Hload; cbn [mbind outcome_bind];
      rewrite (slot_stored_key m _ _ Hsl); cbn [mbind outcome_bind]; rewrite (slot_val m _ _ Hsl);
      cbn [mbind outcome_bind]; rewrite Hrun; done. }
  cbn [mbind outcome_bind].
  destruct (IH (S k) (Some d1) d1 ds1) as (opt' & d' & ds' & Hfold & Hopt & Hd' & Hc' & Hl' & Ha');
    [|done|done|done| | |].
  - intros i s' Hi. replace (S k + i)%nat with (k + S i)%nat by lia. by apply Hes.
  - intros s' v0 t0 Hin Hg. rewrite Hc1, bt_get_alter in Hg by apply content_sorted, Hd.
    destruct (kcmp (s_key s) (s_key s')) eqn:Ek; [|by apply (Hlen s' v0 t0); [set_solver|]..].
    apply kcmp_eq in Ek. exfalso. apply Hni. rewrite Ek. by apply list_elem_of_fmap_2.
  - replace (new_cost (content ds1) <$> (kv_of <$> es')) with (new_cost (content ds) <$> (kv_of <$> es'));
      [unfold kv_of in *; lia|]. rewrite <-!list_fmap_compose. apply list_fmap_ext. intros i s' Hi. cbn.
    unfold new_cost, kv_of. cbn [fst]. rewrite Hc1, bt_get_alter by apply content_sorted, Hd.
    destruct (kcmp (s_key s) (s_key s')) eqn:Ek; [|done..]. apply kcmp_eq in Ek. exfalso. apply Hni. rewrite Ek.
    apply list_elem_of_fmap_2. by eapply list_elem_of_lookup_2.
  - exists opt'. destruct es' as [|s2 es'].
    + injection Hfold as <-. exists d1, ds1. split_and!; done.
    + exists d', ds'. split_and!; [done|by intros _; apply Hopt|done| |congruence|congruence].
      rewrite Hc', Hc1. done.
Qed.

Lemma flush_fence {E} st i s : slot_at m i s -> (i < length es + 2)%nat -> s_fence s = true -> flush_one (E := E) io m st i = Ok st.
Proof.
  intros Hsl Hi Hf. destruct st as [o t]. unfold flush_one. rewrite (leaf_get_kv_meta m lo up es Hm) by done.
  cbn [mbind outcome_bind]. by rewrite (sa_fence _ _ _ Hsl), Hf.
Qed.
End flush.

(** The whole write-back of a mini-page without deleted records. *)
Lemma flush_ok {E} (io : IoEngine) (m lo up d lo' up' : bytes) (es ds : list slot) :
  leaf_repr m lo up es -> es <> [] -> Forall (fun s => s_typ s <> KVRecordType.Tombstone) es ->
  get_page (E := E) io (NodeMeta.leaf (header m)) = Ok d -> leaf_repr d lo' up' ds ->
  Forall (fun s => match bt_get (content ds) (s_key s) with
                   | Some (v0, _) => length (s_val s) = length v0 | None => True end) es ->
  (sum_list (new_cost (content ds) <$> (kv_of <$> es)) <= free_space d)%nat ->
  exists d' ds', flush_dirty_entries (E := E) m io = Ok (m, write_page io (NodeMeta.leaf (header m)) d') /\
    leaf_repr d' lo' up' ds' /\ content ds' = put_all (content ds) (kv_of <$> es) /\ length d' = length d /\
    NodeMeta.leaf (header d') = NodeMeta.leaf (header d).
Proof.
  intros Hm Hne Hty Hio Hd Hlen Hsp. unfold flush_dirty_entries. rewrite (leaf_count _ _ _ _ Hm).
  replace (seq 0 (length es + 2)) with (0%nat :: seq 1 (length es) ++ [S (length es)]).
  2: { replace (length es + 2)%nat with (S (length es + 1)) by lia. cbn [seq]. by rewrite seq_app. }
  cbn [foldM]. rewrite (flush_fence io m lo up es Hm _ _ _ (leaf_low _ _ _ _ Hm)) by (done || lia).
  cbn [mbind outcome_bind]. rewrite foldM_app.
  destruct (flush_loop (E := E) io m lo up es Hm lo' up' es 0 None d ds) as (opt & d' & ds' & Hfold & Hopt & Hd' & Hc & Hl & Ha);
    [|done|done| | |done|].
  - intros i s Hi. split; [done|]. by apply (proj1 (Forall_lookup _ _) Hty i).
  - apply sorted_nodup, Hm.
  - intros s v0 t0 Hin Hg. pose proof (proj1 (Forall_forall _ _) Hlen s Hin) as H. cbn beta in H. by rewrite Hg in H.
  - exists d', ds'. rewrite Hfold. cbn [mbind outcome_bind foldM].
    rewrite (flush_fence io m lo up es Hm _ _ _ (leaf_high _ _ _ _ Hm)) by (done || lia).
    cbn [mbind outcome_bind foldM]. rewrite (Hopt Hne). done.
Qed.

(** Laying the records of a mini-page over its disk leaf, or putting them there. *)
Lemma overlay_put_all es ds k :
  keys_sorted es -> all_user es -> keys_sorted ds ->
  match bt_get (content es) k with Some (v, _) => Some v | None => fst <$> bt_get (content ds) k end =
  fst <$> bt_get (put_all (content ds) (kv_of <$> es)) k.
Proof.
  intros Hs _ Hd.
  assert (NoDup (kv_of <$> es).*1) as Hnd.
  { rewrite <-list_fmap_compose. by apply sorted_nodup. }
  destruct (put_all_get (content ds) (kv_of <$> es) k (content_sorted _ Hd) Hnd) as [H1 H2].
  destruct (bt_get (content es) k) as [[v t]|] eqn:Hg.
  - symmetry. apply H1. apply bt_get_elem in Hg. unfold content in Hg.
    apply list_elem_of_fmap in Hg as (s & Heq & Hin). injection Heq as -> -> ->.
    apply list_elem_of_fmap. by exists s.
  - rewrite H2; [done|]. rewrite <-list_fmap_compose. intros (s & -> & Hin)%list_elem_of_fmap.
    apply list_elem_of_lookup in Hin as [j Hj]. destruct (content_at es j s Hs Hj) as [E _]. cbn in Hg. congruence.
Qed.

(** C25. Writing a mini-page back.  A mini-page that is not empty and has no deleted record is
    written to its disk leaf, which has the same key prefix and room for the new records; a
    record that is on the leaf already has a value of the same length there.  The leaf then has
    the records of the mini-page over its own, so that reading it alone gives for every key
    what reading through the mini-page gave before, and the mini-page and every other page of
    the file are unchanged. *)
Theorem flush_correct (io : IoEngine) (m lo up d lo' up' : bytes) (es ds : list slot) :
  leaf_repr m lo up es -> es <> [] -> Forall (fun s => s_typ s <> KVRecordType.Tombstone) es ->
  get_page (E := unit) io (NodeMeta.leaf (header m)) = Ok d -> leaf_repr d lo' up' ds ->
  common_prefix lo' up' = common_prefix lo up ->
  Forall (fun s => match bt_get (content ds) (s_key s) with
                   | Some (v0, _) => length (s_val s) = length v0 | None => True end) es ->
  (sum_list (new_cost (content ds) <$> (kv_of <$> es)) <= free_space d)%nat ->
  exists d' ds', flush_dirty_entries (E := unit) m io = Ok (m, write_page io (NodeMeta.leaf (header m)) d') /\
    leaf_repr d' lo' up' ds' /\ content ds' = put_all (content ds) (kv_of <$> es) /\ length d' = length d /\
    (forall i k, get (E := unit) d' (common_prefix lo up ++ k) = page_get io None (NMiniPage i) m (common_prefix lo up ++ k)) /\
    forall a, 0 <= a -> a <> NodeMeta.leaf (header m) -> present io a ->
      get_page (E := unit) (write_page io (NodeMeta.leaf (header m)) d') a = get_page io a.
Proof.
  intros Hm Hne Hty Hg Hd Hpre Hlen Hsp.
  destruct (flush_ok (E := unit) io m lo up d lo' up' es ds Hm Hne Hty Hg Hd Hlen Hsp) as (d' & ds' & Hrun & Hd' & Hc & Hl & _).
  exists d', ds'. split_and!; try done.
  - intros i k. rewrite (page_get_over io None i m d lo up lo' up' es ds k Hm Hd Hpre Hg).
    rewrite <-Hpre, (get_leaf _ _ _ _ Hd'), Hc. by rewrite <-(overlay_put_all es ds k) by (apply Hm || apply Hd).
  - intros a Ha Hna Hp. apply get_write_other; [rewrite Hl; by eapply get_page_length| |done|by apply not_eq_sym|done].
    unfold NodeMeta.leaf. apply Z.shiftr_nonneg. apply (header_wf m).
Qed.

(** ** Concrete pages *)

(** The records of a leaf are determined by its content. *)
Definition slots_of (c : list (bytes * (bytes * KVRecordType.t))) : list slot :=
  (fun e => mkSlot false e.1 e.2.1 e.2.2) <$> c.

Lemma slots_of_content es : all_user es -> es = slots_of (content es).
Proof.
  unfold slots_of, content. rewrite <-list_fmap_compose.
  induction 1 as [|s es Hs _ IH]; [done|]. rewrite fmap_cons, <-IH. f_equal. destruct s; simpl in *; by subst.
Qed.

(** A put into a concrete page. *)
Lemma put_concrete m lo up es k v m' :
  leaf_repr m lo up es -> bt_get (content es) k = None -> (record_cost (k, v) <= free_space m)%nat ->
  try_put_with_suffix k v m = (m', Ok tt) ->
  leaf_repr m' lo up (slots_of (bt_alter (put_value v) (content es) k)).
Proof.
  intros Hm Hg Hsp Hrun. destruct (put_any m lo up es k v Hm) as (m1 & es1 & Hrun1 & Hm1 & Hc & _);
    [intros v0 t0; by rewrite Hg|done|]. rewrite Hrun in Hrun1. injection Hrun1 as <-.
  by rewrite <-Hc, <-(slots_of_content es1) by apply Hm1.
Qed.

(** Two records on a 128-byte page. *)
Definition two : bytes := fst (try_put_with_suffix [Byte.x61] [Byte.x07] sample1).
Definition two_slots : list slot :=
  [mkSlot false [Byte.x61] [Byte.x07] KVRecordType.Insert;
   mkSlot false [Byte.x62] [Byte.x01; Byte.x02] KVRecordType.Insert].

Lemma two_leaf : leaf_repr two LOWER_FENCE UPPER_FENCE two_slots.
Proof.
  assert (leaf_repr sample1 LOWER_FENCE UPPER_FENCE
    [mkSlot false [Byte.x62] [Byte.x01; Byte.x02] KVRecordType.Insert]) as H1.
  { apply (put_concrete sample0 _ _ [] [Byte.x62] [Byte.x01; Byte.x02] _ sample0_leaf);
      [reflexivity|vm_compute; lia|vm_compute; reflexivity]. }
  apply (put_concrete sample1 _ _ _ [Byte.x61] [Byte.x07] _ H1);
    [reflexivity|vm_compute; lia|vm_compute; reflexivity].
Qed.

Lemma sample0_sized : sized sample0.
Proof. exists NodeSize.N128. split; [intros E; vm_compute; reflexivity|vm_compute; reflexivity]. Qed.

Definition two_plan : LeafSplitPlan :=
  mkSplitPlan [] [Byte.x62] [([Byte.x61], [Byte.x07])] [([Byte.x62], [Byte.x01; Byte.x02])] LOWER_FENCE UPPER_FENCE.

Lemma two_splittable : splittable two LOWER_FENCE UPPER_FENCE two_slots sample0 sample0 two_plan.
Proof.
  split; [exact two_leaf|done|repeat constructor; vm_compute; congruence|vm_compute; reflexivity|
    exact sample0_sized|exact sample0_sized|vm_compute; lia|vm_compute; lia].
Qed.

Lemma leaf_split_correct_witness :
  exists l' r' el er, apply_split two_plan (sample0, sample0) = ((l', r'), Ok (mkSplitOutcome [Byte.x62] 1 1)) /\
    leaf_repr l' LOWER_FENCE [Byte.x62] el /\ leaf_repr r' [Byte.x62] UPPER_FENCE er /\
    full_entries LOWER_FENCE [Byte.x62] el ++ full_entries [Byte.x62] UPPER_FENCE er =
      [([Byte.x61], [Byte.x07]); ([Byte.x62], [Byte.x01; Byte.x02])].
Proof.
  destruct (leaf_split_correct two LOWER_FENCE UPPER_FENCE two_slots sample0 sample0 two_plan two_splittable)
    as (l' & r' & el & er & Hrun & Hl & Hr & Hf & Hn & _).
  exists l', r', el, er. split; [|split; [exact Hl|split; [exact Hr|exact Hf]]].
  assert (length el = 1%nat /\ length er = 1%nat) as [H1 H2].
  { apply (f_equal length) in Hf. unfold full_entries in Hf. rewrite length_app, !length_fmap in Hf.
    simpl in Hf. simpl in Hn. lia. }
  rewrite Hrun, H1, H2. reflexivity.
Defined.

Lemma split_merge_roundtrip_witness :
  exists l' r' outcome merge a' b' es', apply_split two_plan (sample0, sample0) = ((l', r'), Ok outcome) /\
    from_nodes (E := unit) l' r' = Ok merge /\ apply_merge merge (sample0, sample0) = ((a', b'), Ok 2%nat) /\
    leaf_repr a' LOWER_FENCE UPPER_FENCE es' /\
    full_entries LOWER_FENCE UPPER_FENCE es' = [([Byte.x61], [Byte.x07]); ([Byte.x62], [Byte.x01; Byte.x02])] /\
    leaf_repr b' [Byte.x62] UPPER_FENCE [].
Proof.
  apply (split_merge_roundtrip two LOWER_FENCE UPPER_FENCE two_slots sample0 sample0 sample0 sample0 two_plan two_splittable
    sample0_sized sample0_sized); vm_compute; lia.
Defined.

(** Two neighbours with one record each, merged into one page. *)
Definition left_one : bytes :=
  fst (try_put_with_suffix [Byte.x61] [Byte.x07] (fst (install_fences (E := unit) LOWER_FENCE [Byte.x62] sample0))).
Definition right_one : bytes :=
  fst (try_put_with_suffix [Byte.x63] [Byte.x08] (fst (install_fences (E := unit) [Byte.x62] UPPER_FENCE sample0))).
Definition left_slot : slot := mkSlot false [Byte.x61] [Byte.x07] KVRecordType.Insert.
Definition right_slot : slot := mkSlot false [Byte.x63] [Byte.x08] KVRecordType.Insert.

Lemma one_on_fenced lo up k v :
  (length lo + length up + 32 <= 128)%nat -> let m := fst (install_fences (E := unit) lo up sample0) in
  (record_cost (k, v) <= free_space m)%nat -> snd (try_put_with_suffix k v m) = Ok tt ->
  leaf_repr (fst (try_put_with_suffix k v m)) lo up [mkSlot false k v KVRecordType.Insert].
Proof.
  intros Hf m Hsp Hok. destruct (install_fences_leaf (E := unit) sample0 lo up sample0_sized) as (a & Ha & Hla & _); [exact Hf|].
  assert (m = a) as Em by (unfold m; by rewrite Ha). rewrite <-Em in Hla.
  apply (put_concrete m lo up [] k v _ Hla); [done|done|]. by rewrite <-Hok, <-surjective_pairing.
Qed.

Lemma leaf_merge_correct_witness :
  exists l' r' es, apply_merge (mkMergePlan [([Byte.x61], [Byte.x07]); ([Byte.x63], [Byte.x08])] LOWER_FENCE UPPER_FENCE [Byte.x62] UPPER_FENCE)
      (sample0, sample0) = ((l', r'), Ok 2%nat) /\
    leaf_repr l' LOWER_FENCE UPPER_FENCE es /\ leaf_repr r' [Byte.x62] UPPER_FENCE [] /\
    full_entries LOWER_FENCE UPPER_FENCE es = [([Byte.x61], [Byte.x07]); ([Byte.x63], [Byte.x08])].
Proof.
  apply (leaf_merge_correct left_one LOWER_FENCE [Byte.x62] right_one UPPER_FENCE [left_slot] [right_slot] sample0 sample0).
  - apply one_on_fenced; [vm_compute; lia|vm_compute; lia|vm_compute; reflexivity].
  - apply one_on_fenced; [vm_compute; lia|vm_compute; lia|vm_compute; reflexivity].
  - repeat constructor; vm_compute; congruence.
  - repeat constructor; vm_compute; congruence.
  - vm_compute. reflexivity.
  - exact sample0_sized.
  - exact sample0_sized.
  - vm_compute. lia.
  - vm_compute. lia.
Defined.

(** A file whose page 5 is an empty leaf, the disk leaf of [two]. *)
Definition disk5 : bytes := fst (format_leaf (E := unit) 3 NodeSize.LeafPage 5 (replicate 4096 Byte.x00)).
Definition io5 : IoEngine := write_page (open []) 5 disk5.

Lemma disk5_leaf : leaf_repr disk5 LOWER_FENCE UPPER_FENCE [].
Proof.
  destruct (format_leaf_leaf (E := unit) (replicate 4096 Byte.x00) 3 NodeSize.LeafPage 5) as (m' & Hrun & Hm' & _);
    [reflexivity|lia|lia|]. unfold disk5. by rewrite Hrun.
Qed.

Lemma io5_page : get_page (E := unit) io5 (NodeMeta.leaf (header two)) = Ok disk5.
Proof.
  assert (NodeMeta.leaf (header two) = 5) as -> by (vm_compute; reflexivity).
  apply get_write_same. vm_compute. reflexivity.
Qed.

Lemma page_get_read_through_witness :
  page_get (E := unit) io5 None (NMiniPage 0) two [Byte.x62] = Ok (Some [Byte.x01; Byte.x02]) /\
  page_get (E := unit) io5 None (NMiniPage 0) two [Byte.x63] = Ok None.
Proof.
  split.
  - apply (page_get_read_through io5 0 two disk5 LOWER_FENCE UPPER_FENCE two_slots [] [Byte.x62] two_leaf disk5_leaf io5_page).
  - apply (page_get_read_through io5 0 two disk5 LOWER_FENCE UPPER_FENCE two_slots [] [Byte.x63] two_leaf disk5_leaf io5_page).
Defined.

Lemma flush_correct_witness :
  exists d' ds', flush_dirty_entries (E := unit) two io5 = Ok (two, write_page io5 (NodeMeta.leaf (header two)) d') /\
    leaf_repr d' LOWER_FENCE UPPER_FENCE ds' /\
    content ds' = [([Byte.x61], ([Byte.x07], KVRecordType.Insert)); ([Byte.x62], ([Byte.x01; Byte.x02], KVRecordType.Insert))].
Proof.
  destruct (flush_correct io5 two LOWER_FENCE UPPER_FENCE disk5 LOWER_FENCE UPPER_FENCE two_slots [])
    as (d' & ds' & Hrun & Hd & Hc & _).
  - exact two_leaf.
  - done.
  - repeat constructor; done.
  - exact io5_page.
  - exact disk5_leaf.
  - reflexivity.
  - repeat constructor; done.
  - vm_compute. lia.
  - exists d', ds'. split; [exact Hrun|split; [exact Hd|exact Hc]].
Defined.

(** A record written over a deleted one is lost at the next write-back: [try_put] keeps the
    state [Tombstone], so [flush_dirty_entries] removes the record instead of storing it. *)
Theorem put_over_tombstone_lost_at_flush :
  let m := fst (mark_tombstone (E := unit) [Byte.x61] two) in
  let m := fst (try_put [Byte.x61] [Byte.x09] m) in
  get (E := unit) m [Byte.x61] = Ok (Some [Byte.x09]) /\
  match flush_dirty_entries (E := unit) m io5 with
  | Ok (m', io') => get (E := unit) m' [Byte.x61] = Ok None /\
      (d ← get_page (E := unit) io' 5; get d [Byte.x61]) = Ok None
  | _ => False
  end.
Proof. vm_compute. done. Qed.

(** Once a put succeeded, a leaf-sized mini-page cannot be split: [try_put] marks it hot, the
    hot flag turns its size class into an invalid one, and resetting its fences reads it. *)
Theorem split_after_put_undefined :
  let '(m, r) := page_try_put (NMiniPage 0) disk5 [Byte.x61] [Byte.x07] in
  r = Ok Success /\ snd (reset_user_entries_with_fences (E := unit) LOWER_FENCE [Byte.x61] m) = Halt Undefined.
Proof. vm_compute. done. Qed.
