(* ===== verification/Recovery.v ===== *)
(** * Recovery (src/lib.rs: [replay_wal] and the functions it uses)

    Which log records count ([txn_statuses]), what they do to the records of a page
    ([apply_wal_op]) and how a page is rewritten.  [Db] is the part of [QuickStep] that
    replay touches: the mapping table, the mini-pages by buffer index, the data file and
    the log. *)

From stdpp Require Import gmap.
From S2P Require Import Prelude Types BTreeMap Node MapTable IoEngine PageOp Wal.

Inductive TxStatus := Committed | Aborted.

#[global] Instance TxStatus_eq_dec : EqDecision TxStatus.
Proof. solve_decision. Defined.

Definition txn_statuses (txn_meta : list WalRecord) : gmap Z TxStatus :=
  foldl (fun statuses r =>
    match op r with
    | TxnMarker Commit => <[txn_id r := Committed]> statuses
    | TxnMarker Abort_ => <[txn_id r := Aborted]> statuses
    | _ => statuses
    end) ∅ txn_meta.

(** Ordered maps from full keys to values. *)
Abbreviation entry_map := (list (bytes * bytes)).

Definition apply_wal_op (entries : entry_map) (key : bytes) (o : WalOp) : entry_map :=
  match o with
  | Put value => bt_insert entries key value
  | Tombstone => bt_remove entries key
  | TxnMarker _ => entries
  end.

(** Whether a record is applied. *)
Definition applies (statuses : gmap Z TxStatus) (r : WalRecord) : bool :=
  match op r with
  | TxnMarker _ => false
  | _ =>
      let committed := bool_decide (statuses !! txn_id r = Some Committed) in
      match kind r with Redo => committed | Undo => negb committed end
  end.

(** The loop over the records of a page: the entries and the fences of the last record
    applied. *)
Definition replay_records (statuses : gmap Z TxStatus) (entries : entry_map) (rs : list WalRecord)
    : entry_map * option (bytes * bytes) :=
  foldl (fun '(entries, fences) r =>
    if applies statuses r
    then (apply_wal_op entries (key r) (op r), Some (lower_fence r, upper_fence r))
    else (entries, fences)) (entries, None) rs.

Definition collect_fence_keys {E} (m : bytes) : outcome E (bytes * bytes) :=
  _ ← rassert (2 <=? record_count m)%nat;
  lower_meta ← get_kv_meta m 0;
  upper_meta ← get_kv_meta m (record_count m - 1);
  _ ← rassert (KVMeta.fence lower_meta && KVMeta.fence upper_meta);
  lo ← get_stored_key_from_meta m lower_meta;
  up ← get_stored_key_from_meta m upper_meta;
  Ok (lo, up).

Definition collect_user_records {E} (m : bytes) : outcome E (list (bytes * bytes)) := owned_entries m.

Definition collect_user_keys {E} (m : bytes) : outcome E (list bytes) :=
  es ← owned_entries m; Ok (es.*1).

Definition records_between {E} (m lower upper : bytes) : outcome E (list (bytes * bytes)) :=
  rs ← collect_user_records m;
  Ok (filter (fun kv => bytes_leb lower kv.1 && bytes_ltb kv.1 upper = true) (rs : list (bytes * bytes))).

Record Db := mkDb { map_table : MapTable.t; mini_pages : gmap Z bytes; io_engine : IoEngine; wal : WalState }.

(** [reset_user_entries_with_fences] and [replay_entries] with [expect]. *)
Definition rewrite_page {E} (m lo up : bytes) (entries : entry_map) : outcome E bytes :=
  expect_ok ((_ ← reset_user_entries_with_fences lo up; replay_entries entries) m).

(** The body of the loop over the pages, for a page that has an entry. *)
Definition replay_page {E} (db : Db) (statuses : gmap Z TxStatus) (page : Z) (rs : list WalRecord) : outcome E Db :=
  w ← MapTable.get_ref (map_table db) page;
  '(w', node) ← match Locks.read_page_entry w with
                | (w', Ok node) => Ok (w', node)
                | (_, Err _) => Halt Panicked
                | (_, Halt h) => Halt h
                end;
  let node_ref := PageEntry.get_ref node in
  disk_addr ← match node_ref with
              | NLeaf addr => Ok addr
              | NMiniPage idx => m ← match mini_pages db !! idx with Some m => Ok m | None => Halt Undefined end;
                                 Ok (NodeMeta.leaf (header m))
              end;
  disk_leaf ← get_page (io_engine db) disk_addr;
  '(base_lower, base_upper) ← collect_fence_keys disk_leaf;
  base ← collect_user_records disk_leaf;
  let '(entries, fences) := replay_records statuses (bt_collect base) rs in
  match entries with
  | [] => Ok db
  | _ =>
      let '(lower_fence, upper_fence) := default (base_lower, base_upper) fences in
      leaf ← rewrite_page disk_leaf lower_fence upper_fence entries;
      let io := write_page (io_engine db) disk_addr leaf in
      minis ← match node_ref with
              | NMiniPage idx =>
                  m ← match mini_pages db !! idx with Some m => Ok m | None => Halt Undefined end;
                  m ← rewrite_page m lower_fence upper_fence entries;
                  Ok (<[idx := m]> (mini_pages db))
              | NLeaf _ => Ok (mini_pages db)
              end;
      Ok (mkDb (map_table db) minis io (wal db))
  end.

(** [grouped.remove(&TXN_META_PAGE_ID)], the loop, and the final [clear].  The read guard of
    a page is dropped at the end of its turn, which restores the entry. *)
Definition replay_wal {E} (db : Db) : outcome E Db :=
  match records_grouped (wal db) with
  | [] => Ok db
  | grouped =>
      let txn_meta := default [] (bt_get grouped TXN_META_PAGE_ID) in
      let statuses := txn_statuses txn_meta in
      db' ← foldM (fun db '(page_key, records) =>
        if Z.of_nat (MapTable.capacity (map_table db)) <=? page_key then Ok db
        else
          has ← MapTable.has_entry (map_table db) page_key;
          if negb has then Ok db else replay_page db statuses page_key records)
        db (bt_remove grouped TXN_META_PAGE_ID);
      Ok (mkDb (map_table db') (mini_pages db') (io_engine db') (clear (wal db')))
  end.

Definition ensure_root_leaf_on_disk {E} (io : IoEngine) : outcome E IoEngine :=
  leaf ← get_page io 0;
  if (2 <=? record_count leaf)%nat then Ok io
  else
    leaf ← expect_ok (format_leaf (E := unit) 0 NodeSize.LeafPage 0 leaf);
    Ok (write_page io 0 leaf).

(** The part of [QuickStep::new] that reads the files: an empty buffer and a fresh mapping
    table, the root leaf, replay, and only then the entry of the root page. *)
Definition startup {E} (leaf_upper_bound : nat) (data_file wal_file : bytes) : outcome E Db :=
  let io := IoEngine.open data_file in
  let w := Wal.open wal_file in
  io ← ensure_root_leaf_on_disk io;
  db ← replay_wal (mkDb (MapTable.new leaf_upper_bound) ∅ io w);
  '(mt, _) ← MapTable.init_leaf_entry (map_table db) 0;
  Ok (mkDb mt (mini_pages db) (io_engine db) (wal db)).

(** * The records of one page *)

Lemma apply_wal_op_sorted m k o : bt_sorted m -> bt_sorted (apply_wal_op m k o).
Proof. destruct o; simpl; [apply bt_alter_sorted|apply bt_remove_sorted|done]. Qed.

Lemma bt_collect_sorted {K V} `{!OrdKey K} (l : list (K * V)) : bt_sorted l -> bt_collect l = l.
Proof.
  unfold bt_collect, bt_insert. assert (forall l acc, bt_sorted (acc ++ l) ->
    foldl (fun m '(k, v) => bt_alter (fun _ : option V => v) m k) acc l = acc ++ l) as H.
  { clear l. induction l as [|[k v] l IH]; intros acc Hs; [by rewrite app_nil_r|]. cbn [foldl].
    assert (bt_alter (fun _ => v) acc k = acc ++ [(k, v)]) as ->.
    { rewrite <-(app_nil_r acc) at 1. rewrite bt_alter_at; [done| |constructor].
      unfold bt_sorted in Hs. rewrite fmap_app, fmap_cons in Hs. apply Forall_forall. intros e He.
      eapply StronglySorted_app_1_elem_of; [exact Hs|by apply list_elem_of_fmap_2|set_solver]. }
    rewrite IH; by rewrite <-(assoc_L (++)). }
  apply (H l []).
Qed.

Lemma replay_records_app st m rs1 rs2 :
  fst (replay_records st m (rs1 ++ rs2)) = fst (replay_records st (fst (replay_records st m rs1)) rs2).
Proof.
  unfold replay_records. rewrite foldl_app.
  destruct (foldl _ (m, None) rs1) as [m1 f1]. cbn [fst]. clear. revert m1 f1.
  assert (forall m1 f1 f2, fst (foldl (fun '(entries, fences) r =>
    if applies st r then (apply_wal_op entries (key r) (op r), Some (lower_fence r, upper_fence r))
    else (entries, fences)) (m1, f1) rs2) = fst (foldl (fun '(entries, fences) r =>
    if applies st r then (apply_wal_op entries (key r) (op r), Some (lower_fence r, upper_fence r))
    else (entries, fences)) (m1, f2) rs2)) as H; [|intros; apply H].
  induction rs2 as [|r rs IH]; intros m1 f1 f2; [done|]. cbn [foldl]. destruct (applies st r); [done|apply IH].
Qed.

Lemma replay_records_cons st m r rs :
  fst (replay_records st m (r :: rs)) =
    fst (replay_records st (if applies st r then apply_wal_op m (key r) (op r) else m) rs).
Proof.
  change (r :: rs) with ([r] ++ rs). rewrite replay_records_app. f_equal. f_equal. unfold replay_records. simpl.
  by destruct (applies st r).
Qed.

Lemma replay_records_sorted st m rs : bt_sorted m -> bt_sorted (fst (replay_records st m rs)).
Proof.
  revert m; induction rs as [|r rs IH]; intros m Hs; [done|]. rewrite replay_records_cons. apply IH.
  destruct (applies st r); [by apply apply_wal_op_sorted|done].
Qed.

(** The last record that is applied to a key decides its value. *)
Definition last_applied (st : gmap Z TxStatus) (k : bytes) (rs : list WalRecord) : option WalOp :=
  foldl (fun acc r => if applies st r && bool_decide (key r = k) then Some (op r) else acc) None rs.

Definition value_of (o : WalOp) : option bytes := match o with Put v => Some v | _ => None end.

Lemma apply_wal_op_get m k o k' :
  bt_sorted m -> (match o with TxnMarker _ => False | _ => True end) ->
  bt_get (apply_wal_op m k o) k' = if bool_decide (k = k') then value_of o else bt_get m k'.
Proof.
  intros Hs Ho. destruct o as [v| |]; [| |done]; cbn [apply_wal_op value_of]; unfold bt_insert;
    rewrite ?bt_get_alter, ?bt_get_remove by done; destruct (kcmp k k') eqn:E.
  1, 4: apply kcmp_eq in E; subst; by rewrite bool_decide_true.
  all: rewrite bool_decide_false; [done|]; intros ->; by rewrite kcmp_refl in E.
Qed.

Lemma applies_not_marker st r : applies st r = true -> match op r with TxnMarker _ => False | _ => True end.
Proof. unfold applies. by destruct (op r). Qed.

(** ** Serial transactions *)

Definition write_op (w : option bytes) : WalOp := match w with Some v => Put v | None => Tombstone end.

Lemma write_op_get (m : entry_map) k w : bt_sorted m ->
  bt_get (apply_wal_op m k (write_op w)) k = w.
Proof.
  intros Hs. rewrite apply_wal_op_get by (done || by destruct w). rewrite bool_decide_true by done. by destruct w.
Qed.

Lemma write_back (m : entry_map) k : apply_wal_op m k (write_op (bt_get m k)) = m.
Proof.
  destruct (bt_get m k) as [v|] eqn:E; simpl; [by apply bt_insert_same|by apply bt_remove_absent].
Qed.

(** A page as the transactions find it: its records by full key, each with its state. *)
Abbreviation page_map := (list (bytes * (bytes * KVRecordType.t))).

Definition deleted (c : page_map) (k : bytes) : Prop := snd <$> bt_get c k = Some KVRecordType.Tombstone.

(** What a call logs about the page, for a value a put and for [None] a delete: the operation
    of its redo record and that of its undo record.  A put takes the value of a deleted record
    for the old value; a delete of an absent or deleted key logs nothing. *)
Definition logged (c : page_map) (k : bytes) (w : option bytes) : option (WalOp * WalOp) :=
  match w, bt_get c k with
  | Some v, old => Some (Put v, write_op (fst <$> old))
  | None, Some (v, t) => if decide (t = KVRecordType.Tombstone) then None else Some (Tombstone, Put v)
  | None, None => None
  end.

(** What it does to the page: a put keeps the state of the record, a delete keeps its value. *)
Definition page_write (c : page_map) (k : bytes) (w : option bytes) : page_map :=
  match w, logged c k w with
  | Some v, _ => bt_alter (put_value v) c k
  | None, Some (_, Put v) => bt_alter (fun _ => (v, KVRecordType.Tombstone)) c k
  | None, _ => c
  end.

(** What it does to the records that are to be there after a restart; a call that logs nothing
    answered that it did nothing. *)
Definition durable_write (c : page_map) (m : entry_map) (k : bytes) (w : option bytes) : entry_map :=
  match logged c k w with Some (redo, _) => apply_wal_op m k redo | None => m end.

(** The writes of one transaction to the page: its id, whether it committed, and the keys with
    their new values. *)
Record txn_block := mkBlock { b_txn : Z; b_commit : bool; b_writes : list (bytes * option bytes) }.

Section history.
Context (page : Z) (lo up : bytes).

(** The two records of one put, where the values of the page are [m]. *)
Definition write_records (txn : Z) (m : entry_map) (k : bytes) (w : option bytes) : list WalRecord :=
  match w, bt_get m k with
  | None, None => []
  | _, old => [mkWalRecord page k lo up Redo txn (write_op w); mkWalRecord page k lo up Undo txn (write_op old)]
  end.

Definition page_records (txn : Z) (c : page_map) (k : bytes) (w : option bytes) : list WalRecord :=
  match logged c k w with
  | Some (redo, undo) => [mkWalRecord page k lo up Redo txn redo; mkWalRecord page k lo up Undo txn undo]
  | None => []
  end.

Fixpoint block_log (txn : Z) (c : page_map) (ws : list (bytes * option bytes)) : list WalRecord :=
  match ws with
  | [] => []
  | (k, w) :: ws => page_records txn c k w ++ block_log txn (page_write c k w) ws
  end.

Fixpoint do_writes (c : page_map) (m : entry_map) (ws : list (bytes * option bytes)) : page_map * entry_map :=
  match ws with
  | [] => (c, m)
  | (k, w) :: ws => do_writes (page_write c k w) (durable_write c m k w) ws
  end.

(** The page and the durable records after a transaction: its writes when it committed, rolled
    back otherwise. *)
Definition exec_block (c : page_map) (m : entry_map) (b : txn_block) : page_map * entry_map :=
  if b_commit b then do_writes c m (b_writes b) else (c, m).

Fixpoint exec_history (c : page_map) (m : entry_map) (bs : list txn_block) : entry_map :=
  match bs with
  | [] => m
  | b :: bs => let '(c', m') := exec_block c m b in exec_history c' m' bs
  end.

Fixpoint history_log (c : page_map) (m : entry_map) (bs : list txn_block) : list WalRecord :=
  match bs with
  | [] => []
  | b :: bs =>
      block_log (b_txn b) c (b_writes b) ++ let '(c', m') := exec_block c m b in history_log c' m' bs
  end.

(** A transaction that does not commit writes no key twice, and none whose record is deleted. *)
Fixpoint undoable_history (c : page_map) (m : entry_map) (bs : list txn_block) : Prop :=
  match bs with
  | [] => True
  | b :: bs =>
      (b_commit b = false -> NoDup (b_writes b).*1 /\ Forall (fun k => ~ deleted c k) (b_writes b).*1) /\
      let '(c', m') := exec_block c m b in undoable_history c' m' bs
  end.

Lemma replay_write st txn m0 m k w :
  fst (replay_records st m0 (write_records txn m k w)) =
    if decide (st !! txn = Some Committed)
    then match w, bt_get m k with None, None => m0 | _, _ => apply_wal_op m0 k (write_op w) end
    else match w, bt_get m k with None, None => m0 | _, old => apply_wal_op m0 k (write_op old) end.
Proof.
  unfold write_records, replay_records, applies.
  destruct w as [v|], (bt_get m k) as [v0|]; simpl; case_decide as Hd;
    rewrite ?bool_decide_true, ?bool_decide_false by done; done.
Qed.

Lemma replay_logged st txn m c k w :
  fst (replay_records st m (page_records txn c k w)) =
    match logged c k w with
    | Some (redo, undo) => apply_wal_op m k (if decide (st !! txn = Some Committed) then redo else undo)
    | None => m
    end.
Proof.
  unfold page_records. destruct (logged c k w) as [[r u]|] eqn:E; [|done].
  assert ((match r with TxnMarker _ => False | _ => True end) /\ (match u with TxnMarker _ => False | _ => True end)) as [Hr Hu].
  { unfold logged in E. destruct w, (bt_get c k) as [[v0 t0]|]; repeat case_decide; by simplify_eq/=. }
  unfold replay_records, applies. destruct r, u; try done; simpl; case_decide as Hd;
    rewrite ?bool_decide_true, ?bool_decide_false by done; done.
Qed.

(** The durable records and the page agree, but for what the page has as deleted. *)
Definition agree (c : page_map) (m : entry_map) : Prop :=
  bt_sorted c /\ bt_sorted m /\ forall k, ~ deleted c k -> bt_get m k = fst <$> bt_get c k.

Lemma page_write_get c k w k' : bt_sorted c -> k <> k' -> bt_get (page_write c k w) k' = bt_get c k'.
Proof.
  intros Hs Hne. assert (forall f, bt_get (bt_alter f c k) k' = bt_get c k') as Ha.
  { intros f. rewrite bt_get_alter by done. destruct (kcmp k k') eqn:E; [|done..]. by apply kcmp_eq in E. }
  unfold page_write. destruct w; [apply Ha|]. by destruct (logged c k None) as [[? []]|].
Qed.

Lemma page_write_sorted c k w : bt_sorted c -> bt_sorted (page_write c k w).
Proof. intros Hs. unfold page_write. destruct w as [v|]; [by apply bt_alter_sorted|]. destruct (logged c k None) as [[? []]|]; try done; by apply bt_alter_sorted. Qed.

Lemma durable_write_get c m k w k' : bt_sorted m -> k <> k' -> bt_get (durable_write c m k w) k' = bt_get m k'.
Proof.
  intros Hs Hne. unfold durable_write. destruct (logged c k w) as [[r u]|] eqn:E; [|done].
  rewrite apply_wal_op_get; [by rewrite bool_decide_false|done|].
  unfold logged in E. destruct w, (bt_get c k) as [[v0 t0]|]; repeat case_decide; by simplify_eq/=.
Qed.

Lemma agree_write c m k w : agree c m -> agree (page_write c k w) (durable_write c m k w).
Proof.
  intros (Hc & Hm & Ha). split_and!; [by apply page_write_sorted| |].
  { unfold durable_write. destruct (logged c k w) as [[]|]; [by apply apply_wal_op_sorted|done]. }
  intros k' Hk'. destruct (decide (k = k')) as [<-|Hne].
  - destruct w as [v|].
    + change (bt_get (apply_wal_op m k (write_op (Some v))) k = fst <$> bt_get (bt_alter (put_value v) c k) k).
      rewrite (write_op_get m k (Some v) Hm), bt_get_alter_eq.
      by destruct (bt_get c k) as [[]|].
    + unfold page_write, durable_write, logged, deleted in *. destruct (bt_get c k) as [[v t]|] eqn:E; [|by rewrite Ha; rewrite E].
      case_decide; [by rewrite E in Hk'; subst t|]. exfalso. apply Hk'. by rewrite bt_get_alter_eq.
  - unfold deleted in Hk'. rewrite durable_write_get, page_write_get by done. apply Ha. unfold deleted. by rewrite <-(page_write_get c k w k').
Qed.

Lemma do_writes_agree c m ws : agree c m -> agree (fst (do_writes c m ws)) (snd (do_writes c m ws)).
Proof. revert c m; induction ws as [|[k w] ws IH]; intros c m H; [done|]. cbn [do_writes]. by apply IH, agree_write. Qed.

Lemma replay_committed st txn c m ws :
  st !! txn = Some Committed -> fst (replay_records st m (block_log txn c ws)) = snd (do_writes c m ws).
Proof.
  intros Hst. revert c m; induction ws as [|[k w] ws IH]; intros c m; [done|]. cbn [block_log do_writes].
  rewrite replay_records_app, replay_logged. unfold durable_write at 1.
  destruct (logged c k w) as [[r u]|]; [rewrite decide_True by done|]; apply IH.
Qed.

Lemma replay_uncommitted st txn c m ws :
  st !! txn <> Some Committed -> bt_sorted c -> NoDup ws.*1 -> Forall (fun k => ~ deleted c k) ws.*1 ->
  (forall k, k ∈ ws.*1 -> bt_get m k = fst <$> bt_get c k) ->
  fst (replay_records st m (block_log txn c ws)) = m.
Proof.
  intros Hst. revert c; induction ws as [|[k w] ws IH]; intros c Hc Hnd Hlive Hg; [done|]. cbn [block_log].
  rewrite fmap_cons in Hnd, Hlive, Hg. cbn [fst] in *. apply NoDup_cons in Hnd as [Hni Hnd]. apply Forall_cons_iff in Hlive as [Hk Hlive].
  rewrite replay_records_app, replay_logged.
  assert (match logged c k w with
          | Some (redo, undo) => apply_wal_op m k (if decide (st !! txn = Some Committed) then redo else undo)
          | None => m end = m) as ->.
  { pose proof (write_back m k) as Hb. rewrite (Hg k) in Hb by set_solver. unfold logged.
    destruct w as [v|]; [by rewrite decide_False|]. destruct (bt_get c k) as [[v t]|]; [|done]. case_decide; [done|]. by rewrite decide_False. }
  assert (forall k', k' ∈ ws.*1 -> bt_get (page_write c k w) k' = bt_get c k') as Hsame.
  { intros k' Hk'. apply page_write_get; [done|]. by intros ->. }
  apply IH; [by apply page_write_sorted|done| |].
  - apply Forall_forall. intros k' Hk'. unfold deleted. rewrite Hsame by done. by apply (proj1 (Forall_forall _ _) Hlive).
  - intros k' Hk'. rewrite Hsame by done. apply Hg. set_solver.
Qed.
End history.

(** * Properties *)

(** C8. Replaying the log of a page recovers exactly the committed transactions.  Transactions
    run one after the other on a page and log what [put] and [delete] log (for a put the value
    before it, of a deleted record too; for a delete of an absent or deleted key nothing); an
    abort leaves the page as it was.  If none that did not commit writes a key twice or a key
    whose record is deleted, then applying the redo records of the committed and the undo
    records of the others to the records on disk gives these with the committed writes. *)
Theorem replay_recovers_committed (page : Z) (lo up : bytes) (st : gmap Z TxStatus) (c : page_map) (m : entry_map)
    (bs : list txn_block) :
  agree c m -> Forall (fun b => st !! b_txn b = Some Committed <-> b_commit b = true) bs -> undoable_history c m bs ->
  fst (replay_records st m (history_log page lo up c m bs)) = exec_history c m bs.
Proof.
  intros Ha Hbs. revert c m Ha; induction Hbs as [|b bs Hst _ IH]; intros c m Ha Hu; [done|].
  cbn [history_log exec_history undoable_history] in *. destruct Hu as [Hb Hu]. rewrite replay_records_app. unfold exec_block in *.
  destruct (b_commit b) eqn:Hc.
  - rewrite replay_committed with (m := m) by (by apply Hst). pose proof (do_writes_agree c m (b_writes b) Ha) as Ha'.
    destruct (do_writes c m (b_writes b)) as [c' m']. by apply IH.
  - destruct (Hb eq_refl) as [Hnd Hlive]. rewrite replay_uncommitted; [by apply IH| |by apply Ha|done|done|].
    + intros H%Hst. done.
    + intros k Hk. apply Ha. by apply (proj1 (Forall_forall _ _) Hlive).
Qed.

Definition sample_blocks : list txn_block :=
  [mkBlock 1 true [([Byte.x61], Some [Byte.x01]); ([Byte.x62], Some [Byte.x02]); ([Byte.x63], Some [Byte.x03])];
   mkBlock 2 false [([Byte.x61], Some [Byte.x05]); ([Byte.x62], None)];
   mkBlock 3 true [([Byte.x63], None)]].

Lemma replay_recovers_committed_witness :
  fst (replay_records {[1 := Committed; 3 := Committed]} [] (history_log 0 [] [] [] [] sample_blocks)) =
    [([Byte.x61], [Byte.x01]); ([Byte.x62], [Byte.x02])].
Proof.
  rewrite (replay_recovers_committed 0 [] [] {[1 := Committed; 3 := Committed]} [] [] sample_blocks); [reflexivity| | |].
  - split_and!; [constructor|constructor|done].
  - repeat constructor; vm_compute; congruence.
  - split; [done|]. split; [|by split]. intros _. split; [repeat constructor; set_solver|].
    repeat constructor; unfold deleted; vm_compute; congruence.
Defined.

(** Undo records are replayed in the order they were written: a transaction that wrote a key
    twice and did not commit is not rolled back, the key is left with the transaction's own
    first value. *)
Theorem replay_undo_order_wrong (page txn : Z) (lo up k v0 v1 v2 : bytes) (t : KVRecordType.t) :
  fst (replay_records ∅ [(k, v0)] (block_log page lo up txn [(k, (v0, t))] [(k, Some v1); (k, Some v2)])) = [(k, v1)].
Proof.
  assert (forall v w : bytes, bt_insert [(k, v)] k w = [(k, w)]) as Hi
    by (intros v w; apply (bt_alter_found (fun _ => w) [] [] k v); constructor).
  assert (bt_get [(k, (v0, t))] k = Some (v0, t)) as Hg by (apply (bt_get_found []); constructor).
  cbn [block_log]. rewrite app_nil_r, replay_records_app, !replay_logged. unfold page_write, logged.
  rewrite bt_get_alter_eq, Hg, !decide_False by done. cbn [put_value write_op apply_wal_op fst fmap option_fmap option_map]. by rewrite !Hi.
Qed.

(** A put over a deleted record brings it back when its transaction does not commit: its undo
    record has the value of the deleted record, so replay undoes the committed delete. *)
Theorem replay_resurrects_deleted (page : Z) (lo up k v w : bytes) :
  let bs := [mkBlock 1 true [(k, None)]; mkBlock 2 false [(k, Some w)]] in
  let c := [(k, (v, KVRecordType.Insert))] in
  exec_history c [(k, v)] bs = [] /\
  fst (replay_records {[1 := Committed]} [(k, v)] (history_log page lo up c [(k, v)] bs)) = [(k, v)].
Proof.
  assert (bt_remove [(k, v)] k = []) as Hr by (apply (bt_remove_found [] [] k v); constructor).
  intros bs c. assert (bt_get c k = Some (v, KVRecordType.Insert)) as Hg by (apply (bt_get_found []); constructor).
  assert (logged c k None = Some (Tombstone, Put v)) as H1 by (unfold logged; by rewrite Hg, decide_False).
  assert (logged (page_write c k None) k (Some w) = Some (Put w, Put v)) as H2
    by (unfold logged, page_write; by rewrite H1, bt_get_alter_eq).
  split; [by unfold bs; cbn -[durable_write]; unfold durable_write; rewrite H1|].
  change (history_log page lo up c [(k, v)] bs) with
    ((page_records page lo up 1 c k None ++ []) ++ (page_records page lo up 2 (page_write c k None) k (Some w) ++ []) ++ []).
  rewrite !app_nil_r, replay_records_app, !replay_logged, H1, H2, decide_True, decide_False by done.
  cbn [apply_wal_op]. by rewrite Hr.
Qed.

(** The last record that counts decides: after replay a key has the value of the last applied
    record for it, and its value on disk when there is none. *)
Theorem replay_last_writer_wins (st : gmap Z TxStatus) (m : entry_map) (rs : list WalRecord) (k : bytes) :
  bt_sorted m ->
  bt_get (fst (replay_records st m rs)) k =
    match last_applied st k rs with Some o => value_of o | None => bt_get m k end.
Proof.
  intros Hs. induction rs as [|r rs IH] using rev_ind; [done|].
  rewrite replay_records_app. unfold last_applied. rewrite foldl_app. cbn [foldl]. fold (last_applied st k rs).
  pose proof (replay_records_sorted st m rs Hs) as Hs'. set (m1 := fst (replay_records st m rs)) in *.
  rewrite replay_records_cons. cbn [replay_records foldl fst].
  destruct (applies st r) eqn:Ha; cbn [andb]; [|exact IH].
  rewrite apply_wal_op_get by (done || by apply (applies_not_marker st)). by destruct (bool_decide _).
Qed.

Lemma replay_last_writer_wins_witness :
  bt_get (fst (replay_records {[1 := Committed]} [([Byte.x61], [Byte.x00])]
    [mkWalRecord 0 [Byte.x61] [] [] Redo 1 (Put [Byte.x01]); mkWalRecord 0 [Byte.x61] [] [] Redo 2 (Put [Byte.x02])]))
    [Byte.x61] = Some [Byte.x01].
Proof.
  rewrite (replay_last_writer_wins {[1 := Committed]} [([Byte.x61], [Byte.x00])]
    [mkWalRecord 0 [Byte.x61] [] [] Redo 1 (Put [Byte.x01]); mkWalRecord 0 [Byte.x61] [] [] Redo 2 (Put [Byte.x02])]
    [Byte.x61]); [reflexivity|repeat constructor].
Defined.

(** ** A page on disk *)

Lemma collect_fence_keys_ok {E} m lo up es : leaf_repr m lo up es -> collect_fence_keys (E := E) m = Ok (lo, up).
Proof.
  intros Hm. unfold collect_fence_keys. rewrite (leaf_count _ _ _ _ Hm). unfold rassert.
  rewrite (proj2 (Nat.leb_le _ _)) by lia. cbn [mbind outcome_bind].
  rewrite (leaf_get_kv_meta m lo up es Hm 0) by lia. cbn [mbind outcome_bind].
  replace (length es + 2 - 1)%nat with (S (length es)) by lia.
  rewrite (leaf_get_kv_meta m lo up es Hm) by lia. cbn [mbind outcome_bind].
  rewrite (sa_fence _ _ _ (leaf_low _ _ _ _ Hm)), (sa_fence _ _ _ (leaf_high _ _ _ _ Hm)). cbn [fence_slot s_fence andb].
  cbn [mbind outcome_bind].
  rewrite (slot_stored_key m 0 _ (leaf_low _ _ _ _ Hm)). cbn [mbind outcome_bind].
  by rewrite (slot_stored_key m _ _ (leaf_high _ _ _ _ Hm)).
Qed.

Lemma full_entries_sorted lo up es : keys_sorted es -> bt_sorted (full_entries lo up es).
Proof. intros Hs. apply full_sorted, Hs. Qed.

(** C32. Replaying the log of a page that is on disk: when the records leave no entry, nothing is
    changed; otherwise its leaf is rewritten to hold exactly the entries that
    [replay_records] leads to, between the fences of the last record that was applied (its own
    fences when none was), provided the entries lie between these fences and fit; the mapping
    table, the buffer, the log and every other page of the file are unchanged. *)
Theorem replay_page_correct (db : Db) (st : gmap Z TxStatus) (page w addr : Z) (rs : list WalRecord)
    (d lo up : bytes) (ds : list slot) :
  MapTable.get_ref (E := unit) (map_table db) page = Ok w -> is_u64 w ->
  PageEntry.pending_write w = false -> PageEntry.state w < PageEntry.WRITE_LOCK_STATE ->
  PageEntry.get_ref w = NLeaf addr -> get_page (E := unit) (io_engine db) addr = Ok d ->
  leaf_repr d lo up ds -> sized d ->
  let entries := fst (replay_records st (full_entries lo up ds) rs) in
  let '(lo', up') := default (lo, up) (snd (replay_records st (full_entries lo up ds) rs)) in
  (entries = [] -> replay_page (E := unit) db st page rs = Ok db) /\
  (entries <> [] -> between lo' up' entries -> fits (length d) lo' up' entries ->
   exists d' es, replay_page (E := unit) db st page rs =
       Ok (mkDb (map_table db) (mini_pages db) (write_page (io_engine db) addr d') (wal db)) /\
     leaf_repr d' lo' up' es /\ full_entries lo' up' es = entries /\ length d' = length d).
Proof.
  intros Hw Hu Hp Hst Href Hio Hd Hsz entries.
  pose proof (full_entries_sorted lo up ds (lr_sorted _ _ _ _ Hd)) as Hso.
  pose proof (replay_records_sorted st _ rs Hso) as Hso'. fold entries in Hso'.
  assert (replay_page (E := unit) db st page rs =
    let '(entries, fences) := replay_records st (full_entries lo up ds) rs in
    match entries with
    | [] => Ok db
    | _ => let '(lo', up') := default (lo, up) fences in
           leaf ← rewrite_page d lo' up' entries;
           Ok (mkDb (map_table db) (mini_pages db) (write_page (io_engine db) addr leaf) (wal db))
    end) as Hrun.
  { unfold replay_page. rewrite Hw. cbn [mbind outcome_bind]. rewrite (read_page_entry_shared w Hp Hst). cbn [mbind outcome_bind].
    rewrite Href. cbn [mbind outcome_bind]. rewrite Hio. cbn [mbind outcome_bind].
    rewrite (collect_fence_keys_ok d lo up ds Hd). cbn [mbind outcome_bind].
    unfold collect_user_records. rewrite (owned_entries_ok d lo up ds Hd). cbn [mbind outcome_bind].
    fold (full_entries lo up ds). rewrite bt_collect_sorted by done. done. }
  subst entries. destruct (replay_records st (full_entries lo up ds) rs) as [entries fences]. cbn [fst snd] in *.
  destruct (default (lo, up) fences) as [lo' up']. split; [by intros ->|]. intros Hne Hbt Hfit.
  destruct (rebuild d lo' up' entries) as (d1 & d' & es & H1 & H2 & Hd' & Hes & _ & Hl); [done..|].
  exists d', es. split; [|done]. rewrite Hrun. destruct entries as [|e entries]; [done|].
  unfold rewrite_page. rewrite (bindS_ok _ _ _ _ _ H1), H2. done.
Qed.

(** A mapping table with page 0 on disk at address 5, and one committed put for it, with
    fences that are narrower than those of the leaf. *)
Definition sample_db : Db :=
  mkDb (MapTable.mk [PageEntry.leaf 5] 1 1) ∅ io5 (Wal.open []).
Definition sample_log : list WalRecord :=
  [mkWalRecord 0 [Byte.x61] [Byte.x61] [Byte.x70] Redo 1 (Put [Byte.x07])].

Lemma replay_page_correct_witness :
  exists d' es, replay_page (E := unit) sample_db {[1 := Committed]} 0 sample_log =
      Ok (mkDb (map_table sample_db) (mini_pages sample_db) (write_page io5 5 d') (wal sample_db)) /\
    leaf_repr d' [Byte.x61] [Byte.x70] es /\ full_entries [Byte.x61] [Byte.x70] es = [([Byte.x61], [Byte.x07])].
Proof.
  destruct (proj2 (replay_page_correct sample_db {[1 := Committed]} 0 (PageEntry.leaf 5) 5 sample_log disk5
    LOWER_FENCE UPPER_FENCE [] eq_refl ltac:(vm_compute; split; congruence) ltac:(vm_compute; reflexivity)
    ltac:(vm_compute; reflexivity) ltac:(vm_compute; reflexivity)
    ltac:(apply get_write_same; vm_compute; reflexivity) disk5_leaf
    ltac:(exists NodeSize.LeafPage; split; [intros E; vm_compute; reflexivity|vm_compute; reflexivity])))
    as (d' & es & Hrun & Hd & Hes & _).
  - vm_compute. congruence.
  - vm_compute. repeat constructor; congruence.
  - apply Nat.leb_le. vm_compute. reflexivity.
  - exists d', es. split; [exact Hrun|split; [exact Hd|exact Hes]].
Defined.

(** ** Startup *)

Lemma fresh_has_entry {E} n page :
  (0 < n)%nat -> page < Z.of_nat n -> MapTable.has_entry (E := E) (MapTable.new n) page = Ok false.
Proof.
  intros Hn Hp. unfold MapTable.has_entry, MapTable.get_ref, MapTable.new. cbn [MapTable.cap MapTable.indirection_arr].
  rewrite (proj2 (Z.leb_gt _ _)) by lia. rewrite lookup_replicate_2 by lia. done.
Qed.

(** Replay before any page has an entry. *)
Lemma replay_fresh {E} (n : nat) (minis : gmap Z bytes) (io : IoEngine) (w : WalState) :
  (0 < n)%nat ->
  exists w', replay_wal (E := E) (mkDb (MapTable.new n) minis io w) = Ok (mkDb (MapTable.new n) minis io w') /\
    records w' = [] /\ (w' = w \/ w' = clear w).
Proof.
  intros Hn. unfold replay_wal. cbn [wal].
  destruct (records_grouped w) as [|g gs] eqn:Eg.
  - exists w. split; [done|]. split; [|by left]. destruct (records w) as [|r rs] eqn:Er; [done|exfalso].
    destruct (records_grouped_loop (records w) []) as [_ Hg]; [constructor|].
    specialize (Hg (page_id r)). unfold records_grouped in Eg. cbn zeta in Hg. rewrite Eg, Er in Hg.
    rewrite filter_cons_True in Hg by done. done.
  - exists (clear w). set (grouped := g :: gs). set (st := txn_statuses _).
    assert (forall l, foldM (E := E) (fun db '(page_key, rs) =>
      if Z.of_nat (MapTable.capacity (map_table db)) <=? page_key then Ok db
      else has ← MapTable.has_entry (map_table db) page_key;
           if negb has then Ok db else replay_page db st page_key rs)
      (mkDb (MapTable.new n) minis io w) l = Ok (mkDb (MapTable.new n) minis io w)) as Hfold.
    { induction l as [|[page rs] l IH]; [done|]. cbn [foldM map_table].
      change (MapTable.capacity (MapTable.new n)) with n. destruct (Z.leb_spec (Z.of_nat n) page); [exact IH|].
      rewrite fresh_has_entry by done. exact IH. }
    rewrite Hfold. split_and!; [done|done|by right].
Qed.
