(* ===== verification/BPTree.v ===== *)
(** * The B+ tree (src/btree.rs, [BPTree]) and its updates after leaf splits and merges
    (src/lib.rs)

    The root word (level and node, or a leaf page), the slab of inner nodes, the version
    locks and the traversals that take them.  Here one thread runs at a time:
    [compare_exchange_weak] fails only when the word differs from the expected one. *)

From stdpp Require Import gmap.
From S2P Require Import Prelude Types Utils BPNode MapTable.

(** The slab holds the nodes that were written; reading another one is undefined. *)
Record BPTree := mkBPTree {
  slab : gmap Z BPNode; cap : Z; root : Z; root_vlock : Z; next_free : Z; free_list : Z }.

Inductive BPRestart := mkBPRestart.

Inductive BPRootInfo := RLeaf (page : Z) | RInner (level : Z) (node : Z).

(** [inner_node_upper_bound * 4096] is a 32-bit product; a zero-sized [alloc] is undefined. *)
Definition new {E} (inner_node_upper_bound : Z) : outcome E BPTree :=
  if 2 ^ 32 <=? inner_node_upper_bound * 4096 then Halt Panicked
  else if inner_node_upper_bound =? 0 then Halt Undefined
  else Ok (mkBPTree ∅ inner_node_upper_bound 0 0 1 (2 ^ 32 - 1)).

Definition set_root (w : Z) (t : BPTree) : BPTree :=
  mkBPTree (slab t) (cap t) w (root_vlock t) (next_free t) (free_list t).
Definition set_root_vlock (v : Z) (t : BPTree) : BPTree :=
  mkBPTree (slab t) (cap t) (root t) v (next_free t) (free_list t).
Definition set_node (id : Z) (n : BPNode) (t : BPTree) : BPTree :=
  mkBPTree (<[id := n]> (slab t)) (cap t) (root t) (root_vlock t) (next_free t) (free_list t).
Definition modify {E} (f : BPTree -> BPTree) : stM BPTree E unit := fun t => (f t, Ok tt).

Definition set_leaf_root (page : Z) (t : BPTree) : BPTree := set_root page t.

(** A node behind a pointer into the slab, and a method with [&mut self] on it. *)
Definition node_ref {E} (t : BPTree) (id : Z) : outcome E BPNode :=
  match slab t !! id with Some n => Ok n | None => Halt Undefined end.
Definition with_node {E A} (id : Z) (f : stM BPNode E A) : stM BPTree E A := fun t =>
  match slab t !! id with
  | Some n => let '(n', r) := f n in (set_node id n' t, r)
  | None => (t, Halt Undefined)
  end.

(** [fetch_add] wraps; the index is taken even when the slab is full. *)
Definition alloc_inner_node : stM BPTree QSError Z := fun t =>
  let idx := next_free t in
  let t := mkBPTree (slab t) (cap t) (root t) (root_vlock t) (u32 (idx + 1)) (free_list t) in
  if cap t <=? idx then (t, Err TreeFull) else (set_node idx blank t, Ok idx).

(** [RootWriteLock::set_inner] and [set_leaf]. *)
Definition set_inner {E} (node level : Z) : stM BPTree E unit :=
  modify (set_root (Z.lor (shl64 level 48) node)).
Definition set_leaf {E} (page : Z) : stM BPTree E unit := modify (set_root page).

Definition promote_leaf_root (left_child right_child : Z) (pivot_key : bytes) : stM BPTree QSError unit :=
  node_id ← alloc_inner_node;
  _ ← with_node node_id (init_leaf_parent left_child right_child pivot_key);
  set_inner node_id 1.

(** [child_level + 1] on [u16]. *)
Definition promote_inner_root (left_child right_child : Z) (pivot_key : bytes) (child_level : Z)
    : stM BPTree QSError unit :=
  _ ← liftS (rassert (child_level <? 2 ^ 16 - 1));
  let new_level := child_level + 1 in
  node_id ← alloc_inner_node;
  _ ← with_node node_id
        (_ ← reset_for_level new_level (Inner left_child);
         append_entry_for_level new_level pivot_key (Inner right_child));
  set_inner node_id new_level.

Definition remove_child_after_merge (node level : Z) (survivor removed : ChildPointer)
    : stM BPTree QSError (option ChildPointer) :=
  with_node node (remove_entry_for_merge level survivor removed).

Definition demote_root_after_merge (child : ChildPointer) (parent_level : Z) : stM BPTree QSError unit :=
  match parent_level with
  | 1 => p ← liftS (as_leaf child); set_leaf p
  | _ => c ← liftS (as_inner child); set_inner c (parent_level - 1)
  end.

(** ** Version locks *)

Definition is_locked_or_obsolete (version : Z) : bool := negb (Z.land version 3 =? 0).

Definition read_root : stM BPTree BPRestart Z := fun t =>
  (t, if is_locked_or_obsolete (root_vlock t) then Err mkBPRestart else Ok (root_vlock t)).

Definition get_root (t : BPTree) : BPRootInfo :=
  let info := root t in
  let level := u16 (shr64 info 48) in
  if level =? 0 then RLeaf (Z.land info (Z.ones 48)) else RInner level (u32 info).

(** A read guard: the version and the node. *)
Record InnerReadGuard := mkReadGuard { g_version : Z; g_node : Z }.

Definition read_inner (node_id : Z) : stM BPTree BPRestart InnerReadGuard :=
  t ← getS;
  n ← liftS (node_ref t node_id);
  liftS (if is_locked_or_obsolete (vlock n) then Err mkBPRestart else Ok (mkReadGuard (vlock n) node_id)).

Definition set_vlock (v : Z) (n : BPNode) : BPNode := mkBPNode v (count n) (alloc_idx n) (lowest n) (rest n).

(** [self.version + 0b10] panics on overflow. *)
Definition lock_version {E} (version : Z) : outcome E Z :=
  if version + 2 <? 2 ^ 64 then Ok (version + 2) else Halt Panicked.

(** The exchange of a version word. *)
Definition cas_root (expected new_version : Z) : stM BPTree BPRestart unit := fun t =>
  if root_vlock t =? expected then (set_root_vlock new_version t, Ok tt) else (t, Err mkBPRestart).
Definition cas_inner (node expected new_version : Z) : stM BPTree BPRestart unit := fun t =>
  match slab t !! node with
  | Some n => if vlock n =? expected then (set_node node (set_vlock new_version n) t, Ok tt)
              else (t, Err mkBPRestart)
  | None => (t, Halt Undefined)
  end.

Definition root_upgrade (version : Z) : stM BPTree BPRestart unit :=
  new_version ← liftS (lock_version version); cas_root version new_version.

Definition root_unlock_or_restart (version : Z) : stM BPTree BPRestart unit := fun t =>
  (t, if version =? root_vlock t then Ok tt else Err mkBPRestart).

(** [Drop for RootWriteLock]. *)
Definition drop_root (t : BPTree) : BPTree := set_root_vlock (u64 (root_vlock t + 2)) t.

(** [InnerReadGuard::upgrade]; the write guard is the node's id. *)
Definition inner_upgrade (g : InnerReadGuard) : stM BPTree BPRestart Z :=
  new_version ← liftS (lock_version (g_version g));
  _ ← cas_inner (g_node g) (g_version g) new_version;
  mret (g_node g).

Definition inner_unlock_or_restart (g : InnerReadGuard) : stM BPTree BPRestart unit :=
  t ← getS;
  n ← liftS (node_ref t (g_node g));
  liftS (if g_version g =? vlock n then Ok tt else Err mkBPRestart).

(** [Drop for InnerWriteGuard]. *)
Definition drop_inner (id : Z) (t : BPTree) : BPTree :=
  match slab t !! id with
  | Some n => set_node id (set_vlock (u64 (vlock n + 2)) n) t
  | None => t
  end.

Definition write_inner (node_id : Z) : stM BPTree BPRestart Z := g ← read_inner node_id; inner_upgrade g.

(** ** Traversal *)

Inductive WriteLockPoint := PRoot | PInner (guard : InnerReadGuard) (level : Z).

(** The fences of [ReadRes] are always [None]. *)
Record ReadRes := mkReadRes { page : Z; overflow_point : WriteLockPoint; underflow_point : WriteLockPoint }.

(** A read of a node; reads have no errors of their own. *)
Definition read_node {A} (id : Z) (f : BPNode -> outcome QSError A) : stM BPTree BPRestart A :=
  t ← getS;
  n ← liftS (node_ref t id);
  liftS (map_err (fun _ => mkBPRestart) (f n)).

Definition update_lock_points (guard : InnerReadGuard) (level : Z) (points : WriteLockPoint * WriteLockPoint)
    : stM BPTree BPRestart (WriteLockPoint * WriteLockPoint) :=
  let '(overflow, underflow) := points in
  co ← read_node (g_node guard) (fun n => can_overflow n level);
  let overflow := if negb co then PInner guard level else overflow in
  wu ← read_node (g_node guard) will_underflow;
  let underflow := if negb wu then PInner guard level else underflow in
  mret (overflow, underflow).

(** The loop [while parent_level > 1]; [steps] is the number of levels above the last. *)
Fixpoint traverse_inner (steps : nat) (key : bytes) (parent_guard : InnerReadGuard) (parent_level : Z)
    (points : WriteLockPoint * WriteLockPoint)
    : stM BPTree BPRestart (InnerReadGuard * (WriteLockPoint * WriteLockPoint)) :=
  match steps with
  | O => mret (parent_guard, points)
  | S steps =>
      cur_node ← read_node (g_node parent_guard) (fun n => search_for_inner n key);
      cur_guard ← read_inner cur_node;
      _ ← inner_unlock_or_restart parent_guard;
      points ← update_lock_points cur_guard (parent_level - 1) points;
      traverse_inner steps key cur_guard (parent_level - 1) points
  end.

Definition try_read_traverse_leaf (key : bytes) : stM BPTree BPRestart ReadRes :=
  root_version ← read_root;
  t ← getS;
  match get_root t with
  | RLeaf page => mret (mkReadRes page PRoot PRoot)
  | RInner level node =>
      parent_guard ← read_inner node;
      _ ← root_unlock_or_restart root_version;
      points ← update_lock_points parent_guard level (PRoot, PRoot);
      '(parent_guard, points) ← traverse_inner (Z.to_nat (level - 1)) key parent_guard level points;
      leaf_cand ← read_node (g_node parent_guard) (fun n => search_for_leaf n key);
      _ ← inner_unlock_or_restart parent_guard;
      mret (mkReadRes leaf_cand (fst points) (snd points))
  end.

(** [for _ in 0..n { if let Ok(x) = f() { return Ok(x) } } Err(OLCRetriesExceeded)]; what a
    failed attempt leaves behind is kept. *)
Fixpoint retry {A} (n : nat) (f : stM BPTree BPRestart A) : stM BPTree QSError A := fun t =>
  match n with
  | O => (t, Err OLCRetriesExceeded)
  | S n => match f t with
           | (t, Ok a) => (t, Ok a)
           | (t, Err _) => retry n f t
           | (t, Halt h) => (t, Halt h)
           end
  end.

Definition read_traverse_leaf (key : bytes) : stM BPTree QSError ReadRes :=
  retry SPIN_RETRIES (try_read_traverse_leaf key).

(** ** Locking a path *)

Record LockedInner := mkLockedInner { l_level : Z; l_guard : Z }.
Record WriteLockBundle := mkBundle { root_lock : bool; chain : list LockedInner }.

(** Dropping guards, as the end of a scope or an early return does. *)
Definition drop_chain (ids : list Z) (t : BPTree) : BPTree := foldr drop_inner t ids.
Definition drop_bundle (b : WriteLockBundle) (t : BPTree) : BPTree :=
  let t := drop_chain (l_guard <$> chain b) t in if root_lock b then drop_root t else t.

(** [?] while the guards [held] are alive. *)
Definition or_drop {A} (drops : BPTree -> BPTree) (f : stM BPTree BPRestart A) : stM BPTree BPRestart A := fun t =>
  match f t with
  | (t, Err e) => (drops t, Err e)
  | r => r
  end.

(** The loop [while level > 1]. *)
Fixpoint lock_path (steps : nat) (has_root : bool) (key : bytes) (guard level : Z) (acc : list LockedInner)
    : stM BPTree BPRestart WriteLockBundle :=
  match steps with
  | O => mret (mkBundle has_root (acc ++ [mkLockedInner level guard]))
  | S steps =>
      let held := drop_bundle (mkBundle has_root (acc ++ [mkLockedInner level guard])) in
      next ← read_node guard (fun n => search_for_inner n key);
      next_guard ← or_drop held (write_inner next);
      lock_path steps has_root key next_guard (level - 1) (acc ++ [mkLockedInner level guard])
  end.

Definition lock_from_point (point : WriteLockPoint) (key : bytes) : stM BPTree BPRestart WriteLockBundle :=
  match point with
  | PRoot =>
      version ← read_root;
      _ ← root_upgrade version;
      t ← getS;
      match get_root t with
      | RLeaf _ => mret (mkBundle true [])
      | RInner level node =>
          g ← or_drop drop_root (write_inner node);
          lock_path (Z.to_nat (level - 1)) true key g level []
      end
  | PInner guard level =>
      first ← inner_upgrade guard;
      lock_path (Z.to_nat (level - 1)) false key first level []
  end.

Inductive OpType := Split | Merge.

Definition write_lock (point : WriteLockPoint) (op_type : OpType) (key : bytes)
    : stM BPTree QSError WriteLockBundle := fun t =>
  match lock_from_point point key t with
  | (t, Ok b) => (t, Ok b)
  | (t, Halt h) => (t, Halt h)
  | (t, Err _) =>
      retry SPIN_RETRIES
        (res ← try_read_traverse_leaf key;
         lock_from_point (match op_type with Split => overflow_point res | Merge => underflow_point res end) key) t
  end.

(** ** Splitting an inner node *)

Record InnerSplitPropagation := mkInnerSplit { is_pivot_key : bytes; right_node : Z }.

Definition split_inner_node (guard level : Z) (left_child : ChildPointer) (pivot_key : bytes)
    (right_child : ChildPointer) : stM BPTree QSError InnerSplitPropagation :=
  t ← getS;
  n ← liftS (node_ref t guard);
  let lowest_child := lowest_child_for_level n level in
  entries ← liftS (collect_entries n level);
  insert_idx ← liftS (find_insert_idx lowest_child left_child entries);
  let entries := vec_insert insert_idx (pivot_key, right_child) entries in
  let promote_idx := (length entries / 2)%nat in
  promote_entry ← liftS (expect (entries !! promote_idx));
  let entries := vec_remove promote_idx entries in
  let right_entries := drop promote_idx entries in
  let left_entries := take promote_idx entries in
  right_node_id ← alloc_inner_node;
  _ ← with_node guard (_ ← reset_for_level level lowest_child; append_all level left_entries);
  _ ← with_node right_node_id (_ ← reset_for_level level (snd promote_entry); append_all level right_entries);
  mret (mkInnerSplit (fst promote_entry) right_node_id).

(** ** Updates of the tree by a transaction (src/lib.rs) *)

Record PendingParentSplit := mkPending {
  p_left_child : ChildPointer; p_pivot_key : bytes; p_right_child : ChildPointer; p_child_level : Z }.

(** The loop [while idx > 0]: [above] are the locked nodes above the last one split, the
    nearest first. *)
Fixpoint bubble_loop (above : list LockedInner) (pending : PendingParentSplit)
    : stM BPTree QSError (option PendingParentSplit) :=
  match above with
  | [] => mret (Some pending)
  | mkLockedInner level guard :: above => fun t =>
      match with_node guard (insert_entry_after_child level (p_left_child pending) (p_pivot_key pending)
                               (p_right_child pending)) t with
      | (t, Ok _) => (t, Ok None)
      | (t, Err NodeFull) =>
          (split ← split_inner_node guard level (p_left_child pending) (p_pivot_key pending) (p_right_child pending);
           bubble_loop above (mkPending (Inner guard) (is_pivot_key split) (Inner (right_node split)) level)) t
      | (t, Err e) => (t, Err e)
      | (t, Halt h) => (t, Halt h)
      end
  end.

Definition bubble_split_up (lock_bundle : WriteLockBundle) (idx : nat) (pending : PendingParentSplit)
    : stM BPTree QSError unit :=
  r ← bubble_loop (reverse (take idx (chain lock_bundle))) pending;
  match r with
  | None => mret tt
  | Some pending =>
      _ ← liftS (rassert (root_lock lock_bundle));
      l ← liftS (as_inner (p_left_child pending));
      r ← liftS (as_inner (p_right_child pending));
      promote_inner_root l r (p_pivot_key pending) (p_child_level pending)
  end.

Definition insert_into_parents_after_leaf_split (lock_bundle : WriteLockBundle) (left_leaf : Z)
    (pivot_key : bytes) (right_leaf : Z) : stM BPTree QSError unit :=
  match last (chain lock_bundle) with
  | None => _ ← liftS (rassert (root_lock lock_bundle)); promote_leaf_root left_leaf right_leaf pivot_key
  | Some (mkLockedInner level guard) => fun t =>
      match with_node guard (insert_entry_after_child level (Leaf left_leaf) pivot_key (Leaf right_leaf)) t with
      | (t, Ok _) => (t, Ok tt)
      | (t, Err NodeFull) =>
          (split ← split_inner_node guard level (Leaf left_leaf) pivot_key (Leaf right_leaf);
           bubble_split_up lock_bundle (length (chain lock_bundle) - 1)
             (mkPending (Inner guard) (is_pivot_key split) (Inner (right_node split)) level)) t
      | (t, Err e) => (t, Err e)
      | (t, Halt h) => (t, Halt h)
      end
  end.

(** The [loop] over the ancestors, the nearest first; the child to remove is the
    ancestor's own id. *)
Fixpoint demote_loop (above : list LockedInner) (has_root : bool) (child : ChildPointer)
    : stM BPTree QSError unit :=
  match above with
  | [] => mret tt
  | mkLockedInner parent_level guard :: above =>
      demotion ← remove_child_after_merge guard parent_level child (Inner guard);
      match demotion, above with
      | Some child_ptr, [] => if has_root then demote_root_after_merge child_ptr parent_level else mret tt
      | Some child_ptr, _ => demote_loop above has_root child_ptr
      | None, _ => mret tt
      end
  end.

Definition remove_parent_after_merge (lock_bundle : WriteLockBundle) (survivor removed : Z)
    : stM BPTree QSError unit :=
  match reverse (chain lock_bundle) with
  | [] => mret tt
  | mkLockedInner level guard :: above =>
      demote ← remove_child_after_merge guard level (Leaf survivor) (Leaf removed);
      match demote with
      | None => mret tt
      | Some child =>
          match above with
          | [] => if root_lock lock_bundle then demote_root_after_merge child level else mret tt
          | _ => demote_loop above (root_lock lock_bundle) child
          end
      end
  end.

(** A computation that owns a bundle. *)
Definition dropping {A} (b : WriteLockBundle) (f : stM BPTree QSError A) : stM BPTree QSError A := fun t =>
  let '(t, r) := f t in (drop_bundle b t, r).

(** [lock_bundle_for_split] and the drop of the bundle at the end of [split_current_leaf],
    around the update of the parents; the page that the lock traversal found is checked
    against the leaf being split. *)
Definition split_parents (key : bytes) (left_leaf : Z) (pivot_key : bytes) (right_leaf : Z)
    : stM BPTree QSError unit :=
  res ← read_traverse_leaf key;
  bundle ← write_lock (overflow_point res) Split key;
  _ ← liftS (rassert (page res =? left_leaf));
  dropping bundle (insert_into_parents_after_leaf_split bundle left_leaf pivot_key right_leaf).

(** The same for [debug_merge_leaves] and [merge_leaf_pages]. *)
Definition merge_parents (merge_key : bytes) (survivor removed : Z) : stM BPTree QSError unit :=
  res ← read_traverse_leaf merge_key;
  bundle ← write_lock (underflow_point res) Merge merge_key;
  dropping bundle (remove_parent_after_merge bundle survivor removed).

(** ** Inspection *)

(** With one thread the version checks at the end cannot fail. *)
Definition debug_root_leaf_parent (t : BPTree) : outcome QSError (option (list bytes * list Z)) :=
  if is_locked_or_obsolete (root_vlock t) then Ok None
  else match get_root t with
       | RInner 1 node =>
           n ← node_ref t node;
           if is_locked_or_obsolete (vlock n) then Ok None
           else es ← mapM (fun idx => k ← get_key n idx; c ← get_leaf_child n idx; Ok (k, c)) (seq 0 (count n));
                Ok (Some (fst <$> es, lowest n :: (snd <$> es)))
       | _ => Ok None
       end.

Definition root_level (t : BPTree) : Z :=
  if is_locked_or_obsolete (root_vlock t) then 0
  else match get_root t with RLeaf _ => 0 | RInner level _ => level end.

(** * The abstract tree

    A tree is one leaf, or one leaf parent over its children: the shapes the operations
    below keep.  (A third level cannot be built, see [promote_inner_root_never_ok].) *)
Inductive abs_tree := ALeaf (p : Z) | AParent (low : Z) (es : list (bytes * Z)).

Definition aroute (a : abs_tree) (key : bytes) : Z :=
  match a with ALeaf p => p | AParent low es => route low es key end.
Definition achildren (a : abs_tree) : list Z :=
  match a with ALeaf p => [p] | AParent low es => low :: (snd <$> es) end.
Definition apivots (a : abs_tree) : list bytes :=
  match a with ALeaf _ => [] | AParent _ es => fst <$> es end.

Definition unlocked (v : Z) : Prop := 0 <= v < 2 ^ 64 /\ v mod 4 = 0.

(** The node [n] at [id] is the root, at level 1 and unlocked. *)
Record root_at (t : BPTree) (id : Z) (n : BPNode) : Prop := {
  ra_id : 0 <= id < 2 ^ 32;
  ra_root : root t = Z.lor (shl64 1 48) id;
  ra_slab : slab t !! id = Some n;
  ra_vlock : unlocked (vlock n) }.

(** It holds [es] above [low]. *)
Record parent_at (t : BPTree) (id : Z) (n : BPNode) (low : Z) (es : list (bytes * Z)) : Prop := {
  pa_root : root_at t id n;
  pa_repr : repr n low es;
  pa_some : es <> [];
  pa_sorted : pivots_sorted es;
  pa_nodup : NoDup (low :: (snd <$> es));
  pa_room : (footprint es < INLINE_BUFFER_LEN)%nat }.

(** An unlocked tree that holds [a]. *)
Definition tree_repr (t : BPTree) (a : abs_tree) : Prop :=
  unlocked (root_vlock t) /\ 0 <= next_free t < 2 ^ 32 /\ cap t < 2 ^ 32 /\
  match a with
  | ALeaf p => root t = p /\ 0 <= p < 2 ^ 48
  | AParent low es => exists id n, parent_at t id n low es
  end.

(** ** Words *)

Lemma get_root_leaf t : 0 <= root t < 2 ^ 48 -> get_root t = RLeaf (root t).
Proof.
  intros H. unfold get_root, shr64, u16. rewrite Z.shiftr_div_pow2 by lia.
  rewrite Z.div_small by lia. change (0 mod 2 ^ 16 =? 0) with true. cbn iota.
  f_equal. rewrite Z.land_ones by lia. by rewrite Z.mod_small.
Qed.

Lemma root_word level id :
  0 < level < 2 ^ 16 -> 0 <= id < 2 ^ 32 -> Z.lor (shl64 level 48) id = level * 2 ^ 48 + id.
Proof.
  intros Hl Hi. unfold shl64. rewrite Z.shiftl_mul_pow2 by lia. rewrite u64_small by (unfold is_u64; lia).
  rewrite <-Z.lxor_lor, <-Z.add_nocarry_lxor; [done| |].
  all: apply Z.bits_inj'; intros k Hk; rewrite Z.land_spec, Z.bits_0;
    (destruct (decide (k < 48)); [rewrite Z.mul_pow2_bits_low by lia; done|]);
    rewrite (testbit_above id 32 k) by lia; by rewrite andb_false_r.
Qed.

Lemma get_root_inner t level id :
  0 < level < 2 ^ 16 -> 0 <= id < 2 ^ 32 -> root t = Z.lor (shl64 level 48) id -> get_root t = RInner level id.
Proof.
  intros Hl Hi E. unfold get_root, shr64, u16, u32. rewrite E, root_word by done.
  rewrite Z.shiftr_div_pow2, Z.div_add_l, (Z.div_small id) by lia. rewrite Z.add_0_r, Z.mod_small by lia.
  rewrite (proj2 (Z.eqb_neq _ _)) by lia. f_equal.
  change (2 ^ 48) with (2 ^ 16 * 2 ^ 32). rewrite Z.mul_assoc, Z.add_comm, Z.mod_add by lia. by apply Z.mod_small.
Qed.

Lemma unlocked_free v : unlocked v -> is_locked_or_obsolete v = false.
Proof. intros [H E]. unfold is_locked_or_obsolete. change 3 with (Z.ones 2).
  rewrite Z.land_ones by lia. change (2 ^ 2) with 4. by rewrite E. Qed.

Lemma unlocked_lock {E} v : unlocked v -> lock_version (E := E) v = Ok (v + 2).
Proof.
  intros [H Hm]. unfold lock_version. rewrite (proj2 (Z.ltb_lt _ _)); [done|].
  apply Z.mod_divide in Hm as [k ->]; [|done]. change (2 ^ 64) with (4 * 2 ^ 62) in *. lia.
Qed.

Lemma unlocked_bump v : unlocked v -> unlocked (u64 (v + 2 + 2)).
Proof.
  intros [H Hm]. unfold unlocked, u64. split; [apply Z.mod_pos_bound; lia|].
  apply Z.mod_divide in Hm as [k ->]; [|done]. replace (k * 4 + 2 + 2) with ((k + 1) * 4) by lia.
  change (2 ^ 64) with (2 ^ 62 * 4). rewrite Z.mul_mod_distr_r by lia. by apply Z.mod_mul.
Qed.

Lemma set_vlock_repr v n low es : repr n low es -> repr (set_vlock v n) low es.
Proof. intros [? ? ? ? ? ? ?]. by split. Qed.

Lemma retry_ok {A} k (f : stM BPTree BPRestart A) t t' a :
  (0 < k)%nat -> f t = (t', Ok a) -> retry k f t = (t', Ok a).
Proof. destruct k; [lia|]. intros _ E. cbn [retry]. by rewrite E. Qed.

Lemma spin_pos : (0 < SPIN_RETRIES)%nat.
Proof. by apply Nat.ltb_lt. Qed.

Lemma traverse_root_leaf t p key :
  tree_repr t (ALeaf p) -> try_read_traverse_leaf key t = (t, Ok (mkReadRes p PRoot PRoot)).
Proof.
  intros (Hv & _ & _ & <- & Hp). unfold try_read_traverse_leaf, read_root.
  unfold mbind, stM_bind at 1. rewrite unlocked_free by done.
  unfold getS, stM_bind at 1. by rewrite get_root_leaf.
Qed.

(** ** A leaf parent as root *)
Section parent.
Context (t : BPTree) (id : Z) (n : BPNode).
Context (Hv : unlocked (root_vlock t)) (Hp : root_at t id n).

Lemma parent_root : get_root t = RInner 1 id.
Proof. apply get_root_inner; [lia|apply Hp|apply Hp]. Qed.

Lemma read_inner_parent : read_inner id t = (t, Ok (mkReadGuard (vlock n) id)).
Proof.
  unfold read_inner, mbind, stM_bind, getS, liftS, node_ref. rewrite (ra_slab _ _ _ Hp).
  by rewrite unlocked_free by apply Hp.
Qed.

Lemma read_node_parent {A} (f : BPNode -> outcome QSError A) a : f n = Ok a -> read_node id f t = (t, Ok a).
Proof.
  intros E. unfold read_node, mbind, stM_bind, getS, liftS, node_ref. rewrite (ra_slab _ _ _ Hp).
  cbn [map_err]. by rewrite E.
Qed.

Lemma unlock_parent : inner_unlock_or_restart (mkReadGuard (vlock n) id) t = (t, Ok tt).
Proof.
  unfold inner_unlock_or_restart, mbind, stM_bind, getS, liftS, node_ref. cbn [g_node g_version].
  rewrite (ra_slab _ _ _ Hp). by rewrite Z.eqb_refl.
Qed.

(** The lock points of a traversal: the root, or the parent when it has room. *)
Definition point_of (at_parent : bool) : WriteLockPoint :=
  if at_parent then PInner (mkReadGuard (vlock n) id) 1 else PRoot.

Lemma points_parent space :
  space_left n = Ok space ->
  exists co wu, can_overflow n 1 = Ok co /\ will_underflow n = Ok wu /\
    update_lock_points (mkReadGuard (vlock n) id) 1 (PRoot, PRoot) t =
      (t, Ok (point_of (negb co), point_of (negb wu))).
Proof.
  intros Hs.
  assert (exists co, can_overflow n 1 = Ok co) as [co Hco] by (eexists; unfold can_overflow; by rewrite Hs).
  assert (exists wu, will_underflow n = Ok wu) as [wu Hwu] by (eexists; unfold will_underflow; by rewrite Hs).
  exists co, wu. split; [done|]. split; [done|]. unfold update_lock_points. cbn [g_node].
  rewrite (bindS_ok _ _ t t co (read_node_parent (fun n => can_overflow n 1) co Hco)). cbv zeta.
  rewrite (bindS_ok _ _ t t wu (read_node_parent will_underflow wu Hwu)). cbv zeta.
  by destruct co, wu.
Qed.

Lemma traverse_parent space key c :
  space_left n = Ok space -> search_for_leaf n key = Ok c ->
  exists co wu, can_overflow n 1 = Ok co /\ will_underflow n = Ok wu /\
    try_read_traverse_leaf key t = (t, Ok (mkReadRes c (point_of (negb co)) (point_of (negb wu)))).
Proof.
  intros Hs Hc. destruct (points_parent space Hs) as (co & wu & Hco & Hwu & Hpts). exists co, wu.
  split; [done|]. split; [done|].
  unfold try_read_traverse_leaf. rewrite (bindS_ok _ _ t t (root_vlock t)).
  2: { unfold read_root. by rewrite unlocked_free by done. }
  run_pure t t. rewrite parent_root.
  rewrite (bindS_ok _ _ t t _ read_inner_parent). rewrite (bindS_ok _ _ t t tt).
  2: { unfold root_unlock_or_restart. by rewrite Z.eqb_refl. }
  rewrite (bindS_ok _ _ t t _ Hpts). change (Z.to_nat (1 - 1)) with 0%nat. cbn [traverse_inner].
  rewrite (bindS_ok _ _ t t (mkReadGuard (vlock n) id, (point_of (negb co), point_of (negb wu)))) by done.
  cbv beta iota. cbn [g_node].
  rewrite (bindS_ok _ _ t t c (read_node_parent (fun n => search_for_leaf n key) c Hc)).
  by rewrite (bindS_ok _ _ t t tt unlock_parent).
Qed.

(** The tree with the parent, and the root when [r], locked. *)
Definition locked (r : bool) : BPTree :=
  set_node id (set_vlock (vlock n + 2) n) (if r then set_root_vlock (root_vlock t + 2) t else t).

Lemma lock_parent at_parent key :
  lock_from_point (point_of at_parent) key t =
    (locked (negb at_parent), Ok (mkBundle (negb at_parent) [mkLockedInner 1 id])).
Proof.
  assert (forall s, slab s !! id = Some n ->
    inner_upgrade (mkReadGuard (vlock n) id) s = (set_node id (set_vlock (vlock n + 2) n) s, Ok id)) as Hup.
  { intros s Hs. unfold inner_upgrade. cbn [g_version g_node].
    rewrite (bindS_ok _ _ s s (vlock n + 2)). 2: { unfold liftS. by rewrite unlocked_lock by apply Hp. }
    rewrite (bindS_ok _ _ s (set_node id (set_vlock (vlock n + 2) n) s) tt); [done|].
    unfold cas_inner. by rewrite Hs, Z.eqb_refl. }
  pose proof (ra_slab _ _ _ Hp) as Hs.
  destruct at_parent; cbn [point_of negb]; unfold lock_from_point.
  { rewrite (bindS_ok _ _ t _ id (Hup t Hs)). by change (Z.to_nat (1 - 1)) with 0%nat. }
  rewrite (bindS_ok _ _ t t (root_vlock t)). 2: { unfold read_root. by rewrite unlocked_free by done. }
  set (t1 := set_root_vlock (root_vlock t + 2) t).
  rewrite (bindS_ok _ _ t t1 tt).
  2: { unfold root_upgrade. rewrite (bindS_ok _ _ t t (root_vlock t + 2)).
       - unfold cas_root. by rewrite Z.eqb_refl.
       - unfold liftS. by rewrite unlocked_lock by done. }
  run_pure t1 t1.
  change (get_root t1) with (get_root t). rewrite parent_root.
  rewrite (bindS_ok _ _ t1 (locked true) id).
  2: { unfold or_drop, write_inner. rewrite (bindS_ok _ _ t1 t1 (mkReadGuard (vlock n) id)).
       - by rewrite Hup.
       - unfold read_inner, mbind, stM_bind, getS, liftS, node_ref. cbn [slab t1 set_root_vlock].
         rewrite Hs. by rewrite unlocked_free by apply Hp. }
  by change (Z.to_nat (1 - 1)) with 0%nat.
Qed.

Lemma with_node_locked {A} r (f : stM BPNode QSError A) n' res :
  f (set_vlock (vlock n + 2) n) = (n', res) -> with_node id f (locked r) = (set_node id n' (locked r), res).
Proof.
  intros E. unfold with_node. unfold locked at 1. cbn [slab set_node]. rewrite lookup_insert_eq. by rewrite E.
Qed.

(** Dropping the bundle after the parent was changed. *)
Lemma finish_parent r n' :
  vlock n' = vlock n + 2 ->
  let t' := drop_bundle (mkBundle r [mkLockedInner 1 id]) (set_node id n' (locked r)) in
  unlocked (root_vlock t') /\ next_free t' = next_free t /\ cap t' = cap t /\
  root_at t' id (set_vlock (u64 (vlock n + 2 + 2)) n').
Proof.
  intros V t'.
  assert (t' = (if r then set_root_vlock (u64 (root_vlock t + 2 + 2)) else fun x => x)
                 (set_node id (set_vlock (u64 (vlock n + 2 + 2)) n') t)) as ->.
  { unfold t', drop_bundle, drop_chain. cbn [root_lock chain fmap list_fmap l_guard foldr].
    unfold drop_inner. cbn [slab set_node]. rewrite lookup_insert_eq, V. destruct r; unfold locked, drop_root;
      unfold set_node, set_root_vlock; cbn; by rewrite !insert_insert_eq. }
  split; [destruct r; cbn; [by apply unlocked_bump|done]|].
  split; [by destruct r|]. split; [by destruct r|].
  split; [apply Hp| | |].
  - by destruct r; cbn; apply Hp.
  - destruct r; cbn; by rewrite lookup_insert_eq.
  - cbn. apply unlocked_bump, Hp.
Qed.
End parent.

(** ** Splits and merges of the abstract tree *)

Definition asplit (a : abs_tree) (left : Z) (p : bytes) (right : Z) : option abs_tree :=
  match a with
  | ALeaf q => if decide (q = left) then Some (AParent left [(p, right)]) else None
  | AParent low es => AParent low <$> insert_after low left (p, right) es
  end.

(** There is room for the new pivot: a slot of the slab for a new root, or strictly more
    bytes in the parent than the pivot takes. *)
Definition room_for_split (t : BPTree) (a' : abs_tree) : Prop :=
  match a' with
  | AParent _ [_] => next_free t < cap t
  | AParent _ es => (footprint es < INLINE_BUFFER_LEN)%nat
  | ALeaf _ => True
  end.

Lemma insert_after_perm low left e es es' : insert_after low left e es = Some es' -> es' ≡ₚ e :: es.
Proof. intros (es1 & es2 & -> & -> & _)%insert_after_split. by rewrite Permutation_middle. Qed.

Lemma locked_root_leaf t p :
  tree_repr t (ALeaf p) ->
  forall key, lock_from_point PRoot key t = (set_root_vlock (root_vlock t + 2) t, Ok (mkBundle true [])).
Proof.
  intros (Hv & _ & _ & <- & Hp) key. unfold lock_from_point.
  rewrite (bindS_ok _ _ t t (root_vlock t)). 2: { unfold read_root. by rewrite unlocked_free by done. }
  set (t1 := set_root_vlock (root_vlock t + 2) t).
  rewrite (bindS_ok _ _ t t1 tt).
  2: { unfold root_upgrade. rewrite (bindS_ok _ _ t t (root_vlock t + 2)).
       - unfold cas_root. by rewrite Z.eqb_refl.
       - unfold liftS. by rewrite unlocked_lock by done. }
  run_pure t1 t1. change (get_root t1) with (get_root t). by rewrite get_root_leaf.
Qed.

Lemma write_lock_ok p op key t t' b :
  lock_from_point p key t = (t', Ok b) -> write_lock p op key t = (t', Ok b).
Proof. intros E. unfold write_lock. by rewrite E. Qed.

(** The first split: the root leaf gets a parent. *)
Lemma split_root_leaf t p key left pv right :
  tree_repr t (ALeaf p) -> p = left -> entry_ok (pv, right) -> right <> left -> next_free t < cap t ->
  exists t', split_parents key left pv right t = (t', Ok tt) /\ tree_repr t' (AParent left [(pv, right)]).
Proof.
  intros Ht -> Hok Hne Hroom. pose proof Ht as (Hv & Hnf & Hcap & Hroot & Hl).
  unfold split_parents. unfold read_traverse_leaf.
  rewrite (bindS_ok _ _ t t _ (retry_ok _ _ _ _ _ spin_pos (traverse_root_leaf t left key Ht))).
  cbn [overflow_point page]. set (t1 := set_root_vlock (root_vlock t + 2) t).
  rewrite (bindS_ok _ _ t t1 (mkBundle true [])) by (by apply write_lock_ok, (locked_root_leaf _ _ Ht)).
  rewrite (bindS_ok _ _ t1 t1 tt) by (by rewrite Z.eqb_refl).
  destruct (init_leaf_parent_repr blank left right pv) as (n' & E & R & V); [apply (length_replicate INLINE_BUFFER_LEN)|done|].
  unfold dropping, insert_into_parents_after_leaf_split. cbn [chain last root_lock].
  run_pure t1 tt. unfold promote_leaf_root.
  set (idx := next_free t).
  set (t2 := set_node idx blank (mkBPTree (slab t1) (cap t1) (root t1) (root_vlock t1) (u32 (idx + 1)) (free_list t1))).
  rewrite (bindS_ok _ _ t1 t2 idx).
  2: { unfold alloc_inner_node. cbn [next_free cap t1 set_root_vlock].
       by rewrite (proj2 (Z.leb_gt _ _)) by done. }
  rewrite (bindS_ok _ _ t2 (set_node idx n' t2) tt).
  2: { unfold with_node. cbn [slab t2 set_node]. rewrite lookup_insert_eq. by rewrite E. }
  unfold set_inner, modify. eexists. split; [reflexivity|].
  unfold drop_bundle, drop_chain. cbn [root_lock chain fmap list_fmap foldr].
  split; [by apply unlocked_bump|]. split; [by apply Z.mod_pos_bound|]. split; [done|].
  exists idx, n'. split; [split; [done|done| |]|try done..].

  - cbn. by rewrite lookup_insert_eq.
  - rewrite V. by split.
  - repeat constructor.
  - apply NoDup_cons. split; [set_solver|]. apply NoDup_singleton.
  - destruct Hok as [Hlen _]. unfold footprint, payload. unf. simpl in *. lia.
Qed.

Lemma root_leaf_parent_at t id n low es (Hv : unlocked (root_vlock t)) (Hp : parent_at t id n low es) :
  debug_root_leaf_parent t = Ok (Some (fst <$> es, low :: (snd <$> es))).
Proof.
  destruct Hp as [[Hid Hroot Hs Hvl] Hr _ _ _ _]. unfold debug_root_leaf_parent.
  rewrite (unlocked_free _ Hv), (get_root_inner t 1 id) by (done || lia). unfold node_ref. rewrite Hs. cbn [mbind outcome_bind].
  rewrite (unlocked_free _ Hvl), (repr_count _ _ _ Hr), (repr_low _ _ _ Hr).
  rewrite (mapM_ok _ (fun i => default ([], 0) (es !! i))).
  - by rewrite fmap_lookup_seq.
  - intros i Hi%elem_of_seq. destruct (lookup_lt_is_Some_2 es i) as [[k c] He]; [lia|].
    rewrite He, (repr_get_key _ _ _ Hr i _ He), (repr_get_child _ _ _ Hr i _ He). done.
Qed.

Lemma traverse_at t id n low es (Hv : unlocked (root_vlock t)) (Hp : parent_at t id n low es) key :
  exists co wu, can_overflow n 1 = Ok co /\ will_underflow n = Ok wu /\
    try_read_traverse_leaf key t =
      (t, Ok (mkReadRes (route low es key) (point_of id n (negb co)) (point_of id n (negb wu)))).
Proof.
  destruct Hp as [Hr R Hne Hs Hnd Hf].
  exact (traverse_parent t id n Hv Hr _ key _ (space_left_repr n low es R Hf) (search_for_leaf_route n low es key R Hs Hne)).
Qed.

(** Traversing and locking for an update of a leaf parent. *)
Lemma split_parents_locked t id n low es key p right :
  unlocked (root_vlock t) -> parent_at t id n low es ->
  exists co, can_overflow n 1 = Ok co /\
    split_parents key (route low es key) p right t =
      dropping (mkBundle co [mkLockedInner 1 id])
        (insert_into_parents_after_leaf_split (mkBundle co [mkLockedInner 1 id]) (route low es key) p right)
        (locked t id n co).
Proof.
  intros Hv Hp. destruct (traverse_at t id n low es Hv Hp key) as (co & wu & Hco & _ & E).
  exists co. split; [done|]. unfold split_parents, read_traverse_leaf.
  rewrite (bindS_ok _ _ t t _ (retry_ok _ _ _ _ _ spin_pos E)). cbn [overflow_point page].
  pose proof (lock_parent t id n Hv (pa_root _ _ _ _ _ Hp) (negb co) key) as El. rewrite negb_involutive in El.
  rewrite (bindS_ok _ _ _ _ _ (write_lock_ok _ _ _ _ _ _ El)).
  by rewrite (bindS_ok _ _ (locked t id n co) (locked t id n co) tt) by (by rewrite Z.eqb_refl).
Qed.

Lemma split_parent t low es key p right es' :
  tree_repr t (AParent low es) -> entry_ok (p, right) ->
  insert_after low (route low es key) (p, right) es = Some es' -> right ∉ low :: (snd <$> es) ->
  pivots_sorted es' -> (footprint es' < INLINE_BUFFER_LEN)%nat ->
  exists t', split_parents key (route low es key) p right t = (t', Ok tt) /\ tree_repr t' (AParent low es').
Proof.
  intros (Hv & Hnf & Hcap & id & n & Hp) Hok Hi Hnew Hs Hf.
  destruct (split_parents_locked t id n low es key p right Hv Hp) as (co & _ & ->).
  pose proof (set_vlock_repr (vlock n + 2) n low es (pa_repr _ _ _ _ _ Hp)) as R0.
  destruct (insert_child_ok _ low es R0 (route low es key) right p Hok es' Hi) as (n' & E & R & V); [lia|].
  unfold dropping, insert_into_parents_after_leaf_split. cbn [chain last].
  rewrite (with_node_locked t id n _ _ _ _ E).
  eexists. split; [reflexivity|].
  destruct (finish_parent t id n Hv (pa_root _ _ _ _ _ Hp) co n' V) as (H1 & H2 & H3 & Hm).
  split; [done|]. rewrite H2, H3. split; [done|]. split; [done|]. eexists _, _.
  split; [done|by apply set_vlock_repr|by eapply insert_after_nonempty|done| |done].
  rewrite (insert_after_perm _ _ _ _ _ Hi). cbn [fmap list_fmap snd].
  rewrite Permutation_swap. apply NoDup_cons. split; [done|apply Hp].
Qed.

Lemma promote_inner_fails l r p lv t t' : 0 < lv -> promote_inner_root l r p lv t <> (t', Ok tt).
Proof.
  intros Hl. unfold promote_inner_root.
  intros (_ & t1 & _ & (i & t2 & _ & ([] & t3 & Hw & _)%bindS_inv)%bindS_inv)%bindS_inv.
  unfold with_node in Hw. destruct (slab t2 !! i) as [m|]; [|done].
  match type of Hw with (let '(_, _) := ?x in _) = _ => destruct x as [m' y] eqn:E end. injection Hw as _ ->.
  apply bindS_inv in E as (_ & m1 & _ & E).
  assert (forall lv, 1 < lv -> append_entry_for_level lv p (Inner r) = append_inner_entry p r) as Ha.
  { intros [|[q|q|]|q] Hq; try lia; done. }
  rewrite Ha in E by lia. by apply (append_inner_entry_never_ok m1 p r); rewrite E.
Qed.

Lemma append_all_over n low es0 es :
  repr n low es0 -> Forall entry_ok es -> (INLINE_BUFFER_LEN < footprint (es0 ++ es))%nat ->
  forall n', append_all 1 (leaf_entries es) n <> (n', Ok tt).
Proof.
  revert n es0. induction es as [|e es IH]; intros n es0 Hr Hok Hf n' E.
  { rewrite app_nil_r in Hf. pose proof (footprint_le _ _ _ Hr). lia. }
  apply Forall_cons_iff in Hok as [He Hok]. rewrite leaf_entries_cons in E. unfold append_all in E.
  rewrite forM_cons in E. apply bindS_inv in E as ([] & n1 & E1 & E). cbn [fst snd append_entry_for_level] in E1.
  rewrite (bindS_ok _ _ n n (snd e)) in E1 by done.
  destruct (decide (footprint (es0 ++ [e]) <= INLINE_BUFFER_LEN)%nat) as [Hfit|Hbig].
  - destruct (append_leaf_entry_ok n low es0 e Hr He Hfit) as (n2 & E2 & R2 & _).
    rewrite E2 in E1. injection E1 as ->. apply (IH n1 (es0 ++ [e]) R2 Hok) in E; [done|].
    by rewrite <-(assoc_L (++)).
  - destruct (decide (footprint es0 = INLINE_BUFFER_LEN)) as [Heq|Hne].
    + unfold append_leaf_entry in E1. destruct He as [Hl _].
      rewrite (proj2 (Nat.ltb_ge MAX_KEY_LENGTH (length (fst e)))) in E1 by done.
      unfold getS, liftS, mbind, stM_bind in E1. by rewrite (space_left_full n low es0 Hr Heq) in E1.
    + pose proof (footprint_le _ _ _ Hr). by rewrite (append_leaf_entry_full n low es0 e Hr He) in E1 by lia.
Qed.

(** When the parent of the leaves is full, no split of a leaf below it succeeds: the root
    above it cannot be built. *)
Lemma split_parent_full t low es key p right es' t' :
  tree_repr t (AParent low es) -> entry_ok (p, right) ->
  insert_after low (route low es key) (p, right) es = Some es' -> (INLINE_BUFFER_LEN < footprint es')%nat ->
  split_parents key (route low es key) p right t <> (t', Ok tt).
Proof.
  intros (Hv & Hnf & Hcap & id & n & Hp) Hok Hi Hf.
  destruct (split_parents_locked t id n low es key p right Hv Hp) as (co & Hco & ->).
  pose proof (set_vlock_repr (vlock n + 2) n low es (pa_repr _ _ _ _ _ Hp)) as R0.
  unfold dropping, insert_into_parents_after_leaf_split. cbn [chain last length Nat.sub].
  destruct (insert_entry_after_child 1 (Leaf (route low es key)) p (Leaf right) (set_vlock (vlock n + 2) n))
    as [n' res] eqn:E.
  rewrite (with_node_locked t id n _ _ _ _ E).
  rewrite (insert_after_child_unfold _ low es _ p right R0), Hi in E.
  destruct (reset_repr _ low es low R0) as (n1 & E1 & R1 & _).
  rewrite (bindS_ok _ _ _ _ _ E1) in E.
  assert (Forall entry_ok es') as Hall.
  { eapply insert_after_ok; [done..|]. apply (repr_ok _ _ _ (pa_repr _ _ _ _ _ Hp)). }
  pose proof (append_all_over n1 low [] es' R1 Hall Hf n') as Hno.
  destruct res as [[]|e|h]; [by rewrite E in Hno| |done].
  destruct e; try done.
  intros Hw. match type of Hw with (let '(_, _) := ?x in _) = _ => destruct x as [t2 y] eqn:Es end. injection Hw as _ ->.
  apply bindS_inv in Es as (sp & t3 & _ & Es). unfold bubble_split_up in Es. cbn [chain take] in Es.
  rewrite (bindS_ok _ _ t3 t3 (Some (mkPending (Inner id) (is_pivot_key sp) (Inner (right_node sp)) 1))) in Es by done.
  apply bindS_inv in Es as (_ & t4 & _ & (l & t5 & _ & (r & t6 & _ & Es)%bindS_inv)%bindS_inv).
  cbn [p_pivot_key p_child_level] in Es. by apply promote_inner_fails in Es.
Qed.

(** ** Merges *)

Lemma merge_parents_locked t id n low es key s r :
  unlocked (root_vlock t) -> parent_at t id n low es ->
  exists wu, will_underflow n = Ok wu /\
    merge_parents key s r t =
      dropping (mkBundle wu [mkLockedInner 1 id])
        (remove_parent_after_merge (mkBundle wu [mkLockedInner 1 id]) s r) (locked t id n wu).
Proof.
  intros Hv Hp. destruct (traverse_at t id n low es Hv Hp key) as (co & wu & _ & Hwu & E).
  exists wu. split; [done|]. unfold merge_parents, read_traverse_leaf.
  rewrite (bindS_ok _ _ t t _ (retry_ok _ _ _ _ _ spin_pos E)). cbn [underflow_point].
  pose proof (lock_parent t id n Hv (pa_root _ _ _ _ _ Hp) (negb wu) key) as El. rewrite negb_involutive in El.
  by rewrite (bindS_ok _ _ _ _ _ (write_lock_ok _ _ _ _ _ _ El)).
Qed.

Lemma pivots_sorted_remove es1 e es2 : pivots_sorted (es1 ++ e :: es2) -> pivots_sorted (es1 ++ es2).
Proof.
  unfold pivots_sorted. intros Hs. rewrite fmap_app in *. rewrite fmap_cons in Hs.
  induction (es1.*1) as [|k ks IH]; cbn [app] in *.
  - by apply StronglySorted_cons in Hs as [_ ?].
  - apply StronglySorted_cons in Hs as [Hk Hs]. apply StronglySorted_cons. split; [|by apply IH].
    apply Forall_app in Hk as [? Hk]. apply Forall_cons_iff in Hk as [_ ?]. by apply Forall_app.
Qed.

Lemma merge_parent t low es key s r es' :
  tree_repr t (AParent low es) -> remove_after low s r es = Some es' -> es' <> [] ->
  exists t', merge_parents key s r t = (t', Ok tt) /\ tree_repr t' (AParent low es').
Proof.
  intros (Hv & Hnf & Hcap & id & n & Hp) Hi Hne.
  destruct (merge_parents_locked t id n low es key s r Hv Hp) as (wu & _ & ->).
  pose proof (set_vlock_repr (vlock n + 2) n low es (pa_repr _ _ _ _ _ Hp)) as R0.
  destruct (remove_child_ok _ low es R0 s r es' Hi) as (n' & E & R & V).
  unfold dropping, remove_parent_after_merge. cbn [chain]. unfold remove_child_after_merge.
  change (reverse [mkLockedInner 1 id]) with [mkLockedInner 1 id]. cbv iota.
  rewrite (bindS_ok _ _ _ _ _ (with_node_locked t id n _ _ _ _ E)).
  destruct es' as [|e es']; [done|]. eexists. split; [reflexivity|].
  destruct (finish_parent t id n Hv (pa_root _ _ _ _ _ Hp) wu n' V) as (H1 & H2 & H3 & Hm).
  split; [done|]. rewrite H2, H3. split; [done|]. split; [done|]. eexists _, _.
  destruct (remove_after_split _ _ _ _ _ Hi) as (es1 & k & es2 & -> & Hes & _). rewrite Hes in *.
  split; [done|by apply set_vlock_repr|done| | |].
  - eapply pivots_sorted_remove. apply Hp.
  - pose proof (pa_nodup _ _ _ _ _ Hp) as Hnd. rewrite fmap_app, fmap_cons in Hnd. rewrite fmap_app.
    rewrite <-Permutation_middle in Hnd. rewrite Permutation_swap in Hnd. by apply NoDup_cons in Hnd as [_ ?].
  - pose proof (pa_room _ _ _ _ _ Hp) as Hf. rewrite (cons_middle (k, r)), !footprint_app in *. lia.
Qed.

(** The node a merge of the last two children leaves: the descriptor of the removed child is
    still in the buffer, and [search_for_leaf] reads it although the count is zero. *)
Lemma search_stale n low p r v key :
  repr n low [(p, r)] ->
  search_for_leaf (mkBPNode v 0 (INLINE_BUFFER_LEN - 1) low (rest n)) key = Ok (route low [(p, r)] key).
Proof.
  intros R. set (m := mkBPNode _ _ _ _ _).
  pose proof (repr_get_key n low [(p, r)] R 0 (p, r) eq_refl) as Hk.
  pose proof (repr_get_child n low [(p, r)] R 0 (p, r) eq_refl) as Hc.
  change (get_key n 0) with (get_key m 0) in Hk. change (get_leaf_child n 0) with (get_leaf_child m 0) in Hc.
  unfold search_for_leaf. change (binary_search m key) with (Ok (E := QSError) 0%nat). cbn [mbind outcome_bind].
  rewrite Hk. cbn [mbind outcome_bind fst route].
  destruct (bytes_leb p key) eqn:El.
  - apply bytes_leb_le in El. destruct (bytes_ltb key p) eqn:Eq; [|exact Hc].
    apply bytes_ltb_lt in Eq. by apply bytes_le_nlt in El.
  - apply bytes_leb_false, bytes_ltb_lt in El. by rewrite El.
Qed.

(** A parent of two children is said not to underflow: the comparison is the wrong way. *)
Lemma one_pivot_underflow n low e : repr n low [e] -> will_underflow n = Ok false.
Proof.
  intros R. pose proof (repr_ok _ _ _ R) as Hok. apply Forall_singleton in Hok as [Hl _].
  assert (footprint [e] < 100)%nat as Hf by (unfold footprint, payload; unf; simpl; lia).
  unfold will_underflow. rewrite (space_left_repr n low _ R) by (unfold INLINE_BUFFER_LEN; lia).
  cbn [mbind outcome_bind]. f_equal. apply Nat.leb_gt. unfold INLINE_BUFFER_LEN.
  change (4072 / 2)%nat with 2036%nat. lia.
Qed.

Lemma merge_last_parent t low p r key :
  tree_repr t (AParent low [(p, r)]) ->
  exists t' id, merge_parents key low r t = (t', Ok tt) /\ get_root t' = RInner 1 id /\
    forall k, exists res, read_traverse_leaf k t' = (t', Ok res) /\ page res = route low [(p, r)] k.
Proof.
  intros (Hv & Hnf & Hcap & id & n & Hp).
  destruct (merge_parents_locked t id n low _ key low r Hv Hp) as (wu & Hwu & ->).
  assert (wu = false) as ->.
  { assert (will_underflow n = Ok false) as Hw by (eapply one_pivot_underflow, Hp). rewrite Hw in Hwu. by inversion Hwu. }
  set (n0 := set_vlock (vlock n + 2) n).
  pose proof (set_vlock_repr (vlock n + 2) n low _ (pa_repr _ _ _ _ _ Hp)) as R0. fold n0 in R0.
  set (n' := mkBPNode (vlock n + 2) 0 (INLINE_BUFFER_LEN - 1) low (rest n)).
  assert (remove_entry_for_merge 1 (Leaf low) (Leaf r) n0 = (n', Ok (Some (Leaf low)))) as E.
  { rewrite (remove_entry_unfold n0 low [(p, r)] low r R0).
    replace (remove_after low low r [(p, r)]) with (Some (@nil (bytes * Z))); [reflexivity|].
    pose proof (pa_nodup _ _ _ _ _ Hp) as Hnd. apply NoDup_cons in Hnd as [Hnd _]. cbn in Hnd.
    unfold remove_after, index_of. cbn [fmap list_fmap snd list_find].
    rewrite (decide_True (P := low = low)) by done. cbn [option_fmap option_map fst mbind option_bind fmap].
    rewrite (decide_False (P := low = r)) by set_solver. rewrite (decide_True (P := r = r)) by done.
    cbn. by rewrite decide_True. }
  unfold dropping, remove_parent_after_merge. cbn [chain root_lock]. unfold remove_child_after_merge.
  change (reverse [mkLockedInner 1 id]) with [mkLockedInner 1 id]. cbv iota.
  rewrite (bindS_ok _ _ _ _ _ (with_node_locked t id n _ _ _ _ E)).
  eexists _, id. split; [reflexivity|].
  destruct (finish_parent t id n Hv (pa_root _ _ _ _ _ Hp) false n' eq_refl) as (H1 & H2 & H3 & Hm).
  split; [by eapply parent_root|]. intros k.
  destruct (traverse_parent _ _ _ H1 Hm INLINE_BUFFER_LEN k (route low [(p, r)] k)) as (co & wu & _ & _ & Et).
  { done. }
  { apply (search_stale n low p r _ k), (pa_repr _ _ _ _ _ Hp). }
  eexists. split; [exact (retry_ok _ _ _ _ _ spin_pos Et)|done].
Qed.

Lemma traverse_abs t a key :
  tree_repr t a -> exists res, read_traverse_leaf key t = (t, Ok res) /\ page res = aroute a key.
Proof.
  intros Ht. destruct a as [p|low es].
  - eexists. split; [exact (retry_ok _ _ _ _ _ spin_pos (traverse_root_leaf t p key Ht))|done].
  - destruct Ht as (Hv & _ & _ & id & n & Hp).
    destruct (traverse_at t id n low es Hv Hp key) as (co & wu & _ & _ & E).
    eexists. split; [exact (retry_ok _ _ _ _ _ spin_pos E)|done].
Qed.

Lemma tree_nodup t low es : tree_repr t (AParent low es) -> NoDup (low :: (snd <$> es)).
Proof. intros (_ & _ & _ & id & n & Hp). apply Hp. Qed.

(** * Properties *)

(** C12. A leaf split reaches the tree: recording that the leaf a key routes to was split at a
    pivot succeeds while there is room, the tree then holds the new pivot and is unlocked
    again, and every traversal sends the keys of the split leaf from the pivot on to the new
    leaf and all other keys where they went before. *)
Theorem tree_leaf_split_correct t a key p right a' :
  tree_repr t a -> entry_ok (p, right) -> right ∉ achildren a ->
  asplit a (aroute a key) p right = Some a' -> StronglySorted bytes_lt (apivots a') -> room_for_split t a' ->
  exists t', split_parents key (aroute a key) p right t = (t', Ok tt) /\ tree_repr t' a' /\
    forall k, exists res, read_traverse_leaf k t' = (t', Ok res) /\
      page res = if decide (aroute a k = aroute a key) then (if bytes_leb p k then right else aroute a key)
                 else aroute a k.
Proof.
  intros Ht Hok Hnew Ha Hs Hroom.
  assert (exists t', split_parents key (aroute a key) p right t = (t', Ok tt) /\ tree_repr t' a') as (t' & E & Ht').
  { destruct a as [q|low es]; cbn [asplit aroute] in *.
    - rewrite decide_True in Ha by done. injection Ha as <-.
      eapply split_root_leaf; [done..| |done]. intros ->. apply Hnew. cbn. set_solver.
    - apply fmap_Some in Ha as (es' & Hi & ->). eapply split_parent; [done..|].
      pose proof (insert_after_perm _ _ _ _ _ Hi) as Hperm. apply Permutation_length in Hperm.
      destruct Ht as (_ & _ & _ & id & n & Hp). pose proof (pa_some _ _ _ _ _ Hp).
      destruct es' as [|e1 [|e2 es']]; [done|destruct es; simpl in Hperm; [done|lia]|done]. }
  exists t'. split; [done|]. split; [done|]. intros k.
  destruct (traverse_abs t' a' k Ht') as (res & Er & Hres). exists res. split; [done|]. rewrite Hres.
  destruct a as [q|low es]; cbn [asplit aroute] in *.
  - rewrite decide_True in Ha by done. injection Ha as <-. by rewrite decide_True.
  - apply fmap_Some in Ha as (es' & Hi & ->). cbn [aroute].
    destruct (insert_after_split _ _ _ _ _ Hi) as (es1 & es2 & -> & -> & Hleft).
    rewrite route_split; [by rewrite Hleft|by eapply tree_nodup|done].
Qed.

(** C26. A merge reaches the tree: as long as a pivot is left, removing the merged leaf succeeds
    and every traversal sends its keys to the surviving neighbour. *)
Theorem tree_merge_correct t low es key s r es' :
  tree_repr t (AParent low es) -> remove_after low s r es = Some es' -> es' <> [] ->
  exists t', merge_parents key s r t = (t', Ok tt) /\ tree_repr t' (AParent low es') /\
    forall k, exists res, read_traverse_leaf k t' = (t', Ok res) /\
      page res = if decide (route low es k = r) then s else route low es k.
Proof.
  intros Ht Hi Hne. destruct (merge_parent t low es key s r es' Ht Hi Hne) as (t' & E & Ht').
  exists t'. split; [done|]. split; [done|]. intros k.
  destruct (traverse_abs t' _ k Ht') as (res & Er & Hres). exists res. split; [done|]. rewrite Hres. cbn [aroute].
  pose proof (tree_nodup _ _ _ Ht). destruct Ht as (_ & _ & _ & id & n & Hp).
  destruct (remove_after_split _ _ _ _ _ Hi) as (es1 & p & es2 & -> & -> & <-).
  apply route_merge; [done|apply Hp].
Qed.

(** C39. The tree never gets a third level: when the parent of the leaves has no room for
    another pivot, recording a leaf split does not succeed, whatever the slab still holds. *)
Theorem tree_full_split_never_ok t low es key p right es' :
  tree_repr t (AParent low es) -> entry_ok (p, right) ->
  insert_after low (route low es key) (p, right) es = Some es' -> (INLINE_BUFFER_LEN < footprint es')%nat ->
  snd (split_parents key (route low es key) p right t) <> Ok tt.
Proof.
  intros Ht Hok Hi Hf E. destruct (split_parents _ _ _ _ t) as [t' x] eqn:Es. cbn in E. subst x.
  by eapply split_parent_full.
Qed.

(** Merging the last two leaves does not give the tree back its leaf root: the parent is
    taken not to underflow, so the root is not locked and not demoted, and the emptied
    parent still routes the keys of the removed leaf to the removed leaf. *)
Theorem merge_last_pivot_not_demoted t low p r key :
  tree_repr t (AParent low [(p, r)]) ->
  exists t' id, merge_parents key low r t = (t', Ok tt) /\ get_root t' = RInner 1 id /\
    forall k, exists res, read_traverse_leaf k t' = (t', Ok res) /\ page res = if bytes_leb p k then r else low.
Proof. apply merge_last_parent. Qed.

(** * Concrete trees *)

#[global] Instance bytes_lt_dec a b : Decision (bytes_lt a b).
Proof. unfold bytes_lt. apply _. Defined.
#[global] Instance pivots_sorted_dec es : Decision (pivots_sorted es).
Proof. unfold pivots_sorted. apply _. Defined.

Definition leaf_tree : BPTree := mkBPTree ∅ 4 0 0 1 (2 ^ 32 - 1).
Definition parent_tree (low : Z) (es : list (bytes * Z)) : BPTree :=
  mkBPTree {[1 := build low es]} 4 (Z.lor (shl64 1 48) 1) 8 2 (2 ^ 32 - 1).

Lemma leaf_tree_repr : tree_repr leaf_tree (ALeaf 0).
Proof. repeat split; by vm_compute. Qed.

Lemma build_vlock low es : Forall entry_ok es -> (footprint es <= INLINE_BUFFER_LEN)%nat -> vlock (build low es) = 0.
Proof.
  intros Hok Hf. unfold build. assert (repr (mkBPNode 0 0 (INLINE_BUFFER_LEN - 1) low (rest blank)) low []) as R0.
  { split; try done; unfold payload; unf; simpl; lia. }
  rewrite (bindS_ok _ _ blank (mkBPNode 0 0 (INLINE_BUFFER_LEN - 1) low (rest blank)) tt) by done.
  by destruct (append_all_ok _ low [] es R0 Hok Hf) as (n' & -> & _ & V).
Qed.

Lemma parent_tree_repr low es :
  Forall entry_ok es -> (footprint es < INLINE_BUFFER_LEN)%nat -> es <> [] -> pivots_sorted es ->
  NoDup (low :: (snd <$> es)) -> tree_repr (parent_tree low es) (AParent low es).
Proof.
  intros Hok Hf Hne Hs Hnd. split; [by split|]. split; [cbn; lia|]. split; [cbn; lia|].
  exists 1, (build low es). split; [split; [lia|done|apply lookup_singleton_eq|]| | | | |]; try done.
  - rewrite build_vlock by (done || lia). by split.
  - apply build_repr; [done|lia].
Qed.

Lemma tree_leaf_split_correct_witness :
  exists t', split_parents [Byte.x50] 0 [Byte.x40] 1 leaf_tree = (t', Ok tt) /\
    tree_repr t' (AParent 0 [([Byte.x40], 1)]) /\
    forall k, exists res, read_traverse_leaf k t' = (t', Ok res) /\
      page res = if decide (aroute (ALeaf 0) k = aroute (ALeaf 0) [Byte.x50])
                 then (if bytes_leb [Byte.x40] k then 1 else aroute (ALeaf 0) [Byte.x50]) else aroute (ALeaf 0) k.
Proof.
  apply (tree_leaf_split_correct leaf_tree (ALeaf 0) [Byte.x50] [Byte.x40] 1).
  - exact leaf_tree_repr.
  - split; cbn; unfold MAX_KEY_LENGTH; lia.
  - cbn. set_solver.
  - reflexivity.
  - repeat constructor.
  - cbn. lia.
Defined.

Lemma two_tree_repr : tree_repr (parent_tree 0 two_pivots) (AParent 0 two_pivots).
Proof.
  apply parent_tree_repr; [decide_now|by apply Nat.ltb_lt; vm_compute|done| |].
  - exact two_pivots_sorted.
  - decide_now.
Qed.

Lemma tree_merge_correct_witness :
  exists t', merge_parents [Byte.x01] 0 1 (parent_tree 0 two_pivots) = (t', Ok tt) /\
    tree_repr t' (AParent 0 [([Byte.x28], 2)]) /\
    forall k, exists res, read_traverse_leaf k t' = (t', Ok res) /\
      page res = if decide (route 0 two_pivots k = 1) then 0 else route 0 two_pivots k.
Proof. apply (tree_merge_correct _ 0 two_pivots); [exact two_tree_repr|reflexivity|done]. Defined.

Lemma merge_last_pivot_not_demoted_witness :
  exists t' id, merge_parents [Byte.x01] 0 1 (parent_tree 0 [([Byte.x14], 1)]) = (t', Ok tt) /\
    get_root t' = RInner 1 id /\
    forall k, exists res, read_traverse_leaf k t' = (t', Ok res) /\ page res = if bytes_leb [Byte.x14] k then 1 else 0.
Proof.
  apply (merge_last_pivot_not_demoted _ 0 [Byte.x14] 1). apply parent_tree_repr.
  - decide_now.
  - by apply Nat.ltb_lt; vm_compute.
  - done.
  - repeat constructor.
  - decide_now.
Defined.

Lemma tree_full_split_never_ok_witness :
  snd (split_parents (long_key 0) (route 0 full_entries (long_key 0)) (long_key 0) 99 (parent_tree 0 full_entries))
    <> Ok tt.
Proof.
  apply (tree_full_split_never_ok _ 0 full_entries (long_key 0) (long_key 0) 99 ((long_key 0, 99) :: full_entries)).
  - apply parent_tree_repr; [decide_now|by apply Nat.ltb_lt; vm_compute|done|decide_now|decide_now].
  - decide_now.
  - vm_compute. reflexivity.
  - by apply Nat.ltb_lt; vm_compute.
Defined.
