(* ===== verification/LockManager.v ===== *)
(** * Page guards and the lock manager of a transaction (src/lock_manager.rs)

    A transaction keeps one guard per page it touched, read or write, and hands out at most
    one mutable handle to each.  The lock functions of the mapping table are those of
    [MapTable] run by one thread; the state is the table and the transaction's guards. *)

From stdpp Require Import gmap.
From S2P Require Import Prelude Types MapTable IoEngine.

(** ** The lock functions on a table, one thread *)

Definition on_entry {A} (page : Z) (f : Z -> Z * outcome QSError A) : stM MapTable.t QSError A := fun mt =>
  match MapTable.indirection_arr mt !! Z.to_nat page with
  | Some w =>
      let '(w', r) := f w in
      (MapTable.mk (<[Z.to_nat page := w']> (MapTable.indirection_arr mt)) (MapTable.next_free mt) (MapTable.cap mt), r)
  | None => (mt, Halt Undefined)
  end.

(** [PageReadGuard::upgrade]: the guard's node is kept; on failure the guard is given back. *)
Definition upgrade_entry (node w : Z) : Z * outcome QSError Z :=
  match Locks.solo (S SPIN_RETRIES) w (Locks.Upgrading node w SPIN_RETRIES) with
  | (w, Locks.HoldW node) => (w, Ok node)
  | (w, Locks.HoldR _) => (w, Err PageLockFail)
  | (w, _) => (w, Halt Undefined)
  end.

(** The drops: without interference the first exchange succeeds. *)
Definition drop_read_entry (node w : Z) : Z * outcome QSError unit :=
  match Locks.drop_read_iter false w node w with
  | (w, Locks.Idle) => (w, Ok tt)
  | (w, _) => (w, Halt Panicked)
  end.
Definition drop_write_entry (node w : Z) : Z * outcome QSError unit :=
  match Locks.drop_write_iter false w node w with
  | (w, Locks.Idle) => (w, Ok tt)
  | (w, _) => (w, Halt Panicked)
  end.
Definition downgrade_entry (w : Z) : Z * outcome QSError unit := (PageEntry.set_state w 1, Ok tt).

(** ** Guards *)

(** The page and the entry kept in the guard. *)
Inductive GuardWrapper := GWrite (page node : Z) | GRead (page node : Z).

Record PageGuard := mkPageGuard { guard_inner : GuardWrapper; pg_leaf : option bytes }.
Record LockSlot := mkLockSlot { guard : PageGuard; borrowed : bool }.

Definition new_slot (g : GuardWrapper) : LockSlot := mkLockSlot (mkPageGuard g None) false.

Definition is_write (g : PageGuard) : bool := match guard_inner g with GWrite _ _ => true | GRead _ _ => false end.
Definition page_id (g : PageGuard) : Z := match guard_inner g with GWrite p _ => p | GRead p _ => p end.
Definition guard_node (g : PageGuard) : Z := match guard_inner g with GWrite _ n => n | GRead _ n => n end.

(** [Drop] of a guard. *)
Definition drop_guard (g : GuardWrapper) : stM MapTable.t QSError unit :=
  match g with
  | GWrite page node => on_entry page (drop_write_entry node)
  | GRead page node => on_entry page (drop_read_entry node)
  end.

(** A failed upgrade leaves the read guard in place. *)
Definition ensure_write (g : PageGuard) : stM MapTable.t QSError PageGuard :=
  match guard_inner g with
  | GWrite _ _ => mret g
  | GRead page node =>
      node ← on_entry page (upgrade_entry node);
      mret (mkPageGuard (GWrite page node) (pg_leaf g))
  end.

(** [temp_upgrade] and the drop of [TmpPageWrite]: whether the guard was a read guard. *)
Definition temp_upgrade (g : GuardWrapper) : stM MapTable.t QSError (GuardWrapper * bool) :=
  match g with
  | GWrite _ _ => mret (g, false)
  | GRead page node =>
      node ← on_entry page (upgrade_entry node); mret (GWrite page node, true)
  end.
Definition drop_tmp (g : GuardWrapper) (read_original : bool) : stM MapTable.t QSError GuardWrapper :=
  match g, read_original with
  | GWrite page node, true => _ ← on_entry page downgrade_entry; mret (GRead page node)
  | g, _ => mret g
  end.

(** [load_leaf]: the guard keeps the first page it read. *)
Definition load_leaf (io : IoEngine) (addr : Z) (g : PageGuard) : outcome QSError (PageGuard * bytes) :=
  match pg_leaf g with
  | Some l => Ok (g, l)
  | None => new_leaf ← get_page io addr; Ok (mkPageGuard (guard_inner g) (Some new_leaf), new_leaf)
  end.

(** ** The manager *)

Record LM := mkLM { locks : gmap Z LockSlot; table : MapTable.t }.

Definition on_table {A} (f : stM MapTable.t QSError A) : stM LM QSError A := fun lm =>
  let '(t, r) := f (table lm) in (mkLM (locks lm) t, r).
Definition set_slot (page : Z) (s : LockSlot) : stM LM QSError unit := fun lm =>
  (mkLM (<[page := s]> (locks lm)) (table lm), Ok tt).

(** [PageHandle::acquire] and its drop, with the assertions of the dev profile. *)
Definition acquire (page : Z) : stM LM QSError unit :=
  lm ← getS;
  s ← liftS (expect (locks lm !! page));
  _ ← liftS (rassert (negb (borrowed s)));
  set_slot page (mkLockSlot (guard s) true).
Definition drop_handle (page : Z) : stM LM QSError unit :=
  lm ← getS;
  s ← liftS (expect (locks lm !! page));
  _ ← liftS (rassert (borrowed s));
  set_slot page (mkLockSlot (guard s) false).

(** The slot of a page that was already there is dropped with its guard. *)
Definition insert_write_lock (page node : Z) : stM LM QSError unit :=
  lm ← getS;
  _ ← set_slot page (new_slot (GWrite page node));
  _ ← match locks lm !! page with
      | Some old => on_table (drop_guard (guard_inner (guard old)))
      | None => mret tt
      end;
  acquire page.

Definition get_or_acquire_read_lock (page : Z) : stM LM QSError LockSlot :=
  lm ← getS;
  _ ← match locks lm !! page with
      | Some _ => mret tt
      | None => node ← on_table (on_entry page Locks.read_page_entry); set_slot page (new_slot (GRead page node))
      end;
  lm ← getS;
  liftS (expect (locks lm !! page)).

Definition get_upgrade_or_acquire_write_lock (page : Z) : stM LM QSError unit :=
  lm ← getS;
  _ ← match locks lm !! page with
      | Some _ => mret tt
      | None => node ← on_table (on_entry page Locks.write_page_entry); set_slot page (new_slot (GWrite page node))
      end;
  lm ← getS;
  s ← liftS (expect (locks lm !! page));
  g ← on_table (ensure_write (guard s));
  _ ← set_slot page (mkLockSlot g (borrowed s));
  acquire page.

(** The end of the transaction: every guard is dropped. *)
Definition clear_locks : stM LM QSError unit := fun lm => (mkLM ∅ (table lm), Ok tt).
Definition drop_locks : stM LM QSError unit :=
  lm ← getS;
  _ ← forM_ (fun '(_, s) => on_table (drop_guard (guard_inner (guard s)))) (map_to_list (locks lm));
  clear_locks.

(** ** Handles *)

Definition slot_of {E} (lm : LM) (page : Z) : outcome E LockSlot :=
  match locks lm !! page with Some s => Ok s | None => Halt Undefined end.

(** [get_write_guard().node()] of a handle. *)
Definition write_node (lm : LM) (page : Z) : outcome QSError NodeRef :=
  s ← slot_of lm page;
  match guard_inner (guard s) with
  | GWrite _ node => Ok (PageEntry.get_ref node)
  | GRead _ _ => Halt Panicked
  end.

(** [set_mini_page] and [set_leaf] through a handle. *)
Definition set_entry (page entry : Z) : stM LM QSError unit :=
  lm ← getS;
  s ← liftS (slot_of lm page);
  match guard_inner (guard s) with
  | GWrite p _ =>
      _ ← on_table (on_entry p (fun _ => (entry, Ok tt)));
      set_slot page (mkLockSlot (mkPageGuard (GWrite p entry) (pg_leaf (guard s))) (borrowed s))
  | GRead _ _ => liftS (Halt Panicked)
  end.
Definition set_mini_page (page index : Z) : stM LM QSError unit := set_entry page (PageEntry.new_write_locked index).
Definition set_leaf (page addr : Z) : stM LM QSError unit := set_entry page (PageEntry.leaf addr).

(** * One transaction on an otherwise idle table *)

Import PageEntry PageEntryFacts.

(** The entry [w] of a page whose slot, if any, is [o]: free, read-locked once or
    write-locked, no writer waiting, and the guard names the place of the page. *)
Record entry_held (o : option LockSlot) (page w : Z) : Prop := {
  eh_u64 : is_u64 w;
  eh_pending : pending_write w = false;
  eh_state : state w = match o with
                       | None => 0
                       | Some s => if is_write (guard s) then WRITE_LOCK_STATE else 1
                       end;
  eh_guard : forall s, o = Some s -> page_id (guard s) = page /\ loc (guard_node (guard s)) = loc w }.

Definition table_held (L : gmap Z LockSlot) (mt : MapTable.t) : Prop :=
  (forall p w, 0 <= p -> MapTable.indirection_arr mt !! Z.to_nat p = Some w -> entry_held (L !! p) p w) /\
  (forall p s, L !! p = Some s -> 0 <= p < Z.of_nat (length (MapTable.indirection_arr mt))).

Definition lock_inv (lm : LM) : Prop := table_held (locks lm) (table lm).

(** Where a page is. *)
Definition place (mt : MapTable.t) (p : Z) : option NodeRef :=
  get_ref <$> MapTable.indirection_arr mt !! Z.to_nat p.

Definition set_word (page w : Z) (mt : MapTable.t) : MapTable.t :=
  MapTable.mk (<[Z.to_nat page := w]> (MapTable.indirection_arr mt)) (MapTable.next_free mt) (MapTable.cap mt).

Lemma on_entry_run {A} page (f : Z -> Z * outcome QSError A) mt w w' r :
  MapTable.indirection_arr mt !! Z.to_nat page = Some w -> f w = (w', r) ->
  on_entry page f mt = (set_word page w' mt, r).
Proof. intros H E. unfold on_entry. by rewrite H, E. Qed.

(** A lock operation on one page: the new word fits the new slot and the page stays where
    it is. *)
Lemma table_step L mt page o' w w' :
  table_held L mt -> 0 <= page -> MapTable.indirection_arr mt !! Z.to_nat page = Some w ->
  entry_held o' page w' -> loc w' = loc w ->
  table_held (partial_alter (fun _ => o') page L) (set_word page w' mt) /\
  (forall p, 0 <= p -> place (set_word page w' mt) p = place mt p).
Proof.
  intros [He Hl] Hp Hw Ho Hloc. pose proof (lookup_lt_Some _ _ _ Hw) as Hlt. split.
  - split; cbn [set_word MapTable.indirection_arr].
    + intros p x H0 Hx. destruct (decide (p = page)) as [->|Hne].
      * rewrite list_lookup_insert_eq in Hx by done. injection Hx as <-. by rewrite lookup_partial_alter_eq.
      * rewrite list_lookup_insert_ne in Hx by lia. rewrite lookup_partial_alter_ne by done. by apply He.
    + intros p s Hs. rewrite length_insert. destruct (decide (p = page)) as [->|Hne]; [lia|].
      rewrite lookup_partial_alter_ne in Hs by done. by eapply Hl.
  - intros p H0. unfold place. cbn [set_word MapTable.indirection_arr].
    destruct (decide (p = page)) as [->|Hne].
    + rewrite list_lookup_insert_eq by done. rewrite Hw. cbn. f_equal. by apply loc_get_ref.
    + by rewrite list_lookup_insert_ne by lia.
Qed.

Lemma upgrade_entry_alone node w :
  state w = 1 -> upgrade_entry node w = (set_state w WRITE_LOCK_STATE, Ok node).
Proof.
  intros Hs. unfold upgrade_entry. change SPIN_RETRIES with 14%nat.
  cbn [Locks.solo Locks.continue Locks.upgrade_iter]. rewrite Hs. change (1 =? 1) with true. cbv iota.
  unfold Locks.cas_weak. cbn [negb andb]. by rewrite Z.eqb_refl.
Qed.

Lemma held_set_state o page w s :
  is_u64 w -> pending_write w = false -> 0 <= s < 2 ^ 14 ->
  s = match o with None => 0 | Some sl => if is_write (guard sl) then WRITE_LOCK_STATE else 1 end ->
  (forall sl, o = Some sl -> page_id (guard sl) = page /\ loc (guard_node (guard sl)) = loc w) ->
  entry_held o page (set_state w s) /\ loc (set_state w s) = loc w.
Proof.
  intros Hu Hp Hs Hst Hg. assert (loc (set_state w s) = loc w) as Hl by (by apply loc_set_state).
  split; [|done]. split; [by apply set_state_is_u64|by rewrite pending_set_state|by rewrite state_set_state|].
  intros sl Hsl. rewrite Hl. by apply Hg.
Qed.

Section one_page.
Context (lm : LM) (page : Z) (Hinv : lock_inv lm).
Context (H0 : 0 <= page < Z.of_nat (length (MapTable.indirection_arr (table lm)))).

Lemma page_word : exists w, MapTable.indirection_arr (table lm) !! Z.to_nat page = Some w /\
  entry_held (locks lm !! page) page w.
Proof.
  destruct (lookup_lt_is_Some_2 (MapTable.indirection_arr (table lm)) (Z.to_nat page)) as [w Hw]; [lia|].
  exists w. split; [done|]. apply Hinv; [lia|done].
Qed.

(** A page the transaction does not hold yet is write-locked and kept. *)
Lemma acquire_write_new :
  locks lm !! page = None ->
  exists node mt', on_entry page Locks.write_page_entry (table lm) = (mt', Ok node) /\
    table_held (<[page := new_slot (GWrite page node)]> (locks lm)) mt' /\
    length (MapTable.indirection_arr mt') = length (MapTable.indirection_arr (table lm)) /\
    (forall p, 0 <= p -> place mt' p = place (table lm) p).
Proof.
  intros Hn. destruct page_word as (w & Hw & He). rewrite Hn in He. destruct He as [Hu Hp Hs _].
  set (w' := set_pending_write (set_state w WRITE_LOCK_STATE) false).
  assert (is_u64 (set_state w WRITE_LOCK_STATE)) as Hu' by (apply set_state_is_u64; [done|exact LockFacts.wls_range]).
  assert (loc w' = loc w) as Hl.
  { unfold w'. rewrite loc_set_pending by done. apply loc_set_state; [done|exact LockFacts.wls_range]. }
  exists w, (set_word page w' (table lm)). split.
  { apply (on_entry_run _ _ _ w); [done|]. by apply write_page_entry_free. }
  destruct (table_step _ _ page (Some (new_slot (GWrite page w))) w w' Hinv) as [H1 H2]; [lia|done| |done|].
  { split.
    - unfold w'. by apply set_pending_is_u64.
    - unfold w'. by apply pending_set_pending.
    - unfold w'. rewrite state_set_pending by done. apply state_set_state. exact LockFacts.wls_range.
    - intros s [= <-]. by split. }
  split; [exact H1|]. split; [cbn; by rewrite length_insert|done].
Qed.

(** A page it holds for reading is upgraded, one it holds for writing is left. *)
Lemma ensure_write_held s :
  locks lm !! page = Some s ->
  exists g mt', ensure_write (guard s) (table lm) = (mt', Ok g) /\ is_write g = true /\ pg_leaf g = pg_leaf (guard s) /\
    (forall b, table_held (<[page := mkLockSlot g b]> (locks lm)) mt') /\
    length (MapTable.indirection_arr mt') = length (MapTable.indirection_arr (table lm)) /\
    (forall p, 0 <= p -> place mt' p = place (table lm) p).
Proof.
  intros Hs. destruct page_word as (w & Hw & He). rewrite Hs in He. destruct He as [Hu Hp Hst Hg].
  destruct (Hg s eq_refl) as [Hpg Hloc]. unfold ensure_write, is_write, page_id, guard_node in *.
  destruct (guard_inner (guard s)) as [p node|p node] eqn:Eg; subst p.
  - exists (guard s), (table lm). split; [done|]. split; [by rewrite Eg|]. split; [done|]. split; [|done].
    intros b. assert (set_word page w (table lm) = table lm) as Hid.
    { unfold set_word. rewrite list_insert_id by done. by destruct (table lm). }
    rewrite <-Hid. apply (table_step _ _ page (Some (mkLockSlot (guard s) b)) w w Hinv); [lia|done| |done].
    split; [done|done| |].
    + unfold is_write. cbn. by rewrite Eg.
    + intros ? [= <-]. unfold page_id, guard_node. cbn. by rewrite Eg.
  - rewrite (bindS_ok _ _ _ _ _ (on_entry_run _ _ _ _ _ _ Hw (upgrade_entry_alone node w Hst))).
    eexists _, _. split; [reflexivity|]. split; [done|]. split; [done|].
    destruct (held_set_state (Some (mkLockSlot (mkPageGuard (GWrite page node) (pg_leaf (guard s))) false)) page w
                WRITE_LOCK_STATE Hu Hp LockFacts.wls_range) as [Heh Hl]; [done|by intros ? [= <-]|].
    split; [|split; [cbn; by rewrite length_insert|]].
    + intros b. apply (table_step _ _ page (Some (mkLockSlot (mkPageGuard (GWrite page node) (pg_leaf (guard s))) b)) w _ Hinv);
        [lia|done| |done].
      destruct Heh as [A B C D]. split; [done|done|done|]. intros ? [= <-]. by apply (D _ eq_refl).
    + by apply (table_step _ _ page _ w _ Hinv ltac:(lia) Hw Heh Hl).
Qed.
End one_page.

Lemma run_on_table {A} (f : stM MapTable.t QSError A) lm mt' r :
  f (table lm) = (mt', r) -> on_table f lm = (mkLM (locks lm) mt', r).
Proof. intros E. unfold on_table. by rewrite E. Qed.

Lemma acquire_free lm page s :
  locks lm !! page = Some s -> borrowed s = false ->
  acquire page lm = (mkLM (<[page := mkLockSlot (guard s) true]> (locks lm)) (table lm), Ok tt).
Proof.
  intros Hs Hb. unfold acquire, mbind, stM_bind, getS, liftS, expect, rassert. rewrite Hs, Hb. done.
Qed.

(** The state after a page was taken for writing. *)
Record write_taken (lm lm' : LM) (page : Z) : Prop := {
  wt_inv : lock_inv lm';
  wt_slot : exists s, locks lm' !! page = Some s /\ is_write (guard s) = true /\ borrowed s = true /\
              (forall s0, locks lm !! page = Some s0 -> pg_leaf (guard s) = pg_leaf (guard s0)) /\
              (locks lm !! page = None -> pg_leaf (guard s) = None);
  wt_others : forall p, p <> page -> locks lm' !! p = locks lm !! p;
  wt_len : length (MapTable.indirection_arr (table lm')) = length (MapTable.indirection_arr (table lm));
  wt_place : forall p, 0 <= p -> place (table lm') p = place (table lm) p }.

Lemma write_lock_taken lm page :
  lock_inv lm -> 0 <= page < Z.of_nat (length (MapTable.indirection_arr (table lm))) ->
  (forall s, locks lm !! page = Some s -> borrowed s = false) ->
  exists lm', get_upgrade_or_acquire_write_lock page lm = (lm', Ok tt) /\ write_taken lm lm' page.
Proof.
  intros Hinv H0 Hb. unfold get_upgrade_or_acquire_write_lock. run_pure lm lm.
  assert (exists lm1 s, (match locks lm !! page with
      | Some _ => mret tt
      | None => node ← on_table (on_entry page Locks.write_page_entry); set_slot page (new_slot (GWrite page node))
      end : stM LM QSError unit) lm = (lm1, Ok tt) /\ lock_inv lm1 /\ locks lm1 !! page = Some s /\
      borrowed s = false /\ (forall s0, locks lm !! page = Some s0 -> s = s0) /\
      (locks lm !! page = None -> pg_leaf (guard s) = None) /\
      (forall p, p <> page -> locks lm1 !! p = locks lm !! p) /\
      length (MapTable.indirection_arr (table lm1)) = length (MapTable.indirection_arr (table lm)) /\
      (forall p, 0 <= p -> place (table lm1) p = place (table lm) p))
    as (lm1 & s & E1 & Hi1 & Hs1 & Hb1 & Hold & Hnew & Ho1 & Hl1 & Hp1).
  { destruct (locks lm !! page) as [s|] eqn:Es.
    - exists lm, s. split_and!; try done; [by apply Hb|by intros s0 [= ->]].
    - destruct (acquire_write_new lm page Hinv H0 Es) as (node & mt' & E & Hh & Hl & Hp).
      rewrite (bindS_ok _ _ _ _ _ (run_on_table _ _ _ _ E)).
      eexists _, _. split; [reflexivity|]. split; [exact Hh|]. cbn [locks table].
      split; [apply lookup_insert_eq|]. split_and!; try done. intros p Hne. by rewrite lookup_insert_ne. }
  run E1. run_pure lm1 lm1.
  rewrite (bindS_ok _ _ lm1 lm1 s) by (unfold liftS; by rewrite Hs1).
  destruct (ensure_write_held lm1 page Hi1 ltac:(lia) s Hs1) as (g & mt' & E2 & Hw & Hlf & Hh & Hl & Hp).
  rewrite (bindS_ok _ _ _ _ _ (run_on_table _ _ _ _ E2)). unfold set_slot.
  set (lm2 := mkLM (<[page := mkLockSlot g (borrowed s)]> (locks lm1)) mt').
  rewrite (bindS_ok _ _ _ lm2 tt) by done.
  rewrite (acquire_free lm2 page (mkLockSlot g (borrowed s))); [|apply lookup_insert_eq|done].
  eexists. split; [reflexivity|]. cbn [lm2 guard locks table]. split; cbn [locks table].
  - unfold lock_inv. cbn [locks table]. rewrite insert_insert_eq. apply Hh.
  - rewrite lookup_insert_eq. eexists. split; [done|]. split; [done|]. split; [done|]. cbn [guard].
    rewrite Hlf. split; [|done]. intros s0 Hs0. by rewrite (Hold s0 Hs0).
  - intros p Hne. rewrite !lookup_insert_ne by done. by apply Ho1.
  - lia.
  - intros p H. by rewrite Hp, Hp1.
Qed.

(** Taking a page for reading. *)
Lemma read_lock_taken lm page :
  lock_inv lm -> 0 <= page < Z.of_nat (length (MapTable.indirection_arr (table lm))) ->
  exists lm' s, get_or_acquire_read_lock page lm = (lm', Ok s) /\ lock_inv lm' /\ locks lm' !! page = Some s /\
    (forall s0, locks lm !! page = Some s0 -> s = s0) /\ (locks lm !! page = None -> borrowed s = false /\ pg_leaf (guard s) = None) /\
    (forall p, p <> page -> locks lm' !! p = locks lm !! p) /\
    length (MapTable.indirection_arr (table lm')) = length (MapTable.indirection_arr (table lm)) /\
    (forall p, 0 <= p -> place (table lm') p = place (table lm) p).
Proof.
  intros Hinv H0. unfold get_or_acquire_read_lock. run_pure lm lm.
  destruct (locks lm !! page) as [s|] eqn:Es.
  { run_pure lm tt. run_pure lm lm.
    exists lm, s. unfold liftS, expect. rewrite Es. split_and!; try done. by intros s0 [= ->]. }
  destruct (page_word lm page Hinv H0) as (w & Hw & He). rewrite Es in He. destruct He as [Hu Hp Hs _].
  assert (Locks.read_page_entry w = (set_state w 1, Ok w)) as E.
  { rewrite read_page_entry_shared by (done || rewrite Hs; by vm_compute). by rewrite Hs. }
  rewrite (bindS_ok _ _ _ (mkLM (<[page := new_slot (GRead page w)]> (locks lm)) (set_word page (set_state w 1) (table lm))) tt).
  2: { by rewrite (bindS_ok _ _ _ _ _ (run_on_table _ _ _ _ (on_entry_run _ _ _ _ _ _ Hw E))). }
  set (lm1 := mkLM _ _). run_pure lm1 lm1.
  exists lm1, (new_slot (GRead page w)). unfold liftS, expect. cbn [lm1 locks table]. rewrite lookup_insert_eq.
  destruct (held_set_state (Some (new_slot (GRead page w))) page w 1 Hu Hp) as [Heh Hl]; [lia|done|by intros ? [= <-]|].
  destruct (table_step _ _ page _ w _ Hinv ltac:(lia) Hw Heh Hl) as [H1 H2].
  split_and!; try done.
  - intros p Hne. by rewrite lookup_insert_ne.
  - cbn. by rewrite length_insert.
Qed.

(** The writer of a page moves it to a mini-page. *)
Lemma set_mini_page_ok lm p s i :
  lock_inv lm -> locks lm !! p = Some s -> is_write (guard s) = true -> 0 <= i < 2 ^ 48 ->
  exists lm', set_mini_page p i lm = (lm', Ok tt) /\ lock_inv lm' /\
    length (MapTable.indirection_arr (table lm')) = length (MapTable.indirection_arr (table lm)) /\
    place (table lm') p = Some (NMiniPage i) /\
    (forall q, 0 <= q -> q <> p -> place (table lm') q = place (table lm) q) /\
    locks lm' = <[p := mkLockSlot (mkPageGuard (GWrite p (new_write_locked i)) (pg_leaf (guard s))) (borrowed s)]> (locks lm).
Proof.
  intros [He Hdom] Hs Hw Hi. pose proof (Hdom p s Hs) as Hp.
  destruct (lookup_lt_is_Some_2 (MapTable.indirection_arr (table lm)) (Z.to_nat p)) as [w Hwd]; [lia|].
  pose proof (He p w ltac:(lia) Hwd) as Hh. rewrite Hs in Hh. destruct (eh_guard _ _ _ Hh s eq_refl) as [Hpg _].
  set (e := new_write_locked i).
  set (sl := mkLockSlot (mkPageGuard (GWrite p e) (pg_leaf (guard s))) (borrowed s)).
  exists (mkLM (<[p := sl]> (locks lm)) (set_word p e (table lm))).
  assert (set_mini_page p i lm = (mkLM (<[p := sl]> (locks lm)) (set_word p e (table lm)), Ok tt)) as Hrun.
  { unfold set_mini_page, set_entry. run_pure lm lm.
    rewrite (bindS_ok _ _ lm lm s) by (unfold liftS, slot_of; by rewrite Hs).
    unfold is_write, page_id in Hw, Hpg. destruct (guard_inner (guard s)) as [pg n|]; [subst pg|done].
    fold e. rewrite (bindS_ok _ _ lm (mkLM (locks lm) (set_word p e (table lm))) tt); [done|].
    apply run_on_table. by apply (on_entry_run p _ _ w). }
  split; [exact Hrun|]. cbn [locks table set_word MapTable.indirection_arr]. split; [|split; [by rewrite length_insert|]].
  - split; cbn [locks table set_word MapTable.indirection_arr].
    + intros q w' Hq Hw'. destruct (decide (q = p)) as [->|Hne].
      * rewrite list_lookup_insert_eq in Hw' by lia. injection Hw' as <-. rewrite lookup_insert_eq.
        split; [by apply new_write_locked_is_u64| |by apply new_write_locked_state|].
        -- by apply new_write_locked_pending.
        -- by intros s' [= <-].
      * rewrite list_lookup_insert_ne in Hw' by lia. rewrite lookup_insert_ne by done. by apply He.
    + intros q s' Hq. rewrite length_insert. destruct (decide (q = p)) as [->|Hne]; [lia|].
      rewrite lookup_insert_ne in Hq by done. by eapply Hdom.
  - unfold place. cbn [set_word table MapTable.indirection_arr]. split_and!.
    + rewrite list_lookup_insert_eq by lia. cbn. f_equal. by apply new_write_locked_ref.
    + intros q Hq Hne. by rewrite list_lookup_insert_ne by lia.
    + done.
Qed.

(** Dropping one guard. *)
Lemma drop_guard_held L mt page s :
  table_held L mt -> L !! page = Some s ->
  exists mt', drop_guard (guard_inner (guard s)) mt = (mt', Ok tt) /\ table_held (delete page L) mt' /\
    length (MapTable.indirection_arr mt') = length (MapTable.indirection_arr mt) /\
    (forall p, 0 <= p -> place mt' p = place mt p).
Proof.
  intros Hh Hs. pose proof (proj2 Hh page s Hs) as H0.
  destruct (lookup_lt_is_Some_2 (MapTable.indirection_arr mt) (Z.to_nat page)) as [w Hw]; [lia|].
  pose proof (proj1 Hh page w ltac:(lia) Hw) as He. rewrite Hs in He. destruct He as [Hu Hp Hst Hg].
  destruct (Hg s eq_refl) as [Hpg _].
  destruct (held_set_state None page w 0 Hu Hp) as [Heh Hl]; [lia|done|done|].
  destruct (table_step L mt page None w _ Hh ltac:(lia) Hw Heh Hl) as [H1 H2].
  exists (set_word page (set_state w 0) mt). split; [|split; [exact H1|split; [cbn; by rewrite length_insert|done]]].
  unfold drop_guard, page_id, is_write in *.
  destruct (guard_inner (guard s)) as [p node|p node]; subst p.
  - apply (on_entry_run _ _ _ w); [done|].
    unfold drop_write_entry, Locks.drop_write_iter, Locks.cas_weak. cbn [negb andb]. by rewrite Z.eqb_refl.
  - apply (on_entry_run _ _ _ w); [done|].
    unfold drop_read_entry, Locks.drop_read_iter, Locks.cas_weak. rewrite Hst. change (1 =? 0) with false.
    cbn [negb andb]. by rewrite Z.eqb_refl.
Qed.

Lemma drop_locks_held lm :
  lock_inv lm ->
  exists mt', drop_locks lm = (mkLM ∅ mt', Ok tt) /\ table_held ∅ mt' /\
    (forall p, 0 <= p -> place mt' p = place (table lm) p).
Proof.
  intros Hinv. unfold drop_locks. run_pure lm lm.
  assert (forall l mt L0, NoDup (l.*1) -> table_held (list_to_map l) mt ->
    exists mt', forM_ (fun '(_, s) => on_table (drop_guard (guard_inner (guard s)))) l (mkLM L0 mt) = (mkLM L0 mt', Ok tt) /\
      table_held ∅ mt' /\ (forall p, 0 <= p -> place mt' p = place mt p)) as Hloop.
  { induction l as [|[p s] l IH]; intros mt L0 Hnd Hh.
    { by exists mt. }
    rewrite fmap_cons in Hnd. apply NoDup_cons in Hnd as [Hp Hnd].
    destruct (drop_guard_held _ mt p s Hh) as (mt1 & E1 & H1 & _ & P1); [apply lookup_insert_eq|].
    rewrite list_to_map_cons, delete_insert_id in H1 by (by apply not_elem_of_list_to_map).
    destruct (IH mt1 L0 Hnd H1) as (mt2 & E2 & H2 & P2). exists mt2. rewrite forM_cons.
    rewrite (bindS_ok _ _ _ _ _ (run_on_table _ (mkLM L0 mt) _ _ E1)). split; [exact E2|]. split; [done|].
    intros q Hq. by rewrite P2, P1. }
  destruct (Hloop (map_to_list (locks lm)) (table lm) (locks lm)) as (mt' & E & Hh & Hp).
  - apply NoDup_fst_map_to_list.
  - rewrite list_to_map_to_list. apply Hinv.
  - exists mt'. destruct lm as [L mt]. cbn [locks table] in *. by run E.
Qed.

(** ** A whole transaction *)

(** A request for a page: to read it, or to write it and give the handle back. *)
Inductive request := ReqRead (page : Z) | ReqWrite (page : Z).
Definition req_page (r : request) : Z := match r with ReqRead p | ReqWrite p => p end.

Definition serve (r : request) : stM LM QSError unit :=
  match r with
  | ReqRead p => _ ← get_or_acquire_read_lock p; mret tt
  | ReqWrite p => _ ← get_upgrade_or_acquire_write_lock p; drop_handle p
  end.

Definition idle (lm : LM) : Prop := forall p s, locks lm !! p = Some s -> borrowed s = false.

Lemma serve_ok lm r :
  lock_inv lm -> idle lm -> 0 <= req_page r < Z.of_nat (length (MapTable.indirection_arr (table lm))) ->
  exists lm', serve r lm = (lm', Ok tt) /\ lock_inv lm' /\ idle lm' /\
    length (MapTable.indirection_arr (table lm')) = length (MapTable.indirection_arr (table lm)) /\
    (forall p, 0 <= p -> place (table lm') p = place (table lm) p) /\
    exists s, locks lm' !! req_page r = Some s.
Proof.
  intros Hinv Hidle H0. destruct r as [p|p]; cbn [serve req_page] in *.
  - destruct (read_lock_taken lm p Hinv H0) as (lm' & s & E & Hi & Hs & Hold & Hnew & Ho & Hl & Hp).
    exists lm'. run E. split_and!; try done; [|by exists s].
    intros q s' Hs'. destruct (decide (q = p)) as [->|Hne]; [|rewrite Ho in Hs' by done; by eapply Hidle].
    destruct (locks lm !! p) as [s0|] eqn:E0.
    + rewrite Hs in Hs'. injection Hs' as <-. rewrite (Hold s0 eq_refl). by eapply Hidle.
    + rewrite Hs in Hs'. injection Hs' as <-. by apply Hnew.
  - destruct (write_lock_taken lm p Hinv H0) as (lm' & E & [Hi (s & Hs & Hw & Hb & _) Ho Hl Hp]); [by apply Hidle|].
    run E. unfold drop_handle, mbind, stM_bind, getS, liftS, expect, rassert, set_slot.
    rewrite Hs, Hb. eexists. split; [reflexivity|]. cbn [locks table]. split_and!; try done.
    + unfold lock_inv. cbn [locks table]. split.
      * intros q w Hq Hx. pose proof (proj1 Hi q w Hq Hx) as He. destruct (decide (q = p)) as [->|Hne].
        -- rewrite Hs in He. rewrite lookup_insert_eq. destruct He as [A B C D].
           split; [done|done|done|]. intros ? [= <-]. by apply (D s).
        -- by rewrite lookup_insert_ne.
      * intros q s' Hs'. destruct (decide (q = p)) as [->|Hne]; [by apply (proj2 Hi p s)|].
        rewrite lookup_insert_ne in Hs' by done. by apply (proj2 Hi q s').
    + intros q s'. cbn [locks]. destruct (decide (q = p)) as [->|Hne].
      * rewrite lookup_insert_eq. by intros [= <-].
      * rewrite lookup_insert_ne, Ho by done. apply Hidle.
    + eexists. by rewrite lookup_insert_eq.
Qed.

(** * Properties *)

(** C18. The locks of a transaction that runs alone: every sequence of requests for pages of the
    table is served, whatever was read or written before, and when the transaction ends every
    entry of the table is unlocked and every page is where it was. *)
Theorem lock_manager_lifecycle (mt : MapTable.t) (reqs : list request) :
  table_held ∅ mt ->
  Forall (fun r => 0 <= req_page r < Z.of_nat (length (MapTable.indirection_arr mt))) reqs ->
  exists mt', (_ ← forM_ serve reqs; drop_locks) (mkLM ∅ mt) = (mkLM ∅ mt', Ok tt) /\ table_held ∅ mt' /\
    (forall p, 0 <= p -> place mt' p = place mt p).
Proof.
  intros Hmt Hreqs.
  assert (forall reqs lm, lock_inv lm -> idle lm ->
    Forall (fun r => 0 <= req_page r < Z.of_nat (length (MapTable.indirection_arr (table lm)))) reqs ->
    exists lm', forM_ serve reqs lm = (lm', Ok tt) /\ lock_inv lm' /\
      (forall p, 0 <= p -> place (table lm') p = place (table lm) p)) as Hloop.
  { clear. induction reqs as [|r reqs IH]; intros lm Hinv Hidle Hr; [by exists lm|].
    apply Forall_cons_iff in Hr as [Hr Hrs].
    destruct (serve_ok lm r Hinv Hidle Hr) as (lm1 & E1 & Hi1 & Hd1 & Hl1 & Hp1 & _).
    destruct (IH lm1 Hi1 Hd1) as (lm2 & E2 & Hi2 & Hp2); [by rewrite Hl1|].
    exists lm2. rewrite forM_cons, (bindS_ok _ _ _ _ _ E1). split; [done|]. split; [done|].
    intros p Hp. by rewrite Hp2, Hp1. }
  destruct (Hloop reqs (mkLM ∅ mt)) as (lm' & E & Hi & Hp); [done|by intros ? ?|done|].
  destruct (drop_locks_held lm' Hi) as (mt' & E' & Hh & Hp'). exists mt'. run E.
  split; [done|]. split; [done|]. intros p H. rewrite Hp' by done. by apply Hp.
Qed.

(** Asking again for a page whose write handle is out. *)
Lemma borrowed_page_panics lm page s :
  locks lm !! page = Some s -> is_write (guard s) = true -> borrowed s = true ->
  exists lm', get_upgrade_or_acquire_write_lock page lm = (lm', Halt Panicked).
Proof.
  intros Hs Hw Hb. unfold get_upgrade_or_acquire_write_lock. run_pure lm lm. rewrite Hs. run_pure lm tt. run_pure lm lm.
  rewrite (bindS_ok _ _ lm lm s) by (unfold liftS; by rewrite Hs). rewrite (bindS_ok _ _ lm lm (guard s)).
  2: { unfold on_table, ensure_write. unfold is_write in Hw. destruct (guard_inner (guard s)); [|done]. by destruct lm. }
  unfold set_slot, acquire, mbind, stM_bind, getS, liftS, expect, rassert. cbn [locks table].
  rewrite lookup_insert_eq. cbn [borrowed]. rewrite Hb. by eexists.
Qed.

(** A transaction must not ask for a page whose handle it still has: the second request
    for it panics, also when both are for writing. *)
Theorem second_handle_panics (lm lm1 : LM) (page : Z) :
  lock_inv lm -> 0 <= page < Z.of_nat (length (MapTable.indirection_arr (table lm))) -> idle lm ->
  get_upgrade_or_acquire_write_lock page lm = (lm1, Ok tt) ->
  snd (get_upgrade_or_acquire_write_lock page lm1) = Halt Panicked.
Proof.
  intros Hinv H0 Hidle E. destruct (write_lock_taken lm page Hinv H0) as (lm' & E' & [Hi (s & Hs & Hw & Hb & _) _ _ _]).
  { by apply Hidle. }
  rewrite E in E'. injection E' as <-. by destruct (borrowed_page_panics lm1 page s Hs Hw Hb) as [lm2 ->].
Qed.

(** * Concrete tables *)

Definition sample_table : MapTable.t := MapTable.mk [PageEntry.leaf 0; PageEntry.leaf 7; 0] 2 3.

Lemma sample_table_held : table_held ∅ sample_table.
Proof.
  split; [|by intros ? ? ?]. intros p w _ Hw. rewrite lookup_empty. cbn in Hw.
  assert (w = PageEntry.leaf 0 \/ w = PageEntry.leaf 7 \/ w = 0) as Hc.
  { destruct (Z.to_nat p) as [|[|[|k]]]; cbn in Hw; [naive_solver..|done]. }
  destruct Hc as [->|[->| ->]]; split; try done; by vm_compute.
Qed.

Lemma lock_manager_lifecycle_witness :
  exists mt', (_ ← forM_ serve [ReqRead 0; ReqWrite 1; ReqWrite 0; ReqRead 1]; drop_locks) (mkLM ∅ sample_table) =
      (mkLM ∅ mt', Ok tt) /\ table_held ∅ mt' /\ (forall p, 0 <= p -> place mt' p = place sample_table p).
Proof.
  apply lock_manager_lifecycle; [exact sample_table_held|].
  repeat (constructor; [cbn; lia|]). constructor.
Defined.

Lemma second_handle_panics_witness :
  exists lm1, get_upgrade_or_acquire_write_lock 1 (mkLM ∅ sample_table) = (lm1, Ok tt) /\
    snd (get_upgrade_or_acquire_write_lock 1 lm1) = Halt Panicked.
Proof.
  destruct (get_upgrade_or_acquire_write_lock 1 (mkLM ∅ sample_table)) as [lm1 [[]| |]] eqn:E;
    [|vm_compute in E; congruence..].
  exists lm1. split; [reflexivity|].
  apply (second_handle_panics (mkLM ∅ sample_table) lm1 1); [exact sample_table_held|cbn; lia|by intros ? ?|exact E].
Defined.
