(* ===== verification/Buffer.v ===== *)
(** * The mini-page buffer (src/buffer.rs)

    A ring of 64-bit words from which mini-pages are cut at the tail and given back at the
    head, and one free list per size class whose links are stored in the second word of the
    free pages.  The memory is the list of its bytes; indices count words.  One thread runs
    at a time, so an exchange fails only when the word differs.  [Store] is what eviction
    touches besides: the mapping table, the data file and the log. *)

From stdpp Require Import gmap.
From S2P Require Import Prelude Types BTreeMap MapTable IoEngine Wal Node PageOp LockManager.

Record MiniPageBuffer := mkBuffer {
  backing : bytes; buff_size : Z; free_lists : list Z; head : Z; tail : Z }.

Definition usize_max : Z := u64_max.

Definition new {E} (cache_size_lg : Z) : outcome E MiniPageBuffer :=
  _ ← rassert ((3 <=? cache_size_lg) && (cache_size_lg <? 64));
  let total_bytes := 2 ^ cache_size_lg in
  _ ← rassert (total_bytes mod 8 =? 0);
  let buff_size := total_bytes / 8 in
  _ ← rassert (Z.land buff_size (buff_size - 1) =? 0);
  Ok (mkBuffer (replicate (Z.to_nat total_bytes) Byte.x00) buff_size (replicate 7 usize_max) 0 0).

Definition wrap (b : MiniPageBuffer) (index : Z) : Z := Z.land index (buff_size b - 1).

Definition set_tail (t : Z) (b : MiniPageBuffer) : MiniPageBuffer :=
  mkBuffer (backing b) (buff_size b) (free_lists b) (head b) t.
Definition set_head (h : Z) (b : MiniPageBuffer) : MiniPageBuffer :=
  mkBuffer (backing b) (buff_size b) (free_lists b) h (tail b).
Definition set_backing (m : bytes) (b : MiniPageBuffer) : MiniPageBuffer :=
  mkBuffer m (buff_size b) (free_lists b) (head b) (tail b).
Definition set_free_list (c : nat) (i : Z) (b : MiniPageBuffer) : MiniPageBuffer :=
  mkBuffer (backing b) (buff_size b) (<[c := i]> (free_lists b)) (head b) (tail b).

(** A word of the buffer behind a raw pointer. *)
Definition read_cell {E} (b : MiniPageBuffer) (i : Z) : outcome E Z := read_word (backing b) (Z.to_nat (8 * i)).
Definition write_cell {E} (b : MiniPageBuffer) (i w : Z) : outcome E MiniPageBuffer :=
  match write_word (E := E) (Z.to_nat (8 * i)) w (backing b) with
  | (m, Ok _) => Ok (set_backing m b)
  | (_, Err e) => Err e
  | (_, Halt h) => Halt h
  end.

(** The word behind the header of a free page is the next free page. *)
Definition pop_freelist (size : NodeSize.t) (b : MiniPageBuffer) : outcome unit (MiniPageBuffer * option Z) :=
  let head_index := default usize_max (free_lists b !! NodeSize.index size) in
  if head_index =? usize_max then Ok (b, None)
  else
    next ← read_cell b (head_index + 1);
    Ok (set_free_list (NodeSize.index size) next b, Some head_index).

(** The loop of [alloc]; [tail] is the local copy, which is current in a single thread. *)
Fixpoint alloc_loop (fuel : nat) (req_size : Z) (b : MiniPageBuffer) : MiniPageBuffer * option Z :=
  match fuel with
  | O => (b, None)
  | S fuel =>
      if head b <=? tail b then
        let free_space_words := buff_size b - tail b in
        if req_size <=? free_space_words then (set_tail (tail b + req_size) b, Some (tail b))
        else if req_size <? head b then alloc_loop fuel req_size (set_tail 0 b)
        else (b, None)
      else
        let free_space_words := head b - tail b in
        if req_size <=? free_space_words then (set_tail (tail b + req_size) b, Some (tail b))
        else (b, None)
  end.

Definition alloc (size : NodeSize.t) (b : MiniPageBuffer) : outcome unit (MiniPageBuffer * option Z) :=
  '(b, popped) ← pop_freelist size b;
  match popped with
  | Some page => Ok (b, Some page)
  | None => Ok (alloc_loop SPIN_RETRIES (Z.of_nat (NodeSize.size_in_words size)) b)
  end.

(** ** Nodes in the buffer *)

(** The header at an index, and the page of the given size there. *)
Definition node_at {E} (b : MiniPageBuffer) (index : Z) (bytes : nat) : outcome E Prelude.bytes :=
  read_raw (backing b) (Z.to_nat (8 * index)) bytes.
Definition set_node_at (index : Z) (m : bytes) (b : MiniPageBuffer) : MiniPageBuffer :=
  set_backing (splice (backing b) (Z.to_nat (8 * index)) m) b.

Definition header_size : nat := NodeMeta.size_of.

(** [get_meta_mut] of a page of any size: only its header is used. *)
Definition dealloc (index : Z) (b : MiniPageBuffer) : outcome unit MiniPageBuffer :=
  hd ← node_at b index header_size;
  let meta := Node.header hd in
  node_size ← NodeMeta.size meta;
  let meta := NodeMeta.set_live meta false in
  let meta := NodeMeta.clear_eviction meta in
  let meta := NodeMeta.clear_hot meta in
  let meta := NodeMeta.set_record_count meta 0 in
  let b := set_node_at index (set_header hd meta) b in
  let c := NodeSize.index node_size in
  b ← write_cell b (index + 1) (default usize_max (free_lists b !! c));
  Ok (set_free_list c index b).

(** ** Eviction *)

Record Store := mkStore { st_cache : MiniPageBuffer; st_map : MapTable.t; st_io : IoEngine; st_wal : WalState }.

(** The steps of one candidate: skip it, look at another one, or evict it. *)
Inductive scan := SSkip (s : Store) (words : Z) | SMove (s : Store) (index : Z) | SDone (s : Store).

(** A write guard that is dropped at the end of its turn. *)
Definition release (page node : Z) (mt : MapTable.t) : outcome QSError MapTable.t :=
  match drop_guard (GWrite page node) mt with
  | (mt, Ok _) => Ok mt
  | (_, Err e) => Err e
  | (_, Halt h) => Halt h
  end.

Definition evict_one (s : Store) (cand : Z) : outcome QSError scan :=
  let b := st_cache s in
  hd ← node_at b cand header_size;
  let meta := Node.header hd in
  size ← NodeMeta.size meta;
  let chunk_words := Z.of_nat (NodeSize.size_in_words size) in
  if negb (NodeMeta.is_live meta) then Ok (SSkip s chunk_words) else
  if NodeMeta.is_hot meta then
    let b := set_node_at cand (set_header hd (NodeMeta.clear_hot meta)) b in
    Ok (SSkip (mkStore b (st_map s) (st_io s) (st_wal s)) chunk_words)
  else
  let page_id := NodeMeta.page_id meta in
  match on_entry page_id Locks.write_page_entry (st_map s) with
  | (_, Halt h) => Halt h
  | (mt, Err _) => Ok (SSkip (mkStore b mt (st_io s) (st_wal s)) chunk_words)
  | (mt, Ok node) =>
      match PageEntry.get_ref node with
      | NLeaf _ => mt ← release page_id node mt; Ok (SSkip (mkStore b mt (st_io s) (st_wal s)) chunk_words)
      | NMiniPage index =>
          if negb (index =? cand) then
            mt ← release page_id node mt; Ok (SMove (mkStore b mt (st_io s) (st_wal s)) index)
          else
          match NodeMeta.mark_for_eviction meta with
          | Err _ => mt ← release page_id node mt; Ok (SSkip (mkStore b mt (st_io s) (st_wal s)) chunk_words)
          | Halt h => Halt h
          | Ok meta =>
              m ← node_at b cand (NodeSize.size_in_bytes size);
              '(m, io) ← flush_dirty_entries (set_header m meta) (st_io s);
              let disk_addr := NodeMeta.leaf (Node.header m) in
              w ← match checkpoint_page page_id (st_wal s) with
                  | Ok w => Ok w | Err _ => Halt Panicked | Halt h => Halt h end;
              let mt := set_word page_id (PageEntry.leaf disk_addr) mt in
              let meta := NodeMeta.set_live (Node.header m) false in
              let meta := NodeMeta.clear_eviction meta in
              let meta := NodeMeta.set_record_count meta 0 in
              let b := set_node_at cand (set_header m meta) b in
              let b := set_head (wrap b (cand + chunk_words)) b in
              mt ← release page_id (PageEntry.leaf disk_addr) mt;
              Ok (SDone (mkStore b mt io w))
          end
      end
  end.

(** The loop [while scanned < self.buff_size].  A move to another index does not count as
    progress, so the loop need not end: [fuel] bounds the candidates looked at. *)
Fixpoint evict_loop (fuel : nat) (s : Store) (cand scanned : Z) : option (Store * outcome QSError unit) :=
  if buff_size (st_cache s) <=? scanned then Some (s, Err CacheExhausted)
  else match fuel with
  | O => None
  | S fuel =>
      match evict_one s cand with
      | Ok (SSkip s words) => evict_loop fuel s (wrap (st_cache s) (cand + words)) (scanned + words)
      | Ok (SMove s index) => evict_loop fuel s index scanned
      | Ok (SDone s) => Some (s, Ok tt)
      | Err e => Some (s, Err e)
      | Halt h => Some (s, Halt h)
      end
  end.

Definition evict (fuel : nat) (s : Store) : option (Store * outcome QSError unit) :=
  evict_loop fuel s (head (st_cache s)) 0.

(** * The ring *)

(** The words in use: from the head to the tail, or around the end when the tail has
    wrapped.  The code keeps no [wrapped] flag. *)
Definition occupied (wrapped : bool) (b : MiniPageBuffer) (x : Z) : Prop :=
  if wrapped then head b <= x < buff_size b \/ 0 <= x < tail b else head b <= x < tail b.

Definition ring_ok (wrapped : bool) (b : MiniPageBuffer) : Prop :=
  0 <= head b <= buff_size b /\ 0 <= tail b <= buff_size b /\
  if wrapped then tail b <= head b else head b <= tail b.

Lemma spin_two : exists n, SPIN_RETRIES = S (S n).
Proof. by exists 12%nat. Qed.

Lemma alloc_loop_ring wrapped b req b' o :
  ring_ok wrapped b -> 0 < req -> ~ (wrapped = true /\ tail b = head b) ->
  alloc_loop SPIN_RETRIES req b = (b', o) ->
  match o with
  | Some i =>
      0 <= i /\ i + req <= buff_size b /\ (forall x, i <= x < i + req -> ~ occupied wrapped b x) /\
      (exists wrapped', ring_ok wrapped' b' /\
        (forall x, occupied wrapped b x \/ i <= x < i + req -> occupied wrapped' b' x)) /\
      backing b' = backing b /\ head b' = head b /\ buff_size b' = buff_size b
  | None => b' = b /\ if wrapped then head b - tail b < req else buff_size b - tail b < req /\ head b <= req
  end.
Proof.
  intros (Hh & Ht & Hw) Hr Hf. destruct spin_two as [n ->]. cbn [alloc_loop]. unfold occupied.
  destruct (Z.leb_spec (head b) (tail b)) as [Hle|Hgt].
  - assert (wrapped = false) as -> by (destruct wrapped; [exfalso; apply Hf; split; [done|lia]|done]).
    destruct (Z.leb_spec req (buff_size b - tail b)) as [Hfit|Hno].
    + intros [= <- <-]. cbn. split_and!; try done; try lia. exists false. unfold ring_ok. cbn. split_and!; try lia.
    + destruct (Z.ltb_spec req (head b)) as [Hwr|Hno2]; [|intros [= <- <-]; split_and!; try done; lia].
      cbn [set_tail head tail buff_size]. rewrite (proj2 (Z.leb_gt (head b) 0)) by lia.
      rewrite Z.sub_0_r, (proj2 (Z.leb_le req (head b))) by lia.
      intros [= <- <-]. cbn. split_and!; try done; try lia. exists true. unfold ring_ok. cbn. split_and!; try lia.
  - assert (wrapped = true) as -> by (destruct wrapped; [done|lia]).
    destruct (Z.leb_spec req (head b - tail b)) as [Hfit|Hno]; [|intros [= <- <-]; split_and!; try done; lia].
    intros [= <- <-]. cbn. split_and!; try done; try lia. exists true. unfold ring_ok. cbn. split_and!; try lia.
Qed.

Lemma alloc_loop_free_lists n req b b' o : alloc_loop n req b = (b', o) -> free_lists b' = free_lists b.
Proof.
  revert b; induction n as [|n IH]; intros b; cbn [alloc_loop]; [by intros [= <- _]|].
  repeat case_match; try (by intros [= <- _]). by intros ->%IH.
Qed.

(** ** Free lists *)

(** The links from [hd] on are the slots [l]; the last one points nowhere. *)
Fixpoint free_chain (m : bytes) (hd : Z) (l : list Z) : Prop :=
  match l with
  | [] => hd = usize_max
  | i :: l => hd = i /\ 0 <= i < usize_max /\ (Z.to_nat (8 * i) + 16 <= length m)%nat /\
      free_chain m (load_u64 m (Z.to_nat (8 * (i + 1)))) l
  end.

(** The free list of one size class. *)
Definition free_slots (b : MiniPageBuffer) (size : NodeSize.t) (l : list Z) : Prop :=
  length (free_lists b) = 7%nat /\
  free_chain (backing b) (default usize_max (free_lists b !! NodeSize.index size)) l.

Definition slots_apart (i j : Z) : Prop := i + 2 <= j \/ j + 2 <= i.

Lemma free_chain_frame m m' j hd l :
  0 <= j -> Forall (slots_apart j) l -> length m' = length m ->
  (forall o, (o + 8 <= Z.to_nat (8 * j) \/ Z.to_nat (8 * j) + 16 <= o)%nat -> load_u64 m' o = load_u64 m o) ->
  free_chain m hd l -> free_chain m' hd l.
Proof.
  intros Hj Hl Hlen Hm. revert hd; induction l as [|i l IH]; intros hd; [done|].
  apply Forall_cons_iff in Hl as [Hi Hl]. cbn [free_chain]. intros (Hhd & H0 & Hr & Hc).
  split; [done|]. split; [done|]. split; [by rewrite Hlen|]. rewrite Hm; [by apply IH|].
  unfold slots_apart in Hi. lia.
Qed.

Lemma free_chain_head m hd l : free_chain m hd l -> is_u64 hd.
Proof.
  destruct l as [|i l]; cbn [free_chain].
  - intros ->. by vm_compute.
  - intros (-> & H & _). unfold usize_max, u64_max, is_u64 in *. lia.
Qed.

Lemma index_lt size : (NodeSize.index size < 7)%nat.
Proof. destruct size; cbn; lia. Qed.

Section slot.
Context (b : MiniPageBuffer) (index : Z) (size : NodeSize.t) (l : list Z).
Context (Hi : 0 <= index < usize_max) (Hr : (Z.to_nat (8 * index) + 16 <= length (backing b))%nat).

(** The two words a freed slot changes. *)
Definition freed_words (h : NodeMeta.t) (next : Z) : bytes :=
  store_u64 (splice (backing b) (Z.to_nat (8 * index)) (set_header (slice (backing b) (Z.to_nat (8 * index)) 16) h))
    (Z.to_nat (8 * (index + 1))) next.

Lemma length_header_bytes h : length (set_header (slice (backing b) (Z.to_nat (8 * index)) 16) h) = 16%nat.
Proof. rewrite length_set_header; rewrite length_slice; unfold in_range; lia. Qed.

Lemma freed_frame h next :
  length (freed_words h next) = length (backing b) /\
  (forall o, (o + 8 <= Z.to_nat (8 * index) \/ Z.to_nat (8 * index) + 16 <= o)%nat ->
     load_u64 (freed_words h next) o = load_u64 (backing b) o) /\
  (is_u64 next -> load_u64 (freed_words h next) (Z.to_nat (8 * (index + 1))) = next).
Proof.
  pose proof (length_header_bytes h) as Hh.
  set (m1 := splice (backing b) (Z.to_nat (8 * index)) (set_header (slice (backing b) (Z.to_nat (8 * index)) 16) h)).
  assert (length m1 = length (backing b)) as L1 by (unfold m1; apply length_splice; unfold in_range; lia).
  assert (in_range m1 (Z.to_nat (8 * (index + 1))) 8) as Hin by (unfold in_range; lia).
  unfold freed_words. fold m1. split; [by rewrite length_store|]. split; [|intros; by apply load_store_same].
  intros o Ho. rewrite load_store_ne by (done || lia). unfold m1. apply load_splice_ne; unfold in_range; lia.
Qed.

Lemma dealloc_pushes :
  NodeMeta.size (E := unit) (header (slice (backing b) (Z.to_nat (8 * index)) 16)) = Ok size ->
  free_slots b size l -> Forall (slots_apart index) l ->
  exists b', dealloc index b = Ok b' /\ free_slots b' size (index :: l) /\ head b' = head b /\ tail b' = tail b /\
    length (backing b') = length (backing b) /\
    (forall o, (o + 8 <= Z.to_nat (8 * index) \/ Z.to_nat (8 * index) + 16 <= o)%nat ->
       load_u64 (backing b') o = load_u64 (backing b) o).
Proof.
  intros Hs [H7 Hc] Hap. unfold dealloc, node_at. rewrite read_raw_ok by exact Hr. cbn [mbind outcome_bind].
  change header_size with 16%nat. rewrite Hs. cbn [mbind outcome_bind].
  set (h := NodeMeta.set_record_count _ 0).
  set (next := default usize_max (free_lists b !! NodeSize.index size)) in *.
  destruct (freed_frame h next) as (F1 & F2 & F3).
  unfold write_cell, write_word. rewrite write_raw_ok.
  2: { unfold in_range. cbn [backing set_node_at set_backing]. rewrite length_splice by
         (unfold in_range; rewrite length_header_bytes; lia).
       rewrite LittleEndianList.length_le_split. lia. }
  cbn [mbind outcome_bind]. eexists. split; [reflexivity|]. cbn [set_free_list set_backing set_node_at].
  split_and!; [|done|done|exact F1|exact F2].
  unfold free_slots, set_free_list, set_node_at, set_backing. cbn [free_lists backing].
  split; [by rewrite length_insert|].
  rewrite list_lookup_insert_eq by (rewrite H7; apply index_lt). cbn [default free_chain].
  split; [done|]. split; [done|]. split; [by change (splice _ _ _) with (freed_words h next); rewrite F1|].
  change (free_chain (freed_words h next) (load_u64 (freed_words h next) (Z.to_nat (8 * (index + 1)))) l).
  rewrite F3 by (eapply free_chain_head; exact Hc).
  eapply free_chain_frame; [|exact Hap|exact F1|exact F2|exact Hc]. lia.
Qed.
End slot.

Lemma alloc_pops b size i l :
  free_slots b size (i :: l) ->
  exists b', alloc size b = Ok (b', Some i) /\ free_slots b' size l /\ backing b' = backing b.
Proof.
  intros [H7 Hc]. cbn [free_chain] in Hc. destruct Hc as (Hhd & H0 & Hr & Hc).
  unfold alloc, pop_freelist. cbv zeta. rewrite Hhd, (proj2 (Z.eqb_neq _ _)) by lia.
  unfold read_cell, read_word. rewrite (proj2 (Nat.leb_le _ _)) by lia. cbn [mbind outcome_bind].
  eexists. split; [reflexivity|]. split; [|done]. split; cbn [set_free_list free_lists backing].
  - by rewrite length_insert.
  - rewrite list_lookup_insert_eq by (rewrite H7; apply index_lt). exact Hc.
Qed.

(** * Eviction *)

(** A live, cold mini-page of leaf size whose disk leaf can take its records back, with a
    free entry in the table and a readable log. *)
Record evictable (s : Store) (cand page : Z) (m lo up : bytes) (es : list slot) (d : bytes) (ds : list slot)
    (w : Z) (gs : list group) : Prop := {
  ev_cand : 0 <= cand;
  ev_mem : node_at (E := QSError) (st_cache s) cand 4096 = Ok m;
  ev_leaf : leaf_repr m lo up es;
  ev_some : es <> [];
  ev_types : Forall (fun s => s_typ s <> KVRecordType.Tombstone) es;
  ev_size : NodeMeta.size (E := QSError) (header m) = Ok NodeSize.LeafPage;
  ev_live : NodeMeta.is_live (header m) = true;
  ev_cold : NodeMeta.is_hot (header m) = false;
  ev_idle : NodeMeta.is_being_evicted (header m) = false;
  ev_page : NodeMeta.page_id (header m) = page;
  ev_word : MapTable.indirection_arr (st_map s) !! Z.to_nat page = Some w;
  ev_free : is_u64 w /\ PageEntry.state w = 0 /\ PageEntry.get_ref w = NMiniPage cand;
  ev_disk : forall E, get_page (E := E) (st_io s) (NodeMeta.leaf (header m)) = Ok d;
  ev_dleaf : leaf_repr d lo up ds;
  ev_lens : Forall (fun s => match bt_get (content ds) (s_key s) with
                             | Some (v0, _) => length (s_val s) = length v0 | None => True end) es;
  ev_room : (sum_list (new_cost (content ds) <$> (kv_of <$> es)) <= free_space d)%nat;
  ev_wal : wal_inv (st_wal s) gs /\ Z.of_nat (length (records (st_wal s))) < 2 ^ 32 /\
           32 + log_size (records (st_wal s)) <= u64_max }.

Lemma header_prefix {E F} b i m :
  node_at (E := E) b i 4096 = Ok m ->
  exists hd, node_at (E := F) b i header_size = Ok hd /\ header hd = header m.
Proof.
  unfold node_at, read_raw. destruct (Nat.leb_spec (Z.to_nat (8 * i) + 4096) (length (backing b))) as [Hl|]; [|done].
  intros [= <-]. change header_size with 16%nat. rewrite (proj2 (Nat.leb_le _ _)) by lia. eexists. split; [done|].
  unfold header, load_u64. by rewrite !slice_slice by lia.
Qed.

Lemma header_leaf_range m : (16 <= length m)%nat -> 0 <= NodeMeta.leaf (header m) < 2 ^ 48.
Proof.
  intros Hl. destruct (header_wf m) as [H _]. unfold NodeMeta.leaf, shr64. rewrite Z.shiftr_div_pow2 by lia.
  unfold is_u64 in H. change (2 ^ 64) with (2 ^ 48 * 2 ^ 16) in H.
  split; [apply Z.div_pos; lia|]. apply Z.div_lt_upper_bound; lia.
Qed.

Lemma release_leaf page addr mt :
  0 <= addr < 2 ^ 48 -> (Z.to_nat page < length (MapTable.indirection_arr mt))%nat ->
  exists w', release page (PageEntry.leaf addr) (set_word page (PageEntry.leaf addr) mt) = Ok (set_word page w' mt) /\
    PageEntry.state w' = 0 /\ PageEntry.get_ref w' = NLeaf addr.
Proof.
  intros Ha Hl. exists (PageEntry.set_state (PageEntry.leaf addr) 0). split; [|split].
  - unfold release, drop_guard. erewrite on_entry_run;
      [|cbn; apply list_lookup_insert_eq; done
       |unfold drop_write_entry, Locks.drop_write_iter, Locks.cas_weak; cbn [negb andb]; by rewrite Z.eqb_refl].
    unfold set_word. cbn [MapTable.indirection_arr MapTable.next_free MapTable.cap]. by rewrite list_insert_insert_eq.
  - by apply PageEntryFacts.state_set_state.
  - rewrite <-(PageEntryFacts.leaf_ref addr Ha). apply PageEntryFacts.loc_get_ref, PageEntryFacts.loc_set_state;
      [by apply PageEntryFacts.leaf_is_u64|done].
Qed.

Lemma evict_one_ok s cand page m lo up es d ds w gs :
  evictable s cand page m lo up es d ds w gs ->
  exists s' d' ds' w', evict_one s cand = Ok (SDone s') /\
    st_map s' = set_word page w' (st_map s) /\
    PageEntry.state w' = 0 /\ PageEntry.get_ref w' = NLeaf (NodeMeta.leaf (header m)) /\
    st_io s' = write_page (st_io s) (NodeMeta.leaf (header m)) d' /\
    leaf_repr d' lo up ds' /\ content ds' = put_all (content ds) (kv_of <$> es) /\ length d' = length d /\
    records (st_wal s') = filter (fun r => Wal.page_id r <> page) (records (st_wal s)) /\
    head (st_cache s') = wrap (st_cache s) (cand + 512) /\ tail (st_cache s') = tail (st_cache s) /\
    (exists m', backing (st_cache s') = splice (backing (st_cache s)) (Z.to_nat (8 * cand)) m' /\ length m' = 4096%nat).
Proof.
  intros [Hcand Hmem Hm Hne Hty Hsz Hlive Hcold Hidle Hpage Hw (Hu & Hst & Href) Hd Hdl Hlen Hroom (Hwal & Hw1 & Hw2)].
  assert (length m = 4096%nat) as Hml.
  { unfold node_at, read_raw in Hmem. destruct (Nat.leb_spec (Z.to_nat (8 * cand) + 4096) (length (backing (st_cache s))));
      [|done]. injection Hmem as <-. apply length_slice. unfold in_range. lia. }
  destruct (header_prefix (F := QSError) _ _ _ Hmem) as (hd & Hhd & Heq).
  pose proof (header_wf m) as Hwf.
  set (meta1 := NodeMeta.set_being_evicted (header m) true).
  assert (NodeMetaFacts.wf meta1) as Hwf1 by (apply (NodeMetaFacts.set_flag_wf _ Hwf 12); lia).
  destruct (leaf_set_header m lo up es meta1 Hm Hwf1) as (Hm1 & Hh1 & Hl1).
  { apply (NodeMetaFacts.set_flag_record_count _ Hwf 12). lia. }
  assert (NodeMeta.leaf meta1 = NodeMeta.leaf (header m)) as Hleaf by (apply (NodeMetaFacts.set_flag_leaf _ Hwf 12); lia).
  destruct (flush_ok (E := QSError) (st_io s) (set_header m meta1) lo up d lo up es ds) as (d' & ds' & Hfl & Hd' & Hc & Hld & _);
    [done|done|done|by rewrite Hh1, Hleaf|done|done|done|].
  destruct (checkpoint_inv (st_wal s) gs page Hwal Hw1 Hw2) as (wal' & gs' & Hck & _ & Hrec).
  set (addr := NodeMeta.leaf (header m)) in *.
  set (wl := PageEntry.set_pending_write (PageEntry.set_state w PageEntry.WRITE_LOCK_STATE) false).
  destruct (release_leaf page addr (st_map s)) as (w' & Hrel & Hw's & Hw'r).
  { apply header_leaf_range. lia. }
  { by eapply lookup_lt_Some. }
  assert (set_word page (PageEntry.leaf addr) (set_word page wl (st_map s)) = set_word page (PageEntry.leaf addr) (st_map s)) as Hss.
  { unfold set_word. cbn [MapTable.indirection_arr MapTable.next_free MapTable.cap]. by rewrite list_insert_insert_eq. }
  unfold evict_one. rewrite Hhd. cbn [mbind outcome_bind]. rewrite Heq, Hsz. cbn [mbind outcome_bind].
  rewrite Hlive, Hcold, Hpage. cbn [negb].
  rewrite (on_entry_run page _ _ w wl (Ok w) Hw (write_page_entry_free w Hst)). rewrite Href, Z.eqb_refl. cbn [negb].
  unfold NodeMeta.mark_for_eviction. rewrite Hidle, Hlive. cbn [orb negb]. fold meta1.
  change (NodeSize.size_in_bytes NodeSize.LeafPage) with 4096%nat. rewrite Hmem. cbn [mbind outcome_bind].
  rewrite Hfl. cbn [mbind outcome_bind]. rewrite Hck. cbn [mbind outcome_bind]. rewrite Hh1, Hleaf.
  rewrite Hss, Hrel. cbn [mbind outcome_bind].
  eexists _, d', ds', w'. split; [reflexivity|]. cbn [st_map st_io st_wal st_cache]. split_and!; try done.
  eexists. split; [reflexivity|]. rewrite length_set_header; lia.
Qed.

(** * Properties *)

(** C17. Eviction changes where a page is, not what it holds.  The candidate is a live, cold,
    leaf-sized mini-page that has records and none of them deleted; its entry is unlocked; its
    disk leaf has the same fences, room for the new records, and values of the same length for
    those it has already; and the log is well formed.  Then the page is written back, its entry
    names the disk leaf and is unlocked, its log records are gone and nobody else's, the head
    of the ring moves past it, and every read of the page gives what it gave before. *)
Theorem evict_preserves_reads (s : Store) (cand page : Z) (m lo up : bytes) (es : list slot) (d : bytes)
    (ds : list slot) (w : Z) (gs : list group) :
  evictable s cand page m lo up es d ds w gs ->
  exists s' w', evict_one s cand = Ok (SDone s') /\
    st_map s' = set_word page w' (st_map s) /\ PageEntry.state w' = 0 /\
    PageEntry.get_ref w' = NLeaf (NodeMeta.leaf (header m)) /\
    records (st_wal s') = filter (fun r => Wal.page_id r <> page) (records (st_wal s)) /\
    head (st_cache s') = wrap (st_cache s) (cand + 512) /\
    forall k, page_get (E := QSError) (st_io s') None (PageEntry.get_ref w') m (common_prefix lo up ++ k) =
              page_get (st_io s) None (PageEntry.get_ref w) m (common_prefix lo up ++ k).
Proof.
  intros He. destruct (evict_one_ok s cand page m lo up es d ds w gs He)
    as (s' & d' & ds' & w' & E & Hmap & Hst & Href & Hio & Hd' & Hc & Hl & Hrec & Hhead & _).
  exists s', w'. split_and!; try done. intros k. rewrite Href, (proj2 (proj2 (ev_free _ _ _ _ _ _ _ _ _ _ _ He))).
  rewrite (page_get_mini (st_io s) None cand m d lo up es ds k) by apply He.
  rewrite (overlay_put_all es ds k), <-Hc by apply He.
  unfold page_get, ensure_page. rewrite Hio, get_write_same; [cbn [mbind outcome_bind]; apply (get_leaf _ _ _ _ Hd')|].
  rewrite Hl. pose proof (ev_disk _ _ _ _ _ _ _ _ _ _ _ He unit) as Hd. unfold get_page in Hd.
  destruct (Nat.leb_spec (calc_offset (NodeMeta.leaf (header m)) + 4096) (length (io_file (st_io s)))); [|done].
  injection Hd as <-. by apply length_slice.
Qed.

(** C28. Allocation from the ring, when the free list of the size is empty and the tail has not
    wrapped and caught up with the head: a new page lies inside the buffer and apart from every
    word in use, and the words in use only grow by it.  [None] leaves the buffer as it was and
    means that the words from the tail on (up to the head, or up to the end) are fewer than
    requested and, before a wrap, the words in front of the head are no more than requested: a
    gap of exactly the requested size in front of the head is refused. *)
Theorem alloc_disjoint (wrapped : bool) (b b' : MiniPageBuffer) (size : NodeSize.t) (o : option Z) :
  ring_ok wrapped b -> ~ (wrapped = true /\ tail b = head b) ->
  default usize_max (free_lists b !! NodeSize.index size) = usize_max ->
  alloc size b = Ok (b', o) ->
  let req := Z.of_nat (NodeSize.size_in_words size) in
  match o with
  | Some i =>
      0 <= i /\ i + req <= buff_size b /\ (forall x, i <= x < i + req -> ~ occupied wrapped b x) /\
      (exists wrapped', ring_ok wrapped' b' /\
        (forall x, occupied wrapped b x \/ i <= x < i + req -> occupied wrapped' b' x)) /\
      backing b' = backing b /\ head b' = head b /\ buff_size b' = buff_size b
  | None => b' = b /\ if wrapped then head b - tail b < req else buff_size b - tail b < req /\ head b <= req
  end.
Proof.
  intros Hring Hfull Hfree E req. unfold alloc, pop_freelist in E. cbv zeta in E. rewrite Hfree, Z.eqb_refl in E.
  cbn [mbind outcome_bind] in E. fold req in E.
  assert (0 < req) as Hpos.
  { assert (0 < NodeSize.size_in_words size)%nat by (by destruct size; apply Nat.ltb_lt). unfold req. lia. }
  clearbody req. remember (alloc_loop SPIN_RETRIES req b) as r eqn:Er. injection E as ->.
  exact (alloc_loop_ring wrapped b req b' o Hring Hpos Hfull (eq_sym Er)).
Qed.

(** The free list of a size class is a stack: freeing a page pushes it whatever it held
    before, and the next allocation of that size gives it back and leaves the list as it was. *)
Theorem free_list_lifo (b : MiniPageBuffer) (index : Z) (size : NodeSize.t) (l : list Z) :
  0 <= index < usize_max -> (Z.to_nat (8 * index) + 16 <= length (backing b))%nat ->
  NodeMeta.size (E := unit) (header (slice (backing b) (Z.to_nat (8 * index)) 16)) = Ok size ->
  free_slots b size l -> Forall (slots_apart index) l ->
  exists b' b'', dealloc index b = Ok b' /\ free_slots b' size (index :: l) /\
    alloc size b' = Ok (b'', Some index) /\ free_slots b'' size l /\ tail b' = tail b.
Proof.
  intros Hi Hr Hs Hf Hap. destruct (dealloc_pushes b index size l Hi Hr Hs Hf Hap) as (b' & E & Hf' & _ & Ht & _).
  destruct (alloc_pops b' size index l Hf') as (b'' & E' & Hf'' & _). exists b', b''. split_and!; done.
Qed.

(** ** A buffer of four pages *)

(** Four empty leaves at indices 0, 512, 1024 and 1536, pages 0 to 3, allocated by [alloc]. *)
Definition empty_page (p : Z) : bytes :=
  fst (format_leaf (E := unit) p NodeSize.LeafPage p (replicate 4096 Byte.x00)).

Definition full_buffer : MiniPageBuffer :=
  mkBuffer (empty_page 0 ++ empty_page 1 ++ empty_page 2 ++ empty_page 3) 2048 (replicate 7 usize_max) 0 2048.

Definition full_store : Store :=
  mkStore full_buffer
    (MapTable.mk ((fun i => PageEntry.set_state (PageEntry.new_write_locked (512 * i)) 0) <$> [0; 1; 2; 3]) 4 4)
    (IoEngine.open []) (Wal.open []).

(** Two evictions and two allocations later the tail has caught up with the head. *)
Definition after_evictions : option Store :=
  match evict 8 full_store with
  | Some (s, Ok _) => match evict 8 s with Some (s, Ok _) => Some s | _ => None end
  | _ => None
  end.

Definition alloc3 (b : MiniPageBuffer) : outcome unit (list (option Z)) :=
  '(b, o1) ← alloc NodeSize.LeafPage b;
  '(b, o2) ← alloc NodeSize.LeafPage b;
  '(b, o3) ← alloc NodeSize.LeafPage b;
  Ok [o1; o2; o3].

(** The ring does not know whether it is full or empty: after two evictions from a full
    buffer of four pages, three allocations succeed, and the third returns the memory of
    page 2, which was not evicted and is still mapped there. *)
Theorem alloc_reuses_live_page :
  exists s, after_evictions = Some s /\ alloc3 (st_cache s) = Ok [Some 0; Some 512; Some 1024] /\
    PageEntry.get_ref <$> MapTable.indirection_arr (st_map s) !! 2%nat = Some (NMiniPage 1024).
Proof. vm_compute. eexists. split; [reflexivity|]. split; reflexivity. Qed.

(** * Concrete buffers *)

Definition small_buffer : MiniPageBuffer :=
  mkBuffer (replicate (2 * 4096) Byte.x00) 1024 (replicate 7 usize_max) 0 512.

Lemma alloc_disjoint_witness :
  exists b', alloc NodeSize.LeafPage small_buffer = Ok (b', Some 512) /\
    forall x, 512 <= x < 512 + 512 -> ~ occupied false small_buffer x.
Proof.
  destruct (alloc NodeSize.LeafPage small_buffer) as [[b' o]| |] eqn:E; [|vm_compute in E; congruence..].
  assert (o = Some 512) as -> by (vm_compute in E; congruence).
  exists b'. split; [reflexivity|].
  refine (proj1 (proj2 (proj2 (alloc_disjoint false small_buffer b' NodeSize.LeafPage (Some 512) _ _ _ E)))).
  - vm_compute. repeat split; congruence.
  - intros [H _]. discriminate H.
  - reflexivity.
Defined.

Lemma free_list_lifo_witness :
  exists b' b'', dealloc 512 full_buffer = Ok b' /\ free_slots b' NodeSize.LeafPage [512] /\
    alloc NodeSize.LeafPage b' = Ok (b'', Some 512) /\ free_slots b'' NodeSize.LeafPage [] /\ tail b' = tail full_buffer.
Proof.
  apply (free_list_lifo full_buffer 512 NodeSize.LeafPage []).
  - vm_compute. split; congruence.
  - apply Nat.leb_le. vm_compute. reflexivity.
  - vm_compute. reflexivity.
  - split; vm_compute; reflexivity.
  - constructor.
Defined.

(** A mini-page with one record over an empty disk leaf. *)
Definition one_record : bytes := fst (try_put_with_suffix [Byte.x61] [Byte.x07] (empty_page 5)).
Definition evict_store : Store :=
  mkStore (mkBuffer one_record 512 (replicate 7 usize_max) 0 512)
    (MapTable.mk (replicate 5 0 ++ [PageEntry.set_state (PageEntry.new_write_locked 0) 0]) 6 6)
    (write_page (IoEngine.open []) 5 (empty_page 5)) (Wal.open []).

Lemma empty_page_leaf p : 0 <= p < 2 ^ 48 -> leaf_repr (empty_page p) LOWER_FENCE UPPER_FENCE [].
Proof.
  intros Hp. destruct (format_leaf_leaf (E := unit) (replicate 4096 Byte.x00) p NodeSize.LeafPage p) as (m' & Hrun & Hm' & _);
    [reflexivity|done|done|]. unfold empty_page. by rewrite Hrun.
Qed.

Lemma one_record_leaf :
  leaf_repr one_record LOWER_FENCE UPPER_FENCE [mkSlot false [Byte.x61] [Byte.x07] KVRecordType.Insert].
Proof.
  destruct (try_put_with_suffix [Byte.x61] [Byte.x07] (empty_page 5)) as [m' [[]| |]] eqn:E; [|vm_compute in E; congruence..].
  pose proof (put_concrete (empty_page 5) _ _ [] [Byte.x61] [Byte.x07] m' (empty_page_leaf 5 ltac:(lia)) eq_refl) as H.
  unfold one_record. rewrite E. apply H; [vm_compute; lia|done].
Qed.

Lemma evict_store_evictable :
  evictable evict_store 0 5 one_record LOWER_FENCE UPPER_FENCE
    [mkSlot false [Byte.x61] [Byte.x07] KVRecordType.Insert] (empty_page 5) []
    (PageEntry.set_state (PageEntry.new_write_locked 0) 0) [].
Proof.
  split.
  - lia.
  - vm_compute. reflexivity.
  - exact one_record_leaf.
  - done.
  - by repeat constructor.
  - vm_compute. reflexivity.
  - vm_compute. reflexivity.
  - vm_compute. reflexivity.
  - vm_compute. reflexivity.
  - vm_compute. reflexivity.
  - vm_compute. reflexivity.
  - split; [by vm_compute|]. split; by vm_compute.
  - intros E. replace (NodeMeta.leaf (header one_record)) with 5 by (vm_compute; reflexivity).
    apply get_write_same. vm_compute. reflexivity.
  - apply empty_page_leaf. lia.
  - by repeat constructor.
  - vm_compute. lia.
  - split; [exact open_fresh|]. split; vm_compute; congruence.
Qed.

Lemma evict_preserves_reads_witness :
  exists s' w', evict_one evict_store 0 = Ok (SDone s') /\ PageEntry.get_ref w' = NLeaf 5 /\
    page_get (E := QSError) (st_io s') None (PageEntry.get_ref w') one_record [Byte.x61] = Ok (Some [Byte.x07]).
Proof.
  destruct (evict_preserves_reads evict_store 0 5 one_record LOWER_FENCE UPPER_FENCE
    [mkSlot false [Byte.x61] [Byte.x07] KVRecordType.Insert] (empty_page 5) []
    (PageEntry.set_state (PageEntry.new_write_locked 0) 0) [] evict_store_evictable)
    as (s' & w' & E & _ & _ & Href & _ & _ & Hget).
  exists s', w'. split; [exact E|]. split; [rewrite Href; vm_compute; reflexivity|].
  exact (eq_trans (Hget [Byte.x61]) ltac:(vm_compute; reflexivity)).
Defined.
