(* ===== verification/Olc.v ===== *)
(** * Optimistic reads of inner nodes (src/btree.rs: version locks)

    The root word and every inner node carry a version word: bit 1 is set while a writer
    holds the lock, bit 0 marks an obsolete node.  A reader remembers the version, reads the
    node byte by byte without a lock while writers may change it, and compares the version
    at the end.  One node and any number of threads are modelled as a step relation in which
    each step is one atomic access to the version word or one access to a byte of the node;
    [compare_exchange_weak] may fail spuriously. *)

From stdpp Require Import relations.
From S2P Require Import Prelude BPTree.

(** ** Readers

    A reader is a computation that asks for bytes of the node and returns a result: which
    byte it asks for next may depend on what it saw, also when that was written half. *)
Inductive reader (A : Type) := Ret (a : A) | Read (i : nat) (k : Byte.byte -> reader A).
Arguments Ret {A} _.
Arguments Read {A} _ _.

(** What the reader computes on a node that does not change. *)
Fixpoint read_node {A} (p : reader A) (d : bytes) : option A :=
  match p with
  | Ret a => Some a
  | Read i k => match d !! i with Some b => read_node (k b) d | None => None end
  end.

Section olc.
Context {A : Type}.

(** Where a thread is.  [snap] is the node as it was when the version was loaded; no step
    looks at it. *)
Inductive pc :=
| Idle
| Reading (version : Z) (p rest : reader A) (snap : bytes)
| Validated (version : Z) (p : reader A) (a : A) (snap : bytes)
| Holding
| Crashed.

(** [read_inner] and [read_root]. *)
Definition load_version (w : Z) (d : bytes) (p : reader A) : pc :=
  if is_locked_or_obsolete w then Idle else Reading w p p d.

(** [upgrade], with the exchange failing spuriously or not. *)
Definition upgrade (spurious : bool) (w version : Z) : Z * pc :=
  match lock_version (E := unit) version with
  | Ok new_version => if negb spurious && (w =? version) then (new_version, Holding) else (w, Idle)
  | _ => (w, Crashed)
  end.

(** [check_or_restart]. *)
Definition check_or_restart (w version : Z) (p : reader A) (a : A) (snap : bytes) : pc :=
  if version =? w then Validated version p a snap else Idle.

(** [Drop] of a write guard. *)
Definition unlock (w : Z) : Z := u64 (w + 2).

Record sys := mkSys { word : Z; node : bytes; threads : list pc }.

Definition set_thread (t : nat) (p : pc) (s : sys) : sys := mkSys (word s) (node s) (<[t := p]> (threads s)).

Definition guard_version (p : pc) : option Z :=
  match p with Reading v _ _ _ | Validated v _ _ _ => Some v | _ => None end.

Inductive step : sys -> sys -> Prop :=
| step_load s t p :
    threads s !! t = Some Idle -> step s (set_thread t (load_version (word s) (node s) p) s)
| step_read s t v p i k snap b :
    threads s !! t = Some (Reading v p (Read i k) snap) -> node s !! i = Some b ->
    step s (set_thread t (Reading v p (k b) snap) s)
| step_check s t v p a snap :
    threads s !! t = Some (Reading v p (Ret a) snap) ->
    step s (set_thread t (check_or_restart (word s) v p a snap) s)
| step_upgrade s t g v spurious :
    threads s !! t = Some g -> guard_version g = Some v ->
    step s (mkSys (fst (upgrade spurious (word s) v)) (node s) (<[t := snd (upgrade spurious (word s) v)]> (threads s)))
| step_restart s t g v :
    threads s !! t = Some g -> guard_version g = Some v -> step s (set_thread t Idle s)
| step_write s t i b :
    threads s !! t = Some Holding -> step s (mkSys (word s) (<[i := b]> (node s)) (threads s))
| step_unlock s t :
    threads s !! t = Some Holding -> step s (mkSys (unlock (word s)) (node s) (<[t := Idle]> (threads s))).

Definition initial (w : Z) (d : bytes) (n : nat) : sys := mkSys w d (replicate n Idle).

(** ** The invariant

    [e] counts the changes of the version word: it is even while the node is free and odd
    while one thread holds it.  A guard was taken at an even count; while the count is still
    the same, the node is the one the guard was taken on and the rest of its reads continue
    a run on that node. *)
Definition version_at (w0 e : Z) : Z := u64 (w0 + 2 * e).

Definition thread_inv (w0 e : Z) (d : bytes) (g : pc) : Prop :=
  match g with
  | Idle | Holding => True
  | Reading v p rest snap =>
      exists er, v = version_at w0 er /\ Z.even er = true /\ 0 <= er <= e /\
        (er = e -> d = snap /\ read_node rest snap = read_node p snap)
  | Validated v p a snap =>
      read_node p snap = Some a /\
      exists er, v = version_at w0 er /\ Z.even er = true /\ 0 <= er <= e /\ (er = e -> d = snap)
  | Crashed => False
  end.

Record inv (w0 e : Z) (s : sys) : Prop := mkInv {
  i_word : word s = version_at w0 e;
  i_nonneg : 0 <= e;
  i_threads : forall t g, threads s !! t = Some g -> thread_inv w0 e (node s) g;
  i_free : Z.even e = true -> forall t, threads s !! t <> Some Holding;
  i_held : forall t t', threads s !! t = Some Holding -> threads s !! t' = Some Holding -> t = t' }.

Lemma version_at_even w0 e : unlocked w0 -> Z.even e = true -> unlocked (version_at w0 e).
Proof.
  intros [Hw Hm] He. apply Zeven_bool_iff, Zeven_ex in He as [k ->]. unfold version_at, u64.
  split; [apply Z.mod_pos_bound; lia|].
  apply Z.mod_divide in Hm as [j ->]; [|done].
  replace (j * 4 + 2 * (2 * k)) with ((j + k) * 4) by lia.
  change (2 ^ 64) with (2 ^ 62 * 4). rewrite Z.mul_mod_distr_r by lia. apply Z.mod_mul. lia.
Qed.

Lemma version_at_odd w0 e : unlocked w0 -> Z.even e = false -> is_locked_or_obsolete (version_at w0 e) = true.
Proof.
  intros [Hw Hm] He. assert (Z.odd e = true) as Ho by (by rewrite <-Z.negb_even, He).
  apply Zodd_bool_iff, Zodd_ex in Ho as [k ->]. unfold is_locked_or_obsolete, version_at, u64.
  change 3 with (Z.ones 2). rewrite Z.land_ones by lia.
  apply Z.mod_divide in Hm as [j ->]; [|done].
  assert (((j * 4 + 2 * (2 * k + 1)) mod 2 ^ 64) mod 2 ^ 2 = 2) as ->; [|done].
  rewrite Z.mod_mod_divide by (by exists (2 ^ 62)).
  replace (j * 4 + 2 * (2 * k + 1)) with (2 + (j + k) * 2 ^ 2) by lia. by rewrite Z.mod_add.
Qed.

Lemma version_at_inj w0 er e : 0 <= er <= e -> e < 2 ^ 63 -> version_at w0 er = version_at w0 e -> er = e.
Proof.
  intros Hr He H. unfold version_at, u64 in H.
  assert ((2 * (e - er)) mod 2 ^ 64 = 0) as H0.
  { replace (2 * (e - er)) with (w0 + 2 * e - (w0 + 2 * er)) by lia. rewrite Zminus_mod, H, Z.sub_diag. done. }
  rewrite Z.mod_small in H0 by lia. lia.
Qed.

Lemma version_at_succ w0 e : u64 (version_at w0 e + 2) = version_at w0 (e + 1).
Proof. unfold version_at, u64. rewrite Zplus_mod_idemp_l. f_equal. lia. Qed.

Lemma lock_version_at {E} w0 e :
  unlocked w0 -> Z.even e = true -> lock_version (E := E) (version_at w0 e) = Ok (version_at w0 (e + 1)).
Proof.
  intros Hw He. pose proof (version_at_even w0 e Hw He) as Hu. rewrite unlocked_lock by done. f_equal.
  rewrite <-version_at_succ. destruct Hu as [Hr Hm]. unfold u64. rewrite Z.mod_small; [done|].
  apply Z.mod_divide in Hm as [k Hk]; [|done]. change (2 ^ 64) with (4 * 2 ^ 62) in *. lia.
Qed.

(** ** Preservation *)

Lemma set_lookup t g s t' g' :
  (<[t := g]> (threads s)) !! t' = Some g' -> (t' = t /\ g' = g) \/ (t' <> t /\ threads s !! t' = Some g').
Proof. intros [(-> & -> & _)|[Hne H]]%list_lookup_insert_Some; auto. Qed.

(** A guard changes what it knows; the node and its version stay. *)
Lemma inv_set w0 e s t g : inv w0 e s -> g <> Holding -> thread_inv w0 e (node s) g -> inv w0 e (set_thread t g s).
Proof.
  intros [Hw Hn Ht Hf Hh] Hg Hi. split; cbn [set_thread word node threads]; [done|done|..].
  - intros t' g' [[-> ->]|[_ H]]%set_lookup; eauto.
  - intros He t' [[-> H]|[_ H]]%set_lookup; [by subst|by eapply Hf].
  - intros t1 t2 [[_ H]|[_ H]]%set_lookup; [by subst|]. intros [[_ H']|[_ H']]%set_lookup; [by subst|eauto].
Qed.

(** Once the version has moved on, a guard promises nothing about the node. *)
Lemma thread_inv_moved w0 e d d' g : thread_inv w0 e d g -> thread_inv w0 (e + 1) d' g.
Proof.
  destruct g as [|v p rest snap|v p a snap| |]; cbn; [done| | |done|done].
  - intros (er & ? & ? & ? & _). exists er. split_and!; try done; lia.
  - intros (? & er & ? & ? & ? & _). split; [done|]. exists er. split_and!; try done; lia.
Qed.

Lemma guard_at w0 e s t g v :
  inv w0 e s -> threads s !! t = Some g -> guard_version g = Some v ->
  exists er, v = version_at w0 er /\ Z.even er = true /\ 0 <= er <= e.
Proof.
  intros H Ht Hv. pose proof (i_threads _ _ _ H _ _ Ht) as Hg.
  destruct g; try done; injection Hv as <-; [destruct Hg as (er & ? & ? & ? & _)|destruct Hg as (_ & er & ? & ? & ? & _)];
    by exists er.
Qed.

(** While a thread holds the node the count is odd, so the other guards are stale. *)
Lemma thread_inv_held w0 e d d' g : Z.even e = false -> thread_inv w0 e d g -> thread_inv w0 e d' g.
Proof.
  intros He. destruct g as [|v p rest snap|v p a snap| |]; cbn; [done| | |done|done].
  - intros (er & ? & Hev & ? & _). exists er. split_and!; [done|done|lia|lia|]. intros ->. congruence.
  - intros (? & er & ? & Hev & ? & _). split; [done|]. exists er. split_and!; [done|done|lia|lia|]. intros ->. congruence.
Qed.

Lemma holding_odd w0 e s t : inv w0 e s -> threads s !! t = Some Holding -> Z.even e = false.
Proof. intros H Ht. destruct (Z.even e) eqn:He; [|done]. by destruct (i_free _ _ _ H He t). Qed.

Lemma olc_step_inv w0 e s s' :
  unlocked w0 -> inv w0 e s -> e < 2 ^ 63 -> step s s' -> inv w0 e s' \/ inv w0 (e + 1) s'.
Proof.
  intros Hw0 H He Hs. destruct Hs as [s t p Ht|s t v p i k snap b Ht Hb|s t v p a snap Ht|s t g v sp Ht Hg|s t g v Ht Hg|s t i b Ht|s t Ht].
  - left. unfold load_version. destruct (is_locked_or_obsolete (word s)) eqn:Hl; apply inv_set; try done.
    exists e. split_and!; [apply H| |apply H|done|done].
    destruct (Z.even e) eqn:Hev; [done|]. rewrite (i_word _ _ _ H), version_at_odd in Hl by done. done.
  - left. apply inv_set; [done..|]. destruct (i_threads _ _ _ H _ _ Ht) as (er & -> & Hev & Hle & Hsame).
    exists er. split_and!; [done|done|lia|lia|]. intros Heq. destruct (Hsame Heq) as [Hd Hr]. split; [done|].
    rewrite <-Hr. cbn. by rewrite <-Hd, Hb.
  - left. unfold check_or_restart. destruct (Z.eqb_spec v (word s)) as [Hv|Hv]; apply inv_set; try done.
    destruct (i_threads _ _ _ H _ _ Ht) as (er & -> & Hev & Hle & Hsame). rewrite (i_word _ _ _ H) in Hv.
    apply version_at_inj in Hv; [|lia|done]. destruct (Hsame Hv) as [Hd Hr]. split; [by rewrite <-Hr|].
    exists er. split_and!; [done|done|lia|lia|done].
  - destruct (guard_at _ _ _ _ _ _ H Ht Hg) as (er & -> & Hev & Hle). unfold upgrade. rewrite lock_version_at by done.
    destruct (negb sp && (word s =? version_at w0 er)) eqn:Hc; cbn [fst snd]; [right|left; by apply (inv_set _ _ s)].
    apply andb_true_iff in Hc as [_ Hc%Z.eqb_eq]. rewrite (i_word _ _ _ H) in Hc. symmetry in Hc.
    apply version_at_inj in Hc as ->; [|lia|done]. destruct H as [Hw Hn Hts Hf Hh]. split; cbn [word node threads]; [done|lia|..].
    + intros t' g' [[-> ->]|[_ H]]%set_lookup; [done|]. eapply thread_inv_moved; eauto.
    + rewrite Z.even_add, Hev. done.
    + intros t1 t2 [[-> _]|[_ H]]%set_lookup; [|by destruct (Hf Hev t1)].
      intros [[-> _]|[_ H']]%set_lookup; [done|by destruct (Hf Hev t2)].
  - left. by apply inv_set.
  - left. pose proof (holding_odd _ _ _ _ H Ht) as Hev. destruct H as [Hw Hn Hts Hf Hh]. split; cbn [word node threads]; try done.
    intros t' g' Ht'. eapply thread_inv_held; eauto.
  - right. pose proof (holding_odd _ _ _ _ H Ht) as Hev. destruct H as [Hw Hn Hts Hf Hh]. split; cbn [word node threads].
    + unfold unlock. by rewrite Hw, version_at_succ.
    + lia.
    + intros t' g' [[-> ->]|[_ H]]%set_lookup; [done|]. eapply thread_inv_moved; eauto.
    + intros _ t' [[_ H]|[Hne H]]%set_lookup; [done|]. by apply Hne, Hh.
    + intros t1 t2 [[_ H]|[Hne H]]%set_lookup; [done|]. by destruct (Hne (Hh _ _ H Ht)).
Qed.

Lemma olc_initial w d n : unlocked w -> inv w 0 (initial w d n).
Proof.
  intros [Hw _]. split; cbn [initial word node threads]; [|done|..].
  - unfold version_at, u64. rewrite Z.mod_small; lia.
  - intros t g [-> _]%lookup_replicate. done.
  - intros _ t [? _]%lookup_replicate. done.
  - intros t t' [? _]%lookup_replicate. done.
Qed.

Lemma olc_steps_inv w0 e n s s' :
  unlocked w0 -> nsteps step n s s' -> inv w0 e s -> e + Z.of_nat n < 2 ^ 63 ->
  exists e', inv w0 e' s' /\ e' <= e + Z.of_nat n.
Proof.
  intros Hw Hn. revert e; induction Hn as [s|n s s1 s' Hs _ IH]; intros e H He; [exists e; split; [done|lia]|].
  destruct (olc_step_inv w0 e s s1 Hw H ltac:(lia) Hs) as [H1|H1]; apply IH in H1 as (e' & ? & ?); try lia; exists e'; (split; [done|lia]).
Qed.

(** C11. Optimistic reads are consistent: whatever any number of threads do to a node in fewer
    than 2^63 steps, no operation panics, at most one thread has the write lock, and a read
    that [check_or_restart] accepts has computed what it would have computed on the node as
    it was, unlocked, when the version was loaded, although the node was written to while
    other reads ran.  While the version is still the one of an accepted read, so is the
    node: a guard that is upgraded later writes to the node it has read. *)
Theorem optimistic_read_consistent (w0 : Z) (d0 : bytes) (threads0 n : nat) (s : sys) :
  unlocked w0 -> nsteps step n (initial w0 d0 threads0) s -> Z.of_nat n < 2 ^ 63 ->
  (forall t, threads s !! t <> Some Crashed) /\
  (forall t t', threads s !! t = Some Holding -> threads s !! t' = Some Holding -> t = t') /\
  (forall t v p a snap, threads s !! t = Some (Validated v p a snap) ->
     read_node p snap = Some a /\ (word s = v -> node s = snap)).
Proof.
  intros Hw Hn Hb. destruct (olc_steps_inv w0 0 n _ s Hw Hn (olc_initial w0 d0 threads0 Hw) Hb) as (e & H & He).
  split_and!; [|apply H|].
  - intros t Ht. exact (i_threads _ _ _ H _ _ Ht).
  - intros t v p a snap Ht. destruct (i_threads _ _ _ H _ _ Ht) as (Hr & er & -> & _ & Hle & Hsame).
    split; [done|]. intros Hv. rewrite (i_word _ _ _ H) in Hv. symmetry in Hv.
    apply version_at_inj in Hv; [auto|lia|lia].
Qed.

End olc.

(** One thread writes the node and unlocks it while another waits; then that one reads the
    first byte of the node, and the first thread writes again. *)
Definition first_byte : reader Byte.byte := Read 0 Ret.

Lemma sample_steps :
  nsteps step 10 (initial 0 [Byte.x01] 2)
    (mkSys 6 [Byte.x03] [Holding; Validated 4 first_byte Byte.x02 [Byte.x02]]).
Proof.
  eapply nsteps_l; [by apply (step_load _ 0%nat first_byte)|].
  eapply nsteps_l; [by apply (step_upgrade _ 0%nat (Reading 0 first_byte first_byte [Byte.x01]) 0 false)|].
  eapply nsteps_l; [by apply (step_write _ 0%nat 0%nat Byte.x02)|].
  eapply nsteps_l; [by apply (step_unlock _ 0%nat)|].
  eapply nsteps_l; [by apply (step_load _ 1%nat first_byte)|].
  eapply nsteps_l; [by apply (step_read _ 1%nat 4 first_byte 0%nat Ret [Byte.x02] Byte.x02)|].
  eapply nsteps_l; [by apply (step_check _ 1%nat 4 first_byte Byte.x02 [Byte.x02])|].
  eapply nsteps_l; [by apply (step_load _ 0%nat first_byte)|].
  eapply nsteps_l; [by apply (step_upgrade _ 0%nat (Reading 4 first_byte first_byte [Byte.x02]) 4 false)|].
  eapply nsteps_l; [by apply (step_write _ 0%nat 0%nat Byte.x03)|].
  vm_compute. apply nsteps_O.
Qed.

Lemma optimistic_read_consistent_witness :
  let s := mkSys 6 [Byte.x03] [Holding; Validated 4 first_byte Byte.x02 [Byte.x02]] in
  (forall t, threads s !! t <> Some Crashed) /\
  (forall t t', threads s !! t = Some Holding -> threads s !! t' = Some Holding -> t = t') /\
  read_node first_byte [Byte.x02] = Some Byte.x02.
Proof.
  destruct (optimistic_read_consistent 0 [Byte.x01] 2 10 _ ltac:(split; [lia|reflexivity]) sample_steps ltac:(lia))
    as (H1 & H2 & H3).
  split_and!; [exact H1|exact H2|]. apply (H3 1%nat 4 first_byte Byte.x02 [Byte.x02]). reflexivity.
Defined.
