(* ===== verification/Config.v ===== *)
(** * Configuration (src/lib.rs: [QuickStepConfig])

    The checkpoint thresholds come from defaults, the environment and the command line, in
    this order, as [QuickStep::new] resolves them.  The environment is a function from names
    to values.  The paths of the two files are not modelled: they only name what the
    operating system opens. *)

From Stdlib Require Import String Ascii.
From Equations Require Import Equations.
From S2P Require Import Prelude.

Definition DEFAULT_WAL_LEAF_CHECKPOINT_THRESHOLD : Z := 32.
Definition DEFAULT_WAL_GLOBAL_RECORD_THRESHOLD : Z := 1024.
Definition DEFAULT_WAL_GLOBAL_BYTE_THRESHOLD : Z := 512 * 1024.
Definition ENV_WAL_LEAF_THRESHOLD : string := "QUICKSTEP_WAL_LEAF_THRESHOLD".
Definition ENV_WAL_GLOBAL_RECORD_THRESHOLD : string := "QUICKSTEP_WAL_GLOBAL_RECORD_THRESHOLD".
Definition ENV_WAL_GLOBAL_BYTE_THRESHOLD : string := "QUICKSTEP_WAL_GLOBAL_BYTE_THRESHOLD".
Definition CLI_WAL_LEAF_THRESHOLD : string := "--quickstep-wal-leaf-threshold".
Definition CLI_WAL_GLOBAL_RECORD_THRESHOLD : string := "--quickstep-wal-global-record-threshold".
Definition CLI_WAL_GLOBAL_BYTE_THRESHOLD : string := "--quickstep-wal-global-byte-threshold".

Record QuickStepConfig := mkConfig {
  path : string; inner_node_upper_bound : Z; leaf_upper_bound : Z; cache_size_lg : Z;
  wal_leaf_checkpoint_threshold : Z; wal_global_record_threshold : Z; wal_global_byte_threshold : Z }.

Definition config_new (p : string) (inner leaf lg : Z) : QuickStepConfig :=
  mkConfig p inner leaf lg DEFAULT_WAL_LEAF_CHECKPOINT_THRESHOLD DEFAULT_WAL_GLOBAL_RECORD_THRESHOLD
    DEFAULT_WAL_GLOBAL_BYTE_THRESHOLD.

Definition with_wal_thresholds (l r b : Z) (c : QuickStepConfig) : QuickStepConfig :=
  mkConfig (path c) (inner_node_upper_bound c) (leaf_upper_bound c) (cache_size_lg c) l r b.
Definition wal_thresholds (c : QuickStepConfig) : Z * Z * Z :=
  (wal_leaf_checkpoint_threshold c, wal_global_record_threshold c, wal_global_byte_threshold c).

Definition set_leaf_threshold (v : Z) (c : QuickStepConfig) : QuickStepConfig :=
  with_wal_thresholds v (wal_global_record_threshold c) (wal_global_byte_threshold c) c.
Definition set_record_threshold (v : Z) (c : QuickStepConfig) : QuickStepConfig :=
  with_wal_thresholds (wal_leaf_checkpoint_threshold c) v (wal_global_byte_threshold c) c.
Definition set_byte_threshold (v : Z) (c : QuickStepConfig) : QuickStepConfig :=
  with_wal_thresholds (wal_leaf_checkpoint_threshold c) (wal_global_record_threshold c) v c.

(** ** [str::parse::<usize>] *)

Definition digit (c : ascii) : option Z :=
  let n := Z.of_nat (nat_of_ascii c) in
  if (48 <=? n) && (n <=? 57) then Some (n - 48) else None.

(** [checked_mul(10)] and [checked_add(digit)] at every digit. *)
Fixpoint parse_digits (acc : Z) (s : string) : option Z :=
  match s with
  | EmptyString => Some acc
  | String c s =>
      match digit c with
      | Some d => if acc * 10 <=? u64_max then
                    if acc * 10 + d <=? u64_max then parse_digits (acc * 10 + d) s else None
                  else None
      | None => None
      end
  end.

Definition parse_usize (s : string) : option Z :=
  match s with
  | EmptyString => None
  | String c rest =>
      if Ascii.eqb c "+"%char then
        match rest with EmptyString => None | _ => parse_digits 0 rest end
      else parse_digits 0 s
  end.

Definition read_env_usize (env : string -> option string) (key : string) : option Z :=
  match env key with Some value => parse_usize value | None => None end.

Definition with_env_overrides (env : string -> option string) (c : QuickStepConfig) : QuickStepConfig :=
  let c := match read_env_usize env ENV_WAL_LEAF_THRESHOLD with Some v => set_leaf_threshold v c | None => c end in
  let c := match read_env_usize env ENV_WAL_GLOBAL_RECORD_THRESHOLD with Some v => set_record_threshold v c | None => c end in
  match read_env_usize env ENV_WAL_GLOBAL_BYTE_THRESHOLD with Some v => set_byte_threshold v c | None => c end.

(** ** The command line *)

(** [str::strip_prefix] *)
Fixpoint strip_prefix (p s : string) : option string :=
  match p, s with
  | EmptyString, _ => Some s
  | String a p, String b s => if Ascii.eqb a b then strip_prefix p s else None
  | _, EmptyString => None
  end.

(** The value, and the arguments left in the iterator. *)
Definition parse_cli_override (token flag : string) (iter : list string) : option Z * list string :=
  match (match strip_prefix flag token with Some rest => strip_prefix "=" rest | None => None end) with
  | Some value => (parse_usize value, iter)
  | None =>
      if String.eqb token flag then
        match iter with
        | next :: iter => (parse_usize next, iter)
        | [] => (None, [])
        end
      else (None, iter)
  end.

Lemma parse_cli_override_length token flag iter :
  (length (parse_cli_override token flag iter).2 <= length iter)%nat.
Proof. unfold parse_cli_override. repeat case_match; simpl; lia. Qed.

(** One turn of the [while let]: the three flags are tried in order on the same iterator. *)
Definition cli_turn (token : string) (iter : list string) (c : QuickStepConfig) : QuickStepConfig * list string :=
  let '(o, iter) := parse_cli_override token CLI_WAL_LEAF_THRESHOLD iter in
  match o with Some v => (set_leaf_threshold v c, iter) | None =>
  let '(o, iter) := parse_cli_override token CLI_WAL_GLOBAL_RECORD_THRESHOLD iter in
  match o with Some v => (set_record_threshold v c, iter) | None =>
  let '(o, iter) := parse_cli_override token CLI_WAL_GLOBAL_BYTE_THRESHOLD iter in
  match o with Some v => (set_byte_threshold v c, iter) | None => (c, iter) end end end.

Lemma cli_turn_length token iter c : (length (cli_turn token iter c).2 <= length iter)%nat.
Proof.
  unfold cli_turn. pose proof (parse_cli_override_length token CLI_WAL_LEAF_THRESHOLD iter) as H1.
  destruct (parse_cli_override token CLI_WAL_LEAF_THRESHOLD iter) as [[v|] it1]; [exact H1|]. cbn in H1.
  pose proof (parse_cli_override_length token CLI_WAL_GLOBAL_RECORD_THRESHOLD it1) as H2.
  destruct (parse_cli_override token CLI_WAL_GLOBAL_RECORD_THRESHOLD it1) as [[v|] it2]; cbn in *; [lia|].
  pose proof (parse_cli_override_length token CLI_WAL_GLOBAL_BYTE_THRESHOLD it2) as H3.
  destruct (parse_cli_override token CLI_WAL_GLOBAL_BYTE_THRESHOLD it2) as [[v|] it3]; cbn in *; lia.
Qed.

(** The loop ends: a turn takes its token and at most three values from the iterator. *)
Equations with_cli_overrides (args : list string) (c : QuickStepConfig) : QuickStepConfig by wf (length args) lt :=
  with_cli_overrides [] c := c;
  with_cli_overrides (token :: its) c :=
    with_cli_overrides (cli_turn token its c).2 (cli_turn token its c).1.
Next Obligation. intros. apply Nat.lt_succ_r, cli_turn_length. Qed.

(** What [QuickStep::new] starts from; [args] is [env::args().skip(1)]. *)
Definition resolve (env : string -> option string) (args : list string) (c : QuickStepConfig) : QuickStepConfig :=
  with_cli_overrides args (with_env_overrides env c).

(** * Facts *)

(** The value of a string of digits, without a bound. *)
Fixpoint digits_value (acc : Z) (s : string) : option Z :=
  match s with
  | EmptyString => Some acc
  | String c s => d ← digit c; digits_value (acc * 10 + d) s
  end.

Lemma digit_range c d : digit c = Some d -> 0 <= d < 10.
Proof. unfold digit. destruct ((_ <=? _) && _) eqn:E; [|done]. apply andb_true_iff in E as [?%Z.leb_le ?%Z.leb_le]. intros [= <-]. lia. Qed.

Lemma digits_value_mono acc s n : 0 <= acc -> digits_value acc s = Some n -> acc <= n.
Proof.
  revert acc; induction s as [|c s IH]; intros acc Ha; cbn [digits_value]; [intros [= ->]; lia|].
  destruct (digit c) as [d|] eqn:E; [|done]. cbn. intros H. apply digit_range in E.
  etrans; [|by apply IH, H; lia]. lia.
Qed.

(** Checking at every digit is the same as checking the value. *)
Lemma parse_digits_value acc s :
  0 <= acc <= u64_max ->
  parse_digits acc s = n ← digits_value acc s; if n <=? u64_max then Some n else None.
Proof.
  revert acc; induction s as [|c s IH]; intros acc Ha; cbn [parse_digits digits_value].
  { cbn. by rewrite (proj2 (Z.leb_le _ _)) by lia. }
  destruct (digit c) as [d|] eqn:E; [|done]. cbn. apply digit_range in E.
  destruct (Z.leb_spec (acc * 10) u64_max) as [H1|H1]; [destruct (Z.leb_spec (acc * 10 + d) u64_max) as [H2|H2]|].
  - rewrite IH by lia. done.
  - destruct (digits_value _ s) as [n|] eqn:En; [|done]. apply digits_value_mono in En; [|lia].
    cbn. by rewrite (proj2 (Z.leb_gt _ _)) by lia.
  - destruct (digits_value _ s) as [n|] eqn:En; [|done]. apply digits_value_mono in En; [|lia].
    cbn. by rewrite (proj2 (Z.leb_gt _ _)) by lia.
Qed.

Definition strip_plus (s : string) : string :=
  match s with String c rest => if Ascii.eqb c "+"%char then rest else s | EmptyString => s end.

(** Parsing a threshold is reading a decimal number: the result is the value of the digits
    after an optional plus sign when there are digits and nothing else and the value is at
    most 2^64 - 1; the overflow checks at every digit reject exactly the larger values. *)
Theorem parse_usize_correct (s : string) :
  parse_usize s =
    match strip_plus s with
    | EmptyString => None
    | t => n ← digits_value 0 t; if n <=? u64_max then Some n else None
    end.
Proof.
  assert (0 <= 0 <= u64_max) as H0 by (by vm_compute).
  destruct s as [|c s]; [done|]. unfold parse_usize, strip_plus. destruct (Ascii.eqb c "+"%char) eqn:E.
  - destruct s as [|c' s]; [done|]. by rewrite parse_digits_value.
  - by rewrite parse_digits_value.
Qed.

(** ** Settings on the command line *)

Inductive target := TLeaf | TRecord | TByte.
Inductive setting := SEq (t : target) (value : string) | SSpace (t : target) (value : string).

#[global] Instance target_eq_dec : EqDecision target.
Proof. solve_decision. Defined.

Definition flag_of (t : target) : string :=
  match t with
  | TLeaf => CLI_WAL_LEAF_THRESHOLD
  | TRecord => CLI_WAL_GLOBAL_RECORD_THRESHOLD
  | TByte => CLI_WAL_GLOBAL_BYTE_THRESHOLD
  end.
Definition set_target (t : target) : Z -> QuickStepConfig -> QuickStepConfig :=
  match t with TLeaf => set_leaf_threshold | TRecord => set_record_threshold | TByte => set_byte_threshold end.

(** [--flag=value] or [--flag value] *)
Definition render (s : setting) : list string :=
  match s with
  | SEq t value => [(flag_of t ++ "=" ++ value)%string]
  | SSpace t value => [flag_of t; value]
  end.
Definition apply_setting (c : QuickStepConfig) (s : setting) : QuickStepConfig :=
  match s with SEq t value | SSpace t value =>
    match parse_usize value with Some v => set_target t v c | None => c end end.

Lemma strip_prefix_app p s : strip_prefix p (p ++ s) = Some s.
Proof. induction p as [|a p IH]; [done|]. cbn. by rewrite Ascii.eqb_refl. Qed.

(** No flag is a prefix of a token built from another one. *)
Lemma other_flag t t' rest : t <> t' -> strip_prefix (flag_of t) (flag_of t' ++ rest) = None.
Proof. by destruct t, t'. Qed.

Lemma parse_eq t value its : parse_cli_override (flag_of t ++ "=" ++ value) (flag_of t) its = (parse_usize value, its).
Proof. unfold parse_cli_override. by rewrite strip_prefix_app. Qed.

Lemma parse_eq_other t t' value its :
  t <> t' -> parse_cli_override (flag_of t' ++ "=" ++ value) (flag_of t) its = (None, its).
Proof.
  intros Hd. unfold parse_cli_override. rewrite other_flag by done.
  destruct (String.eqb_spec (flag_of t' ++ "=" ++ value) (flag_of t)) as [E|]; [|done].
  pose proof (other_flag t t' ("=" ++ value) Hd) as H. rewrite E in H. by destruct t.
Qed.

Lemma parse_space t value its : parse_cli_override (flag_of t) (flag_of t) (value :: its) = (parse_usize value, its).
Proof. by destruct t. Qed.

Lemma parse_other t t' its : t <> t' -> parse_cli_override (flag_of t') (flag_of t) its = (None, its).
Proof. by destruct t, t'. Qed.

Lemma turn_eq t value its c :
  cli_turn (flag_of t ++ "=" ++ value) its c = (apply_setting c (SEq t value), its).
Proof.
  unfold cli_turn, apply_setting. destruct t.
  - rewrite (parse_eq TLeaf). destruct (parse_usize value); [done|].
    rewrite (parse_eq_other TRecord TLeaf) by done. by rewrite (parse_eq_other TByte TLeaf) by done.
  - rewrite (parse_eq_other TLeaf TRecord) by done. rewrite (parse_eq TRecord).
    destruct (parse_usize value); [done|]. by rewrite (parse_eq_other TByte TRecord) by done.
  - rewrite (parse_eq_other TLeaf TByte) by done. rewrite (parse_eq_other TRecord TByte) by done.
    rewrite (parse_eq TByte). by destruct (parse_usize value).
Qed.

Lemma turn_space t value its c :
  cli_turn (flag_of t) (value :: its) c = (apply_setting c (SSpace t value), its).
Proof.
  unfold cli_turn, apply_setting. destruct t.
  - rewrite (parse_space TLeaf). destruct (parse_usize value); [done|].
    rewrite (parse_other TRecord TLeaf) by done. by rewrite (parse_other TByte TLeaf) by done.
  - rewrite (parse_other TLeaf TRecord) by done. rewrite (parse_space TRecord).
    destruct (parse_usize value); [done|]. by rewrite (parse_other TByte TRecord) by done.
  - rewrite (parse_other TLeaf TByte) by done. rewrite (parse_other TRecord TByte) by done.
    rewrite (parse_space TByte). by destruct (parse_usize value).
Qed.

(** C33. Command-line settings are applied in order: for any sequence of settings, each written
    with an equals sign or as two arguments, the last valid value of a flag is the threshold,
    a value that is not a number leaves the threshold as it was, and nothing else of the
    configuration changes. *)
Theorem cli_overrides_correct (settings : list setting) (c : QuickStepConfig) :
  with_cli_overrides (mjoin (render <$> settings)) c = foldl apply_setting c settings.
Proof.
  revert c; induction settings as [|[t value|t value] settings IH]; intros c; [done|..]; cbn [fmap list_fmap mjoin list_join render app foldl].
  - simp with_cli_overrides. rewrite turn_eq. apply IH.
  - simp with_cli_overrides. rewrite turn_space. apply IH.
Qed.

(** The thresholds [QuickStep::new] runs with: the command line wins over the environment and
    the environment over the defaults, for every threshold on its own. *)
Theorem resolve_precedence (env : string -> option string) (t : target) (value p : string) (inner leaf lg : Z) :
  wal_thresholds (resolve env (render (SEq t value)) (config_new p inner leaf lg)) =
    let of_env key def := default def (read_env_usize env key) in
    let of_cli t' v := if decide (t = t') then default v (parse_usize value) else v in
    (of_cli TLeaf (of_env ENV_WAL_LEAF_THRESHOLD DEFAULT_WAL_LEAF_CHECKPOINT_THRESHOLD),
     of_cli TRecord (of_env ENV_WAL_GLOBAL_RECORD_THRESHOLD DEFAULT_WAL_GLOBAL_RECORD_THRESHOLD),
     of_cli TByte (of_env ENV_WAL_GLOBAL_BYTE_THRESHOLD DEFAULT_WAL_GLOBAL_BYTE_THRESHOLD)).
Proof.
  unfold resolve, render. simp with_cli_overrides. rewrite turn_eq. cbn [fst snd]. simp with_cli_overrides.
  unfold apply_setting, with_env_overrides.
  destruct (read_env_usize env ENV_WAL_LEAF_THRESHOLD), (read_env_usize env ENV_WAL_GLOBAL_RECORD_THRESHOLD),
    (read_env_usize env ENV_WAL_GLOBAL_BYTE_THRESHOLD), (parse_usize value), t; reflexivity.
Qed.
