(* ===== verification/Tx.v ===== *)
(** * Transactions (src/lib.rs: [QuickStep] and [QuickStepTx])

    [QuickStep] is the store: the tree, the mini-page buffer, the data file, the mapping
    table, the log and the thresholds.  [TxSt] is a store with one running transaction: its
    locks, its undo log and its state.  Every method of [QuickStepTx] is an operation on
    [TxSt].  Mini-pages are allocated with the leaf size only, so the page behind an index is
    4096 bytes of the buffer.  The counters of src/debug.rs ([Debug]) are left out here: no
    operation reads them. *)

From stdpp Require Import gmap.
From S2P Require Import Prelude Types BTreeMap MapTable IoEngine Wal Node PageOp Recovery BPNode BPTree LockManager Buffer Config.

Inductive TxState := Active | TxCommitted | TxAborted.

Inductive UndoAction := Restore (page : Z) (key value : bytes) | Remove (page : Z) (key : bytes).

Record QuickStep := mkQuickStep {
  inner_nodes : BPTree; store : Store;
  wal_leaf_checkpoint_threshold : Z; wal_global_record_threshold : Z; wal_global_byte_threshold : Z;
  wal_checkpoint_requested : bool; next_txn_id : Z }.

Record TxSt := mkTxSt {
  db : QuickStep; lock_manager : gmap Z LockSlot; txn_id : Z; wal_entry_kind : WalEntryKind;
  undo_log : list UndoAction; state : TxState }.

Definition AUTO_MERGE_MIN_ENTRIES : nat := 3.

(** ** Parts of the state *)

Definition set_tree (t : BPTree) (q : QuickStep) : QuickStep :=
  mkQuickStep t (store q) (wal_leaf_checkpoint_threshold q) (wal_global_record_threshold q)
    (wal_global_byte_threshold q) (wal_checkpoint_requested q) (next_txn_id q).
Definition set_store (s : Store) (q : QuickStep) : QuickStep :=
  mkQuickStep (inner_nodes q) s (wal_leaf_checkpoint_threshold q) (wal_global_record_threshold q)
    (wal_global_byte_threshold q) (wal_checkpoint_requested q) (next_txn_id q).
Definition set_requested (b : bool) (q : QuickStep) : QuickStep :=
  mkQuickStep (inner_nodes q) (store q) (wal_leaf_checkpoint_threshold q) (wal_global_record_threshold q)
    (wal_global_byte_threshold q) b (next_txn_id q).
Definition set_db (q : QuickStep) (x : TxSt) : TxSt :=
  mkTxSt q (lock_manager x) (txn_id x) (wal_entry_kind x) (undo_log x) (state x).
Definition set_undo (l : list UndoAction) (x : TxSt) : TxSt :=
  mkTxSt (db x) (lock_manager x) (txn_id x) (wal_entry_kind x) l (state x).
Definition set_tx_state (s : TxState) (x : TxSt) : TxSt :=
  mkTxSt (db x) (lock_manager x) (txn_id x) (wal_entry_kind x) (undo_log x) s.

Definition tx_store (x : TxSt) : Store := store (db x).
Definition set_tx_store (s : Store) (x : TxSt) : TxSt := set_db (set_store s (db x)) x.

Abbreviation M := (stM TxSt QSError).
Definition modifyS (f : TxSt -> TxSt) : M unit := fun x => (f x, Ok tt).

Definition on_tree {A} (f : stM BPTree QSError A) : M A := fun x =>
  let '(t, r) := f (inner_nodes (db x)) in (set_db (set_tree t (db x)) x, r).

(** The lock manager works on the transaction's locks and the table of the store. *)
Definition on_locks {A} (f : stM LM QSError A) : M A := fun x =>
  let s := tx_store x in
  let '(lm, r) := f (mkLM (lock_manager x) (st_map s)) in
  (mkTxSt (set_store (mkStore (st_cache s) (table lm) (st_io s) (st_wal s)) (db x)) (locks lm) (txn_id x)
     (wal_entry_kind x) (undo_log x) (state x), r).

(** [.expect(..)] on the log. *)
Definition on_wal (f : WalState -> outcome QSError WalState) : M unit := fun x =>
  let s := tx_store x in
  match f (st_wal s) with
  | Ok w => (set_tx_store (mkStore (st_cache s) (st_map s) (st_io s) w) x, Ok tt)
  | Err _ => (x, Halt Panicked)
  | Halt h => (x, Halt h)
  end.

(** [get_meta_ref] and [get_meta_mut] of a mini-page. *)
Definition mini {E} (x : TxSt) (index : Z) : outcome E bytes := node_at (st_cache (tx_store x)) index 4096.
Definition set_mini (index : Z) (m : bytes) (x : TxSt) : TxSt :=
  let s := tx_store x in set_tx_store (mkStore (set_node_at index m (st_cache s)) (st_map s) (st_io s) (st_wal s)) x.
Definition on_mini {E A} (index : Z) (err : E -> QSError) (f : stM bytes E A) : M A := fun x =>
  match mini (E := QSError) x index with
  | Ok m => let '(m, r) := f m in (set_mini index m x, map_err err r)
  | Err e => (x, Err e)
  | Halt h => (x, Halt h)
  end.
Definition no_err (e : QSError) : QSError := e.

(** The handle of a page: its mini-page or disk leaf, and what must be a mini-page. *)
Definition node_of (page : Z) : M NodeRef := x ← getS; liftS (write_node (mkLM (lock_manager x) (st_map (tx_store x))) page).
Definition mini_of (page : Z) : M Z :=
  n ← node_of page;
  liftS (match n with NMiniPage i => Ok i | NLeaf _ => Halt Panicked end).

(** Handles are dropped on every way out. *)
Definition finally {A} (page : Z) (f : M A) : M A := fun x =>
  match f x with
  | (x, Halt h) => (x, Halt h)
  | (x, r) => match on_locks (drop_handle page) x with
              | (x, Ok _) => (x, r)
              | (x, Err e) => (x, Err e)
              | (x, Halt h) => (x, Halt h)
              end
  end.
(** Handles that an early return drops. *)
Definition on_error {A} (page : Z) (f : M A) : M A := fun x =>
  match f x with
  | (x, Err e) => match on_locks (drop_handle page) x with
                  | (x, Ok _) => (x, Err e)
                  | (x, Err e) => (x, Err e)
                  | (x, Halt h) => (x, Halt h)
                  end
  | r => r
  end.

(** ** Moving a page into the buffer *)

(** [page_guard.load_leaf]: the guard keeps the first leaf it read. *)
Definition load_guard_leaf (page addr : Z) : M bytes :=
  x ← getS;
  s ← liftS (slot_of (mkLM (lock_manager x) (st_map (tx_store x))) page);
  '(g, l) ← liftS (load_leaf (st_io (tx_store x)) addr (guard s));
  _ ← on_locks (set_slot page (mkLockSlot g (borrowed s)));
  mret l.

(** [self.db.cache.alloc(size)] *)
Definition alloc_page (size : NodeSize.t) : M (option Z) := fun x =>
  let s := tx_store x in
  match alloc size (st_cache s) with
  | Ok (b, o) => (set_tx_store (mkStore b (st_map s) (st_io s) (st_wal s)) x, Ok o)
  | Err _ => (x, Halt Undefined)
  | Halt h => (x, Halt h)
  end.

Definition mark_hot_page : stM bytes QSError unit := modify_header (fun h => Ok (NodeMeta.mark_hot h)).

Definition promote_leaf_to_mini_page (page disk_addr : Z) : M unit :=
  o ← alloc_page NodeSize.LeafPage;
  cache_index ← liftS (ok_or CacheExhausted o);
  leaf ← load_guard_leaf page disk_addr;
  _ ← on_locks (set_mini_page page cache_index);
  on_mini cache_index no_err
    (_ ← write_raw 0 leaf;
     m ← getS;
     _ ← liftS (rassert (2 <=? record_count m)%nat);
     mark_hot_page).

(** The loop runs once: promotion leaves a mini-page. *)
Definition ensure_mini_page (page : Z) : M unit :=
  n ← node_of page;
  match n with
  | NMiniPage _ => mret tt
  | NLeaf addr => promote_leaf_to_mini_page page addr
  end.

(** [WriteGuardWrapper::try_put], with the promotion; the recursion runs once more. *)
Definition try_put_mini (index : Z) (key val : bytes) : M TryPutResult := fun x =>
  match mini (E := QSError) x index with
  | Ok m => let '(m, r) := page_try_put (NMiniPage index) m key val in
            (set_mini index m x, match r with Ok t => Ok t | Err _ => Halt Undefined | Halt h => Halt h end)
  | Err e => (x, Err e)
  | Halt h => (x, Halt h)
  end.
Definition try_put_with_promotion (page : Z) (key val : bytes) : M TryPutResult :=
  n ← node_of page;
  match n with
  | NMiniPage i => try_put_mini i key val
  | NLeaf addr =>
      _ ← promote_leaf_to_mini_page page addr;
      i ← mini_of page;
      try_put_mini i key val
  end.

(** ** What a page holds *)

Definition leaf_snapshot (page : Z) : M (Z * bytes * bytes) :=
  n ← node_of page;
  x ← getS;
  liftS (match n with
         | NMiniPage i => m ← mini x i; '(lower, upper) ← fence_bounds m; Ok (NodeMeta.leaf (header m), lower, upper)
         | NLeaf addr => l ← get_page (st_io (tx_store x)) addr; '(lower, upper) ← collect_fence_keys l;
                         Ok (addr, lower, upper)
         end).

Definition existing_value (page : Z) (key : bytes) : M (option bytes) :=
  n ← node_of page;
  x ← getS;
  liftS (match n with
         | NMiniPage i => m ← mini x i; Node.get m key
         | NLeaf addr => l ← get_page (st_io (tx_store x)) addr; Node.get l key
         end).

(** ** Checkpoints *)

(** [merge_to_disk] *)
Definition flush_index (i : Z) : M unit := fun x =>
  let s := tx_store x in
  match (m ← mini (E := QSError) x i; merge_to_disk (NMiniPage i) m (st_io s)) with
  | Ok (m, io) => (set_mini i m (set_tx_store (mkStore (st_cache s) (st_map s) io (st_wal s)) x), Ok tt)
  | Err e => (x, Err e)
  | Halt h => (x, Halt h)
  end.
Definition flush_page (page : Z) : M unit := i ← mini_of page; flush_index i.

Definition maybe_checkpoint_leaf (page : Z) : M unit :=
  x ← getS;
  if negb (should_checkpoint_page (st_wal (tx_store x)) page (wal_leaf_checkpoint_threshold (db x))) then mret tt
  else
    _ ← ensure_mini_page page;
    _ ← flush_page page;
    on_wal (checkpoint_page page).

Section tx.

(** The order in which the log's table of pages is iterated. *)
Context (iter : gmap Z LeafWalStats -> list (Z * LeafWalStats)).
(** Candidates an eviction may look at, and mini-pages that may be evicted for one page. *)
Context (evict_fuel : nat).

Definition checkpoint_candidate (x : TxSt) : option Z :=
  let w := st_wal (tx_store x) in
  match global_checkpoint_candidate w (iter (leaf_counts w)) (wal_global_record_threshold (db x))
          (wal_global_byte_threshold (db x)) with
  | Some p => Some p
  | None => if wal_checkpoint_requested (db x) then global_checkpoint_candidate w (iter (leaf_counts w)) 0 0 else None
  end.

Definition maybe_global_checkpoint : M unit :=
  x ← getS;
  match checkpoint_candidate x with
  | None => mret tt
  | Some page =>
      _ ← on_locks (get_upgrade_or_acquire_write_lock page);
      finally page
        (_ ← ensure_mini_page page;
         _ ← flush_page page;
         _ ← on_wal (checkpoint_page page);
         modifyS (fun x => set_db (set_requested false (db x)) x))
  end.

(** ** Logging *)

Definition push_undo (a : UndoAction) : M unit := modifyS (fun x => set_undo (undo_log x ++ [a]) x).

Definition log_put_undo (page : Z) (key : bytes) (undo_value : option bytes) : M unit :=
  match undo_value with
  | Some value => push_undo (Restore page key value)
  | None => push_undo (Remove page key)
  end.

Definition log_delete_undo (page : Z) (key : bytes) (value : option bytes) : M unit :=
  match value with
  | Some value => push_undo (Restore page key value)
  | None => mret tt
  end.

Definition append_wal_put (page : Z) (key val : bytes) (undo_value : option bytes) : M unit :=
  '(_, lower_fence, upper_fence) ← leaf_snapshot page;
  x ← getS;
  _ ← on_wal (append_put page key val lower_fence upper_fence (wal_entry_kind x) (txn_id x));
  _ ← match undo_value with
      | Some prev => on_wal (append_put page key prev lower_fence upper_fence Undo (txn_id x))
      | None => on_wal (append_tombstone page key lower_fence upper_fence Undo (txn_id x))
      end;
  _ ← log_put_undo page key undo_value;
  maybe_checkpoint_leaf page.

(** ** New pages *)

(** [alloc] or [evict] until a page is there; each eviction frees one. *)
Fixpoint alloc_evict (fuel : nat) (size : NodeSize.t) : M Z :=
  match fuel with
  | O => liftS (Halt Undefined)
  | S fuel =>
      o ← alloc_page size;
      match o with
      | Some idx => mret idx
      | None => fun x =>
          match evict evict_fuel (tx_store x) with
          | Some (s, Ok _) => alloc_evict fuel size (set_tx_store s x)
          | Some (s, Err e) => (set_tx_store s x, Err e)
          | Some (s, Halt h) => (x, Halt h)
          | None => (x, Halt Undefined)
          end
      end
  end.

(** [NodeMeta::init]: an address, an entry of the table, the header, and the lock; the page
    id is the result. *)
Definition fresh_addr : M Z := fun x =>
  let s := tx_store x in
  let '(io, a) := get_new_addr (st_io s) in
  (set_tx_store (mkStore (st_cache s) (st_map s) io (st_wal s)) x, Ok a).
Definition fresh_entry (index : Z) : M (Z * Z) := fun x =>
  let s := tx_store x in
  let '(mt, r) := MapTable.create_page_entry (E := QSError) (st_map s) index in
  (set_tx_store (mkStore (st_cache s) mt (st_io s) (st_wal s)) x, r).

Definition init_node (index : Z) (size : NodeSize.t) (disk_addr : option Z) : M Z :=
  addr ← match disk_addr with Some a => mret a | None => fresh_addr end;
  '(page, node) ← fresh_entry index;
  _ ← on_mini index no_err (modify_header (fun _ => Ok (NodeMeta.init_header size addr page)));
  _ ← on_locks (insert_write_lock page node);
  mret page.

Definition new_mini_page (size : NodeSize.t) (disk_addr : option Z) : M Z :=
  index ← alloc_evict evict_fuel size;
  page ← init_node index size disk_addr;
  on_error page
    (n ← node_of page;
     _ ← match n with
         | NMiniPage i => on_mini i no_err ensure_fence_keys
         | NLeaf _ => mret tt
         end;
     mret page).

(** ** Splits *)

Definition plan_leaf_split (page : Z) : M LeafSplitPlan :=
  i ← mini_of page;
  x ← getS;
  liftS (m ← mini x i; from_node m).

(** The bytes of the left page are copied over the right one before the right page's
    identity is read. *)
Definition apply_leaf_split (left right : Z) (plan : LeafSplitPlan) : M LeafSplitOutcome :=
  ln ← node_of left;
  rn ← node_of right;
  match ln, rn with
  | NMiniPage li, NMiniPage ri => fun x =>
      match (l ← mini (E := QSError) x li; r ← mini x ri;
             size ← NodeMeta.size (header l);
             Ok (l, splice r 0 (take (NodeSize.size_in_bytes size) l))) with
      | Ok (l, r) =>
          let right_page_id := NodeMeta.page_id (header r) in
          let right_disk_addr := NodeMeta.leaf (header r) in
          match apply_split plan (l, r) with
          | ((l, r), Ok o) =>
              let r := set_header r (NodeMeta.set_identity (header r) right_page_id right_disk_addr) in
              (set_mini ri r (set_mini li l x), Ok o)
          | ((l, r), Err _) => (set_mini ri r (set_mini li l x), Err SplitFailed)
          | ((l, r), Halt h) => (x, Halt h)
          end
      | Err e => (x, Err e)
      | Halt h => (x, Halt h)
      end
  | _, _ => liftS (Err SplitFailed)
  end.

(** A computation that owns a bundle of node locks. *)
Definition with_bundle {A} (b : WriteLockBundle) (f : M A) : M A := fun x =>
  let '(x, r) := f x in (set_db (set_tree (drop_bundle b (inner_nodes (db x))) (db x)) x, r).

Definition lock_bundle_for_split (key : bytes) : M (WriteLockBundle * Z) :=
  on_tree (res ← read_traverse_leaf key;
           bundle ← write_lock (overflow_point res) Split key;
           mret (bundle, page res)).

(** The page that the key belongs to afterwards; the other handle is dropped, and on an
    error both are. *)
Definition split_current_leaf (left : Z) (key : bytes) : M Z :=
  on_error left
    ('(bundle, page_id) ← lock_bundle_for_split key;
     with_bundle bundle
       (_ ← liftS (rassert (page_id =? left));
        right ← new_mini_page NodeSize.LeafPage None;
        pivot ← on_error right
          (plan ← plan_leaf_split left;
           outcome ← apply_leaf_split left right plan;
           _ ← on_tree (insert_into_parents_after_leaf_split bundle left (so_pivot_key outcome) right);
           mret (so_pivot_key outcome));
        if bytes_leb pivot key then _ ← on_locks (drop_handle left); mret right
        else _ ← on_locks (drop_handle right); mret left)).

(** ** The operations of a transaction *)

(** [PageGuard::get]: the leaf that had to be read stays in the guard. *)
Definition guard_get (page : Z) (key : bytes) : M (option bytes) :=
  x ← getS;
  s ← liftS (slot_of (mkLM (lock_manager x) (st_map (tx_store x))) page);
  let g := guard s in
  let node := PageEntry.get_ref (guard_node g) in
  let io := st_io (tx_store x) in
  m ← liftS (match node with NMiniPage i => mini x i | NLeaf _ => Ok [] end);
  v ← liftS (page_get io (pg_leaf g) node m key);
  l ← liftS (match node with
             | NLeaf addr => l ← ensure_page io (pg_leaf g) addr; Ok (Some l)
             | NMiniPage _ =>
                 prefix ← get_node_prefix m;
                 suffix ← slice_from key (length prefix);
                 r ← Node.binary_search m suffix;
                 match r with
                 | inl _ => Ok (pg_leaf g)
                 | inr _ => l ← ensure_page io (pg_leaf g) (NodeMeta.leaf (header m)); Ok (Some l)
                 end
             end);
  _ ← on_locks (set_slot page (mkLockSlot (mkPageGuard (guard_inner g) l) (borrowed s)));
  mret v.

Definition tx_get (key : bytes) : M (option bytes) :=
  res ← on_tree (read_traverse_leaf key);
  _ ← on_locks (get_or_acquire_read_lock (page res));
  guard_get (page res) key.

(** The [loop]: each turn but the last splits the leaf. *)
Fixpoint put_loop (fuel : nat) (p : Z) (key val : bytes) (undo_value : option bytes) : M unit :=
  match fuel with
  | O => liftS (Halt Undefined)
  | S fuel =>
      r ← on_error p (try_put_with_promotion p key val);
      match r with
      | Success => finally p (_ ← append_wal_put p key val undo_value; maybe_global_checkpoint)
      | NeedsSplit => p ← split_current_leaf p key; put_loop fuel p key val undo_value
      | NeedsPromotion _ => liftS (Halt Panicked)
      end
  end.

Definition tx_put (fuel : nat) (key val : bytes) : M unit :=
  res ← on_tree (read_traverse_leaf key);
  _ ← on_locks (get_upgrade_or_acquire_write_lock (page res));
  undo_value ← on_error (page res) (existing_value (page res) key);
  put_loop fuel (page res) key val undo_value.

(** ** Merges *)

Definition merge_leaf_pages (left right : Z) (bundle : WriteLockBundle) : M unit :=
  _ ← ensure_mini_page left;
  _ ← ensure_mini_page right;
  li ← mini_of left;
  ri ← mini_of right;
  x ← getS;
  l ← liftS (mini x li);
  r ← liftS (mini x ri);
  plan ← liftS (from_nodes l r);
  match apply_merge plan (l, r) with
  | ((l, r), Ok _) =>
      _ ← modifyS (fun x => set_mini ri r (set_mini li l x));
      on_tree (remove_parent_after_merge bundle left right)
  | ((l, r), Err _) => _ ← modifyS (fun x => set_mini ri r (set_mini li l x)); liftS (Err MergeFailed)
  | ((_, _), Halt h) => liftS (Halt h)
  end.

Definition first_user_key (page : Z) : M bytes :=
  _ ← ensure_mini_page page;
  i ← mini_of page;
  x ← getS;
  ks ← liftS (m ← mini x i; collect_user_keys m);
  liftS (ok_or MergeFailed (list.head ks)).

Definition debug_merge_leaves (left right : Z) : M unit :=
  _ ← on_locks (get_upgrade_or_acquire_write_lock left);
  finally left
    (_ ← on_locks (get_upgrade_or_acquire_write_lock right);
     finally right
       (merge_key ← first_user_key left;
        bundle ← on_tree (res ← read_traverse_leaf merge_key;
                          write_lock (underflow_point res) Merge merge_key);
        with_bundle bundle (merge_leaf_pages left right bundle))).

Definition try_auto_merge (page : Z) : M unit :=
  x ← getS;
  snapshot ← liftS (BPTree.debug_root_leaf_parent (inner_nodes (db x)));
  match snapshot with
  | None => mret tt
  | Some (_, children) =>
      if (length children <? 2)%nat then mret tt
      else match list_find (fun c => c = page) children with
      | None => mret tt
      | Some (idx, _) =>
          let neighbor_idx := if (idx + 1 <? length children)%nat then Some (idx + 1)%nat
                              else if (0 <? idx)%nat then Some (idx - 1)%nat else None in
          match neighbor_idx with
          | None => mret tt
          | Some neighbor_idx =>
              l ← liftS (expect (children !! Nat.min neighbor_idx idx));
              r ← liftS (expect (children !! Nat.max neighbor_idx idx));
              debug_merge_leaves l r
          end
      end
  end.

(** ** Delete and undo *)

Definition tx_delete (key : bytes) : M bool :=
  res ← on_tree (read_traverse_leaf key);
  _ ← on_locks (get_upgrade_or_acquire_write_lock (page res));
  finally (page res)
    (_ ← ensure_mini_page (page res);
     i ← mini_of (page res);
     x ← getS;
     deleted_value ← liftS (m ← mini x i; Node.get m key);
     match deleted_value with
     | None => mret false
     | Some prev =>
         removed ← on_mini i no_err (mark_tombstone key);
         if negb removed then mret false
         else
           x ← getS;
           user_entries ← liftS (m ← mini x i; user_entry_count m);
           '(_, lower_fence, upper_fence) ← leaf_snapshot (page res);
           _ ← on_wal (append_tombstone (page res) key lower_fence upper_fence (wal_entry_kind x) (txn_id x));
           _ ← on_wal (append_put (page res) key prev lower_fence upper_fence Undo (txn_id x));
           _ ← log_delete_undo (page res) key deleted_value;
           _ ← maybe_checkpoint_leaf (page res);
           _ ← maybe_global_checkpoint;
           _ ← (if (user_entries <=? AUTO_MERGE_MIN_ENTRIES)%nat then try_auto_merge (page res) else mret tt);
           mret true
     end).

Definition apply_undo_action (a : UndoAction) : M unit :=
  let page := match a with Restore p _ _ | Remove p _ => p end in
  _ ← on_locks (get_upgrade_or_acquire_write_lock page);
  finally page
    (_ ← ensure_mini_page page;
     i ← mini_of page;
     match a with
     | Restore _ key value =>
         on_mini i (fun _ => SplitFailed) (_ ← remove_key_physical key; try_put key value)
     | Remove _ key =>
         on_mini i no_err (_ ← remove_key_physical key; mret tt)
     end).

(** The undo log is popped from its end. *)
Fixpoint apply_undo_actions (actions : list UndoAction) : M unit :=
  match actions with
  | [] => mret tt
  | a :: actions =>
      _ ← modifyS (fun x => set_undo (reverse actions) x);
      _ ← apply_undo_action a;
      apply_undo_actions actions
  end.

(** ** Begin, commit, abort *)

Definition commit_in_place : M unit :=
  x ← getS;
  match state x with
  | Active =>
      _ ← on_wal (append_txn_marker Commit (wal_entry_kind x) (txn_id x));
      modifyS (fun x => set_tx_state TxCommitted (set_undo [] x))
  | _ => mret tt
  end.

Definition abort_in_place : M unit :=
  x ← getS;
  match state x with
  | Active =>
      _ ← (fun x => match apply_undo_actions (reverse (undo_log x)) x with
                    | (x, Err _) => (x, Halt Panicked)
                    | r => r
                    end);
      _ ← on_wal (append_txn_marker Abort_ (wal_entry_kind x) (txn_id x));
      modifyS (fun x => set_tx_state TxAborted (set_undo [] x))
  | _ => mret tt
  end.

(** The end of a transaction's life: an active one is rolled back, then the guards go. *)
Definition drop_tx : M unit := _ ← abort_in_place; on_locks drop_locks.

(** [commit] and [abort] take the transaction, which is dropped at their end. *)
Definition tx_commit : M unit := _ ← commit_in_place; drop_tx.
Definition tx_abort : M unit := _ ← abort_in_place; drop_tx.

(** ** Maintenance *)

Definition debug_flush_leaf (page : Z) : M unit :=
  _ ← on_locks (get_upgrade_or_acquire_write_lock page);
  finally page
    (_ ← ensure_mini_page page;
     _ ← flush_page page;
     on_wal (checkpoint_page page)).

Definition debug_truncate_leaf (page : Z) (keep : nat) (auto_merge : bool) : M unit :=
  _ ← on_locks (get_upgrade_or_acquire_write_lock page);
  finally page
    (_ ← ensure_mini_page page;
     i ← mini_of page;
     x ← getS;
     records ← liftS (m ← mini x i; collect_user_records m);
     if (length records <=? keep)%nat then mret tt
     else
       let records := take keep records in
       _ ← on_mini i (fun _ => MergeFailed) (_ ← reset_user_entries; replay_entries records);
       if auto_merge && (length records <=? AUTO_MERGE_MIN_ENTRIES)%nat then try_auto_merge page else mret tt).
End tx.

Definition tx {E} (q : QuickStep) : outcome E TxSt :=
  let id := next_txn_id q in
  let q := mkQuickStep (inner_nodes q) (store q) (wal_leaf_checkpoint_threshold q) (wal_global_record_threshold q)
             (wal_global_byte_threshold q) (wal_checkpoint_requested q) (u64 (id + 1)) in
  match append_txn_marker Begin Redo id (st_wal (store q)) with
  | Ok w => let s := store q in
            Ok (mkTxSt (set_store (mkStore (st_cache s) (st_map s) (st_io s) w) q) ∅ id Redo [] Active)
  | Err _ => Halt Panicked
  | Halt h => Halt h
  end.

(** ** Whole-store operations *)

(** One transaction around a call, committed whatever the call returned. *)
Definition with_tx {A} (f : M A) (q : QuickStep) : outcome QSError (QuickStep * outcome QSError A) :=
  x ← tx q;
  match f x with
  | (_, Halt h) => Halt h
  | (x, res) => match tx_commit x with
                | (x, Ok _) => Ok (db x, res)
                | (_, Err e) => Err e
                | (_, Halt h) => Halt h
                end
  end.

Definition qs_delete (iter : gmap Z LeafWalStats -> list (Z * LeafWalStats)) (key : bytes) (q : QuickStep) :=
  with_tx (tx_delete iter key) q.
Definition qs_debug_truncate_leaf (page : Z) (keep : nat) (auto_merge : bool) (q : QuickStep) :=
  with_tx (debug_truncate_leaf page keep auto_merge) q.
Definition qs_debug_merge_leaves (left right : Z) (q : QuickStep) := with_tx (debug_merge_leaves left right) q.
Definition qs_debug_flush_leaf (page : Z) (q : QuickStep) := with_tx (debug_flush_leaf page) q.
Definition qs_debug_flush_root_leaf (q : QuickStep) := qs_debug_flush_leaf 0 q.

(** What tests ask of the log and the tree. *)
Record DebugWalStats := mkDebugWalStats {
  dw_total_records : Z; dw_total_bytes : Z; dw_leaf_records : option Z; dw_leaf_bytes : option Z }.
Definition debug_wal_stats (q : QuickStep) (page : option Z) : DebugWalStats :=
  let w := st_wal (store q) in
  let leaf := p ← page; leaf_stats w p in
  mkDebugWalStats (total_records w) (total_bytes w) (fst <$> leaf) (snd <$> leaf).
Definition debug_root_level (q : QuickStep) : Z := BPTree.root_level (inner_nodes q).

(** The page behind an entry, as [debug_leaf_snapshot], [debug_leaf_fences] and [range_scan]
    read it; their read guard is dropped before they return. *)
Definition read_page (s : Store) (page : Z) : outcome QSError (Z * bytes) :=
  w ← MapTable.get_ref (st_map s) page;
  node ← snd (Locks.read_page_entry w);
  match PageEntry.get_ref node with
  | NMiniPage i => m ← node_at (st_cache s) i 4096; Ok (NodeMeta.leaf (header m), m)
  | NLeaf addr => l ← get_page (st_io s) addr; Ok (addr, l)
  end.

Definition debug_leaf_snapshot (s : Store) (page : Z) : outcome QSError (Z * list bytes) :=
  '(addr, m) ← read_page s page; ks ← collect_user_keys m; Ok (addr, ks).
Definition debug_leaf_fences (s : Store) (page : Z) : outcome QSError (Z * bytes * bytes) :=
  '(addr, m) ← read_page s page; '(lower, upper) ← collect_fence_keys m; Ok (addr, lower, upper).

(** [sort_by] on the keys: stable. *)
Fixpoint insert_sorted (e : bytes * bytes) (l : list (bytes * bytes)) : list (bytes * bytes) :=
  match l with
  | [] => [e]
  | e' :: l' => if bytes_leb e.1 e'.1 then e :: l else e' :: insert_sorted e l'
  end.
Definition sort_by_key (l : list (bytes * bytes)) : list (bytes * bytes) := foldr insert_sorted [] l.

Definition range_scan (s : Store) (lower upper : bytes) : outcome QSError (list (bytes * bytes)) :=
  if bytes_leb upper lower then Ok []
  else
    results ← foldM (fun acc slot =>
      let page := Z.of_nat slot in
      has ← MapTable.has_entry (st_map s) page;
      if negb has then Ok acc
      else '(_, m) ← read_page s page; rs ← records_between m lower upper; Ok (acc ++ rs))
      [] (seq 0 (MapTable.capacity (st_map s)));
    Ok (sort_by_key results).

(** [QuickStep::new] after the configuration is resolved. *)
Definition qs_new (inner_node_upper_bound : Z) (leaf_upper_bound : nat) (cache_size_lg : Z)
    (leaf_threshold record_threshold byte_threshold : Z) (data_file wal_file : bytes) : outcome QSError QuickStep :=
  cache ← Buffer.new cache_size_lg;
  tree ← BPTree.new inner_node_upper_bound;
  d ← startup leaf_upper_bound data_file wal_file;
  Ok (mkQuickStep (set_leaf_root 0 tree) (mkStore cache (map_table d) (io_engine d) (wal d))
        leaf_threshold record_threshold byte_threshold false 1).

(** The whole of [QuickStep::new]: [args] is [env::args().skip(1)]. *)
Definition qs_open (env : String.string -> option String.string) (args : list String.string) (c : QuickStepConfig)
    (data_file wal_file : bytes) : outcome QSError QuickStep :=
  let c := resolve env args c in
  qs_new (inner_node_upper_bound c) (Z.to_nat (leaf_upper_bound c)) (cache_size_lg c)
    (Config.wal_leaf_checkpoint_threshold c) (Config.wal_global_record_threshold c)
    (Config.wal_global_byte_threshold c) data_file wal_file.

(** One turn of the thread that watches the log. *)
Definition monitor_tick (q : QuickStep) : QuickStep :=
  let w := st_wal (store q) in
  if (wal_global_record_threshold q <=? total_records w) || (wal_global_byte_threshold q <=? total_bytes w)
  then set_requested true q else q.
