(* ===== verification/Typed.v ===== *)
(** * Types of the state

    What every operation keeps whatever it is given and however it ends, early returns and
    halts included: the sizes of pages, nodes and tables, the words of the mapping table, and
    the parts of a store that no operation of a transaction touches. *)

From stdpp Require Import gmap.
From S2P Require Import Prelude Types BTreeMap MapTable IoEngine Wal Node PageOp Recovery BPNode BPTree LockManager Buffer Config Tx.

(** ** Pages *)

Definition sized (n : nat) (m : bytes) : Prop := length m = n /\ (16 <= n)%nat.

Lemma sized_set_header n m h : sized n m -> sized n (set_header m h).
Proof.
  intros [Hl Hn]. split; [|done]. unfold set_header. rewrite !length_store; [done|..];
    unfold in_range; rewrite ?length_store; unfold in_range; lia.
Qed.

Section pages.
Context {E : Type} (n : nat).

#[export] Instance keeps_asks {A} (f : bytes -> outcome E A) : Keeps (sized n) (asks f).
Proof. by intros m. Qed.
#[export] Instance keeps_write_raw off bs : Keeps (E := E) (sized n) (write_raw off bs).
Proof.
  intros m [Hl Hn]. unfold write_raw. destruct (Nat.leb_spec (off + length bs) (length m)); [|done].
  split; [|done]. cbn [fst]. rewrite length_splice; [done|]. unfold in_range. lia.
Qed.
#[export] Instance keeps_write_word off w : Keeps (E := E) (sized n) (write_word off w).
Proof. apply keeps_write_raw. Qed.
#[export] Instance keeps_modify_header (f : NodeMeta.t -> outcome E NodeMeta.t) : Keeps (sized n) (modify_header f).
Proof.
  unfold modify_header. apply keeps_bind; [apply _|]. intros h. apply keeps_bind_get. intros m Hm.
  cbn [putS fst]. by apply sized_set_header.
Qed.
#[export] Instance keeps_copy_from_slice off len bs : Keeps (E := E) (sized n) (copy_from_slice off len bs).
Proof. unfold copy_from_slice. keeps. Qed.
#[export] Instance keeps_set_kv_meta i w : Keeps (E := E) (sized n) (set_kv_meta i w).
Proof. unfold set_kv_meta. keeps. Qed.
#[export] Instance keeps_copy_to_key kv bs : Keeps (E := E) (sized n) (copy_to_key kv bs).
Proof. unfold copy_to_key. keeps. Qed.
#[export] Instance keeps_copy_to_val kv bs : Keeps (E := E) (sized n) (copy_to_val kv bs).
Proof. unfold copy_to_val. keeps. Qed.
#[export] Instance keeps_erase_loop len t is_ mo : Keeps (E := E) (sized n) (erase_loop len t is_ mo).
Proof. revert mo. induction is_ as [|i l IH]; intros mo; cbn [erase_loop]; keeps. Qed.
#[export] Instance keeps_erase kv : Keeps (E := E) (sized n) (erase_kv_in_buffer kv).
Proof. unfold erase_kv_in_buffer. keeps. Qed.
#[export] Instance keeps_shift_meta_left i : Keeps (E := E) (sized n) (shift_meta_left i).
Proof. unfold shift_meta_left. keeps. Qed.
#[export] Instance keeps_remove_entry i : Keeps (E := E) (sized n) (remove_entry i).
Proof. unfold remove_entry. keeps. Qed.
#[export] Instance keeps_remove_entry_at i : Keeps (E := E) (sized n) (remove_entry_at i).
Proof. unfold remove_entry_at. keeps. Qed.
#[export] Instance keeps_remove_key key : Keeps (E := E) (sized n) (remove_key_physical key).
Proof. unfold remove_key_physical. keeps. Qed.
#[export] Instance keeps_mark_tombstone key : Keeps (E := E) (sized n) (mark_tombstone key).
Proof. unfold mark_tombstone, mark_entry_tombstone. keeps. Qed.
#[export] Instance keeps_install_fences lo up : Keeps (E := E) (sized n) (install_fences lo up).
Proof. unfold install_fences. keeps. Qed.
#[export] Instance keeps_reset_with_fences lo up : Keeps (E := E) (sized n) (reset_user_entries_with_fences lo up).
Proof. unfold reset_user_entries_with_fences. keeps. Qed.
#[export] Instance keeps_reset_user_entries : Keeps (E := E) (sized n) reset_user_entries.
Proof. unfold reset_user_entries. keeps. Qed.
#[export] Instance keeps_ensure_fence_keys : Keeps (E := E) (sized n) ensure_fence_keys.
Proof. unfold ensure_fence_keys. keeps. Qed.
End pages.

#[export] Instance keeps_put_suffix n k v : Keeps (sized n) (try_put_with_suffix k v).
Proof. unfold try_put_with_suffix. keeps. Qed.
#[export] Instance keeps_try_put n k v : Keeps (sized n) (try_put k v).
Proof. unfold try_put. keeps. Qed.
#[export] Instance keeps_replay n es : Keeps (sized n) (replay_entries es).
Proof. unfold replay_entries. keeps. Qed.
#[export] Instance keeps_mark_hot n : Keeps (sized n) mark_hot_page.
Proof. unfold mark_hot_page. keeps. Qed.

(** Two pages at once. *)
Definition sized2 (n : nat) (p : bytes * bytes) : Prop := sized n p.1 /\ sized n p.2.

#[export] Instance keeps_on_left {E A} n (f : stM bytes E A) : Keeps (sized n) f -> Keeps (sized2 n) (on_left f).
Proof. intros H [l r] [Hl Hr]. unfold on_left. specialize (H l Hl). by destruct (f l). Qed.
#[export] Instance keeps_on_right {E A} n (f : stM bytes E A) : Keeps (sized n) f -> Keeps (sized2 n) (on_right f).
Proof. intros H [l r] [Hl Hr]. unfold on_right. specialize (H r Hr). by destruct (f r). Qed.
#[export] Instance keeps_apply_split n p : Keeps (sized2 n) (apply_split p).
Proof. unfold apply_split. keeps. Qed.
#[export] Instance keeps_apply_merge n p : Keeps (sized2 n) (apply_merge p).
Proof. unfold apply_merge. keeps. Qed.

(** ** Inner nodes and the tree *)

Definition node_typed (n : BPNode) : Prop := length (rest n) = INLINE_BUFFER_LEN.

#[export] Instance keeps_put_meta m : Keeps node_typed (put_meta m).
Proof.
  intros n Hn. unfold put_meta. destruct (Nat.leb_spec (BPKVMeta_size * count n + BPKVMeta_size) (length (rest n))); [|done].
  unfold node_typed. cbn [fst rest]. rewrite length_splice; [done|]. unfold in_range.
  rewrite length_app, !length_le_split. unfold BPKVMeta_size in *. lia.
Qed.
#[export] Instance keeps_rest_copy off len src : Keeps node_typed (rest_copy off len src).
Proof.
  intros n Hn. unfold rest_copy. destruct (Nat.leb_spec (off + len) (length (rest n))); [|done].
  destruct (Nat.eqb_spec (length src) len); [|done]. unfold node_typed. cbn [andb fst rest].
  rewrite length_splice; [done|]. unfold in_range. lia.
Qed.
#[export] Instance keeps_reset_leaf_parent c : Keeps node_typed (reset_leaf_parent c).
Proof. by intros n Hn. Qed.
#[export] Instance keeps_reset_inner_parent c : Keeps node_typed (reset_inner_parent c).
Proof. by intros n Hn. Qed.
#[export] Instance keeps_bump_alloc k e : Keeps node_typed (bump_alloc k e).
Proof. intros n Hn. unfold bump_alloc. by destruct (_ <=? _)%nat. Qed.
#[export] Instance keeps_set_count c : Keeps node_typed (set_count c).
Proof. by intros n Hn. Qed.
#[export] Instance keeps_append_leaf k c : Keeps node_typed (append_leaf_entry k c).
Proof. unfold append_leaf_entry. keeps. Qed.
#[export] Instance keeps_append_inner k c : Keeps node_typed (append_inner_entry k c).
Proof. unfold append_inner_entry. keeps. Qed.
#[export] Instance keeps_append_entry l k c : Keeps node_typed (append_entry_for_level l k c).
Proof. unfold append_entry_for_level. keeps. Qed.
#[export] Instance keeps_reset_for_level l c : Keeps node_typed (reset_for_level l c).
Proof. unfold reset_for_level. keeps. Qed.
#[export] Instance keeps_append_all l es : Keeps node_typed (append_all l es).
Proof. unfold append_all. keeps. Qed.
#[export] Instance keeps_insert_entry l a k b : Keeps node_typed (insert_entry_after_child l a k b).
Proof. unfold insert_entry_after_child. keeps. Qed.
#[export] Instance keeps_remove_for_merge l a b : Keeps node_typed (remove_entry_for_merge l a b).
Proof. unfold remove_entry_for_merge. keeps. Qed.
#[export] Instance keeps_init_leaf_parent l r k : Keeps node_typed (init_leaf_parent l r k).
Proof. unfold init_leaf_parent. keeps. Qed.

Definition tree_typed (t : BPTree) : Prop := map_Forall (fun _ => node_typed) (slab t).

Lemma tree_typed_set id n t : tree_typed t -> node_typed n -> tree_typed (set_node id n t).
Proof. intros Ht Hn. by apply map_Forall_insert_2. Qed.

#[export] Instance keeps_with_node {E A} id (f : stM BPNode E A) : Keeps node_typed f -> Keeps tree_typed (with_node id f).
Proof.
  intros H t Ht. unfold with_node. destruct (slab t !! id) as [n|] eqn:E0; [|done]. specialize (H n (Ht _ _ E0)).
  destruct (f n) as [n' r]. by apply tree_typed_set.
Qed.
#[export] Instance keeps_alloc_inner : Keeps tree_typed alloc_inner_node.
Proof.
  intros t Ht. unfold alloc_inner_node. cbv zeta. case_match; [exact Ht|]. apply tree_typed_set; [exact Ht|]. apply length_replicate.
Qed.
#[export] Instance keeps_set_inner {E} n l : Keeps (E := E) tree_typed (set_inner n l).
Proof. by intros t Ht. Qed.
#[export] Instance keeps_tree_set_leaf {E} p : Keeps (E := E) tree_typed (BPTree.set_leaf p).
Proof. by intros t Ht. Qed.
#[export] Instance keeps_promote_leaf_root l r k : Keeps tree_typed (promote_leaf_root l r k).
Proof. unfold promote_leaf_root. keeps. Qed.
#[export] Instance keeps_promote_inner_root l r k c : Keeps tree_typed (promote_inner_root l r k c).
Proof. unfold promote_inner_root. cbv zeta. apply keeps_bind; [apply _|]. intros _. apply keeps_bind; [apply _|]. intros id. apply keeps_bind; [|apply _]. apply keeps_with_node. keeps. Qed.
#[export] Instance keeps_remove_child n l a b : Keeps tree_typed (remove_child_after_merge n l a b).
Proof. unfold remove_child_after_merge. keeps. Qed.
#[export] Instance keeps_demote_root c l : Keeps tree_typed (demote_root_after_merge c l).
Proof. unfold demote_root_after_merge. keeps. Qed.

Lemma tree_typed_drop_inner id t : tree_typed t -> tree_typed (drop_inner id t).
Proof.
  intros Ht. unfold drop_inner. destruct (slab t !! id) as [n|] eqn:E; [|done]. apply tree_typed_set; [done|]. exact (Ht _ _ E).
Qed.
Lemma tree_typed_drop_bundle b t : tree_typed t -> tree_typed (drop_bundle b t).
Proof.
  intros Ht. unfold drop_bundle. assert (tree_typed (drop_chain (l_guard <$> chain b) t)) as H; [|by destruct (root_lock b)].
  unfold drop_chain. induction (l_guard <$> chain b) as [|i l IH]; [done|]. by apply tree_typed_drop_inner.
Qed.

#[export] Instance keeps_read_root : Keeps tree_typed read_root.
Proof. by intros t Ht. Qed.
#[export] Instance keeps_cas_root v w : Keeps tree_typed (cas_root v w).
Proof. intros t Ht. unfold cas_root. by destruct (_ =? _). Qed.
#[export] Instance keeps_cas_inner i v w : Keeps tree_typed (cas_inner i v w).
Proof.
  intros t Ht. unfold cas_inner. destruct (slab t !! i) as [n|] eqn:E; [|done]. destruct (_ =? _); [|done].
  apply tree_typed_set; [done|]. exact (Ht _ _ E).
Qed.
#[export] Instance keeps_root_upgrade v : Keeps tree_typed (root_upgrade v).
Proof. unfold root_upgrade. keeps. Qed.
#[export] Instance keeps_root_unlock v : Keeps tree_typed (root_unlock_or_restart v).
Proof. by intros t Ht. Qed.
#[export] Instance keeps_read_inner i : Keeps tree_typed (read_inner i).
Proof. unfold read_inner. keeps. Qed.
#[export] Instance keeps_inner_upgrade g : Keeps tree_typed (inner_upgrade g).
Proof. unfold inner_upgrade. keeps. Qed.
#[export] Instance keeps_inner_unlock g : Keeps tree_typed (inner_unlock_or_restart g).
Proof. unfold inner_unlock_or_restart. keeps. Qed.
#[export] Instance keeps_write_inner i : Keeps tree_typed (write_inner i).
Proof. unfold write_inner. keeps. Qed.
#[export] Instance keeps_read_node {A} i (f : BPNode -> outcome QSError A) : Keeps tree_typed (read_node i f).
Proof. unfold read_node. keeps. Qed.
#[export] Instance keeps_update_points g l ps : Keeps tree_typed (update_lock_points g l ps).
Proof. unfold update_lock_points. keeps. Qed.
#[export] Instance keeps_traverse_inner n key g l ps : Keeps tree_typed (traverse_inner n key g l ps).
Proof. revert g l ps; induction n as [|n IH]; intros g l ps; cbn [traverse_inner]; keeps. Qed.
#[export] Instance keeps_try_traverse key : Keeps tree_typed (try_read_traverse_leaf key).
Proof. unfold try_read_traverse_leaf. keeps. Qed.
#[export] Instance keeps_retry {A} n (f : stM BPTree BPRestart A) : Keeps tree_typed f -> Keeps tree_typed (retry n f).
Proof.
  intros H. induction n as [|n IH]; intros t Ht; cbn [retry]; [done|]. specialize (H t Ht).
  destruct (f t) as [t' [a|e|h]]; [done|by apply IH|done].
Qed.
#[export] Instance keeps_traverse key : Keeps tree_typed (read_traverse_leaf key).
Proof. unfold read_traverse_leaf. keeps. Qed.
Lemma keeps_or_drop {A} d (f : stM BPTree BPRestart A) :
  (forall t, tree_typed t -> tree_typed (d t)) -> Keeps tree_typed f -> Keeps tree_typed (or_drop d f).
Proof. intros Hd H t Ht. unfold or_drop. specialize (H t Ht). destruct (f t) as [t' [a|e|h]]; [done|by apply Hd|done]. Qed.
#[export] Instance keeps_lock_path n r key g l acc : Keeps tree_typed (lock_path n r key g l acc).
Proof.
  revert g l acc; induction n as [|n IH]; intros g l acc; cbn [lock_path]; keeps.
  apply keeps_or_drop; [intros t; apply tree_typed_drop_bundle|apply _].
Qed.
#[export] Instance keeps_lock_from_point p key : Keeps tree_typed (lock_from_point p key).
Proof. unfold lock_from_point. keeps. by apply keeps_or_drop; [|apply _]. Qed.
#[export] Instance keeps_write_lock p o key : Keeps tree_typed (write_lock p o key).
Proof.
  intros t Ht. unfold write_lock. pose proof (keeps_lock_from_point p key t Ht) as H.
  destruct (lock_from_point p key t) as [t' [b|e|h]]; [done| |done]. cbn [fst] in H. revert t' H.
  change (Keeps tree_typed (retry SPIN_RETRIES (res ← try_read_traverse_leaf key;
    lock_from_point (match o with Split => overflow_point res | Merge => underflow_point res end) key))).
  apply keeps_retry. keeps.
Qed.
#[export] Instance keeps_split_inner g l a k b : Keeps tree_typed (split_inner_node g l a k b).
Proof. unfold split_inner_node. cbv zeta. keeps; apply keeps_with_node; keeps. Qed.
#[export] Instance keeps_bubble_loop above p : Keeps tree_typed (bubble_loop above p).
Proof.
  revert p; induction above as [|[l g] above IH]; intros p; cbn [bubble_loop]; [apply _|]. intros t Ht.
  pose proof (keeps_with_node g (insert_entry_after_child l (p_left_child p) (p_pivot_key p) (p_right_child p)) _ t Ht) as H.
  destruct (with_node _ _ t) as [t' [u|e|h]]; cbn [fst] in H; [done| |done].
  destruct e; try done. revert t' H. apply keeps_bind; [apply _|]. intros s. apply IH.
Qed.
#[export] Instance keeps_bubble b i p : Keeps tree_typed (bubble_split_up b i p).
Proof. unfold bubble_split_up. keeps. Qed.
#[export] Instance keeps_insert_parents b l k r : Keeps tree_typed (insert_into_parents_after_leaf_split b l k r).
Proof.
  unfold insert_into_parents_after_leaf_split. destruct (last (chain b)) as [[lv g]|]; [|keeps]. intros t Ht.
  pose proof (keeps_with_node g (insert_entry_after_child lv (Leaf l) k (Leaf r)) _ t Ht) as H.
  destruct (with_node _ _ t) as [t' [u|e|h]]; cbn [fst] in H; [done| |done].
  destruct e; try done. revert t' H. apply keeps_bind; apply _.
Qed.
#[export] Instance keeps_demote_loop above r c : Keeps tree_typed (demote_loop above r c).
Proof. revert c; induction above as [|[l g] above IH]; intros c; cbn [demote_loop]; keeps. Qed.
#[export] Instance keeps_remove_parent b s r : Keeps tree_typed (remove_parent_after_merge b s r).
Proof. unfold remove_parent_after_merge. keeps. Qed.

(** ** The mapping table *)

Definition table_typed (C : nat) (mt : MapTable.t) : Prop :=
  MapTable.cap mt = C /\ length (MapTable.indirection_arr mt) = C /\ Forall is_u64 (MapTable.indirection_arr mt).

(** A function on an entry that stays within 64 bits. *)
Definition word_fun {A} (f : Z -> Z * outcome QSError A) : Prop := forall w, is_u64 w -> is_u64 (fst (f w)).

Section words.
Import Locks PageEntry PageEntryFacts LockFacts.

Definition pc_typed (p : pc) : Prop :=
  match p with
  | Idle | HoldR _ | HoldW _ | Crashed => True
  | Reading e _ | Writing e _ | Upgrading _ e _ | DroppingR _ e | DroppingW _ e | Downgrading _ e => is_u64 e
  end.

Lemma continue_typed w p w' p' :
  is_u64 w -> pc_typed p -> continue false w p = Some (w', p') -> is_u64 w' /\ pc_typed p'.
Proof.
  intros Hw Hp H. pose proof wls_range. destruct p as [|e n|e n|nd|nd|nd e n|nd e|nd e|nd e|]; try done; cbn in Hp, H;
    apply (inj Some) in H; pose proof (state_range e).
  - destruct n as [|n]; cbn in H; [by injection H as <- <-|].
    destruct (pending_write e); [by injection H as <- <-|].
    destruct (Z.leb_spec WRITE_LOCK_STATE (state e)); [by injection H as <- <-|].
    destruct (cas_weak_cases false w e (set_state e (state e + 1))) as [[E _]|E]; rewrite E in H; injection H as <- <-; [|done].
    split; [|done]. apply set_state_is_u64; [done|lia].
  - destruct n as [|n]; cbn in H; [by injection H as <- <-|].
    destruct (state e =? 0); [|destruct (negb (pending_write e)); [|by injection H as <- <-]].
    + destruct (cas_weak_cases false w e (set_pending_write (set_state e WRITE_LOCK_STATE) false)) as [[E _]|E]; rewrite E in H;
        injection H as <- <-; [|done]. split; [|done]. by apply set_pending_is_u64, set_state_is_u64.
    + destruct (cas_weak_cases false w e (set_pending_write e true)) as [[E _]|E]; rewrite E in H; injection H as <- <-; [|done].
      split; [by apply set_pending_is_u64|done].
  - destruct n as [|n]; cbn in H; [by injection H as <- <-|].
    destruct (state e =? 1); [|by injection H as <- <-].
    destruct (cas_weak_cases false w e (set_state e WRITE_LOCK_STATE)) as [[E _]|E]; rewrite E in H; injection H as <- <-; [|done].
    split; [by apply set_state_is_u64|done].
  - unfold drop_read_iter in H. destruct (Z.eqb_spec (state e) 0); [by injection H as <- <-|].
    destruct (cas_weak_cases false w e (set_state e (state e - 1))) as [[E _]|E]; rewrite E in H; injection H as <- <-; [|done].
    split; [|done]. apply set_state_is_u64; [done|lia].
  - unfold drop_write_iter in H.
    destruct (cas_weak_cases false w e (set_state e 0)) as [[E _]|E]; rewrite E in H; injection H as <- <-; [|done].
    split; [|done]. apply set_state_is_u64; [done|lia].
  - injection H as <- <-. split; [|done]. apply set_state_is_u64; [done|lia].
Qed.

Lemma solo_typed n w p : is_u64 w -> pc_typed p -> is_u64 (fst (solo n w p)).
Proof.
  revert w p; induction n as [|n IH]; intros w p Hw Hp; cbn [solo]; [done|].
  destruct (continue false w p) as [[w' p']|] eqn:E; [|done]. destruct (continue_typed w p w' p' Hw Hp E). by apply IH.
Qed.

Lemma read_entry_word : word_fun read_page_entry.
Proof.
  intros w Hw. unfold read_page_entry. pose proof (solo_typed (S SPIN_RETRIES) w (Reading w SPIN_RETRIES) Hw Hw) as H.
  destruct (solo _ _ _) as [w' []]; exact H.
Qed.
Lemma write_entry_word : word_fun write_page_entry.
Proof.
  intros w Hw. unfold write_page_entry. pose proof (solo_typed (S SPIN_RETRIES) w (Writing w SPIN_RETRIES) Hw Hw) as H.
  destruct (solo _ _ _) as [w' []]; exact H.
Qed.
Lemma upgrade_word nd : word_fun (upgrade_entry nd).
Proof.
  intros w Hw. unfold upgrade_entry. pose proof (solo_typed (S SPIN_RETRIES) w (Upgrading nd w SPIN_RETRIES) Hw Hw) as H.
  destruct (solo _ _ _) as [w' []]; exact H.
Qed.
Lemma drop_read_word nd : word_fun (drop_read_entry nd).
Proof.
  intros w Hw. unfold drop_read_entry. destruct (drop_read_iter false w nd w) as [w' p] eqn:E.
  destruct (continue_typed w (DroppingR nd w) w' p Hw Hw) as [H _]; [cbn; by rewrite E|]. by destruct p.
Qed.
Lemma drop_write_word nd : word_fun (drop_write_entry nd).
Proof.
  intros w Hw. unfold drop_write_entry. destruct (drop_write_iter false w nd w) as [w' p] eqn:E.
  destruct (continue_typed w (DroppingW nd w) w' p Hw Hw) as [H _]; [cbn; by rewrite E|]. by destruct p.
Qed.
Lemma downgrade_word : word_fun downgrade_entry.
Proof. intros w Hw. apply set_state_is_u64; [done|lia]. Qed.
End words.

Create HintDb words.
#[global] Hint Resolve read_entry_word write_entry_word upgrade_word drop_read_word drop_write_word downgrade_word : words.

Lemma table_typed_set C p w mt : table_typed C mt -> is_u64 w -> table_typed C (set_word p w mt).
Proof.
  intros (Hc & Hl & Hw) H. split_and!; cbn [set_word MapTable.cap MapTable.indirection_arr]; [done|by rewrite length_insert|].
  by apply Forall_insert.
Qed.

Lemma keeps_on_entry {A} C p (f : Z -> Z * outcome QSError A) : word_fun f -> Keeps (table_typed C) (on_entry p f).
Proof.
  intros Hf mt Ht. unfold on_entry. destruct (MapTable.indirection_arr mt !! Z.to_nat p) as [w|] eqn:E; [|done].
  assert (is_u64 w) as Hw by (eapply Forall_lookup_1; [apply Ht|exact E]). specialize (Hf w Hw). destruct (f w) as [w' r].
  exact (table_typed_set C p w' mt Ht Hf).
Qed.
#[global] Hint Extern 5 (Keeps _ (on_entry _ _)) => (apply keeps_on_entry; auto with words) : typeclass_instances.

#[export] Instance keeps_drop_guard C g : Keeps (table_typed C) (drop_guard g).
Proof. unfold drop_guard. keeps. Qed.
#[export] Instance keeps_ensure_write C g : Keeps (table_typed C) (ensure_write g).
Proof. unfold ensure_write. keeps. Qed.

(** ** The lock manager *)

Definition lm_typed (C : nat) (lm : LM) : Prop := table_typed C (table lm).

#[export] Instance keeps_on_table {A} C (f : stM MapTable.t QSError A) : Keeps (table_typed C) f -> Keeps (lm_typed C) (on_table f).
Proof. intros H lm Hl. unfold on_table. specialize (H (table lm) Hl). by destruct (f (table lm)). Qed.
#[export] Instance keeps_set_slot C p s : Keeps (lm_typed C) (set_slot p s).
Proof. by intros lm H. Qed.
#[export] Instance keeps_clear_locks C : Keeps (lm_typed C) clear_locks.
Proof. by intros lm H. Qed.
#[export] Instance keeps_acquire C p : Keeps (lm_typed C) (acquire p).
Proof. unfold acquire. keeps. Qed.
#[export] Instance keeps_drop_handle C p : Keeps (lm_typed C) (drop_handle p).
Proof. unfold drop_handle. keeps. Qed.
#[export] Instance keeps_insert_write_lock C p n : Keeps (lm_typed C) (insert_write_lock p n).
Proof. unfold insert_write_lock. keeps. Qed.
#[export] Instance keeps_get_read C p : Keeps (lm_typed C) (get_or_acquire_read_lock p).
Proof. unfold get_or_acquire_read_lock. keeps. Qed.
#[export] Instance keeps_get_write C p : Keeps (lm_typed C) (get_upgrade_or_acquire_write_lock p).
Proof. unfold get_upgrade_or_acquire_write_lock. keeps. Qed.
#[export] Instance keeps_drop_locks C : Keeps (lm_typed C) drop_locks.
Proof. unfold drop_locks. keeps. Qed.
#[export] Instance keeps_set_entry C p w : is_u64 w -> Keeps (lm_typed C) (set_entry p w).
Proof. intros Hw. unfold set_entry. keeps. apply keeps_on_table, keeps_on_entry. by intros ? _. Qed.
#[export] Instance keeps_set_mini_page C p i : Keeps (lm_typed C) (set_mini_page p i).
Proof. apply keeps_set_entry, PageEntryFacts.new_write_locked_is_u64. Qed.

(** ** The store *)

Record shape := mkShape { sh_words : Z; sh_cap : nat }.

Record buffer_typed (B : Z) (b : MiniPageBuffer) : Prop := {
  bt_size : buff_size b = B;
  bt_backing : length (backing b) = Z.to_nat (8 * B);
  bt_lists : length (free_lists b) = 7%nat }.

Definition file_typed (io : IoEngine) : Prop := Nat.divide 4096 (length (io_file io)).

Record store_typed (σ : shape) (s : Store) : Prop := {
  sy_buffer : buffer_typed (sh_words σ) (st_cache s);
  sy_table : table_typed (sh_cap σ) (st_map s);
  sy_file : file_typed (st_io s) }.

Lemma divide_max a b : Nat.divide 4096 a -> Nat.divide 4096 b -> Nat.divide 4096 (a `max` b).
Proof. intros Ha Hb. destruct (Nat.max_spec a b) as [[_ ->]|[_ ->]]; done. Qed.

Lemma file_typed_write io a leaf : file_typed io -> length leaf = 4096%nat -> file_typed (write_page io a leaf).
Proof.
  intros Hf Hl. unfold file_typed. rewrite write_page_length by done. apply divide_max; [done|].
  exists (Z.to_nat (a + 1) + 1)%nat. unfold calc_offset. lia.
Qed.

Lemma get_page_sized {E} io a d : get_page (E := E) io a = Ok d -> sized 4096 d.
Proof.
  unfold get_page. destruct (_ <=? _)%nat eqn:H; [|done]. intros [= <-]. apply Nat.leb_le in H. split; [|lia].
  by apply length_slice.
Qed.

Lemma buffer_typed_set B b i m :
  buffer_typed B b -> (Z.to_nat (8 * i) + length m <= length (backing b))%nat -> buffer_typed B (set_node_at i m b).
Proof. intros [H1 H2 H3] H. split; [done| |done]. cbn. by rewrite length_splice. Qed.

Lemma node_at_sized {E} b i n m :
  node_at (E := E) b i n = Ok m -> length m = n /\ (Z.to_nat (8 * i) + n <= length (backing b))%nat.
Proof.
  unfold node_at, read_raw. destruct (Nat.leb_spec (Z.to_nat (8 * i) + n) (length (backing b))) as [H|]; [|done].
  intros [= <-]. split; [by apply length_slice|done].
Qed.

Lemma alloc_loop_typed B n req b : buffer_typed B b -> buffer_typed B (fst (alloc_loop n req b)).
Proof.
  revert b; induction n as [|n IH]; intros b Hb; cbn [alloc_loop]; [done|].
  destruct Hb as [H1 H2 H3]. repeat case_match; try (by split). by apply IH.
Qed.

Lemma alloc_typed B size b b' o : buffer_typed B b -> alloc size b = Ok (b', o) -> buffer_typed B b'.
Proof.
  intros Hb. unfold alloc, pop_freelist. destruct (_ =? usize_max); cbn [mbind outcome_bind].
  - intros H%Ok_inj. pose proof (alloc_loop_typed B SPIN_RETRIES (Z.of_nat (NodeSize.size_in_words size)) b Hb) as Ht.
    rewrite H in Ht. exact Ht.
  - destruct (read_cell b _) as [w|e|h]; cbn [mbind outcome_bind]; [|done|done]. intros [= <- _].
    destruct Hb as [H1 H2 H3]. split; [done|done|]. cbn. by rewrite length_insert.
Qed.

(** A loop of fallible steps keeps what every step keeps. *)
Lemma foldM_keeps {E A S} (I : S -> Prop) (f : S -> A -> outcome E S) s l s' :
  (forall s a s', I s -> f s a = Ok s' -> I s') -> I s -> foldM f s l = Ok s' -> I s'.
Proof.
  intros Hf. revert s; induction l as [|a l IH]; intros s Hs; cbn [foldM]; [by intros [= <-]|].
  destruct (f s a) as [s1|e|h] eqn:E1; cbn [mbind outcome_bind]; [|done|done]. apply IH. by eapply Hf.
Qed.

Lemma expect_ok_sized {E F A} n (f : stM bytes E A) (m m' : bytes) :
  Keeps (sized n) f -> sized n m -> expect_ok (F := F) (f m) = Ok m' -> sized n m'.
Proof. intros H Hm. specialize (H m Hm). destruct (f m) as [d [a|e|h]]; cbn; [by intros [= <-]|done|done]. Qed.

Lemma get_or_load_sized {E} io a o d :
  (forall l, o = Some l -> sized 4096 l) -> get_or_load (E := E) io a o = Ok d -> sized 4096 d.
Proof. intros Ho. destruct o as [l|]; cbn; [intros [= <-]; auto|apply get_page_sized]. Qed.

Definition disk_ok (st : option bytes * list nat) : Prop := forall l, st.1 = Some l -> sized 4096 l.

Lemma flush_one_sized {E} io m st i st' :
  disk_ok st -> flush_one (E := E) io m st i = Ok st' -> disk_ok st'.
Proof.
  destruct st as [o ts]. intros Ho H. unfold flush_one in H. apply bind_ok in H as (kv & _ & H).
  destruct (KVMeta.fence kv); [by injection H as <-|]. destruct (KVMeta.typ kv); cbn [KVRecordType.is_dirty] in H;
    apply bind_ok in H as (d & Hd & H); apply get_or_load_sized in Hd; try done;
    repeat (apply bind_ok in H as (? & ? & H)); injection H as <-; intros l [= <-];
    (eapply expect_ok_sized; [|exact Hd|eassumption]); apply _.
Qed.

Lemma flush_typed {E} n m io m' io' :
  sized n m -> file_typed io -> flush_dirty_entries (E := E) m io = Ok (m', io') -> sized n m' /\ file_typed io'.
Proof.
  intros Hm Hio H. unfold flush_dirty_entries in H. apply bind_ok in H as ([o ts] & Hf & H).
  apply bind_ok in H as (m1 & Hr & H). injection H as <- <-. split.
  - apply (foldM_keeps (sized n)) in Hr; [done| |done]. intros s a s' Hs He. (eapply expect_ok_sized; [|exact Hs|exact He]); apply _.
  - apply (foldM_keeps disk_ok) in Hf; [|intros s a s'; apply flush_one_sized|done].
    destruct o as [d|]; [|done]. apply file_typed_write; [done|]. by apply (Hf d).
Qed.

(** *** Eviction *)

Lemma node_at_header B b i hd h :
  buffer_typed B b -> node_at (E := QSError) b i header_size = Ok hd -> buffer_typed B (set_node_at i (set_header hd h) b).
Proof.
  intros Hb Hhd. apply node_at_sized in Hhd as [Hl Hr]. apply buffer_typed_set; [done|].
  rewrite length_set_header; [lia|]. rewrite Hl. unfold header_size. vm_compute. lia.
Qed.

Lemma release_typed C page node mt mt' : table_typed C mt -> release page node mt = Ok mt' -> table_typed C mt'.
Proof.
  intros Ht. unfold release. pose proof (keeps_drop_guard C (GWrite page node) mt Ht) as H.
  destruct (drop_guard _ mt) as [mt1 [u|e|h]]; [by intros [= <-]|done|done].
Qed.

Definition scan_store (r : scan) : Store :=
  match r with SSkip s _ | SMove s _ | SDone s => s end.

Lemma buffer_typed_head B h b : buffer_typed B b -> buffer_typed B (set_head h b).
Proof. by intros [? ? ?]. Qed.

Lemma evict_one_typed σ s cand r : store_typed σ s -> evict_one s cand = Ok r -> store_typed σ (scan_store r).
Proof.
  intros [Hb Ht Hf] H. unfold evict_one in H. apply bind_ok in H as (hd & Hhd & H).
  apply bind_ok in H as (sz & Hsz & H). pose proof (fun h => node_at_header _ _ cand hd h Hb Hhd) as Hset.
  destruct (negb (NodeMeta.is_live _)); [by injection H as <-|].
  destruct (NodeMeta.is_hot _); [injection H as <-; by split; [apply Hset|..]|].
  set (page := NodeMeta.page_id (header hd)) in *.
  pose proof (keeps_on_entry (sh_cap σ) page _ write_entry_word (st_map s) Ht) as Hmt.
  destruct (on_entry page _ (st_map s)) as [mt [node|e|h]]; cbn [fst] in Hmt; [|injection H as <-; by split|done].
  destruct (PageEntry.get_ref node) as [addr|index].
  { apply bind_ok in H as (mt1 & Hr & H). injection H as <-. apply (release_typed _ _ _ _ _ Hmt) in Hr. by split. }
  destruct (negb _).
  { apply bind_ok in H as (mt1 & Hr & H). injection H as <-. apply (release_typed _ _ _ _ _ Hmt) in Hr. by split. }
  destruct (NodeMeta.mark_for_eviction _) as [meta|e|h]; [| |done];
    [|apply bind_ok in H as (mt1 & Hr & H); injection H as <-; apply (release_typed _ _ _ _ _ Hmt) in Hr; by split].
  apply bind_ok in H as (m & Hm & H). apply node_at_sized in Hm as [Hml Hmr].
  assert (sized (NodeSize.size_in_bytes sz) m) as Hms.
  { split; [done|]. apply Nat.leb_le. by destruct sz; vm_compute. }
  apply bind_ok in H as ([m1 io] & Hfl & H).
  destruct (flush_typed _ _ _ _ _ (sized_set_header _ _ meta Hms) Hf Hfl) as [Hm1 Hio].
  apply bind_ok in H as (w & Hw & H). apply bind_ok in H as (mt1 & Hr & H). injection H as <-.
  apply (release_typed (sh_cap σ)) in Hr; cycle 1.
  { apply table_typed_set; [done|]. apply PageEntryFacts.leaf_is_u64. }
  split; [|done|done]. cbn [scan_store st_cache]. apply buffer_typed_head, buffer_typed_set.
  - exact Hb.
  - destruct Hm1 as [Hl1 Hn]. rewrite length_set_header by (rewrite Hl1; exact Hn). rewrite Hl1. exact Hmr.
Qed.

Lemma evict_loop_typed σ n s cand k s' r :
  store_typed σ s -> evict_loop n s cand k = Some (s', r) -> store_typed σ s'.
Proof.
  revert s cand k; induction n as [|n IH]; intros s cand k Hs; cbn [evict_loop];
    (destruct (_ <=? k); [by intros [= <- <-]|]); [done|].
  destruct (evict_one s cand) as [x|e|h] eqn:E; [|by intros [= <- <-]..].
  pose proof (evict_one_typed σ s cand x Hs E) as Hx. destruct x as [s1 w|s1 i|s1]; [by apply IH..|by intros [= <- <-]].
Qed.

(** ** Transactions *)

(** What no operation of a transaction changes: the thresholds, the number of the next
    transaction, its own number and the kind of its records. *)
Record fixed := mkFixed {
  fx_shape : shape; fx_leaf : Z; fx_records : Z; fx_bytes : Z; fx_next : Z; fx_txn : Z; fx_kind : WalEntryKind }.

Record db_typed (φ : fixed) (q : QuickStep) : Prop := {
  dt_tree : tree_typed (inner_nodes q);
  dt_store : store_typed (fx_shape φ) (store q);
  dt_leaf : wal_leaf_checkpoint_threshold q = fx_leaf φ;
  dt_records : wal_global_record_threshold q = fx_records φ;
  dt_bytes : wal_global_byte_threshold q = fx_bytes φ;
  dt_next : next_txn_id q = fx_next φ }.

Record tx_typed (φ : fixed) (x : TxSt) : Prop := {
  tt_db : db_typed φ (db x);
  tt_txn : txn_id x = fx_txn φ;
  tt_kind : wal_entry_kind x = fx_kind φ }.

Section ops.
Context (φ : fixed).
Abbreviation T := (tx_typed φ).

Lemma typed_store x : T x -> store_typed (fx_shape φ) (tx_store x).
Proof. by intros [[] ? ?]. Qed.

Lemma typed_set_store s x : T x -> store_typed (fx_shape φ) s -> T (set_tx_store s x).
Proof. intros [[] ? ?] Hs. by split; [split|..]. Qed.

#[export] Instance typed_modify f : (forall x, T x -> T (f x)) -> Keeps T (modifyS f).
Proof. intros H x Hx. by apply H. Qed.
#[export] Instance typed_on_tree {A} (f : stM BPTree QSError A) : Keeps tree_typed f -> Keeps T (on_tree f).
Proof.
  intros H x [[Ht] ? ?]. unfold on_tree. specialize (H _ Ht). destruct (f (inner_nodes (db x))) as [t r]. by split; [split|..].
Qed.
#[export] Instance typed_on_locks {A} (f : stM LM QSError A) : Keeps (lm_typed (sh_cap (fx_shape φ))) f -> Keeps T (on_locks f).
Proof.
  intros H x [[? [Hb Hm Hf]] ? ?]. unfold on_locks. specialize (H (mkLM (lock_manager x) (st_map (tx_store x))) Hm).
  destruct (f _) as [lm r]. by split; [split|..].
Qed.
#[export] Instance typed_on_wal f : Keeps T (on_wal f).
Proof.
  intros x Hx. unfold on_wal. destruct (f _); [|done..]. apply typed_set_store; [done|]. by destruct (typed_store x Hx).
Qed.
#[export] Instance typed_finally {A} p (f : M A) : Keeps T f -> Keeps T (finally p f).
Proof.
  intros H x Hx. unfold finally. specialize (H x Hx). destruct (f x) as [x1 [a|e|h]]; [..|done];
    pose proof (typed_on_locks (drop_handle p) (keeps_drop_handle _ p) x1 H) as H1;
    by destruct (on_locks (drop_handle p) x1) as [x2 []].
Qed.
#[export] Instance typed_on_error {A} p (f : M A) : Keeps T f -> Keeps T (on_error p f).
Proof.
  intros H x Hx. unfold on_error. specialize (H x Hx). destruct (f x) as [x1 [a|e|h]]; [done| |done].
  pose proof (typed_on_locks (drop_handle p) (keeps_drop_handle _ p) x1 H) as H1.
  by destruct (on_locks (drop_handle p) x1) as [x2 []].
Qed.

(** A mini-page is a page of the ring, and what replaces it has its size. *)
Lemma typed_mini {E} x i m : mini (E := E) x i = Ok m -> sized 4096 m.
Proof. intros [H _]%node_at_sized. split; [done|lia]. Qed.
Lemma typed_set_mini {E} x i m m' : T x -> mini (E := E) x i = Ok m -> sized 4096 m' -> T (set_mini i m' x).
Proof.
  intros Hx [_ Hr]%node_at_sized [Hl _]. apply typed_set_store; [done|]. destruct (typed_store x Hx).
  split; [|done..]. apply buffer_typed_set; [done|lia].
Qed.

#[export] Instance typed_on_mini {E A} i (err : E -> QSError) (f : stM bytes E A) : Keeps (sized 4096) f -> Keeps T (on_mini i err f).
Proof.
  intros H x Hx. unfold on_mini. destruct (mini x i) as [m|e|h] eqn:E0; [|done..].
  specialize (H m (typed_mini x i m E0)). destruct (f m) as [m' r]. by eapply typed_set_mini.
Qed.
#[export] Instance typed_node_of p : Keeps T (node_of p).
Proof. unfold node_of. keeps. Qed.
#[export] Instance typed_mini_of p : Keeps T (mini_of p).
Proof. unfold mini_of. keeps. Qed.
#[export] Instance typed_load_guard_leaf p a : Keeps T (load_guard_leaf p a).
Proof. unfold load_guard_leaf. keeps. Qed.
#[export] Instance typed_alloc_page size : Keeps T (alloc_page size).
Proof.
  intros x Hx. unfold alloc_page. destruct (alloc size _) as [[b o]|e|h] eqn:E; [|done..].
  destruct (typed_store x Hx). apply typed_set_store; [done|]. split; [|done..]. by eapply alloc_typed.
Qed.

(** The operations of a transaction follow the code, through the combinators too. *)
Ltac typed_step :=
  match goal with
  | |- Keeps _ (on_mini _ _ _) => apply typed_on_mini
  | |- Keeps _ (on_tree _) => apply typed_on_tree
  | |- Keeps _ (finally _ _) => apply typed_finally
  | |- Keeps _ (on_error _ _) => apply typed_on_error
  | |- _ => keeps_step
  end.
Ltac typed := repeat typed_step.

#[export] Instance typed_promote p a : Keeps T (promote_leaf_to_mini_page p a).
Proof. unfold promote_leaf_to_mini_page. typed. Qed.
#[export] Instance typed_ensure_mini p : Keeps T (ensure_mini_page p).
Proof. unfold ensure_mini_page. typed. Qed.
#[export] Instance typed_try_put_mini i k v : Keeps T (try_put_mini i k v).
Proof.
  intros x Hx. unfold try_put_mini, page_try_put. destruct (mini x i) as [m|e|h] eqn:E0; [|done..].
  pose proof (keeps_try_put 4096 k v m (typed_mini x i m E0)) as H.
  destruct (try_put k v m) as [m' [u|e|h]]; eapply typed_set_mini; eauto. by apply sized_set_header.
Qed.
#[export] Instance typed_put_promotion p k v : Keeps T (try_put_with_promotion p k v).
Proof. unfold try_put_with_promotion. typed. Qed.
#[export] Instance typed_leaf_snapshot p : Keeps T (leaf_snapshot p).
Proof. unfold leaf_snapshot. typed. Qed.
#[export] Instance typed_existing_value p k : Keeps T (existing_value p k).
Proof. unfold existing_value. typed. Qed.
#[export] Instance typed_flush_index i : Keeps T (flush_index i).
Proof.
  intros x Hx. unfold flush_index, merge_to_disk. destruct (mini x i) as [m|e|h] eqn:E0; cbn [mbind outcome_bind]; [|done..].
  destruct (flush_dirty_entries _ _) as [[m' io]|e|h] eqn:E; [|done..].
  pose proof (typed_store x Hx) as Hs. destruct (flush_typed 4096 _ _ _ _ (typed_mini x i m E0) (sy_file _ _ Hs) E) as [Hm Hio].
  eapply typed_set_mini; [|exact E0|exact Hm]. apply typed_set_store; [done|]. by destruct Hs.
Qed.
#[export] Instance typed_flush_page p : Keeps T (flush_page p).
Proof. unfold flush_page. typed. Qed.
#[export] Instance typed_checkpoint_leaf p : Keeps T (maybe_checkpoint_leaf p).
Proof. unfold maybe_checkpoint_leaf. typed. Qed.
#[export] Instance typed_push_undo a : Keeps T (push_undo a).
Proof. apply typed_modify. by intros x [[] ? ?]. Qed.
#[export] Instance typed_log_put_undo p k o : Keeps T (log_put_undo p k o).
Proof. unfold log_put_undo. typed. Qed.
#[export] Instance typed_log_delete_undo p k o : Keeps T (log_delete_undo p k o).
Proof. unfold log_delete_undo. typed. Qed.
#[export] Instance typed_append_put p k v o : Keeps T (append_wal_put p k v o).
Proof. unfold append_wal_put. typed. Qed.
#[export] Instance typed_global_checkpoint iter : Keeps T (maybe_global_checkpoint iter).
Proof. unfold maybe_global_checkpoint. typed. apply typed_modify. by intros y [[] ? ?]. Qed.

(** New pages. *)
#[export] Instance typed_alloc_evict ef n size : Keeps T (alloc_evict ef n size).
Proof.
  induction n as [|n IH]; cbn [alloc_evict]; typed. intros x Hx. destruct (evict ef (tx_store x)) as [[s r]|] eqn:E; [|done].
  apply (evict_loop_typed (fx_shape φ)) in E; [|by apply typed_store]. pose proof (typed_set_store s x Hx E) as Hs.
  destruct r; [by apply IH|done..].
Qed.
#[export] Instance typed_fresh_addr : Keeps T fresh_addr.
Proof. intros x Hx. unfold fresh_addr, get_new_addr. apply typed_set_store; [done|]. by destruct (typed_store x Hx). Qed.
Lemma table_typed_create C i mt : table_typed C mt -> table_typed C (fst (MapTable.create_page_entry (E := QSError) mt i)).
Proof.
  intros (Hc & Hl & Hw). unfold MapTable.create_page_entry. cbv zeta. case_match; [done|].
  split_and!; cbn; [done|by rewrite length_insert|]. apply Forall_insert; [done|]. apply PageEntryFacts.new_write_locked_is_u64.
Qed.
#[export] Instance typed_fresh_entry i : Keeps T (fresh_entry i).
Proof.
  intros x Hx. unfold fresh_entry. destruct (typed_store x Hx) as [Hb Ht Hf]. pose proof (table_typed_create _ i _ Ht) as H.
  destruct (MapTable.create_page_entry _ _) as [mt r]. by apply typed_set_store.
Qed.
#[export] Instance typed_init_node i size o : Keeps T (init_node i size o).
Proof. unfold init_node. typed. Qed.
#[export] Instance typed_new_mini ef size o : Keeps T (new_mini_page ef size o).
Proof. unfold new_mini_page. typed. Qed.

(** Splits and merges. *)
Lemma typed_set_two x li ri l r l' r' :
  T x -> mini (E := QSError) x li = Ok l -> mini (E := QSError) x ri = Ok r -> sized2 4096 (l', r') ->
  T (set_mini ri r' (set_mini li l' x)).
Proof.
  intros Hx Hl Hr [H1 H2]. pose proof (typed_set_mini x li l l' Hx Hl H1) as Hx1.
  apply node_at_sized in Hr as [_ Hr]. apply typed_set_store; [done|]. destruct (typed_store _ Hx1) as [Hb Hm Hf].
  split; [|done..]. apply buffer_typed_set; [exact Hb|]. destruct (typed_store x Hx) as [[_ Hb0 _] _ _].
  rewrite (bt_backing _ _ Hb), <-Hb0. destruct H2 as [H2 _]. cbn [snd] in H2. rewrite H2. exact Hr.
Qed.

#[export] Instance typed_plan p : Keeps T (plan_leaf_split p).
Proof. unfold plan_leaf_split. typed. Qed.
#[export] Instance typed_apply_split l r plan : Keeps T (apply_leaf_split l r plan).
Proof.
  unfold apply_leaf_split. typed. intros x Hx. match goal with |- context [mini x ?i ≫= _] => set (li := i) end.
  destruct (mini x li) as [lm|e|h] eqn:El; cbn [mbind outcome_bind]; [|done..].
  match goal with |- context [mini x ?i ≫= _] => set (ri := i) end.
  destruct (mini x ri) as [rm|e|h] eqn:Er; cbn [mbind outcome_bind]; [|done..].
  destruct (NodeMeta.size _) as [sz|e|h]; cbn [mbind outcome_bind]; [|done..].
  pose proof (typed_mini x li lm El) as Hl. pose proof (typed_mini x ri rm Er) as [Hr1 Hr2].
  assert (sized 4096 (splice rm 0 (take (NodeSize.size_in_bytes sz) lm))) as Hr.
  { split; [|done]. rewrite length_splice; [done|]. unfold in_range. rewrite length_take. destruct Hl as [-> _]. lia. }
  pose proof (keeps_apply_split 4096 plan (lm, splice rm 0 (take (NodeSize.size_in_bytes sz) lm)) (conj Hl Hr)) as [H1 H2].
  destruct (apply_split plan _) as [[l' r'] [o|e|h]]; [| |done]; eapply typed_set_two; eauto; split; try done.
  by apply sized_set_header.
Qed.
#[export] Instance typed_with_bundle {A} b (f : M A) : Keeps T f -> Keeps T (with_bundle b f).
Proof.
  intros H x Hx. unfold with_bundle. specialize (H x Hx). destruct (f x) as [x' r]. destruct H as [[Ht] ? ?].
  split; [split|..]; try done. by apply tree_typed_drop_bundle.
Qed.
#[export] Instance typed_lock_bundle k : Keeps T (lock_bundle_for_split k).
Proof. unfold lock_bundle_for_split. typed. Qed.
#[export] Instance typed_split_leaf ef p k : Keeps T (split_current_leaf ef p k).
Proof. unfold split_current_leaf. typed. apply typed_with_bundle. typed. Qed.
#[export] Instance typed_merge_pages l r b : Keeps T (merge_leaf_pages l r b).
Proof.
  unfold merge_leaf_pages. do 2 (apply keeps_bind; [apply _|]; intros _). apply keeps_bind; [apply _|]; intros li.
  apply keeps_bind; [apply _|]; intros ri. apply keeps_bind_get. intros x Hx.
  destruct (mini x li) as [lm|e|h] eqn:El; [|done..]. destruct (mini x ri) as [rm|e|h] eqn:Er; [|done..].
  run_pure x lm. run_pure x rm. destruct (from_nodes lm rm) as [plan|e|h]; [|done..]. run_pure x plan.
  pose proof (keeps_apply_merge 4096 plan (lm, rm) (conj (typed_mini x li lm El) (typed_mini x ri rm Er))) as H.
  destruct (apply_merge plan (lm, rm)) as [[l' r'] [u|e|h]]; [| |done].
  - erewrite bindS_ok by reflexivity. pose proof (typed_set_two x li ri lm rm l' r' Hx El Er H) as H1. revert H1.
    generalize (set_mini ri r' (set_mini li l' x)). apply typed_on_tree. apply _.
  - by apply (typed_set_two x li ri lm rm l' r' Hx El Er H).
Qed.
#[export] Instance typed_first_user_key p : Keeps T (first_user_key p).
Proof. unfold first_user_key. typed. Qed.
#[export] Instance typed_debug_merge l r : Keeps T (debug_merge_leaves l r).
Proof. unfold debug_merge_leaves. typed. Qed.
#[export] Instance typed_auto_merge p : Keeps T (try_auto_merge p).
Proof. unfold try_auto_merge. typed. Qed.

(** The operations. *)
#[export] Instance typed_guard_get p k : Keeps T (guard_get p k).
Proof. unfold guard_get. typed. Qed.
#[export] Instance typed_get k : Keeps T (tx_get k).
Proof. unfold tx_get. typed. Qed.
#[export] Instance typed_put_loop iter ef n p k v o : Keeps T (put_loop iter ef n p k v o).
Proof. revert p; induction n as [|n IH]; intros p; cbn [put_loop]; typed. Qed.
#[export] Instance typed_put iter ef n k v : Keeps T (tx_put iter ef n k v).
Proof. unfold tx_put. typed. Qed.
#[export] Instance typed_delete iter k : Keeps T (tx_delete iter k).
Proof. unfold tx_delete. typed. Qed.
#[export] Instance typed_undo_action a : Keeps T (apply_undo_action a).
Proof. unfold apply_undo_action. typed. Qed.
#[export] Instance typed_undo_actions l : Keeps T (apply_undo_actions l).
Proof. induction l as [|a l IH]; cbn [apply_undo_actions]; typed. apply typed_modify. by intros x [[] ? ?]. Qed.
#[export] Instance typed_commit_in_place : Keeps T commit_in_place.
Proof. unfold commit_in_place. typed. apply typed_modify. by intros x [[] ? ?]. Qed.
#[export] Instance typed_abort_in_place : Keeps T abort_in_place.
Proof.
  unfold abort_in_place. typed; [|apply typed_modify; by intros x [[] ? ?]]. intros x Hx.
  pose proof (typed_undo_actions (reverse (undo_log x)) x Hx) as H. by destruct (apply_undo_actions _ x) as [x' []].
Qed.
#[export] Instance typed_drop : Keeps T drop_tx.
Proof. unfold drop_tx. typed. Qed.
#[export] Instance typed_flush_leaf p : Keeps T (debug_flush_leaf p).
Proof. unfold debug_flush_leaf. typed. Qed.
#[export] Instance typed_truncate_leaf p k b : Keeps T (debug_truncate_leaf p k b).
Proof. unfold debug_truncate_leaf. typed. Qed.
End ops.

(** ** The whole store *)

Section store.
Context {E : Type}.

Lemma rewrite_page_sized m lo up es m' : sized 4096 m -> rewrite_page (E := E) m lo up es = Ok m' -> sized 4096 m'.
Proof. unfold rewrite_page. apply expect_ok_sized. keeps. Qed.

(** What a replay keeps: the table, and whole pages in the file. *)
Definition db_shape (mt : MapTable.t) (d : Db) : Prop := map_table d = mt /\ file_typed (io_engine d).

Lemma replay_page_shape mt st page rs d d' :
  db_shape mt d -> replay_page (E := E) d st page rs = Ok d' -> db_shape mt d'.
Proof.
  intros [Hm Hf] H. unfold replay_page in H. apply bind_ok in H as (w & _ & H). apply bind_ok in H as ([w' node] & _ & H).
  apply bind_ok in H as (addr & _ & H). apply bind_ok in H as (leaf & Hl%get_page_sized & H).
  apply bind_ok in H as ([lo up] & _ & H). apply bind_ok in H as (base & _ & H).
  destruct (replay_records _ _ _) as [[|e es] fences]; [by injection H as <-|]. destruct (default _ _) as [lo' up'].
  apply bind_ok in H as (leaf' & Hl' & H). apply (rewrite_page_sized _ _ _ _ _ Hl) in Hl' as [Hl' _].
  apply bind_ok in H as (ms & _ & H). injection H as <-. split; [done|]. by apply file_typed_write.
Qed.

Lemma replay_wal_shape mt d d' : db_shape mt d -> replay_wal (E := E) d = Ok d' -> db_shape mt d'.
Proof.
  intros Hd. unfold replay_wal. destruct (records_grouped (wal d)) as [|g gs]; [by intros [= <-]|]. cbv zeta.
  intros (d1 & H & H1)%bind_ok. apply (foldM_keeps (db_shape mt)) in H; [|clear|done].
  - injection H1 as <-. exact H.
  - intros d [page rs] d' Hd H. destruct (_ <=? page); [by injection H as <-|]. apply bind_ok in H as (has & _ & H).
    destruct (negb has); [by injection H as <-|]. by eapply replay_page_shape.
Qed.

Lemma startup_typed n data wl d :
  file_typed (IoEngine.open data) -> startup (E := E) n data wl = Ok d ->
  table_typed n (map_table d) /\ file_typed (io_engine d).
Proof.
  intros Hio H. unfold startup in H. apply bind_ok in H as (io & He & H).
  assert (file_typed io) as Hio1.
  { unfold ensure_root_leaf_on_disk in He. apply bind_ok in He as (leaf & Hl%get_page_sized & He).
    destruct (2 <=? record_count leaf)%nat; [by injection He as <-|]. apply bind_ok in He as (leaf' & Hl' & He). injection He as <-.
    apply file_typed_write; [done|]. apply (expect_ok_sized 4096) in Hl' as [? _]; [done| |done]. unfold format_leaf. keeps. }
  apply bind_ok in H as (d1 & Hr & H). apply (replay_wal_shape (MapTable.new n)) in Hr as [Hm Hf]; [|done].
  apply bind_ok in H as ([mt i] & Hi & H). injection H as <-. rewrite Hm in Hi. unfold MapTable.init_leaf_entry in Hi.
  destruct (_ =? 0)%nat; [done|]. injection Hi as <- <-. split; [|done]. split_and!; cbn; [done|by rewrite length_insert, length_replicate|].
  apply Forall_insert; [|apply PageEntryFacts.leaf_is_u64]. apply Forall_replicate. unfold is_u64. lia.
Qed.
End store.

Lemma open_typed data : Nat.divide 4096 (length data) -> file_typed (IoEngine.open data).
Proof.
  intros Hd. unfold file_typed, IoEngine.open. cbv zeta. cbn [io_file]. case_match eqn:E; [|done].
  apply Nat.ltb_lt in E. rewrite length_app, length_zeros. exists 2%nat. lia.
Qed.

Definition qs_typed (σ : shape) (lt rt bt : Z) (q : QuickStep) : Prop :=
  db_typed (mkFixed σ lt rt bt (next_txn_id q) 0 Redo) q.

Lemma qs_new_typed b n lg lt rt bt data wl q :
  Nat.divide 4096 (length data) -> qs_new b n lg lt rt bt data wl = Ok q ->
  qs_typed (mkShape (2 ^ lg / 8) n) lt rt bt q.
Proof.
  intros Hd H. unfold qs_new in H. apply bind_ok in H as (c & Hc & H). apply bind_ok in H as (t & Ht & H).
  apply bind_ok in H as (d & Hs & H). injection H as <-. apply startup_typed in Hs as [Hm Hf]; [|by apply open_typed].
  split; try done.
  - unfold BPTree.new in Ht. do 2 (case_match; [done|]). injection Ht as <-. apply map_Forall_empty.
  - split; cbn [store st_cache st_map st_io]; [|done|done]. unfold Buffer.new in Hc. cbv zeta in Hc.
    apply bind_ok in Hc as ([] & H1 & Hc). apply bind_ok in Hc as ([] & H2 & Hc). apply bind_ok in Hc as ([] & H3 & Hc).
    injection Hc as <-. unfold rassert in H2. destruct (Z.eqb_spec (2 ^ lg mod 8) 0) as [H8|]; [|done].
    split; cbn [buff_size backing free_lists sh_words]; [done| |done]. rewrite length_replicate. f_equal.
    rewrite (Z.div_mod (2 ^ lg) 8) at 1 by lia. rewrite H8. apply Z.add_0_r.
Qed.

Lemma qs_typed_begin σ lt rt bt q x :
  qs_typed σ lt rt bt q -> tx (E := QSError) q = Ok x ->
  tx_typed (mkFixed σ lt rt bt (u64 (next_txn_id q + 1)) (next_txn_id q) Redo) x.
Proof.
  intros [Ht [Hb Hm Hf] H1 H2 H3 _] H. unfold tx in H. cbn [store] in H.
  destruct (append_txn_marker _ _ _ _) as [w|e|h]; [|done..]. injection H as <-. by split; [split|..].
Qed.

Lemma qs_typed_end φ x :
  tx_typed φ x -> qs_typed (fx_shape φ) (fx_leaf φ) (fx_records φ) (fx_bytes φ) (db x).
Proof. intros [[] ? ?]. by split. Qed.

(** ** Every way to use the store *)

(** What a program can ask of a running transaction. *)
Inductive tx_call :=
| CGet (key : bytes) | CPut (key val : bytes) | CDelete (key : bytes) | CCommit | CAbort | CDrop
| CFlushLeaf (page : Z) | CTruncateLeaf (page : Z) (keep : nat) (auto_merge : bool) | CMergeLeaves (left right : Z).

Section reach.
Context (iter : gmap Z LeafWalStats -> list (Z * LeafWalStats)) (evict_fuel fuel : nat).

Definition forget {A} (f : M A) : M unit := _ ← f; mret tt.

Definition call (c : tx_call) : M unit :=
  match c with
  | CGet k => forget (tx_get k)
  | CPut k v => tx_put iter evict_fuel fuel k v
  | CDelete k => forget (tx_delete iter k)
  | CCommit => tx_commit
  | CAbort => tx_abort
  | CDrop => drop_tx
  | CFlushLeaf p => debug_flush_leaf p
  | CTruncateLeaf p k b => debug_truncate_leaf p k b
  | CMergeLeaves l r => debug_merge_leaves l r
  end.

Inductive calls (x : TxSt) : TxSt -> Prop :=
| calls_none : calls x x
| calls_snoc y c : calls x y -> calls x (fst (call c y)).

(** The states a store goes through: transactions one after the other, each with any calls,
    failed ones included, and turns of the thread that watches the log in between.  The
    relation also goes on after a halt, so it covers more than a program can do. *)
Inductive reachable (q0 : QuickStep) : QuickStep -> Prop :=
| reach_start : reachable q0 q0
| reach_tx q x x' : reachable q0 q -> tx (E := QSError) q = Ok x -> calls x x' -> reachable q0 (db x')
| reach_tick q : reachable q0 q -> reachable q0 (monitor_tick q).

#[local] Instance typed_forget {A} φ (f : M A) : Keeps (tx_typed φ) f -> Keeps (tx_typed φ) (forget f).
Proof. intros H. unfold forget. keeps. Qed.

#[local] Instance typed_call φ c : Keeps (tx_typed φ) (call c).
Proof.
  destruct c as [k|k v|k| | | |p|p k b|l r]; cbn [call].
  - exact (typed_forget φ _ (typed_get φ k)).
  - exact (typed_put φ iter evict_fuel fuel k v).
  - exact (typed_forget φ _ (typed_delete φ iter k)).
  - exact (keeps_bind _ _ _ (typed_commit_in_place φ) (fun _ => typed_drop φ)).
  - exact (keeps_bind _ _ _ (typed_abort_in_place φ) (fun _ => typed_drop φ)).
  - exact (typed_drop φ).
  - exact (typed_flush_leaf φ p).
  - exact (typed_truncate_leaf φ p k b).
  - exact (typed_debug_merge φ l r).
Qed.

Lemma calls_typed φ x y : tx_typed φ x -> calls x y -> tx_typed φ y.
Proof. intros Hx. induction 1 as [|y c _ IH]; [done|]. by apply typed_call. Qed.

Lemma reachable_typed σ lt rt bt q0 q : qs_typed σ lt rt bt q0 -> reachable q0 q -> qs_typed σ lt rt bt q.
Proof.
  intros H0. induction 1 as [|q x x' _ IH Hx Hc|q _ IH]; [done| |].
  - pose proof (calls_typed _ _ _ (qs_typed_begin _ _ _ _ _ _ IH Hx) Hc) as Hx'. exact (qs_typed_end _ _ Hx').
  - unfold monitor_tick. cbv zeta. case_match; [|done]. by destruct IH.
Qed.
End reach.

(** * Properties *)

(** Types hold in every state: from a start on data files of whole pages, through any
    transactions with any calls that succeed, fail or stop half way, every inner node keeps
    its 4072 bytes of pivots, the ring its length and seven free lists, the mapping table its
    capacity and 64-bit words, the data file whole pages, and the thresholds their values. *)
Theorem types_always_hold (iter : gmap Z LeafWalStats -> list (Z * LeafWalStats)) (evict_fuel fuel : nat)
    (b : Z) (n : nat) (lg lt rt bt : Z) (data wl : bytes) (q0 q : QuickStep) :
  Nat.divide 4096 (length data) -> qs_new b n lg lt rt bt data wl = Ok q0 ->
  reachable iter evict_fuel fuel q0 q ->
  map_Forall (fun _ node => length (rest node) = INLINE_BUFFER_LEN) (slab (inner_nodes q)) /\
  buff_size (st_cache (store q)) = 2 ^ lg / 8 /\
  length (backing (st_cache (store q))) = Z.to_nat (8 * (2 ^ lg / 8)) /\
  length (free_lists (st_cache (store q))) = 7%nat /\
  MapTable.capacity (st_map (store q)) = n /\ length (MapTable.indirection_arr (st_map (store q))) = n /\
  Forall is_u64 (MapTable.indirection_arr (st_map (store q))) /\
  Nat.divide 4096 (length (io_file (st_io (store q)))) /\
  wal_leaf_checkpoint_threshold q = lt /\ wal_global_record_threshold q = rt /\ wal_global_byte_threshold q = bt.
Proof.
  intros Hd Hq Hr. pose proof (reachable_typed _ _ _ _ _ _ _ _ _ (qs_new_typed _ _ _ _ _ _ _ _ _ Hd Hq) Hr) as H.
  destruct H as [Ht [[H1 H2 H3] (H4 & H5 & H6) Hf] ? ? ? _]. by split_and!.
Qed.

(** A store of two pages, one transaction that puts and aborts, and a turn of the watcher. *)
Definition typed_q0 : outcome QSError QuickStep := qs_new 1 2 13 100 1000 100000 [] [].

Definition is_ok {E A} (r : outcome E A) : bool := match r with Ok _ => true | _ => false end.

Lemma types_always_hold_witness :
  exists q0 x, typed_q0 = Ok q0 /\ tx (E := QSError) q0 = Ok x /\
  let q := monitor_tick (db (fst (call map_to_list 4 4 CAbort
             (fst (call map_to_list 4 4 (CPut [Byte.x61] [Byte.x62]) x))))) in
  length (backing (st_cache (store q))) = Z.to_nat 8192 /\ Forall is_u64 (MapTable.indirection_arr (st_map (store q))).
Proof.
  assert (is_ok (q ← typed_q0; tx q) = true) as Hok by (vm_compute; reflexivity).
  destruct typed_q0 as [q0|e|h] eqn:E0; [|discriminate Hok..].
  cbn [mbind outcome_bind] in Hok. destruct (tx (E := QSError) q0) as [x|e|h] eqn:E1; [|discriminate Hok..].
  exists q0, x. split; [reflexivity|]. split; [exact E1|]. cbv zeta.
  destruct (types_always_hold map_to_list 4 4 1 2 13 100 1000 100000 [] [] q0 _ (Nat.divide_0_r 4096) E0
    (reach_tick _ _ _ _ _ (reach_tx _ _ _ _ _ x _ (reach_start _ _ _ _) E1
      (calls_snoc _ _ _ _ _ CAbort (calls_snoc _ _ _ _ _ (CPut [Byte.x61] [Byte.x62]) (calls_none _ _ _ _))))))
    as (_ & _ & H & _ & _ & _ & H' & _). split; [exact H|exact H'].
Defined.
