(* ===== verification/TxSpec.v ===== *)
(** * What a transaction promises (src/lib.rs, [QuickStepTx])

    The abstract store is a routing tree [abs_tree] and one [view] per leaf page: its fences
    and its records.  [holds] relates it to the concrete state: the tree, the table and its
    locks, the ring of mini-pages and the data file.  [tx_get] and [tx_put] are shown to be
    the lookup and the update of the abstract store, and the log to record the update. *)

From stdpp Require Import gmap.
From S2P Require Import Prelude Types BTreeMap MapTable IoEngine Wal Node Layout PageOp Recovery BPNode BPTree LockManager Buffer Tx.

(** ** The abstract store *)

Record view := mkView {
  v_lo : bytes; v_up : bytes; v_content : list (bytes * (bytes * KVRecordType.t)) }.

Definition v_prefix (v : view) : bytes := common_prefix (v_lo v) (v_up v).

Definition v_get (v : view) (key : bytes) : option bytes :=
  fst <$> bt_get (v_content v) (drop (length (v_prefix v)) key).
Definition v_put (key val : bytes) (v : view) : view :=
  mkView (v_lo v) (v_up v) (bt_alter (put_value val) (v_content v) (drop (length (v_prefix v)) key)).

Definition spec_get (a : abs_tree) (V : gmap Z view) (key : bytes) : option bytes :=
  V !! aroute a key ≫= fun v => v_get v key.
Definition spec_put (a : abs_tree) (key val : bytes) (V : gmap Z view) : gmap Z view :=
  alter (v_put key val) (aroute a key) V.

(** A key the store has a page for: its leaf is there and the key has the leaf's prefix. *)
Definition routed (a : abs_tree) (V : gmap Z view) (key : bytes) : Prop :=
  exists v k, V !! aroute a key = Some v /\ key = v_prefix v ++ k.

(** ** Representation *)

Definition lm_of (x : TxSt) : LM := mkLM (lock_manager x) (st_map (tx_store x)).

(** A page holds exactly the records of the view; a stale copy holds no other keys. *)
Definition shows (m : bytes) (v : view) : Prop :=
  exists es, leaf_repr m (v_lo v) (v_up v) es /\ content es = v_content v.
Definition covered (d : bytes) (v : view) : Prop :=
  exists ds, leaf_repr d (v_lo v) (v_up v) ds /\
    forall k, bt_get (v_content v) k = None -> bt_get (content ds) k = None.

(** The leaf a guard of the page keeps. *)
Definition kept (L : gmap Z LockSlot) (p : Z) : option bytes := s ← L !! p; pg_leaf (guard s).

Definition page_at (x : TxSt) (p : Z) (v : view) (node : NodeRef) : Prop :=
  place (st_map (tx_store x)) p = Some node /\
  match node with
  | NMiniPage i => 0 <= i < 2 ^ 48 /\ exists m d, mini (E := QSError) x i = Ok m /\ shows m v /\
      get_page (E := QSError) (st_io (tx_store x)) (NodeMeta.leaf (header m)) = Ok d /\ covered d v /\
      (forall l, kept (lock_manager x) p = Some l -> covered l v)
  | NLeaf addr => exists d, get_page (E := QSError) (st_io (tx_store x)) addr = Ok d /\ shows d v /\
      NodeMeta.leaf (header d) = addr /\ (forall l, kept (lock_manager x) p = Some l -> l = d)
  end.

(** The mini-pages lie inside the used part of the ring, which hands out pages at its tail. *)
Definition ring_holds (wrapped : bool) (x : TxSt) (V : gmap Z view) : Prop :=
  let b := st_cache (tx_store x) in
  ring_ok wrapped b /\ length (backing b) = Z.to_nat (8 * buff_size b) /\ buff_size b <= 2 ^ 48 /\
  free_lists b !! NodeSize.index NodeSize.LeafPage = Some usize_max /\
  forall p v i, V !! p = Some v -> place (st_map (tx_store x)) p = Some (NMiniPage i) ->
    i + 512 <= buff_size b /\ forall w, i <= w < i + 512 -> occupied wrapped b w.

(** Where the leaf of a page is on disk: a mini-page has the address in its header. *)
Definition disk_addr (x : TxSt) (p : Z) : option Z :=
  match place (st_map (tx_store x)) p with
  | Some (NLeaf addr) => Some addr
  | Some (NMiniPage i) => match mini (E := QSError) x i with Ok m => Some (NodeMeta.leaf (header m)) | _ => None end
  | None => None
  end.

Record holds (wrapped : bool) (x : TxSt) (a : abs_tree) (V : gmap Z view) : Prop := {
  h_tree : tree_repr (inner_nodes (db x)) a;
  h_locks : lock_inv (lm_of x);
  h_dom : forall p v, V !! p = Some v -> 0 <= p < Z.of_nat (length (MapTable.indirection_arr (st_map (tx_store x))));
  h_pages : forall p v, V !! p = Some v -> exists node, page_at x p v node;
  h_apart : forall p q i j v w, p <> q -> V !! p = Some v -> V !! q = Some w ->
    place (st_map (tx_store x)) p = Some (NMiniPage i) -> place (st_map (tx_store x)) q = Some (NMiniPage j) ->
    i + 512 <= j \/ j + 512 <= i;
  h_ring : ring_holds wrapped x V;
  h_disk : forall p q v w addr, p <> q -> V !! p = Some v -> V !! q = Some w ->
    disk_addr x p = Some addr -> disk_addr x q <> Some addr }.

(** ** What a step does to the pages it is not about

    A page that is left as it was: its place, its bytes in the buffer, the leaf its guard
    keeps. *)
Definition same_page (x x' : TxSt) (q : Z) : Prop :=
  place (st_map (tx_store x')) q = place (st_map (tx_store x)) q /\
  kept (lock_manager x') q = kept (lock_manager x) q /\
  forall j, place (st_map (tx_store x)) q = Some (NMiniPage j) -> mini (E := QSError) x' j = mini x j.

Definition same_pages (V : gmap Z view) (x x' : TxSt) : Prop :=
  st_io (tx_store x') = st_io (tx_store x) /\ forall q w, V !! q = Some w -> same_page x x' q.

(** Page [p] may change, but keeps its leaf on disk, which a guard may have read. *)
Record only_page (V : gmap Z view) (x x' : TxSt) (p : Z) : Prop := {
  op_addr : disk_addr x' p = disk_addr x p;
  op_io : st_io (tx_store x') = st_io (tx_store x);
  op_others : forall q w, q <> p -> V !! q = Some w -> same_page x x' q;
  op_kept : forall l, kept (lock_manager x') p = Some l ->
    kept (lock_manager x) p = Some l \/
    exists addr, disk_addr x p = Some addr /\ get_page (E := QSError) (st_io (tx_store x)) addr = Ok l }.

(** The records of [ks] are the top of the page in the buffer; a page on disk has none. *)
Definition page_stack (x : TxSt) (p : Z) (ks : list bytes) : Prop :=
  ks = [] \/ exists i m, place (st_map (tx_store x)) p = Some (NMiniPage i) /\ mini (E := QSError) x i = Ok m /\ stacked (layout m) ks.

Lemma same_page_trans x y z q : same_page x y q -> same_page y z q -> same_page x z q.
Proof. intros (A1 & A2 & A3) (B1 & B2 & B3). split_and!; [congruence..|]. intros j Hj. rewrite B3, A3; [done|done|by rewrite A1]. Qed.

Lemma same_pages_trans V x y z : same_pages V x y -> same_pages V y z -> same_pages V x z.
Proof. intros [A1 A2] [B1 B2]. split; [congruence|]. intros q w Hw. eapply same_page_trans; eauto. Qed.

Lemma same_page_addr x x' q : same_page x x' q -> disk_addr x' q = disk_addr x q.
Proof.
  intros (A1 & _ & A3). unfold disk_addr. rewrite A1. destruct (place (st_map (tx_store x)) q) as [[addr|j]|] eqn:E; [done| |done]. by rewrite (A3 j).
Qed.

Lemma same_page_stack x x' q ks : same_page x x' q -> page_stack x q ks -> page_stack x' q ks.
Proof.
  intros (A1 & _ & A3) [->|(i & m & H1 & H2 & H3)]; [by left|]. right. exists i, m. rewrite A1, (A3 i H1). done.
Qed.

Lemma only_page_trans V x y z p : only_page V x y p -> only_page V y z p -> only_page V x z p.
Proof.
  intros [A1 A2 A3 A4] [B1 B2 B3 B4]. split; [congruence..| |].
  - intros q w Hne Hw. eapply same_page_trans; eauto.
  - intros l Hl. destruct (B4 l Hl) as [Hy|(addr & H1 & H2)]; [by apply A4|]. right. exists addr. rewrite <-A1, <-A2. done.
Qed.

Lemma same_only V x x' p v : V !! p = Some v -> same_pages V x x' -> only_page V x x' p.
Proof.
  intros Hv [A1 A2]. split; [by eapply same_page_addr, A2|done|intros q w _; apply A2|]. intros l Hl. left.
  destruct (A2 p v Hv) as (_ & <- & _). done.
Qed.

Lemma same_pages_insert V x x' p v v' : V !! p = Some v -> same_pages (<[p := v']> V) x x' -> same_pages V x x'.
Proof.
  intros Hv [A1 A2]. split; [done|]. intros q w Hw. destruct (decide (q = p)) as [->|Hne]; [apply (A2 p v'), lookup_insert_eq|].
  apply (A2 q w). by rewrite lookup_insert_ne.
Qed.

(** * Running the parts of the state *)

Definition set_lm (lm : LM) (x : TxSt) : TxSt :=
  let s := tx_store x in
  mkTxSt (set_store (mkStore (st_cache s) (table lm) (st_io s) (st_wal s)) (db x)) (locks lm) (Tx.txn_id x)
    (wal_entry_kind x) (undo_log x) (Tx.state x).

Lemma on_locks_run {A} (f : stM LM QSError A) x lm' r :
  f (lm_of x) = (lm', r) -> on_locks f x = (set_lm lm' x, r).
Proof. unfold on_locks, lm_of. by intros ->. Qed.

Lemma set_tree_same x : set_db (set_tree (inner_nodes (db x)) (db x)) x = x.
Proof. by destruct x as [[]]. Qed.

Lemma traverse_run x a key :
  tree_repr (inner_nodes (db x)) a ->
  exists res, on_tree (read_traverse_leaf key) x = (x, Ok res) /\ page res = aroute a key.
Proof.
  intros Ht. destruct (traverse_abs _ _ key Ht) as (res & E & Hp). exists res. split; [|done].
  unfold on_tree. rewrite E. by rewrite set_tree_same.
Qed.

(** A change of locks that keeps the places and the leaves of the guards. *)
Record locks_step (lm lm' : LM) : Prop := {
  ls_inv : lock_inv lm';
  ls_len : length (MapTable.indirection_arr (table lm')) = length (MapTable.indirection_arr (table lm));
  ls_place : forall p, 0 <= p -> place (table lm') p = place (table lm) p }.

Lemma holds_locks wr x a V lm' :
  holds wr x a V -> locks_step (lm_of x) lm' ->
  (forall p v l, V !! p = Some v -> kept (locks lm') p = Some l ->
     kept (lock_manager x) p = Some l \/
     match place (st_map (tx_store x)) p with
     | Some (NMiniPage _) => covered l v
     | Some (NLeaf addr) => get_page (E := QSError) (st_io (tx_store x)) addr = Ok l
     | None => False
     end) ->
  holds wr (set_lm lm' x) a V.
Proof.
  intros [Ht Hl Hd Hp Ha Hr Hda] [S1 S2 S3] Hk. cbn [table lm_of] in S2, S3.
  assert (forall p v, V !! p = Some v -> place (table lm') p = place (st_map (tx_store x)) p) as Hpl.
  { intros p v Hv. apply S3. by eapply Hd. }
  split; cbn [set_lm tx_store db set_store inner_nodes store st_map st_cache st_io st_wal lock_manager].
  - exact Ht.
  - destruct lm'. exact S1.
  - intros p v Hv. rewrite S2. by eapply Hd.
  - intros p v Hv. destruct (Hp p v Hv) as [node [Hn Hnode]]. exists node. split; [by rewrite <-Hn; eapply Hpl|].
    specialize (fun l => Hk p v l Hv). rewrite Hn in Hk. destruct node as [addr|i]; swap 1 2.
    + destruct Hnode as (Hi & m & d & H1 & H2 & H3 & H4 & H5). split; [done|]. exists m, d. split_and!; try done.
      intros l Hkl. by destruct (Hk l Hkl) as [?|?]; [apply H5|].
    + destruct Hnode as (d & H1 & H2 & H3 & H5). exists d. split_and!; try done.
      intros l Hkl. destruct (Hk l Hkl) as [?|H]; [by apply H5|].
      change (st_io (tx_store (set_lm lm' x))) with (st_io (tx_store x)) in *. congruence.
  - intros p q i j v w Hne Hv Hw. rewrite (Hpl p v Hv), (Hpl q w Hw). by apply (Ha p q i j v w).
  - destruct Hr as (R1 & R2 & R3 & R4 & R5). split_and!; try done.
    intros p v i Hv. cbn [set_lm tx_store db set_store store st_map]. rewrite (Hpl p v Hv). by apply (R5 p v).
  - assert (forall p v, V !! p = Some v -> disk_addr (set_lm lm' x) p = disk_addr x p) as Hsame.
    { intros p v Hv. unfold disk_addr. cbn [set_lm tx_store db set_store store st_map]. by rewrite (Hpl p v Hv). }
    intros p q v w addr Hne Hv Hw. rewrite (Hsame p v Hv), (Hsame q w Hw). by apply (Hda p q v w).
Qed.

(** ** Handles *)

(** The guard of a page names its place. *)
Lemma guard_place x p s :
  lock_inv (lm_of x) -> lock_manager x !! p = Some s ->
  place (st_map (tx_store x)) p = Some (PageEntry.get_ref (guard_node (guard s))).
Proof.
  intros Hl Hs. pose proof (proj2 Hl p s Hs) as Hr. destruct (page_word (lm_of x) p Hl Hr) as (w & Hw & Hh).
  unfold place. cbn [lm_of table] in Hw. rewrite Hw. cbn. f_equal. apply PageEntryFacts.loc_get_ref.
  symmetry. apply (eh_guard _ _ _ Hh). exact Hs.
Qed.

(** Storing another leaf in a guard. *)
Definition keep (p : Z) (s : LockSlot) (l : option bytes) (b : bool) (lm : LM) : LM :=
  mkLM (<[p := mkLockSlot (mkPageGuard (guard_inner (guard s)) l) b]> (locks lm)) (table lm).

Lemma keep_step lm p s l b : lock_inv lm -> locks lm !! p = Some s -> locks_step lm (keep p s l b lm).
Proof.
  intros [He Hd] Hs. split; [|done|done]. split; cbn [keep locks table].
  - intros q w Hq Hw. destruct (decide (q = p)) as [->|Hne].
    + rewrite lookup_insert_eq. pose proof (He p w Hq Hw) as Hh. rewrite Hs in Hh. destruct Hh as [H1 H2 H3 H4].
      split; [done|done|exact H3|]. intros s' [= <-]. exact (H4 s eq_refl).
    + rewrite lookup_insert_ne by done. by apply He.
  - intros q s' Hq. destruct (decide (q = p)) as [->|Hne]; [by eapply Hd|].
    rewrite lookup_insert_ne in Hq by done. by eapply Hd.
Qed.

Lemma kept_keep lm p s l b q : kept (locks (keep p s l b lm)) q = if decide (q = p) then l else kept (locks lm) q.
Proof.
  unfold kept, keep. cbn [locks]. case_decide as Hd; [subst; by rewrite lookup_insert_eq|].
  by rewrite lookup_insert_ne by done.
Qed.

(** ** Reading *)

Lemma v_get_prefix v k : v_get v (v_prefix v ++ k) = fst <$> bt_get (v_content v) k.
Proof. unfold v_get. by rewrite drop_app_length. Qed.

Lemma ensure_kept x p v i m d :
  get_page (E := QSError) (st_io (tx_store x)) (NodeMeta.leaf (header m)) = Ok d -> covered d v ->
  (forall l, kept (lock_manager x) p = Some l -> covered l v) ->
  mini (E := QSError) x i = Ok m ->
  exists l, ensure_page (E := QSError) (st_io (tx_store x)) (kept (lock_manager x) p) (NodeMeta.leaf (header m)) = Ok l /\
    covered l v /\ (kept (lock_manager x) p = Some l \/ l = d).
Proof.
  intros Hg Hd Hk _. unfold ensure_page. destruct (kept (lock_manager x) p) as [l|]; [exists l; auto|exists d; auto].
Qed.

(** A read of a page whose lock is held, and the leaf that is kept afterwards. *)
Lemma guard_get_ok wr x a V p v k s :
  holds wr x a V -> V !! p = Some v -> lock_manager x !! p = Some s ->
  exists x', guard_get p (v_prefix v ++ k) x = (x', Ok (fst <$> bt_get (v_content v) k)) /\ holds wr x' a V /\
    exists o, x' = set_lm (keep p s o (borrowed s) (lm_of x)) x /\
      forall l, o = Some l -> kept (lock_manager x) p = Some l \/
        exists addr, disk_addr x p = Some addr /\ get_page (E := QSError) (st_io (tx_store x)) addr = Ok l.
Proof.
  intros Hh Hv Hs. pose proof (guard_place x p s (h_locks _ _ _ _ Hh) Hs) as Hpl.
  destruct (h_pages _ _ _ _ Hh p v Hv) as (node & Hn & Hnode). rewrite Hn in Hpl. injection Hpl as Hnd.
  assert (kept (lock_manager x) p = pg_leaf (guard s)) as Hkp by (unfold kept; by rewrite Hs).
  unfold guard_get. run_pure x x.
  rewrite (bindS_ok _ _ x x s) by (unfold liftS, slot_of; cbn [locks]; by rewrite Hs).
  cbv zeta. rewrite <-Hnd.
  assert (forall l, (match node with NMiniPage _ => forall l', l = Some l' -> covered l' v
                     | NLeaf addr => forall l', l = Some l' -> get_page (E := QSError) (st_io (tx_store x)) addr = Ok l' end) ->
    holds wr (set_lm (keep p s l (borrowed s) (lm_of x)) x) a V) as Hfin.
  { intros l Hl. apply holds_locks; [done|by apply keep_step; [apply Hh|]|].
    intros q w l' Hw. rewrite kept_keep. case_decide as Hd; [|by left]. subst q. rewrite Hv in Hw. injection Hw as <-.
    intros ->. right. rewrite Hn. destruct node; by apply Hl. }
  destruct node as [addr|i].
  - destruct Hnode as (d & H1 & (es & Hes & Hc) & H3 & H5). rewrite Hkp in H5.
    assert (ensure_page (E := QSError) (st_io (tx_store x)) (pg_leaf (guard s)) addr = Ok d) as He.
    { unfold ensure_page. destruct (pg_leaf (guard s)) as [l|]; [by rewrite (H5 l)|done]. }
    rewrite (bindS_ok _ _ x x []) by done.
    rewrite (bindS_ok _ _ x x (fst <$> bt_get (v_content v) k)).
    2: { unfold liftS, page_get. rewrite He. cbn [mbind outcome_bind]. unfold v_prefix.
         rewrite (get_leaf _ _ _ _ Hes). by rewrite Hc. }
    rewrite (bindS_ok _ _ x x (Some d)). 2: { unfold liftS. rewrite He. done. }
    rewrite (bindS_ok _ _ x (set_lm (keep p s (Some d) (borrowed s) (lm_of x)) x) tt) by (by apply on_locks_run).
    eexists. split; [reflexivity|]. split; [apply Hfin; by intros l' [= <-]|]. eexists. split; [done|].
    intros l' [= <-]. right. exists addr. unfold disk_addr. by rewrite Hn.
  - destruct Hnode as (Hi & m & d & H1 & (es & Hes & Hc) & H3 & H4 & H5).
    destruct (ensure_kept x p v i m d) as (l & He & (ds & Hds & Hcov) & Hld); [done..|]. rewrite Hkp in He, Hld.
    rewrite (bindS_ok _ _ x x m) by (unfold liftS; by rewrite H1).
    rewrite (bindS_ok _ _ x x (fst <$> bt_get (v_content v) k)).
    2: { unfold liftS, v_prefix. rewrite (page_get_mini _ _ i m l _ _ es ds k Hes Hds He). rewrite Hc.
         destruct (bt_get (v_content v) k) as [[? ?]|] eqn:Hg; [done|]. by rewrite (Hcov k Hg). }
    assert (exists o, (prefix ← get_node_prefix m; suffix ← slice_from (v_prefix v ++ k) (length prefix);
        r ← Node.binary_search m suffix;
        match r with
        | inl _ => Ok (pg_leaf (guard s))
        | inr _ => l ← ensure_page (st_io (tx_store x)) (pg_leaf (guard s)) (NodeMeta.leaf (header m)); Ok (Some l)
        end) = Ok (E := QSError) o /\ (forall l', o = Some l' -> covered l' v) /\
        forall l', o = Some l' -> pg_leaf (guard s) = Some l' \/ l' = d) as (o & Ho & Hocov & Hod).
    { rewrite (node_prefix_ok _ _ _ _ Hes). cbn [mbind outcome_bind]. unfold v_prefix. rewrite strip_prefix.
      cbn [mbind outcome_bind]. destruct (bt_get (content es) k) as [[v0 t0]|] eqn:Hg.
      - destruct (search_found (E := QSError) _ _ _ _ _ _ _ Hes Hg) as (j & sl & -> & _). cbn [mbind outcome_bind].
        exists (pg_leaf (guard s)). split; [done|]. split; [|by left]. intros l' El. apply H5. by rewrite Hkp.
      - destruct (search_absent (E := QSError) _ _ _ _ _ Hes Hg) as (j & -> & _). cbn [mbind outcome_bind].
        rewrite He. cbn [mbind outcome_bind]. exists (Some l). split; [done|]. split; [intros l' [= <-]; by exists ds|by intros l' [= <-]]. }
    rewrite (bindS_ok _ _ x x o) by (unfold liftS; by rewrite Ho).
    rewrite (bindS_ok _ _ x (set_lm (keep p s o (borrowed s) (lm_of x)) x) tt) by (by apply on_locks_run).
    eexists. split; [reflexivity|]. split; [by apply Hfin|]. eexists. split; [done|]. intros l' El. rewrite Hkp.
    destruct (Hod l' El) as [?| ->]; [by left|]. right. exists (NodeMeta.leaf (header m)). unfold disk_addr. by rewrite Hn, H1.
Qed.

(** The state between two operations: no handle is out. *)
Definition ready (wr : bool) (x : TxSt) (a : abs_tree) (V : gmap Z view) : Prop :=
  holds wr x a V /\ idle (lm_of x).

(** What an operation that writes no log leaves alone. *)
Definition same_log (x x' : TxSt) : Prop :=
  st_wal (tx_store x') = st_wal (tx_store x) /\ undo_log x' = undo_log x /\ Tx.txn_id x' = Tx.txn_id x /\
  wal_entry_kind x' = wal_entry_kind x /\ Tx.state x' = Tx.state x /\
  wal_leaf_checkpoint_threshold (db x') = wal_leaf_checkpoint_threshold (db x) /\
  wal_global_record_threshold (db x') = wal_global_record_threshold (db x) /\
  wal_global_byte_threshold (db x') = wal_global_byte_threshold (db x) /\
  wal_checkpoint_requested (db x') = wal_checkpoint_requested (db x).

(** What every operation inside a transaction leaves alone. *)
Definition same_txn (x x' : TxSt) : Prop :=
  Tx.txn_id x' = Tx.txn_id x /\ wal_entry_kind x' = wal_entry_kind x /\ Tx.state x' = Tx.state x.

Lemma same_log_txn x x' : same_log x x' -> same_txn x x'.
Proof. intros (_ & _ & ? & ? & ? & _). done. Qed.

#[global] Instance same_txn_preorder : PreOrder same_txn.
Proof. split; unfold same_txn; [done|]. intros x y z (? & ? & ?) (? & ? & ?). split_and!; congruence. Qed.

#[global] Instance same_log_preorder : PreOrder same_log.
Proof.
  split; unfold same_log; [done|].
  intros x y z (?&?&?&?&?&?&?&?&?) (?&?&?&?&?&?&?&?&?). split_and!; congruence.
Qed.

Lemma read_locked wr x a V p v :
  ready wr x a V -> V !! p = Some v ->
  exists lm' s, on_locks (get_or_acquire_read_lock p) x = (set_lm lm' x, Ok s) /\
    locks lm' !! p = Some s /\ ready wr (set_lm lm' x) a V /\ same_pages V x (set_lm lm' x).
Proof.
  intros [Hh Hi] Hv. destruct (read_lock_taken (lm_of x) p) as (lm' & s & Hrun & Hinv & Hs & Hold & Hnew & Hoth & Hlen & Hpl);
    [apply Hh|by apply (h_dom _ _ _ _ Hh p v)|]. exists lm', s. split; [by apply on_locks_run|]. split; [done|].
  assert (forall q s', locks lm' !! q = Some s' -> lock_manager x !! q = Some s' \/
    (lock_manager x !! q = None /\ borrowed s' = false /\ pg_leaf (guard s') = None)) as Hq.
  { intros q s' Hs'. destruct (decide (q = p)) as [->|Hne]; [|left; by rewrite <-Hoth].
    rewrite Hs in Hs'. injection Hs' as <-. destruct (lock_manager x !! p) as [s0|] eqn:E0.
    - left. by rewrite (Hold s0 E0).
    - right. split; [done|]. by apply Hnew. }
  assert (forall q, kept (locks lm') q = kept (lock_manager x) q) as Hkp.
  { intros q. unfold kept. destruct (decide (q = p)) as [->|Hne]; [|by rewrite Hoth]. rewrite Hs.
    destruct (Hq p s Hs) as [->|(-> & _ & Hn)]; [done|exact Hn]. }
  split; [|split; [done|]; intros q w Hw; split; [by apply Hpl, (h_dom _ _ _ _ Hh q w)|by split; [apply Hkp|]]].
  split.
  - apply holds_locks; [done|by split|]. intros q w l _ Hk. left. by rewrite <-Hkp.
  - intros q s' Hs'. destruct (Hq q s' Hs') as [H|(_ & H & _)]; [|done]. by eapply Hi.
Qed.

Lemma get_ok wr x a V key :
  ready wr x a V -> routed a V key ->
  exists x', tx_get key x = (x', Ok (spec_get a V key)) /\ ready wr x' a V /\ same_log x x' /\
    only_page V x x' (aroute a key) /\ forall ks, page_stack x (aroute a key) ks -> page_stack x' (aroute a key) ks.
Proof.
  intros Hr (v & k & Hv & ->). destruct (traverse_run x a (v_prefix v ++ k)) as (res & Ht & Hp); [apply Hr|].
  unfold tx_get. rewrite (bindS_ok _ _ _ _ _ Ht), Hp.
  destruct (read_locked wr x a V _ v Hr Hv) as (lm' & s & Hl & Hs & [Hh' Hi'] & Hsp). run Hl.
  destruct (guard_get_ok wr _ a V _ v k s Hh' Hv Hs) as (x' & Hg & Hh'' & o & -> & Ho). set (p := aroute a (v_prefix v ++ k)) in *.
  eexists. split; [|split; [split; [exact Hh''|]|split; [done|split]]].
  - rewrite Hg. unfold spec_get. fold p. rewrite Hv. cbn. by rewrite v_get_prefix.
  - intros q s' Hq. cbn [lm_of set_lm lock_manager locks keep] in Hq. destruct (decide (q = p)) as [->|Hne].
    + rewrite lookup_insert_eq in Hq. injection Hq as <-. cbn [borrowed]. exact (Hi' _ s Hs).
    + rewrite lookup_insert_ne in Hq by done. exact (Hi' q s' Hq).
  - apply (only_page_trans V x (set_lm lm' x)); [by eapply same_only|]. split; [done|done| |].
    + intros q w Hne Hw. split; [done|]. split; [|done].
      transitivity (kept (locks (keep p s o (borrowed s) (lm_of (set_lm lm' x)))) q); [done|]. by rewrite kept_keep, decide_False by done.
    + intros l Hl'. apply Ho. transitivity (kept (locks (keep p s o (borrowed s) (lm_of (set_lm lm' x)))) p); [|done].
      by rewrite kept_keep, decide_True by done.
  - intros ks Hks. apply (same_page_stack x (set_lm lm' x)) in Hks; [|by eapply Hsp]. exact Hks.
Qed.

(** C4. A read in a transaction is a lookup in the abstract store: whether the page is in the
    buffer or on disk, [tx_get] returns the value the key's leaf has for it, and afterwards
    the state stands for the same store; log and undo log are untouched. *)
Theorem tx_get_refines (wr : bool) (x : TxSt) (a : abs_tree) (V : gmap Z view) (key : bytes) :
  ready wr x a V -> routed a V key ->
  exists x', tx_get key x = (x', Ok (spec_get a V key)) /\ ready wr x' a V /\ same_log x x'.
Proof. intros Hr Hk. destruct (get_ok wr x a V key Hr Hk) as (x' & ? & ? & ? & _). by exists x'. Qed.

(** ** Holding a page for writing *)

Record held (wr : bool) (x : TxSt) (a : abs_tree) (V : gmap Z view) (p : Z) (s : LockSlot) : Prop := {
  hd_holds : holds wr x a V;
  hd_slot : lock_manager x !! p = Some s;
  hd_write : is_write (guard s) = true;
  hd_borrowed : borrowed s = true;
  hd_others : forall q s', q <> p -> lock_manager x !! q = Some s' -> borrowed s' = false }.

Lemma write_locked wr x a V p v :
  ready wr x a V -> V !! p = Some v ->
  exists lm' s, on_locks (get_upgrade_or_acquire_write_lock p) x = (set_lm lm' x, Ok tt) /\
    held wr (set_lm lm' x) a V p s /\ place (table lm') p = place (st_map (tx_store x)) p /\ same_pages V x (set_lm lm' x).
Proof.
  intros [Hh Hi] Hv. destruct (write_lock_taken (lm_of x) p) as (lm' & Hrun & [Hinv (s & Hs & Hw & Hb & Hold & Hnew) Hoth Hlen Hpl]);
    [apply Hh|by apply (h_dom _ _ _ _ Hh p v)|by apply Hi|]. cbn [lm_of locks] in *.
  assert (forall q, kept (locks lm') q = kept (lock_manager x) q) as Hkp.
  { intros q. unfold kept. destruct (decide (q = p)) as [->|Hne]; [|by rewrite Hoth].
    rewrite Hs. cbn. destruct (lock_manager x !! p) as [s0|] eqn:E0; [by rewrite (Hold s0 eq_refl)|by rewrite Hnew]. }
  exists lm', s. split; [by apply on_locks_run|]. split; [|split; [by apply Hpl, (h_dom _ _ _ _ Hh p v)|]].
  2: { split; [done|]. intros q w Hq. split; [by apply Hpl, (h_dom _ _ _ _ Hh q w)|]. split; [apply Hkp|done]. }
  split; [|done..|].
  - apply holds_locks; [done|by split|]. intros q w l _ Hk. left. by rewrite <-Hkp.
  - intros q s' Hne Hs'. cbn [set_lm lock_manager] in Hs'. rewrite Hoth in Hs' by done. by eapply Hi.
Qed.

Section held_page.
Context (wr : bool) (x : TxSt) (a : abs_tree) (V : gmap Z view) (p : Z) (v : view) (s : LockSlot).
Context (Hd : held wr x a V p s) (Hv : V !! p = Some v).

Lemma node_of_run node : place (st_map (tx_store x)) p = Some node -> node_of p x = (x, Ok node).
Proof.
  intros Hp. rewrite (guard_place x p s (h_locks _ _ _ _ (hd_holds _ _ _ _ _ _ Hd)) (hd_slot _ _ _ _ _ _ Hd)) in Hp.
  injection Hp as <-. unfold node_of. run_pure x x.
  unfold liftS, write_node, slot_of. cbn [locks]. rewrite (hd_slot _ _ _ _ _ _ Hd). cbn [mbind outcome_bind].
  pose proof (hd_write _ _ _ _ _ _ Hd) as Hw. unfold is_write, guard_node in *. by destruct (guard_inner (guard s)).
Qed.

(** The bytes behind the page, wherever they are. *)
Definition page_bytes (y : TxSt) (q : Z) : outcome QSError bytes :=
  match place (st_map (tx_store y)) q with
  | Some (NMiniPage i) => mini y i
  | Some (NLeaf addr) => get_page (st_io (tx_store y)) addr
  | None => Halt Undefined
  end.

Lemma page_bytes_shows : exists m, page_bytes x p = Ok m /\ shows m v.
Proof.
  destruct (h_pages _ _ _ _ (hd_holds _ _ _ _ _ _ Hd) p v Hv) as (node & Hn & Hnode). unfold page_bytes. rewrite Hn.
  destruct node; [destruct Hnode as (d & ? & ? & _); eauto|destruct Hnode as (_ & m & d & ? & ? & _); eauto].
Qed.

Lemma page_bytes_mini i :
  place (st_map (tx_store x)) p = Some (NMiniPage i) -> exists m, mini (E := QSError) x i = Ok m /\ shows m v.
Proof.
  intros Hpl. destruct page_bytes_shows as (m & Hm & Hs). unfold page_bytes in Hm. rewrite Hpl in Hm. by exists m.
Qed.

Lemma existing_value_ok k : existing_value p (v_prefix v ++ k) x = (x, Ok (fst <$> bt_get (v_content v) k)).
Proof.
  destruct page_bytes_shows as (m & Hm & es & Hes & Hc).
  destruct (h_pages _ _ _ _ (hd_holds _ _ _ _ _ _ Hd) p v Hv) as (node & Hn & _).
  unfold existing_value. rewrite (bindS_ok _ _ _ _ _ (node_of_run node Hn)), (bindS_ok _ _ x x x) by done.
  unfold page_bytes in Hm. rewrite Hn in Hm. unfold liftS.
  destruct node; rewrite Hm; cbn [mbind outcome_bind]; unfold v_prefix; rewrite (get_leaf _ _ _ _ Hes); by rewrite Hc.
Qed.

Lemma drop_run :
  exists x', on_locks (drop_handle p) x = (x', Ok tt) /\ ready wr x' a V /\ same_log x x' /\
    db x' = db (set_lm (lm_of x) x) /\ same_pages V x x'.
Proof.
  set (lm' := keep p s (pg_leaf (guard s)) false (lm_of x)). exists (set_lm lm' x).
  assert (drop_handle p (lm_of x) = (lm', Ok tt)) as Hrun.
  { unfold drop_handle. rewrite (bindS_ok _ _ (lm_of x) (lm_of x) (lm_of x)) by done.
    rewrite (bindS_ok _ _ (lm_of x) (lm_of x) s)
      by (unfold liftS, expect; cbn [lm_of locks]; by rewrite (hd_slot _ _ _ _ _ _ Hd)).
    rewrite (bindS_ok _ _ (lm_of x) (lm_of x) tt) by (unfold liftS, rassert; by rewrite (hd_borrowed _ _ _ _ _ _ Hd)).
    unfold set_slot, lm', keep. by destruct (guard s). }
  assert (forall q, kept (locks lm') q = kept (lock_manager x) q) as Hkp.
  { intros q. unfold lm'. rewrite kept_keep. case_decide; [subst|done]. unfold kept. by rewrite (hd_slot _ _ _ _ _ _ Hd). }
  split; [by apply on_locks_run|]. split; [|split; [done|split; [done|split; [done|]]]].
  2: { intros q w Hw. split; [done|]. split; [apply Hkp|done]. }
  split.
  - apply holds_locks; [apply Hd|apply keep_step; [apply Hd|apply Hd]|].
    intros q w l _ Hk. left. by rewrite <-Hkp.
  - intros q s' Hq. cbn [lm_of set_lm lock_manager locks lm' keep] in Hq. destruct (decide (q = p)) as [->|Hne].
    + rewrite lookup_insert_eq in Hq. by injection Hq as <-.
    + rewrite lookup_insert_ne in Hq by done. by apply (hd_others _ _ _ _ _ _ Hd q s').
Qed.
End held_page.

(** ** Changing one mini-page *)

(** A state that differs from [x] in page [p] only, which is now the mini-page [i] and has
    the view [v']. *)
Record moved (x x' : TxSt) (V : gmap Z view) (p i : Z) (v' : view) : Prop := {
  mv_tree : inner_nodes (db x') = inner_nodes (db x);
  mv_io : st_io (tx_store x') = st_io (tx_store x);
  mv_locks : lock_inv (lm_of x');
  mv_len : length (MapTable.indirection_arr (st_map (tx_store x'))) =
    length (MapTable.indirection_arr (st_map (tx_store x)));
  mv_place : forall q, 0 <= q -> q <> p -> place (st_map (tx_store x')) q = place (st_map (tx_store x)) q;
  mv_at : page_at x' p v' (NMiniPage i);
  mv_disk : disk_addr x' p = disk_addr x p;
  mv_kept : forall q, q <> p -> kept (lock_manager x') q = kept (lock_manager x) q;
  mv_others : forall q j w, q <> p -> V !! q = Some w -> place (st_map (tx_store x)) q = Some (NMiniPage j) ->
    (i + 512 <= j \/ j + 512 <= i) /\ mini (E := QSError) x' j = mini x j }.

Lemma holds_moved wr wr' x x' a V p i v v' :
  holds wr x a V -> V !! p = Some v -> moved x x' V p i v' -> ring_holds wr' x' V ->
  holds wr' x' a (<[p := v']> V).
Proof.
  intros Hh Hv [M1 M2 M3 M4 M5 M6 Md M7 M8] Hr. pose proof (h_dom _ _ _ _ Hh) as Hdom.
  assert (forall q w, <[p := v']> V !! q = Some w -> exists w0, V !! q = Some w0) as Hin.
  { intros q w. destruct (decide (q = p)) as [->|Hne]; [by exists v|rewrite lookup_insert_ne by done; by exists w]. }
  assert (forall q w, q <> p -> V !! q = Some w -> place (st_map (tx_store x')) q = place (st_map (tx_store x)) q) as Hpl.
  { intros q w Hne Hw. apply M5; [by eapply Hdom|done]. }
  split.
  - rewrite M1. apply Hh.
  - exact M3.
  - intros q w Hw. rewrite M4. destruct (Hin q w Hw). by eapply Hdom.
  - intros q w Hw. destruct (decide (q = p)) as [->|Hne].
    { rewrite lookup_insert_eq in Hw. injection Hw as <-. eauto. }
    rewrite lookup_insert_ne in Hw by done. destruct (h_pages _ _ _ _ Hh q w Hw) as (node & Hn & Hnode).
    exists node. split; [by rewrite (Hpl q w)|]. rewrite M2, M7 by done. destruct node as [addr|j]; [done|].
    by rewrite (proj2 (M8 q j w Hne Hw Hn)).
  - intros q r j k w1 w2 Hne Hw1 Hw2 H1 H2. destruct (decide (q = p)) as [->|Hqp].
    + rewrite (proj1 M6) in H1. injection H1 as <-. rewrite lookup_insert_ne in Hw2 by done.
      rewrite (Hpl r w2) in H2 by done. by apply (M8 r k w2).
    + rewrite lookup_insert_ne in Hw1 by done. rewrite (Hpl q w1) in H1 by done. destruct (decide (r = p)) as [->|Hrp].
      * rewrite (proj1 M6) in H2. injection H2 as <-. destruct (M8 q j w1 Hqp Hw1 H1) as [[?|?] _]; auto.
      * rewrite lookup_insert_ne in Hw2 by done. rewrite (Hpl r w2) in H2 by done. by apply (h_apart _ _ _ _ Hh q r j k w1 w2).
  - destruct Hr as (R1 & R2 & R3 & R4 & R5). split_and!; [done..|]. intros q w j Hw.
    destruct (Hin q w Hw) as [w0 Hw0]. by apply (R5 q w0).
  - assert (forall q w, <[p := v']> V !! q = Some w -> disk_addr x' q = disk_addr x q) as Hsame.
    { intros q w Hw. destruct (decide (q = p)) as [->|Hne]; [done|]. rewrite lookup_insert_ne in Hw by done.
      unfold disk_addr. rewrite (Hpl q w) by done. destruct (place (st_map (tx_store x)) q) as [[addr|j]|] eqn:Hq; [done| |done].
      by rewrite (proj2 (M8 q j w Hne Hw Hq)). }
    intros q r w1 w2 addr Hne Hw1 Hw2. rewrite (Hsame q w1 Hw1), (Hsame r w2 Hw2).
    destruct (Hin q w1 Hw1) as [u1 H1], (Hin r w2 Hw2) as [u2 H2]. by apply (h_disk _ _ _ _ Hh q r u1 u2).
Qed.

(** Two pages of the ring that do not overlap. *)
Lemma node_at_other b i j m :
  0 <= i -> 0 <= j -> i + 512 <= j \/ j + 512 <= i -> (Z.to_nat (8 * i) + 4096 <= length (backing b))%nat ->
  length m = 4096%nat -> node_at (E := QSError) (set_node_at i m b) j 4096 = node_at b j 4096.
Proof.
  intros Hi Hj Hap Hr Hm. unfold node_at, set_node_at, set_backing, read_raw. cbn [backing].
  assert (in_range (backing b) (Z.to_nat (8 * i)) (length m)) as Hin by (unfold in_range; lia).
  rewrite (length_splice _ _ _ Hin). case_match; [|done]. f_equal. apply slice_splice_ne; [done|]. lia.
Qed.

Lemma node_at_same b i m :
  (Z.to_nat (8 * i) + 4096 <= length (backing b))%nat -> length m = 4096%nat ->
  node_at (E := QSError) (set_node_at i m b) i 4096 = Ok m.
Proof.
  intros Hr Hm. unfold node_at, set_node_at, set_backing. cbn [backing].
  assert (in_range (backing b) (Z.to_nat (8 * i)) (length m)) as Hin by (unfold in_range; lia).
  rewrite read_raw_ok by (unfold in_range; rewrite (length_splice _ _ _ Hin); lia).
  rewrite <-Hm. by rewrite slice_splice_same.
Qed.

Lemma node_at_range b i m :
  node_at (E := QSError) b i 4096 = Ok m ->
  (Z.to_nat (8 * i) + 4096 <= length (backing b))%nat /\ length m = 4096%nat.
Proof.
  unfold node_at, read_raw. destruct (Nat.leb_spec (Z.to_nat (8 * i) + 4096) (length (backing b))) as [H|]; [|done].
  intros [= <-]. split; [done|]. apply length_slice. exact H.
Qed.

(** The address of a page after its bytes were replaced. *)
Lemma set_mini_disk x p i m m' :
  place (st_map (tx_store x)) p = Some (NMiniPage i) -> mini (E := QSError) x i = Ok m ->
  length m' = length m -> NodeMeta.leaf (header m') = NodeMeta.leaf (header m) ->
  disk_addr (set_mini i m' x) p = disk_addr x p.
Proof.
  intros Hpl Hm Hl Ha. destruct (node_at_range _ _ _ Hm) as [Hr Hlm].
  unfold disk_addr. change (st_map (tx_store (set_mini i m' x))) with (st_map (tx_store x)). rewrite Hpl, Hm.
  assert (mini (E := QSError) (set_mini i m' x) i = Ok m') as -> by (apply node_at_same; [done|lia]). by rewrite Ha.
Qed.

(** Marking a page hot changes neither its records nor its address. *)
Lemma hot_page m lo up es :
  leaf_repr m lo up es ->
  let m' := set_header m (NodeMeta.mark_hot (header m)) in
  leaf_repr m' lo up es /\ NodeMeta.leaf (header m') = NodeMeta.leaf (header m) /\ length m' = length m /\
  free_space m' = free_space m /\ layout m' = layout m.
Proof.
  intros Hm m'. unfold m', NodeMeta.mark_hot, NodeMeta.hot_bit.
  pose proof (NodeMetaFacts.set_flag_wf _ (header_wf m) 13 ltac:(lia) true) as Hwf.
  pose proof (NodeMetaFacts.set_flag_record_count _ (header_wf m) 13 ltac:(lia) true) as Hrc.
  destruct (leaf_set_header m lo up es _ Hm Hwf Hrc) as (H1 & H2 & H3). split_and!; [done| |done| |].
  - rewrite H2. apply (NodeMetaFacts.set_flag_leaf _ (header_wf m)). lia.
  - exact (set_header_free_space m lo up es _ Hm Hwf Hrc).
  - exact (layout_set_header m lo up es _ Hm Hwf Hrc).
Qed.

Lemma shows_sorted m v : shows m v -> bt_sorted (v_content v).
Proof. intros (es & Hes & <-). apply content_sorted, Hes. Qed.

Lemma v_put_prefix v k val : v_put (v_prefix v ++ k) val v = mkView (v_lo v) (v_up v) (bt_alter (put_value val) (v_content v) k).
Proof. unfold v_put. by rewrite drop_app_length. Qed.

Lemma covered_put d v key val : bt_sorted (v_content v) -> covered d v -> covered d (v_put key val v).
Proof.
  intros Hs (ds & Hds & Hc). exists ds. split; [exact Hds|]. intros k. cbn [v_put v_content].
  rewrite bt_get_alter by done. case_match; [done|apply Hc..].
Qed.

Section write.
Context (wr : bool) (x : TxSt) (a : abs_tree) (V : gmap Z view) (p : Z) (v : view) (s : LockSlot).
Context (Hd : held wr x a V p s) (Hv : V !! p = Some v).

(** A put that fits: no new record without room, no value of another length. *)
Definition fits_page (y : TxSt) (q : Z) (w : view) (k val : bytes) : Prop :=
  (forall v0 t0, bt_get (v_content w) k = Some (v0, t0) -> length val = length v0) /\
  (forall m, page_bytes y q = Ok m -> (new_cost (v_content w) (k, val) <= free_space m)%nat).

(** Writing another version of the page over it. *)
Lemma change_mini i m m' v' :
  place (st_map (tx_store x)) p = Some (NMiniPage i) -> mini (E := QSError) x i = Ok m ->
  length m' = length m -> shows m' v' -> NodeMeta.leaf (header m') = NodeMeta.leaf (header m) ->
  (forall d, get_page (E := QSError) (st_io (tx_store x)) (NodeMeta.leaf (header m)) = Ok d \/ kept (lock_manager x) p = Some d ->
     covered d v -> covered d v') ->
  held wr (set_mini i m' x) a (<[p := v']> V) p s.
Proof.
  intros Hpl Hm Hlen Hsh' Ha Hcov. pose proof (hd_holds _ _ _ _ _ _ Hd) as Hh.
  destruct (h_pages _ _ _ _ Hh p v Hv) as (node & Hn & Hnode). rewrite Hpl in Hn. injection Hn as <-.
  destruct Hnode as (Hi & m0 & d & H1 & Hsh & H3 & H4 & H5). rewrite Hm in H1. apply Ok_inj in H1 as <-.
  destruct (node_at_range _ _ _ Hm) as [Hr Hl].
  split; [|apply Hd..]. apply (holds_moved wr wr x _ a V p i v); [done|done| |].
  - split; [done|done|apply Hh|done|done| | |done|].
    2: by apply (set_mini_disk x p i m m').
    + split; [done|]. split; [done|]. exists m', d. split_and!; [apply node_at_same; [done|lia]|done| |by apply Hcov; [left|]|].
      * change (st_io (tx_store (set_mini i m' x))) with (st_io (tx_store x)). by rewrite Ha.
      * intros l Hl'. apply Hcov; [by right|by apply H5].
    + intros q j w Hne Hw Hq. assert (i + 512 <= j \/ j + 512 <= i) as Hap by (by apply (h_apart _ _ _ _ Hh p q i j v w)).
      split; [done|]. destruct (h_pages _ _ _ _ Hh q w Hw) as (nq & Hnq & Hnode'). rewrite Hq in Hnq. injection Hnq as <-.
      apply node_at_other; [lia|apply Hnode'|done|done|lia].
  - destruct (h_ring _ _ _ _ Hh) as (R1 & R2 & R3 & R4 & R5). split_and!; try done.
    cbn [set_mini set_tx_store tx_store db set_db set_store store st_cache set_node_at set_backing backing buff_size].
    rewrite length_splice; [done|]. unfold in_range. lia.
Qed.

Lemma change_mini_only i m m' :
  place (st_map (tx_store x)) p = Some (NMiniPage i) -> mini (E := QSError) x i = Ok m ->
  length m' = length m -> NodeMeta.leaf (header m') = NodeMeta.leaf (header m) ->
  only_page V x (set_mini i m' x) p.
Proof.
  intros Hpl Hm Hlen Ha. pose proof (hd_holds _ _ _ _ _ _ Hd) as Hh. destruct (node_at_range _ _ _ Hm) as [Hr Hl].
  destruct (h_pages _ _ _ _ Hh p v Hv) as (np & Hnp & Hnode). rewrite Hpl in Hnp. injection Hnp as <-.
  split; [by apply (set_mini_disk x p i m m')|done| |by left].
  intros q w Hne Hw. split; [done|]. split; [done|]. intros j Hj.
  destruct (h_pages _ _ _ _ Hh q w Hw) as (nq & Hnq & Hnode'). rewrite Hj in Hnq. injection Hnq as <-.
  apply node_at_other; [apply Hnode|apply Hnode'|by apply (h_apart _ _ _ _ Hh p q i j v w)|done|lia].
Qed.

Lemma put_mini_ok i k val :
  place (st_map (tx_store x)) p = Some (NMiniPage i) -> fits_page x p v k val ->
  exists x', try_put_mini i (v_prefix v ++ k) val x = (x', Ok Success) /\
    held wr x' a (<[p := v_put (v_prefix v ++ k) val v]> V) p s /\ same_log x x' /\
    place (st_map (tx_store x')) p = Some (NMiniPage i) /\ only_page V x x' p /\
    forall ks, bt_get (v_content v) k = None -> page_stack x p ks -> page_stack x' p (k :: ks).
Proof.
  intros Hpl [Hlen Hroom]. destruct (page_bytes_mini wr x a V p v s Hd Hv i Hpl) as (m & H1 & Hsh).
  pose proof (shows_sorted m v Hsh) as Hso. destruct Hsh as (es & Hes & Hc).
  specialize (Hroom m). unfold page_bytes in Hroom. rewrite Hpl in Hroom. specialize (Hroom H1). rewrite <-Hc in Hlen, Hroom.
  destruct (put_room m _ _ es k val Hes Hlen Hroom) as (m1 & es1 & Hrun & Hm1 & Hc1 & Hl1 & _ & Ha1).
  destruct (hot_page m1 _ _ es1 Hm1) as (Hm2 & Ha2 & Hl2 & _ & Hlay).
  set (m2 := set_header m1 (NodeMeta.mark_hot (header m1))) in *.
  assert (mini (E := QSError) (set_mini i m2 x) i = Ok m2) as Hmini.
  { destruct (node_at_range _ _ _ H1) as [? ?]. apply node_at_same; [done|lia]. }
  exists (set_mini i m2 x). split_and!; [| |done|done| |].
  - unfold try_put_mini. rewrite H1. unfold page_try_put, v_prefix. rewrite (try_put_strip m _ _ es k val Hes), Hrun. done.
  - apply (change_mini i m); [done|done|lia| |by rewrite Ha2, Ha1|].
    + exists es1. rewrite v_put_prefix. split; [done|]. cbn [v_content]. by rewrite Hc1, Hc.
    + intros d _. by apply covered_put.
  - apply (change_mini_only i m); [done|done|lia|by rewrite Ha2, Ha1].
  - intros ks Hnew Hst. right. exists i, m2. split; [done|]. split; [done|]. rewrite Hlay. rewrite <-Hc in Hnew.
    unfold new_cost in Hroom. cbn [fst] in Hroom. rewrite Hnew in Hroom.
    apply (put_stacked m _ _ es k val m1 ks Hes Hnew Hroom Hrun).
    destruct Hst as [->|(i' & m' & Hi' & Hm' & Hst)]; [done|]. rewrite Hpl in Hi'. injection Hi' as <-.
    rewrite H1 in Hm'. by apply Ok_inj in Hm' as <-.
Qed.
End write.

(** ** Moving a page into the buffer *)

(** The ring can hand out a page. *)
Definition can_alloc (wr : bool) (y : TxSt) : Prop :=
  let b := st_cache (tx_store y) in
  ~ (wr = true /\ tail b = head b) /\ exists b' i, alloc NodeSize.LeafPage b = Ok (b', Some i).

(** [b'] is the ring after the page [i] was cut from [b]. *)
Record allocated (wr wr' : bool) (b b' : MiniPageBuffer) (i : Z) : Prop := {
  al_backing : backing b' = backing b;
  al_size : buff_size b' = buff_size b;
  al_free : free_lists b' = free_lists b;
  al_index : 0 <= i /\ i + 512 <= buff_size b';
  al_ring : ring_ok wr' b';
  al_used : forall w, occupied wr b w \/ i <= w < i + 512 -> occupied wr' b' w;
  al_new : forall w, i <= w < i + 512 -> ~ occupied wr b w }.

Definition set_cache (b : MiniPageBuffer) (x : TxSt) : TxSt :=
  set_tx_store (mkStore b (st_map (tx_store x)) (st_io (tx_store x)) (st_wal (tx_store x))) x.

Lemma alloc_page_ok wr x V :
  ring_holds wr x V -> can_alloc wr x ->
  exists wr' i b', alloc_page NodeSize.LeafPage x = (set_cache b' x, Ok (Some i)) /\
    allocated wr wr' (st_cache (tx_store x)) b' i.
Proof.
  intros (R1 & R2 & R3 & R4 & R5) (Hfull & b' & i & Ha). set (b := st_cache (tx_store x)) in *.
  assert (alloc NodeSize.LeafPage b = Ok (alloc_loop SPIN_RETRIES 512 b)) as Hal.
  { unfold alloc, pop_freelist. rewrite R4. reflexivity. }
  rewrite Ha in Hal. destruct (alloc_loop SPIN_RETRIES 512 b) as [b1 o1] eqn:Ha'. injection Hal as <- <-.
  destruct (alloc_loop_ring wr b 512 b' (Some i)) as (H1 & H2 & H3 & (wr' & H4 & H5) & H6 & H7 & H8); [done|lia|done|done|].
  pose proof (alloc_loop_free_lists _ _ _ _ _ Ha') as H9.
  exists wr', i, b'. split; [unfold alloc_page; fold b; by rewrite Ha|]. split; try done. by rewrite H8.
Qed.

(** The leaf is copied over the new mini-page. *)
Lemma copy_leaf_run y i m0 d lo up es :
  mini (E := QSError) y i = Ok m0 -> length d = 4096%nat -> leaf_repr d lo up es ->
  on_mini i no_err
    (_ ← write_raw 0 d;
     m ← getS;
     _ ← liftS (rassert (2 <=? record_count m)%nat);
     mark_hot_page) y = (set_mini i (set_header d (NodeMeta.mark_hot (header d))) y, Ok tt).
Proof.
  intros Hm Hl Hes. destruct (node_at_range _ _ _ Hm) as [_ Hl0]. unfold on_mini. rewrite Hm.
  assert (splice m0 0 d = d) as Hsp.
  { unfold splice. rewrite take_0, drop_ge by lia. apply app_nil_r. }
  rewrite (bindS_ok _ _ m0 d tt).
  2: { rewrite <-Hsp at 2. apply write_raw_ok. unfold in_range. lia. }
  run_pure d d. rewrite (bindS_ok _ _ d d tt).
  2: { unfold liftS, rassert. rewrite (leaf_count _ _ _ _ Hes). by rewrite (proj2 (Nat.leb_le _ _)) by lia. }
  unfold mark_hot_page. by rewrite (modify_header_ok _ d (NodeMeta.mark_hot (header d))) by done.
Qed.

Section promote.
Context (wr : bool) (x : TxSt) (a : abs_tree) (V : gmap Z view) (p : Z) (v : view) (s : LockSlot).
Context (Hd : held wr x a V p s) (Hv : V !! p = Some v).

(** The leaf is read once; the guard keeps it. *)
Lemma load_guard_leaf_ok addr y :
  lock_manager y = lock_manager x -> st_io (tx_store y) = st_io (tx_store x) ->
  place (st_map (tx_store x)) p = Some (NLeaf addr) ->
  exists d, load_guard_leaf p addr y = (set_lm (keep p s (Some d) (borrowed s) (lm_of y)) y, Ok d) /\
    get_page (E := QSError) (st_io (tx_store x)) addr = Ok d /\ shows d v /\ NodeMeta.leaf (header d) = addr.
Proof.
  intros Ey Eio Hpl. destruct (h_pages _ _ _ _ (hd_holds _ _ _ _ _ _ Hd) p v Hv) as (node & Hn & Hnode).
  rewrite Hpl in Hn. injection Hn as <-. destruct Hnode as (d & H1 & H2 & H3 & H5). exists d. split; [|done].
  unfold load_guard_leaf. run_pure y y.
  rewrite (bindS_ok _ _ y y s) by (unfold liftS, slot_of; cbn [locks]; rewrite Ey; by rewrite (hd_slot _ _ _ _ _ _ Hd)).
  rewrite (bindS_ok _ _ y y (mkPageGuard (guard_inner (guard s)) (Some d), d)).
  2: { unfold liftS, load_leaf. unfold kept in H5. rewrite (hd_slot _ _ _ _ _ _ Hd) in H5. cbn in H5. rewrite Eio.
       destruct (guard s) as [g [l|]]; cbn [pg_leaf guard_inner] in *; [by rewrite (H5 l eq_refl)|by rewrite H1]. }
  cbv beta iota. rewrite (bindS_ok _ _ y (set_lm (keep p s (Some d) (borrowed s) (lm_of y)) y) tt) by (by apply on_locks_run). done.
Qed.

(** The state after a promotion: the ring has cut page [i], the table names it, and the
    leaf [d] was copied there. *)
Context (addr i : Z) (d : bytes) (wr' : bool) (b' : MiniPageBuffer) (lm' : LM).
Context (Hpl : place (st_map (tx_store x)) p = Some (NLeaf addr)).
Context (Hal : allocated wr wr' (st_cache (tx_store x)) b' i).
Context (Hg : get_page (E := QSError) (st_io (tx_store x)) addr = Ok d) (Hsh : shows d v) (Hla : NodeMeta.leaf (header d) = addr).
Let m' := set_header d (NodeMeta.mark_hot (header d)).
Let x' := set_mini i m' (set_lm lm' (set_cache b' x)).

Lemma promoted_room : (Z.to_nat (8 * i) + 4096 <= length (backing b'))%nat.
Proof.
  destruct (h_ring _ _ _ _ (hd_holds _ _ _ _ _ _ Hd)) as (_ & R2 & _). destruct Hal as [B1 B2 _ [? ?] _ _ _].
  rewrite B1, R2, <-B2. lia.
Qed.

Lemma promoted_mini : mini (E := QSError) x' i = Ok m' /\ length m' = 4096%nat /\ free_space m' = free_space d /\
  shows m' v /\ NodeMeta.leaf (header m') = addr.
Proof.
  destruct Hsh as (es & Hes & Hc). destruct (hot_page d _ _ es Hes) as (Hm' & Ha' & Hl' & Hf' & _). fold m' in Hm', Ha', Hl', Hf'.
  pose proof (get_page_length _ _ _ Hg). split_and!; [apply node_at_same; [exact promoted_room|lia]|lia|done|by exists es|congruence].
Qed.

Context (S1 : lock_inv lm')
  (S2 : length (MapTable.indirection_arr (table lm')) = length (MapTable.indirection_arr (st_map (tx_store x))))
  (S3 : place (table lm') p = Some (NMiniPage i))
  (S4 : forall q, 0 <= q -> q <> p -> place (table lm') q = place (st_map (tx_store x)) q)
  (S5 : locks lm' !! p = Some (mkLockSlot (mkPageGuard (GWrite p (PageEntry.new_write_locked i)) (Some d)) (borrowed s)))
  (S6 : forall q, q <> p -> locks lm' !! q = lock_manager x !! q).

Lemma promoted_moved : moved x x' V p i v.
Proof.
  pose proof (hd_holds _ _ _ _ _ _ Hd) as Hh. destruct promoted_mini as (Hmini & Hlen & _ & Hsh' & Ha').
  assert (covered d v) as Hcov by (destruct Hsh as (es & Hes & Hc); exists es; rewrite Hc; by split).
  split; [done|done|by destruct lm'|exact S2|exact S4| | | |].
  - split; [exact S3|]. split.
    { destruct (h_ring _ _ _ _ Hh) as (_ & _ & R3 & _). destruct Hal as [_ B2 _ [? ?] _ _ _]. lia. }
    exists m', d. split_and!; [exact Hmini|done| |done|].
    + change (st_io (tx_store x')) with (st_io (tx_store x)). by rewrite Ha'.
    + intros l. unfold kept. change (lock_manager x') with (locks lm'). rewrite S5. by intros [= <-].
  - unfold disk_addr. change (st_map (tx_store x')) with (table lm'). by rewrite S3, Hpl, Hmini, Ha'.
  - intros q Hq. unfold kept. change (lock_manager x') with (locks lm'). by rewrite S6.
  - intros q j w Hq Hw Hj. destruct (h_pages _ _ _ _ Hh q w Hw) as (nq & Hnq & Hnode). rewrite Hj in Hnq.
    injection Hnq as <-. destruct (h_ring _ _ _ _ Hh) as (_ & _ & _ & _ & R5). destruct (R5 q w j Hw Hj) as [Hje Hocc].
    assert (i + 512 <= j \/ j + 512 <= i) as Hap.
    { destruct (decide (i + 512 <= j \/ j + 512 <= i)) as [?|Hno]; [done|]. exfalso.
      apply (al_new _ _ _ _ _ Hal (Z.max i j)); [lia|]. apply Hocc. lia. }
    split; [done|]. change (mini x' j) with (node_at (E := QSError) (set_node_at i m' b') j 4096).
    rewrite node_at_other; [|apply Hal|apply Hnode|done|exact promoted_room|done].
    unfold mini, node_at. by rewrite (al_backing _ _ _ _ _ Hal).
Qed.

Lemma promoted_ring : ring_holds wr' x' V.
Proof.
  pose proof (hd_holds _ _ _ _ _ _ Hd) as Hh. destruct (h_ring _ _ _ _ Hh) as (R1 & R2 & R3 & R4 & R5).
  destruct promoted_mini as (_ & Hlen & _). pose proof promoted_room. destruct Hal as [B1 B2 B3 [B4 B4'] B5 B6 _]. split_and!.
  - exact B5.
  - change (length (splice (backing b') (Z.to_nat (8 * i)) m') = Z.to_nat (8 * buff_size b')).
    rewrite length_splice, B1, R2, B2 by (unfold in_range; lia). done.
  - change (buff_size b' <= 2 ^ 48). lia.
  - change (free_lists b' !! NodeSize.index NodeSize.LeafPage = Some usize_max). by rewrite B3.
  - intros q w j Hw Hj. change (j + 512 <= buff_size b' /\ forall w0, j <= w0 < j + 512 -> occupied wr' b' w0).
    change (place (table lm') q = Some (NMiniPage j)) in Hj. destruct (decide (q = p)) as [->|Hne].
    + rewrite S3 in Hj. injection Hj as <-. split; [done|]. intros w0 Hw0. apply B6. by right.
    + rewrite S4 in Hj by (done || by apply (h_dom _ _ _ _ Hh q w)). destruct (R5 q w j Hw Hj) as [Hje Hocc].
      split; [lia|]. intros w0 Hw0. apply B6. left. by apply Hocc.
Qed.

Lemma promoted_held : exists s', held wr' x' a V p s'.
Proof.
  eexists. split; [|exact S5|done|apply Hd|].
  - rewrite <-(insert_id V p v Hv).
    apply (holds_moved wr wr' x _ a V p i v); [apply Hd|done|exact promoted_moved|exact promoted_ring].
  - intros q s' Hq Hs'. change (locks lm' !! q = Some s') in Hs'. rewrite S6 in Hs' by done.
    by apply (hd_others _ _ _ _ _ _ Hd q s').
Qed.
End promote.

Lemma promote_ok wr x a V p v s addr :
  held wr x a V p s -> V !! p = Some v -> place (st_map (tx_store x)) p = Some (NLeaf addr) -> can_alloc wr x ->
  exists wr' x' s' i, promote_leaf_to_mini_page p addr x = (x', Ok tt) /\ held wr' x' a V p s' /\ same_log x x' /\
    place (st_map (tx_store x')) p = Some (NMiniPage i) /\
    (forall d m, page_bytes x p = Ok d -> page_bytes x' p = Ok m -> free_space m = free_space d) /\ only_page V x x' p.
Proof.
  intros Hd Hv Hpl Hca. pose proof (hd_holds _ _ _ _ _ _ Hd) as Hh.
  destruct (alloc_page_ok wr x V (h_ring _ _ _ _ Hh) Hca) as (wr' & i & b' & Hrun & Hal).
  destruct (load_guard_leaf_ok wr x a V p v s Hd Hv addr (set_cache b' x) eq_refl eq_refl Hpl) as (d & Hld & Hg & Hsh & Hla).
  destruct (keep_step (lm_of x) p s (Some d) (borrowed s)) as [K1 K2 K3]; [apply Hh|apply Hd|].
  assert (0 <= i < 2 ^ 48) as Hi.
  { destruct (h_ring _ _ _ _ Hh) as (_ & _ & R3 & _). destruct Hal as [_ B2 _ [? ?] _ _ _]. lia. }
  destruct (set_mini_page_ok (keep p s (Some d) (borrowed s) (lm_of x)) p
      (mkLockSlot (mkPageGuard (guard_inner (guard s)) (Some d)) (borrowed s)) i)
    as (lm3 & Hset & S1 & S2 & S3 & S4 & S5); [exact K1|cbn; by rewrite lookup_insert_eq|apply Hd|done|].
  assert (locks lm3 !! p = Some (mkLockSlot (mkPageGuard (GWrite p (PageEntry.new_write_locked i)) (Some d)) (borrowed s))) as S6
    by (rewrite S5; by rewrite lookup_insert_eq).
  assert (forall q, q <> p -> locks lm3 !! q = lock_manager x !! q) as S7.
  { intros q Hq. rewrite S5. cbn [keep locks lm_of]. by rewrite !lookup_insert_ne. }
  destruct (promoted_held wr x a V p v s Hd Hv addr i d wr' b' lm3 Hpl Hal Hg Hsh Hla S1 S2 S3 S4 S6 S7) as [s' Hd'].
  destruct (promoted_mini wr x a V p v s Hd addr i d wr' b' lm3 Hal Hg Hsh Hla) as (Hmini & _ & Hf & _).
  pose proof (promoted_moved wr x a V p v s Hd addr i d wr' b' lm3 Hpl Hal Hg Hsh Hla S1 S2 S3 S4 S6 S7) as Hmv.
  eexists wr', _, s', i. split_and!; [|exact Hd'|done|exact S3| |].
  - unfold promote_leaf_to_mini_page. rewrite (bindS_ok _ _ _ _ _ Hrun), (bindS_ok _ _ (set_cache b' x) (set_cache b' x) i), (bindS_ok _ _ _ _ _ Hld) by done.
    rewrite (bindS_ok _ _ _ (set_lm lm3 (set_cache b' x)) tt) by (exact (on_locks_run _ (set_lm (keep p s (Some d) (borrowed s) (lm_of x)) (set_cache b' x)) _ _ Hset)).
    destruct Hsh as (es & Hes & _). eapply copy_leaf_run; [|by eapply get_page_length|exact Hes].
    apply read_raw_ok. exact (promoted_room wr x a V p s Hd i wr' b' Hal).
  - intros d0 m1 Hd0 Hm1. unfold page_bytes in *. rewrite Hpl, Hg in Hd0. injection Hd0 as <-.
    change (st_map _) with (table lm3) in Hm1. rewrite S3, Hmini in Hm1. by injection Hm1 as <-.
  - split; [exact (mv_disk _ _ _ _ _ _ Hmv)|done| |].
    + intros q w Hne Hw. split; [apply (mv_place _ _ _ _ _ _ Hmv); [by apply (h_dom _ _ _ _ Hh q w)|done]|].
      split; [by apply (mv_kept _ _ _ _ _ _ Hmv)|]. intros j Hj. by apply (mv_others _ _ _ _ _ _ Hmv q j w).
    + intros l Hl. right. exists addr. unfold disk_addr. rewrite Hpl. split; [done|].
      unfold kept in Hl. change (lock_manager (set_mini _ _ (set_lm lm3 (set_cache b' x)))) with (locks lm3) in Hl. rewrite S6 in Hl. by injection Hl as <-.
Qed.

(** ** The whole write of a page *)

Lemma try_put_with_promotion_ok wr x a V p v s k val :
  held wr x a V p s -> V !! p = Some v -> fits_page x p v k val ->
  (forall addr, place (st_map (tx_store x)) p = Some (NLeaf addr) -> can_alloc wr x) ->
  exists wr' x' s', try_put_with_promotion p (v_prefix v ++ k) val x = (x', Ok Success) /\
    held wr' x' a (<[p := v_put (v_prefix v ++ k) val v]> V) p s' /\ same_log x x' /\ only_page V x x' p /\
    (exists i, place (st_map (tx_store x')) p = Some (NMiniPage i)) /\
    forall ks, bt_get (v_content v) k = None -> page_stack x p ks -> page_stack x' p (k :: ks).
Proof.
  intros Hd Hv Hfit Hca. destruct (h_pages _ _ _ _ (hd_holds _ _ _ _ _ _ Hd) p v Hv) as (node & Hn & _).
  unfold try_put_with_promotion. rewrite (bindS_ok _ _ _ _ _ (node_of_run _ _ _ _ _ _ Hd node Hn)).
  destruct node as [addr|i].
  - destruct (promote_ok wr x a V p v s addr Hd Hv Hn (Hca addr Hn)) as (wr' & x1 & s1 & i & Hrun & Hd1 & Hlog & Hn1 & Hfree & Hop1).
    run Hrun. rewrite (bindS_ok _ _ x1 x1 i).
    2: { unfold mini_of. by rewrite (bindS_ok _ _ _ _ _ (node_of_run _ _ _ _ _ _ Hd1 _ Hn1)). }
    destruct (put_mini_ok wr' x1 a V p v s1 Hd1 Hv i k val Hn1) as (x2 & Hput & Hd2 & Hlog2 & Hn2 & Hop2 & Hst2).
    { destruct Hfit as [H1 H2]. split; [done|]. intros m Hm.
      destruct (page_bytes_shows wr x a V p v s Hd Hv) as (d & Hd' & _). rewrite (Hfree d m Hd' Hm). by apply H2. }
    exists wr', x2, s1. split_and!; [done|done|by transitivity x1|by eapply only_page_trans|by exists i|].
    intros ks Hnew [->|(i' & m & Hi' & _)]; [apply Hst2; [done|by left]|congruence].
  - destruct (put_mini_ok wr x a V p v s Hd Hv i k val Hn Hfit) as (x2 & Hput & Hd2 & Hlog2 & Hn2 & Hop2 & Hst2).
    exists wr, x2, s. split_and!; [done|done|done|done|by exists i|done].
Qed.

(** ** Logging *)

Definition set_wal (w : WalState) (x : TxSt) : TxSt :=
  set_tx_store (mkStore (st_cache (tx_store x)) (st_map (tx_store x)) (st_io (tx_store x)) w) x.

Lemma held_wal wr x a V p s w : held wr x a V p s -> held wr (set_wal w x) a V p s.
Proof. intros [[H1 H2 H3 H4 H5 H6 H7] ? ? ? ?]. split; [by split|done..]. Qed.
Lemma held_undo wr x a V p s l : held wr x a V p s -> held wr (set_undo l x) a V p s.
Proof. intros [[H1 H2 H3 H4 H5 H6 H7] ? ? ? ?]. split; [by split|done..]. Qed.

(** The records of a page with their full keys, as recovery has them. *)
Definition v_map (v : view) : entry_map := (fun e => (v_prefix v ++ e.1, e.2.1)) <$> v_content v.

Lemma v_map_get v k : bt_get (v_map v) (v_prefix v ++ k) = fst <$> bt_get (v_content v) k.
Proof.
  unfold v_map. induction (v_content v) as [|[k' [v' t']] c IH]; [done|]. rewrite fmap_cons. cbn [bt_get fst snd].
  change (kcmp (v_prefix v ++ k) (v_prefix v ++ k')) with (bytes_cmp (v_prefix v ++ k) (v_prefix v ++ k')).
  rewrite bytes_cmp_app. change (kcmp k k') with (bytes_cmp k k'). by destruct (bytes_cmp k k').
Qed.

(** Room in the log for [rs] about page [p], with every checkpoint threshold still ahead. *)
Record log_room (x : TxSt) (gs : list group) (p : Z) (rs : list WalRecord) : Prop := {
  lg_inv : wal_inv (st_wal (tx_store x)) gs;
  lg_ok : Forall record_ok rs;
  lg_size : 32 + total_size gs + log_size rs <= u64_max;
  lg_leaf : count_of p gs + Z.of_nat (length rs) < wal_leaf_checkpoint_threshold (db x);
  lg_records : total_records (st_wal (tx_store x)) + Z.of_nat (length rs) < wal_global_record_threshold (db x);
  lg_bytes : 32 + total_size gs + log_size rs < wal_global_byte_threshold (db x);
  lg_request : wal_checkpoint_requested (db x) = false }.

Lemma log_room_same x x' gs p rs : same_log x x' -> log_room x gs p rs -> log_room x' gs p rs.
Proof.
  intros (E1 & _ & _ & _ & _ & E6 & E7 & E8 & E9) [L1 L2 L3 L4 L5 L6 L7].
  split; rewrite ?E1, ?E6, ?E7, ?E8, ?E9; assumption.
Qed.

(** The log grows by one record. *)
Lemma append_room x gs p r rs :
  log_room x gs p (r :: rs) -> Wal.page_id r = p ->
  exists w, append_record r (st_wal (tx_store x)) = Ok w /\ records w = records (st_wal (tx_store x)) ++ [r] /\
    log_room (set_wal w x) (gs ++ [(p, [r])]) p rs.
Proof.
  intros [L1 L2 L3 L4 L5 L6 L7] <-. apply Forall_cons_iff in L2 as [Hr Hrs]. cbn [log_size foldr length] in *.
  assert (0 <= log_size rs) as Hls by (unfold log_size; clear; induction rs as [|r rs IH]; cbn [foldr]; unfold append_size in *; lia).
  fold (log_size rs) in *.
  destruct (append_inv _ gs r L1 Hr) as (w & Hw & Hinv & _); [lia|]. exists w.
  assert (records w = records (st_wal (tx_store x)) ++ [r]) as Hrec.
  { by rewrite (inv_records _ _ Hinv), (inv_records _ _ L1), records_snoc. }
  split; [done|]. split; [done|]. split; [done|done| | | | |done].
  - rewrite total_size_snoc. fold (append_size r). lia.
  - unfold count_of. rewrite page_groups_snoc. change (db (set_wal w x)) with (set_store (mkStore (st_cache (tx_store x)) (st_map (tx_store x)) (st_io (tx_store x)) w) (db x)).
    cbn [set_store wal_leaf_checkpoint_threshold fst]. rewrite decide_True by done. rewrite fmap_app. simpl. rewrite sum_list_snoc.
    unfold count_of in L4. lia.
  - change (total_records w + Z.of_nat (length rs) < wal_global_record_threshold (db x)).
    rewrite (inv_total _ _ Hinv), Hrec, length_app. rewrite (inv_total _ _ L1) in L5. simpl. lia.
  - change (32 + total_size (gs ++ [(Wal.page_id r, [r])]) + log_size rs < wal_global_byte_threshold (db x)).
    rewrite total_size_snoc. fold (append_size r). lia.
Qed.

(** [.expect] on an append that succeeds. *)
Lemma on_wal_run x f w : f (st_wal (tx_store x)) = Ok w -> on_wal f x = (set_wal w x, Ok tt).
Proof. intros E. unfold on_wal. by rewrite E. Qed.

(** What a put appends and what it takes to undo it. *)
Definition put_records (x : TxSt) (p : Z) (v : view) (key val : bytes) : list WalRecord :=
  write_records p (v_lo v) (v_up v) (Tx.txn_id x) (v_map v) key (Some val).
Definition put_undo (p : Z) (v : view) (key : bytes) : UndoAction :=
  match v_get v key with Some old => Restore p key old | None => Remove p key end.

Lemma leaf_snapshot_ok wr x a V p v s i :
  held wr x a V p s -> V !! p = Some v -> place (st_map (tx_store x)) p = Some (NMiniPage i) ->
  exists addr, leaf_snapshot p x = (x, Ok (addr, v_lo v, v_up v)).
Proof.
  intros Hd Hv Hn. destruct (page_bytes_shows wr x a V p v s Hd Hv) as (m & Hm & es & Hes & _).
  unfold page_bytes in Hm. rewrite Hn in Hm. exists (NodeMeta.leaf (header m)).
  unfold leaf_snapshot. rewrite (bindS_ok _ _ _ _ _ (node_of_run _ _ _ _ _ _ Hd _ Hn)), (bindS_ok _ _ x x x) by done.
  unfold liftS. rewrite Hm. cbn [mbind outcome_bind]. by rewrite (fence_bounds_ok _ _ _ _ Hes).
Qed.

(** With the thresholds ahead there is nothing to checkpoint. *)
Lemma no_checkpoint iter x gs p :
  log_room x gs p [] -> maybe_checkpoint_leaf p x = (x, Ok tt) /\ maybe_global_checkpoint iter x = (x, Ok tt).
Proof.
  intros [L1 _ _ L4 L5 L6 L7]. cbn [length log_size foldr] in *. split.
  - unfold maybe_checkpoint_leaf. run_pure x x.
    destruct (should_checkpoint_page _ p _) eqn:E; [|done]. apply (should_checkpoint_count _ gs) in E; [lia|done|].
    unfold count_of in L4. lia.
  - unfold maybe_global_checkpoint. run_pure x x.
    assert (checkpoint_candidate iter x = None) as ->; [|done].
    unfold checkpoint_candidate, global_checkpoint_candidate. pose proof (total_bytes_bounds _ _ L1).
    rewrite (proj2 (Z.ltb_lt _ _)), (proj2 (Z.ltb_lt _ _)) by lia. cbn [andb]. by rewrite L7.
Qed.

(** The two records a put writes, its undo entry, and then the checkpoint of the leaf. *)
Definition redo_record (x : TxSt) (p : Z) (v : view) (key val : bytes) : WalRecord :=
  mkWalRecord p key (v_lo v) (v_up v) Redo (Tx.txn_id x) (Put val).
Definition undo_record (x : TxSt) (p : Z) (v : view) (key : bytes) (old : option bytes) : WalRecord :=
  mkWalRecord p key (v_lo v) (v_up v) Undo (Tx.txn_id x) (write_op old).

Lemma put_records_eq x p v key val old :
  bt_get (v_map v) key = old -> put_records x p v key val = [redo_record x p v key val; undo_record x p v key old].
Proof. intros H. unfold put_records, write_records. by rewrite H. Qed.

Lemma append_put_run wr x a V p v s i w1 w2 (old : option bytes) key val :
  held wr x a V p s -> (exists w, V !! p = Some w /\ v_lo w = v_lo v /\ v_up w = v_up v) ->
  place (st_map (tx_store x)) p = Some (NMiniPage i) -> wal_entry_kind x = Redo -> v_get v key = old ->
  append_record (redo_record x p v key val) (st_wal (tx_store x)) = Ok w1 ->
  append_record (undo_record x p v key old) w1 = Ok w2 ->
  let x3 := set_undo (undo_log x ++ [put_undo p v key]) (set_wal w2 (set_wal w1 x)) in
  append_wal_put p key val old x = maybe_checkpoint_leaf p x3 /\ held wr x3 a V p s.
Proof.
  intros Hd (w & Hw & Elo & Eup) Hn Hk Hold H1 H2 x3. split; [|by apply held_undo, held_wal, held_wal].
  destruct (leaf_snapshot_ok wr x a V p w s i Hd Hw Hn) as (addr & Hsn). rewrite Elo, Eup in Hsn. unfold append_wal_put.
  rewrite (bindS_ok _ _ _ _ _ Hsn), (bindS_ok _ _ x x x) by done. rewrite Hk.
  rewrite (bindS_ok _ _ x (set_wal w1 x) tt) by (by apply on_wal_run).
  rewrite (bindS_ok _ _ _ (set_wal w2 (set_wal w1 x)) tt) by (destruct old; by apply on_wal_run).
  rewrite (bindS_ok _ _ _ x3 tt); [done|]. unfold x3, put_undo. rewrite Hold. by destruct old.
Qed.

(** The end of a put: both records, the undo entry, no checkpoint, and the handle is dropped. *)
Lemma log_put_ok iter wr x a V p v s i gs (old : option bytes) key val :
  held wr x a V p s -> (exists w, V !! p = Some w /\ v_lo w = v_lo v /\ v_up w = v_up v) ->
  place (st_map (tx_store x)) p = Some (NMiniPage i) -> wal_entry_kind x = Redo ->
  v_get v key = old -> bt_get (v_map v) key = old -> log_room x gs p (put_records x p v key val) ->
  exists x', finally p (_ ← append_wal_put p key val old; maybe_global_checkpoint iter) x = (x', Ok tt) /\
    ready wr x' a V /\ records (st_wal (tx_store x')) = records (st_wal (tx_store x)) ++ put_records x p v key val /\
    undo_log x' = undo_log x ++ [put_undo p v key] /\ same_txn x x' /\
    (exists gs', wal_inv (st_wal (tx_store x')) gs') /\ same_pages V x x'.
Proof.
  intros Hd Hw Hn Hk Hold Hmap Hlog. rewrite (put_records_eq _ _ _ _ _ _ Hmap) in Hlog |- *.
  destruct (append_room x gs p _ _ Hlog eq_refl) as (w1 & Ha1 & Hr1 & Hlog1).
  destruct (append_room _ _ p _ _ Hlog1 eq_refl) as (w2 & Ha2 & Hr2 & Hlog2).
  destruct (append_put_run wr x a V p v s i w1 w2 old key val) as [Hrun Hd3]; [done..|].
  set (x3 := set_undo _ _) in *.
  assert (log_room x3 ((gs ++ [(p, _)]) ++ [(p, _)]) p []) as Hlog3 by (destruct Hlog2; by split).
  destruct (no_checkpoint iter x3 _ p Hlog3) as [Hc1 Hc2].
  destruct (drop_run wr x3 a V p s Hd3) as (x' & Hdrop & Hready & Hsl & _ & Hsp). pose proof Hsl as (E1 & E2 & _).
  exists x'. unfold finally. rewrite (bindS_ok _ _ x x3 tt) by (by rewrite Hrun). rewrite Hc2, Hdrop. split_and!; [done|done| |done| | |exact Hsp].
  - rewrite E1. change (records w2 = records (st_wal (tx_store x)) ++ [redo_record x p v key val; undo_record x p v key old]).
    rewrite Hr2. change (st_wal (tx_store (set_wal w1 x))) with w1. by rewrite Hr1, <-(assoc_L (++)).
  - exact (same_log_txn _ _ Hsl).
  - rewrite E1. eexists. exact (lg_inv _ _ _ _ Hlog3).
Qed.

(** ** The put *)

Section put.
Context (iter : gmap Z LeafWalStats -> list (Z * LeafWalStats)) (evict_fuel fuel : nat).
Context (wr : bool) (x : TxSt) (a : abs_tree) (V : gmap Z view) (key val : bytes) (v : view) (k : bytes) (gs : list group).
Let p := aroute a key.

(** A put that needs no split: the key's leaf is there and has room for the record, a leaf on
    disk finds a place in the buffer, and the log has room before the next checkpoint. *)
Record put_fits : Prop := {
  pf_view : V !! p = Some v;
  pf_key : key = v_prefix v ++ k;
  pf_page : fits_page x p v k val;
  pf_alloc : forall addr, place (st_map (tx_store x)) p = Some (NLeaf addr) -> can_alloc wr x;
  pf_kind : wal_entry_kind x = Redo;
  pf_log : log_room x gs p (put_records x p v key val) }.

(** The put up to its log records. *)
Lemma tx_put_page :
  ready wr x a V -> V !! p = Some v -> key = v_prefix v ++ k -> fits_page x p v k val ->
  (forall addr, place (st_map (tx_store x)) p = Some (NLeaf addr) -> can_alloc wr x) ->
  exists wr' x2 s2 i,
    tx_put iter evict_fuel (S fuel) key val x =
      finally p (_ ← append_wal_put p key val (v_get v key); maybe_global_checkpoint iter) x2 /\
    held wr' x2 a (<[p := v_put key val v]> V) p s2 /\ same_log x x2 /\ only_page V x x2 p /\
    place (st_map (tx_store x2)) p = Some (NMiniPage i) /\
    forall ks, bt_get (v_content v) k = None -> page_stack x p ks -> page_stack x2 p (k :: ks).
Proof.
  intros Hr Hv Hkey Hfit Hca. destruct (traverse_run x a key) as (res & Ht & Hp); [apply Hr|]. fold p in Hp.
  destruct (write_locked wr x a V p v Hr Hv) as (lm1 & s & Hlk & Hd & Hpl & Hsp).
  assert (existing_value p key (set_lm lm1 x) = (set_lm lm1 x, Ok (v_get v key))) as Hex.
  { rewrite Hkey, v_get_prefix. by apply (existing_value_ok wr _ a V p v s Hd Hv). }
  destruct (try_put_with_promotion_ok wr (set_lm lm1 x) a V p v s k val Hd Hv)
    as (wr' & x2 & s2 & Hput & Hd2 & Hsl & Hop & [i Hn2] & Hst).
  { destruct Hfit as [H1 H2]. split; [done|]. intros m Hm. apply H2. unfold page_bytes in *. by rewrite <-Hpl. }
  { intros addr Ha. apply (Hca addr). rewrite <-Hpl. exact Ha. }
  rewrite <-Hkey in Hput, Hd2. exists wr', x2, s2, i. split_and!; [|done|done| |done|].
  - unfold tx_put. rewrite (bindS_ok _ _ _ _ _ Ht), Hp, (bindS_ok _ _ _ _ _ Hlk).
    rewrite (bindS_ok _ _ _ (set_lm lm1 x) (v_get v key)) by (unfold on_error; by rewrite Hex).
    cbn [put_loop]. by rewrite (bindS_ok _ _ _ x2 Success) by (unfold on_error; by rewrite Hput).
  - eapply only_page_trans; [by eapply same_only|exact Hop].
  - intros ks Hnew Hks. apply Hst; [done|]. by apply (same_page_stack x), Hks; eapply Hsp.
Qed.

Lemma tx_put_ok :
  ready wr x a V -> put_fits ->
  exists wr' x', tx_put iter evict_fuel (S fuel) key val x = (x', Ok tt) /\
    ready wr' x' a (spec_put a key val V) /\
    records (st_wal (tx_store x')) = records (st_wal (tx_store x)) ++ put_records x p v key val /\
    undo_log x' = undo_log x ++ [put_undo p v key] /\ same_txn x x' /\
    (exists gs', wal_inv (st_wal (tx_store x')) gs') /\ only_page V x x' p /\
    forall ks, bt_get (v_content v) k = None -> page_stack x p ks -> page_stack x' p (k :: ks).
Proof.
  intros Hr [Hv Hkey Hfit Hca Hkind Hlog].
  destruct (tx_put_page Hr Hv Hkey Hfit Hca) as (wr' & x2 & s2 & i & Hrun & Hd2 & Hsl & Hop & Hn2 & Hst).
  pose proof (same_log_txn _ _ Hsl) as Htxn. pose proof Hsl as (E1 & E2 & E3 & E4 & _).
  destruct (log_put_ok iter wr' x2 a _ p v s2 i gs (v_get v key) key val Hd2)
    as (x' & Hfin & Hready & Hrec & Hundo & Htxn' & Hinv & Hsp).
  - exists (v_put key val v). split; [by rewrite lookup_insert_eq|done].
  - done.
  - by rewrite E4.
  - done.
  - rewrite Hkey, v_get_prefix. apply v_map_get.
  - unfold put_records. rewrite E3. exact (log_room_same _ _ _ _ _ Hsl Hlog).
  - exists wr', x'. unfold put_records in Hrec. rewrite E1, E3 in Hrec. rewrite E2 in Hundo. apply (same_pages_insert V x2 x' p v _ Hv) in Hsp.
    split_and!; [by rewrite Hrun| |done|done| |done| |].
    + unfold spec_put. rewrite <-(insert_id V p v Hv), alter_insert_eq, insert_insert_eq in *. exact Hready.
    + by transitivity x2.
    + eapply only_page_trans; [exact Hop|by eapply same_only].
    + intros ks Hnew Hks. eapply same_page_stack; [by eapply Hsp|by apply Hst].
Qed.

(** C1. A put in a store that holds its invariant is the update of the abstract store, when the
    key's page has room for the new record or has the key with a value of the same length, the
    page is in the buffer or the ring has a place for it, and no leaf or global checkpoint is
    due ([put_fits]).  It succeeds, the key's leaf has the new value and nothing else changed.
    The log has gained exactly the redo record and the undo record with the old value that
    recovery replays, and the undo log the action that reverts the write. *)
Theorem tx_put_refines :
  ready wr x a V -> put_fits ->
  exists wr' x', tx_put iter evict_fuel (S fuel) key val x = (x', Ok tt) /\
    ready wr' x' a (spec_put a key val V) /\
    records (st_wal (tx_store x')) = records (st_wal (tx_store x)) ++ put_records x p v key val /\
    undo_log x' = undo_log x ++ [put_undo p v key].
Proof. intros Hr Hf. destruct (tx_put_ok Hr Hf) as (wr' & x' & ? & ? & ? & ? & _). by exists wr', x'. Qed.
End put.

(** * A fresh store *)

Definition root_leaf : bytes := fst (format_leaf (E := unit) 0 NodeSize.LeafPage 0 (zeros 4096)).
Definition fresh_io : IoEngine := write_page (IoEngine.open []) 0 root_leaf.
Definition empty_view : view := mkView LOWER_FENCE UPPER_FENCE [].

Lemma root_leaf_repr : leaf_repr root_leaf LOWER_FENCE UPPER_FENCE [] /\ length root_leaf = 4096%nat.
Proof.
  destruct (format_leaf_leaf (E := unit) (zeros 4096) 0 NodeSize.LeafPage 0) as (m' & Hrun & Hm' & _);
    [reflexivity|lia|lia|]. unfold root_leaf. rewrite Hrun. split; [exact Hm'|].
  assert (length (fst (format_leaf (E := unit) 0 NodeSize.LeafPage 0 (zeros 4096))) = 4096%nat) as Hl
    by (vm_compute; reflexivity). by rewrite Hrun in Hl.
Qed.

Definition fresh_buffer (lg : Z) : MiniPageBuffer :=
  mkBuffer (replicate (Z.to_nat (2 ^ lg)) Byte.x00) (2 ^ lg / 8) (replicate 7 usize_max) 0 0.

Lemma buffer_new_ok {E} lg : 3 <= lg < 64 -> Buffer.new (E := E) lg = Ok (fresh_buffer lg).
Proof.
  intros Hlg. assert (2 ^ lg = 8 * 2 ^ (lg - 3)) as Hp.
  { change 8 with (2 ^ 3). rewrite <-Z.pow_add_r by lia. f_equal. lia. }
  assert (2 ^ lg / 8 = 2 ^ (lg - 3)) as Hdiv by (rewrite Hp, Z.mul_comm; by apply Z.div_mul).
  unfold Buffer.new, rassert. rewrite (proj2 (Z.leb_le _ _)), (proj2 (Z.ltb_lt _ _)) by lia. cbn [andb mbind outcome_bind].
  rewrite (proj2 (Z.eqb_eq (2 ^ lg mod 8) 0)) by (rewrite Hp, Z.mul_comm; by apply Z.mod_mul). cbn [mbind outcome_bind].
  cbv zeta. rewrite Hdiv, (proj2 (Z.eqb_eq _ 0)); [cbn [mbind outcome_bind]; unfold fresh_buffer; by rewrite Hdiv|].
  replace (2 ^ (lg - 3) - 1) with (Z.ones (lg - 3)) by (rewrite Z.ones_equiv; lia).
  rewrite Z.land_ones by lia. apply Z.mod_same. lia.
Qed.

Lemma startup_fresh {E} n :
  (0 < n)%nat -> startup (E := E) n [] [] =
    Ok (mkDb (MapTable.mk (<[0%nat := PageEntry.leaf 0]> (replicate n 0)) 1 n) ∅ fresh_io (Wal.open [])).
Proof.
  intros Hn. unfold startup.
  assert (ensure_root_leaf_on_disk (E := E) (IoEngine.open []) = Ok fresh_io) as -> by (vm_compute; reflexivity).
  cbn [mbind outcome_bind]. unfold replay_wal. cbn [wal]. assert (records_grouped (Wal.open []) = []) as -> by (vm_compute; reflexivity).
  cbn [mbind outcome_bind map_table]. unfold MapTable.init_leaf_entry. cbn [MapTable.new MapTable.cap].
  by rewrite (proj2 (Nat.eqb_neq n 0)) by lia.
Qed.

Definition fresh_db (b : Z) (n : nat) (lg lt rt bt next : Z) : QuickStep :=
  mkQuickStep (set_leaf_root 0 (mkBPTree ∅ b 0 0 1 (2 ^ 32 - 1)))
    (mkStore (fresh_buffer lg) (MapTable.mk (<[0%nat := PageEntry.leaf 0]> (replicate n 0)) 1 n) fresh_io (Wal.open []))
    lt rt bt false next.

Lemma qs_new_fresh b n lg lt rt bt :
  0 < b < 2 ^ 20 -> (0 < n)%nat -> 3 <= lg < 64 -> qs_new b n lg lt rt bt [] [] = Ok (fresh_db b n lg lt rt bt 1).
Proof.
  intros Hb Hn Hlg. unfold qs_new. rewrite buffer_new_ok by done. cbn [mbind outcome_bind].
  unfold BPTree.new. rewrite (proj2 (Z.leb_gt _ _)), (proj2 (Z.eqb_neq _ _)) by lia. cbn [mbind outcome_bind].
  rewrite startup_fresh by done. done.
Qed.

Lemma fresh_table_held n : table_held ∅ (MapTable.mk (<[0%nat := PageEntry.leaf 0]> (replicate n 0)) 1 n).
Proof.
  split; [|by intros ? ? ?]. intros p w _ Hw. rewrite lookup_empty. cbn [MapTable.indirection_arr] in Hw.
  assert (w = PageEntry.leaf 0 \/ w = 0) as Hc.
  { apply list_lookup_insert_Some in Hw as [(_ & -> & _)|(_ & Hw)]; [by left|].
    apply lookup_replicate in Hw as [-> _]. by right. }
  destruct Hc as [->| ->]; split; try done; by vm_compute.
Qed.

(** Every leaf on disk at an address of its own, nothing in the buffer, no locks. *)
Definition cold_pages (mt : MapTable.t) (io : IoEngine) (V : gmap Z view) : Prop :=
  (forall p v, V !! p = Some v -> 0 <= p < Z.of_nat (length (MapTable.indirection_arr mt)) /\
    exists addr d, place mt p = Some (NLeaf addr) /\ get_page (E := QSError) io addr = Ok d /\ shows d v /\ NodeMeta.leaf (header d) = addr) /\
  (forall p q v w, V !! p = Some v -> V !! q = Some w -> place mt p = place mt q -> p = q).

Definition cold_tx (t : BPTree) (lg : Z) (mt : MapTable.t) (io : IoEngine) (w : WalState) (lt rt bt next id : Z) : TxSt :=
  mkTxSt (mkQuickStep t (mkStore (fresh_buffer lg) mt io w) lt rt bt false next) ∅ id Redo [] Active.

Lemma fresh_ring lg x V :
  3 <= lg <= 51 -> st_cache (tx_store x) = fresh_buffer lg ->
  (forall p v i, V !! p = Some v -> place (st_map (tx_store x)) p <> Some (NMiniPage i)) -> ring_holds false x V.
Proof.
  intros Hlg Hc Hno. assert (2 ^ lg / 8 = 2 ^ (lg - 3)) as Hdiv.
  { replace lg with (lg - 3 + 3) at 1 by lia. rewrite Z.pow_add_r by lia. by apply Z.div_mul. }
  assert (2 ^ lg = 8 * 2 ^ (lg - 3)) as Hp.
  { change 8 with (2 ^ 3). rewrite <-Z.pow_add_r by lia. f_equal. lia. }
  assert (2 ^ (lg - 3) <= 2 ^ 48) as Hle by (apply Z.pow_le_mono_r; lia).
  unfold ring_holds. rewrite Hc. split_and!; cbn [fresh_buffer backing buff_size head tail].
  - unfold ring_ok. cbn [head tail buff_size fresh_buffer]. lia.
  - rewrite length_replicate, Hdiv. f_equal. exact Hp.
  - by rewrite Hdiv.
  - done.
  - intros p v i Hv Hi. by destruct (Hno p v i Hv).
Qed.

Lemma cold_ready t lg mt io w lt rt bt next id a V :
  3 <= lg <= 51 -> tree_repr t a -> table_held ∅ mt -> cold_pages mt io V ->
  ready false (cold_tx t lg mt io w lt rt bt next id) a V.
Proof.
  intros Hlg Ht Htab [Hpages Hinj]. set (x := cold_tx t lg mt io w lt rt bt next id).
  assert (forall p v i, V !! p = Some v -> place (st_map (tx_store x)) p <> Some (NMiniPage i)) as Hno.
  { intros p v i Hv Hp. destruct (Hpages p v Hv) as (_ & addr & d & Hp' & _). pose proof (eq_trans (eq_sym Hp) Hp'). done. }
  split; [|by intros ? ? ?]. split; [exact Ht|exact Htab| | | |by apply (fresh_ring lg)|].
  - intros p v Hv. apply (Hpages p v Hv).
  - intros p v Hv. destruct (Hpages p v Hv) as (_ & addr & d & Hp & Hg & Hs & Hl). exists (NLeaf addr). split; [exact Hp|].
    exists d. split_and!; [done..|]. intros l Hk. done.
  - intros p q i j v v' _ Hv _ Hi. by destruct (Hno p v i Hv).
  - intros p q v v' addr Hne Hv Hv'. destruct (Hpages p v Hv) as (_ & a1 & _ & Hp & _), (Hpages q v' Hv') as (_ & a2 & _ & Hq & _).
    unfold disk_addr. change (st_map (tx_store x)) with mt. rewrite Hp, Hq. intros [= ->] [= ->].
    apply Hne, (Hinj p q v v' Hv Hv'). by rewrite Hp, Hq.
Qed.

(** The store with one leaf. *)
Lemma holds_single b n lg lt rt bt next w id io d v :
  0 < b < 2 ^ 20 -> (0 < n)%nat -> 3 <= lg <= 51 ->
  get_page (E := QSError) io 0 = Ok d -> shows d v -> NodeMeta.leaf (header d) = 0 ->
  let q := fresh_db b n lg lt rt bt next in
  let x := mkTxSt (set_store (mkStore (st_cache (store q)) (st_map (store q)) io w) q) ∅ id Redo [] Active in
  ready false x (ALeaf 0) {[0 := v]}.
Proof.
  intros Hb Hn Hlg Hg Hsh Hla q x. assert (forall p v', ({[0 := v]} : gmap Z view) !! p = Some v' -> p = 0 /\ v' = v) as HV
    by (intros p v' Hp; apply lookup_singleton_Some in Hp as [<- <-]; done).
  apply (cold_ready (inner_nodes q) lg (st_map (store q)) io w lt rt bt next id); [done| |by apply fresh_table_held|split].
  - cbn. unfold tree_repr. cbn. split_and!; try done; lia.
  - intros p v' [-> ->]%HV. split; [cbn; rewrite length_insert, length_replicate; lia|]. exists 0, d. split; [|done].
    cbn. unfold place. cbn [MapTable.indirection_arr]. rewrite list_lookup_insert_eq by (by rewrite length_replicate).
    vm_compute. reflexivity.
  - by intros p q' v' w' [-> _]%HV [-> _]%HV.
Qed.

Lemma holds_fresh b n lg lt rt bt next w id :
  0 < b < 2 ^ 20 -> (0 < n)%nat -> 3 <= lg <= 51 ->
  let q := fresh_db b n lg lt rt bt next in
  let x := mkTxSt (set_store (mkStore (st_cache (store q)) (st_map (store q)) (st_io (store q)) w) q) ∅ id Redo [] Active in
  ready false x (ALeaf 0) {[0 := empty_view]}.
Proof.
  intros Hb Hn Hlg. destruct root_leaf_repr as [Hr Hl]. apply (holds_single b n lg lt rt bt next w id fresh_io root_leaf).
  - exact Hb.
  - exact Hn.
  - exact Hlg.
  - by apply get_write_same.
  - exists []. split; [exact Hr|reflexivity].
  - vm_compute. reflexivity.
Qed.

(** C15. A fresh store is well formed: on empty files, with room for a node, a leaf entry and a
    buffer of at most 2^51 bytes, [QuickStep::new] succeeds, and the first transaction starts
    in a state that stands for the empty store with one leaf, page 0, and has logged its
    [Begin] marker. *)
Theorem fresh_store_ready (b : Z) (n : nat) (lg lt rt bt : Z) :
  0 < b < 2 ^ 20 -> (0 < n)%nat -> 3 <= lg <= 51 ->
  exists q x, qs_new b n lg lt rt bt [] [] = Ok q /\ tx (E := QSError) q = Ok x /\
    ready false x (ALeaf 0) {[0 := empty_view]} /\
    records (st_wal (tx_store x)) = [mkWalRecord TXN_META_PAGE_ID [] [] [] Redo 1 (TxnMarker Begin)] /\
    undo_log x = [].
Proof.
  intros Hb Hn Hlg. exists (fresh_db b n lg lt rt bt 1).
  destruct (append_inv (Wal.open []) [] (mkWalRecord TXN_META_PAGE_ID [] [] [] Redo 1 (TxnMarker Begin)))
    as (w & Hw & Hinv & _); [apply open_fresh|by vm_compute|by vm_compute|].
  eexists. split; [apply qs_new_fresh; [done|done|lia]|].
  split; [unfold tx; cbn [fresh_db store st_wal next_txn_id]; unfold append_txn_marker; rewrite Hw; reflexivity|].
  split; [exact (holds_fresh b n lg lt rt bt 2 w 1 Hb Hn Hlg)|]. split; [|done]. exact (inv_records _ _ Hinv).
Qed.

(** * Reads after writes *)

Lemma spec_get_put a V key val v k key' :
  (forall p w, V !! p = Some w -> bt_sorted (v_content w)) ->
  V !! aroute a key = Some v -> key = v_prefix v ++ k -> routed a V key' ->
  spec_get a (spec_put a key val V) key' = if decide (key' = key) then Some val else spec_get a V key'.
Proof.
  intros Hs Hv Hk (v' & k' & Hv' & Hk'). unfold spec_get, spec_put.
  destruct (decide (aroute a key' = aroute a key)) as [Hr|Hr].
  2: { rewrite lookup_alter_ne by (by intros E). rewrite decide_False; [done|]. intros ->. by apply Hr. }
  rewrite Hr in *. rewrite Hv in Hv'. injection Hv' as <-. rewrite lookup_alter_eq, Hv. cbn [fmap option_fmap option_map mbind option_bind].
  rewrite Hk, Hk'. rewrite v_put_prefix. unfold v_get at 1. cbn [v_content].
  change (v_prefix (mkView _ _ _)) with (v_prefix v). rewrite drop_app_length, bt_get_alter by (by eapply Hs).
  rewrite v_get_prefix. destruct (kcmp k k') eqn:E.
  - apply kcmp_eq in E. subst k'. rewrite decide_True by done. unfold put_value. by destruct (bt_get (v_content v) k) as [[? ?]|].
  - rewrite decide_False; [done|]. intros ->%(inj (v_prefix v ++.)). by rewrite kcmp_refl in E.
  - rewrite decide_False; [done|]. intros ->%(inj (v_prefix v ++.)). by rewrite kcmp_refl in E.
Qed.

Lemma holds_sorted wr x a V : holds wr x a V -> forall p v, V !! p = Some v -> bt_sorted (v_content v).
Proof.
  intros Hh p v Hv. destruct (h_pages _ _ _ _ Hh p v Hv) as ([addr|i] & _ & Hn).
  - destruct Hn as (d & _ & Hs & _). by eapply shows_sorted.
  - destruct Hn as (_ & m & d & _ & Hs & _). by eapply shows_sorted.
Qed.

Lemma routed_put a V key val key' : routed a V key' -> routed a (spec_put a key val V) key'.
Proof.
  intros (v & k & Hv & ->). unfold routed, spec_put.
  destruct (decide (aroute a (v_prefix v ++ k) = aroute a key)) as [Hr|Hr].
  - exists (v_put key val v), k. rewrite Hr in *. rewrite lookup_alter_eq, Hv. done.
  - exists v, k. by rewrite lookup_alter_ne.
Qed.

(** Reads see the writes of their transaction: after a put that needs no split, a read of the
    key returns the new value and a read of any other key what it would have returned before,
    across leaves and whether they are in the buffer or on disk. *)
Theorem tx_put_get (iter : gmap Z LeafWalStats -> list (Z * LeafWalStats)) (evict_fuel fuel : nat)
    (wr : bool) (x : TxSt) (a : abs_tree) (V : gmap Z view) (key val : bytes) (v : view) (k : bytes) (gs : list group) (key' : bytes) :
  ready wr x a V -> put_fits wr x a V key val v k gs -> routed a V key' ->
  exists x' x'', tx_put iter evict_fuel (S fuel) key val x = (x', Ok tt) /\
    tx_get key' x' = (x'', Ok (if decide (key' = key) then Some val else spec_get a V key')).
Proof.
  intros Hr Hf Hk'. destruct (tx_put_ok iter evict_fuel fuel wr x a V key val v k gs Hr Hf) as (wr' & x' & Hput & Hr' & _).
  destruct (get_ok wr' x' a _ key' Hr' (routed_put _ _ _ _ _ Hk')) as (x'' & Hget & _). exists x', x''. split; [done|].
  rewrite Hget. do 2 f_equal. eapply spec_get_put; [apply (holds_sorted wr x a V), Hr|apply Hf|apply Hf|done].
Qed.

(** ** Concrete runs: the first transaction of a fresh store *)

Definition begin_record : WalRecord := mkWalRecord TXN_META_PAGE_ID [] [] [] Redo 1 (TxnMarker Begin).
Definition sample_wal : WalState :=
  match append_record begin_record (Wal.open []) with Ok w => w | _ => Wal.open [] end.
Definition sample_tx : TxSt :=
  let q := fresh_db 1 2 13 100 1000 100000 2 in
  mkTxSt (set_store (mkStore (st_cache (store q)) (st_map (store q)) (st_io (store q)) sample_wal) q) ∅ 1 Redo [] Active.

Lemma sample_ready : ready false sample_tx (ALeaf 0) {[0 := empty_view]}.
Proof. apply holds_fresh; lia. Qed.

Lemma sample_wal_inv : wal_inv sample_wal [(TXN_META_PAGE_ID, [begin_record])].
Proof.
  destruct (append_inv (Wal.open []) [] begin_record) as (w & Hw & Hinv & _); [apply open_fresh|by vm_compute|by vm_compute|].
  unfold sample_wal. rewrite Hw. exact Hinv.
Qed.

Lemma sample_root_free : page_bytes sample_tx 0 = Ok root_leaf /\ (4000 <= free_space root_leaf)%nat.
Proof. split; [vm_compute; reflexivity|]. apply Nat.leb_le. vm_compute. reflexivity. Qed.

Lemma sample_alloc : can_alloc false sample_tx.
Proof. split; [by intros [? ?]|]. eexists _, _. vm_compute. reflexivity. Qed.

Lemma sample_fits :
  put_fits false sample_tx (ALeaf 0) {[0 := empty_view]} [Byte.x61] [Byte.x07] empty_view [Byte.x61]
    [(TXN_META_PAGE_ID, [begin_record])].
Proof.
  split; [reflexivity|reflexivity| |intros; exact sample_alloc|reflexivity|].
  - split; [done|]. intros m Hm. change (page_bytes sample_tx 0 = Ok m) in Hm. destruct sample_root_free as [Hr Hf]. pose proof (Ok_inj _ _ (eq_trans (eq_sym Hr) Hm)) as <-.
    eapply Nat.le_trans; [|exact Hf]. apply Nat.leb_le. vm_compute. reflexivity.
  - split; [exact sample_wal_inv|by repeat constructor; vm_compute|by vm_compute..].
Qed.

Lemma sample_routed key : routed (ALeaf 0) {[0 := empty_view]} key.
Proof. exists empty_view, key. split; reflexivity. Qed.

Lemma tx_get_refines_witness :
  exists x', tx_get [Byte.x61] sample_tx = (x', Ok None) /\ ready false x' (ALeaf 0) {[0 := empty_view]} /\ same_log sample_tx x'.
Proof. exact (tx_get_refines false sample_tx (ALeaf 0) {[0 := empty_view]} [Byte.x61] sample_ready (sample_routed _)). Defined.

Lemma tx_put_refines_witness :
  exists wr' x', tx_put map_to_list 0 1 [Byte.x61] [Byte.x07] sample_tx = (x', Ok tt) /\
    ready wr' x' (ALeaf 0) (spec_put (ALeaf 0) [Byte.x61] [Byte.x07] {[0 := empty_view]}) /\
    records (st_wal (tx_store x')) = [begin_record;
      mkWalRecord 0 [Byte.x61] LOWER_FENCE UPPER_FENCE Redo 1 (Put [Byte.x07]);
      mkWalRecord 0 [Byte.x61] LOWER_FENCE UPPER_FENCE Undo 1 Tombstone] /\
    undo_log x' = [Remove 0 [Byte.x61]].
Proof.
  exact (tx_put_refines map_to_list 0 0 false sample_tx (ALeaf 0) {[0 := empty_view]} [Byte.x61] [Byte.x07] empty_view [Byte.x61]
    _ sample_ready sample_fits).
Defined.

Lemma fresh_store_ready_witness :
  exists q x, qs_new 1 2 13 100 1000 100000 [] [] = Ok q /\ tx (E := QSError) q = Ok x /\
    ready false x (ALeaf 0) {[0 := empty_view]} /\
    records (st_wal (tx_store x)) = [mkWalRecord TXN_META_PAGE_ID [] [] [] Redo 1 (TxnMarker Begin)] /\ undo_log x = [].
Proof. apply fresh_store_ready; lia. Defined.

Lemma tx_put_get_witness :
  exists x' x'', tx_put map_to_list 0 1 [Byte.x61] [Byte.x07] sample_tx = (x', Ok tt) /\
    tx_get [Byte.x61] x' = (x'', Ok (Some [Byte.x07])).
Proof.
  exact (tx_put_get map_to_list 0 0 false sample_tx (ALeaf 0) {[0 := empty_view]} [Byte.x61] [Byte.x07] empty_view [Byte.x61]
    _ [Byte.x61] sample_ready sample_fits (sample_routed _)).
Defined.
