(* ===== verification/TxLife.v ===== *)
(** * The life of a transaction, and scans (src/lib.rs)

    Committing, what the next transaction starts from, range scans over the whole store,
    and runs of several transactions that show where the code departs from what it means
    to do. *)

From stdpp Require Import gmap.
From S2P Require Import Prelude Types BTreeMap MapTable IoEngine Wal Node PageOp Recovery BPNode BPTree LockManager Buffer Config Tx TxSpec.

(** ** Commit *)

Lemma place_length mt mt' :
  (forall p, 0 <= p -> place mt' p = place mt p) ->
  length (MapTable.indirection_arr mt') = length (MapTable.indirection_arr mt).
Proof.
  intros H. assert (forall n, is_Some (MapTable.indirection_arr mt' !! n) <-> is_Some (MapTable.indirection_arr mt !! n)) as Hs.
  { intros n. specialize (H (Z.of_nat n) ltac:(lia)). unfold place in H. rewrite Nat2Z.id in H.
    destruct (MapTable.indirection_arr mt' !! n), (MapTable.indirection_arr mt !! n); try done; split; by intros [? ?]. }
  destruct (Nat.lt_trichotomy (length (MapTable.indirection_arr mt')) (length (MapTable.indirection_arr mt))) as [Hlt|[->|Hlt]]; [|done|].
  - apply lookup_lt_is_Some in Hlt as H1. apply Hs, lookup_lt_is_Some in H1. lia.
  - apply lookup_lt_is_Some in Hlt as H1. apply Hs, lookup_lt_is_Some in H1. lia.
Qed.

(** The end of a transaction gives every lock back. *)
Lemma release_all wr x a V :
  holds wr x a V ->
  exists x', on_locks drop_locks x = (x', Ok tt) /\ ready wr x' a V /\ lock_manager x' = ∅ /\ same_log x x' /\
    next_txn_id (db x') = next_txn_id (db x) /\ st_io (tx_store x') = st_io (tx_store x).
Proof.
  intros Hh. destruct (drop_locks_held (lm_of x) (h_locks _ _ _ _ Hh)) as (mt' & Hrun & Hheld & Hpl).
  exists (set_lm (mkLM ∅ mt') x). split; [by apply on_locks_run|]. split; [|done]. split; [|done].
  apply holds_locks; [done| |by intros p v l _ ?]. split; [done|by apply place_length|done].
Qed.

Definition marker (m : WalTxnMarker) (txn : Z) : WalRecord := mkWalRecord TXN_META_PAGE_ID [] [] [] Redo txn (TxnMarker m).

Lemma holds_wal wr x a V w : holds wr x a V -> holds wr (set_wal w x) a V.
Proof. intros [H1 H2 H3 H4 H5 H6 H7]. by split. Qed.

Lemma holds_state wr x a V st : holds wr x a V -> holds wr (set_tx_state st (set_undo [] x)) a V.
Proof. intros [H1 H2 H3 H4 H5 H6 H7]. by split. Qed.

Lemma commit_ok wr x a V gs :
  ready wr x a V -> Tx.state x = Active -> wal_entry_kind x = Redo -> is_u64 (Tx.txn_id x) ->
  wal_inv (st_wal (tx_store x)) gs -> 32 + total_size gs + append_size (marker Commit (Tx.txn_id x)) <= u64_max ->
  exists x', tx_commit x = (x', Ok tt) /\ ready wr x' a V /\ lock_manager x' = ∅ /\ Tx.state x' = TxCommitted /\
    undo_log x' = [] /\ next_txn_id (db x') = next_txn_id (db x) /\ st_io (tx_store x') = st_io (tx_store x) /\
    wal_inv (st_wal (tx_store x')) (gs ++ [(TXN_META_PAGE_ID, [marker Commit (Tx.txn_id x)])]) /\
    records (st_wal (tx_store x')) = records (st_wal (tx_store x)) ++ [marker Commit (Tx.txn_id x)].
Proof.
  intros [Hh Hi] Hst Hk Hid Hinv Hsz.
  destruct (append_inv _ gs (marker Commit (Tx.txn_id x)) Hinv) as (w & Hw & Hinv' & _).
  { split_and!; [by vm_compute|done|by vm_compute..]. }
  { exact Hsz. }
  set (x1 := set_tx_state TxCommitted (set_undo [] (set_wal w x))).
  assert (commit_in_place x = (x1, Ok tt)) as Hc.
  { unfold commit_in_place. run_pure x x. rewrite Hst, Hk. by rewrite (bindS_ok _ _ _ (set_wal w x) tt) by (by apply on_wal_run). }
  assert (abort_in_place x1 = (x1, Ok tt)) as Ha by (unfold abort_in_place; by run_pure x1 x1).
  destruct (release_all wr x1 a V) as (x' & Hrel & Hr & Hl & (E1 & E2 & _ & _ & E3 & _) & E4 & E5).
  { by apply holds_state, holds_wal. }
  exists x'. split; [unfold tx_commit, drop_tx; run Hc; by run Ha|]. split_and!; try done.
  - by rewrite E1.
  - rewrite E1. change (records w = records (st_wal (tx_store x)) ++ [marker Commit (Tx.txn_id x)]).
    by rewrite (inv_records _ _ Hinv'), (inv_records _ _ Hinv), records_snoc.
Qed.

(** The next transaction starts from the store as it is. *)
Lemma begin_ok wr x a V gs :
  ready wr x a V -> lock_manager x = ∅ -> is_u64 (next_txn_id (db x)) ->
  wal_inv (st_wal (tx_store x)) gs -> 32 + total_size gs + append_size (marker Begin (next_txn_id (db x))) <= u64_max ->
  exists x', tx (E := QSError) (db x) = Ok x' /\ ready wr x' a V /\ Tx.state x' = Active /\ undo_log x' = [] /\
    Tx.txn_id x' = next_txn_id (db x) /\
    wal_inv (st_wal (tx_store x')) (gs ++ [(TXN_META_PAGE_ID, [marker Begin (next_txn_id (db x))])]) /\
    records (st_wal (tx_store x')) = records (st_wal (tx_store x)) ++ [marker Begin (next_txn_id (db x))].
Proof.
  intros [[H1 H2 H3 H4 H5 H6 H7] Hi] Hl Hid Hinv Hsz.
  destruct (append_inv _ gs (marker Begin (next_txn_id (db x))) Hinv) as (w & Hw & Hinv' & _).
  { split_and!; [by vm_compute|done|by vm_compute..]. }
  { exact Hsz. }
  unfold tx. cbv zeta. cbn [store]. unfold append_txn_marker. change (store (db x)) with (tx_store x). unfold marker in Hw. rewrite Hw.
  destruct x as [q L id k u st]. cbn [lock_manager] in Hl. subst L.
  eexists. split; [reflexivity|]. split_and!; try done.
  cbn [tx_store db set_store store st_wal]. rewrite (inv_records _ _ Hinv'), records_snoc. cbn [snd].
  by rewrite <-(inv_records _ _ Hinv).
Qed.

(** Both together. *)
Lemma commit_begin_ok wr x a V gs :
  ready wr x a V -> Tx.state x = Active -> wal_entry_kind x = Redo -> is_u64 (Tx.txn_id x) -> is_u64 (next_txn_id (db x)) ->
  wal_inv (st_wal (tx_store x)) gs -> 32 + total_size gs + 46 <= u64_max ->
  exists x' x2 gs2, tx_commit x = (x', Ok tt) /\ table_held ∅ (st_map (tx_store x')) /\ Tx.state x' = TxCommitted /\ undo_log x' = [] /\
    tx (E := QSError) (db x') = Ok x2 /\ ready wr x2 a V /\ undo_log x2 = [] /\ Tx.state x2 = Active /\
    wal_inv (st_wal (tx_store x2)) gs2 /\
    records (st_wal (tx_store x2)) =
      records (st_wal (tx_store x)) ++ [marker Commit (Tx.txn_id x); marker Begin (next_txn_id (db x))].
Proof.
  intros Hr Hst Hk Hid Hnext Hinv Hsz.
  assert (forall m n, append_size (marker m n) = 23) as H23 by (intros; apply append_size_eq).
  destruct (commit_ok wr x a V gs) as (x' & Hc & Hr' & Hl & Hst' & Hu & En & _ & Hinv' & Hrec); [done..|rewrite H23; lia|].
  destruct (begin_ok wr x' a V _ Hr' Hl ltac:(by rewrite En) Hinv') as (x2 & Ht & Hr2 & Hst2 & Hu2 & _ & Hinv2 & Hrec2).
  { rewrite total_size_snoc. rewrite H23. change (Z.of_nat (group_size (TXN_META_PAGE_ID, [marker Commit (Tx.txn_id x)])))
      with (append_size (marker Commit (Tx.txn_id x))). rewrite H23. lia. }
  exists x', x2. eexists. split_and!; [done| |done|done|exact Ht|done|done|done|exact Hinv2|].
  - pose proof (h_locks _ _ _ _ (proj1 Hr')) as Hh. unfold lock_inv, lm_of in Hh. cbn [locks table] in Hh. by rewrite Hl in Hh.
  - by rewrite Hrec2, Hrec, En, <-(assoc_L (++)).
Qed.

(** C14. A commit of an active transaction, with room in the log for two
    markers, ends it and hands the store on: the [Commit] marker is logged, every
    page lock is released, the undo log is dropped, and the next transaction starts from the
    same store, with its own [Begin] marker. *)
Theorem commit_then_begin (wr : bool) (x : TxSt) (a : abs_tree) (V : gmap Z view) (gs : list group) :
  ready wr x a V -> Tx.state x = Active -> wal_entry_kind x = Redo -> is_u64 (Tx.txn_id x) -> is_u64 (next_txn_id (db x)) ->
  wal_inv (st_wal (tx_store x)) gs -> 32 + total_size gs + 46 <= u64_max ->
  exists x' x2, tx_commit x = (x', Ok tt) /\ table_held ∅ (st_map (tx_store x')) /\ Tx.state x' = TxCommitted /\ undo_log x' = [] /\
    tx (E := QSError) (db x') = Ok x2 /\ ready wr x2 a V /\ undo_log x2 = [] /\
    records (st_wal (tx_store x2)) =
      records (st_wal (tx_store x)) ++ [marker Commit (Tx.txn_id x); marker Begin (next_txn_id (db x))].
Proof.
  intros Hr Hst Hk Hid Hnext Hinv Hsz.
  destruct (commit_begin_ok wr x a V gs Hr Hst Hk Hid Hnext Hinv Hsz) as (x' & x2 & gs2 & ? & ? & ? & ? & ? & ? & ? & _ & _ & ?).
  by exists x', x2.
Qed.

Lemma commit_then_begin_witness :
  exists x' x2, tx_commit sample_tx = (x', Ok tt) /\ table_held ∅ (st_map (tx_store x')) /\ Tx.state x' = TxCommitted /\
    undo_log x' = [] /\ tx (E := QSError) (db x') = Ok x2 /\ ready false x2 (ALeaf 0) {[0 := empty_view]} /\ undo_log x2 = [] /\
    records (st_wal (tx_store x2)) = [begin_record; marker Commit 1; marker Begin 2].
Proof.
  apply (commit_then_begin false sample_tx (ALeaf 0) {[0 := empty_view]} [(TXN_META_PAGE_ID, [begin_record])] sample_ready);
    [reflexivity|reflexivity|vm_compute; split; congruence..|exact sample_wal_inv|vm_compute; congruence].
Defined.

(** ** Checkpoints inside a write *)

(** The page that a checkpoint would take next. *)
Definition due (iter : gmap Z LeafWalStats -> list (Z * LeafWalStats)) (x : TxSt) (p : Z) : Prop :=
  checkpoint_candidate iter x = Some p.

(** A global checkpoint of the page being written panics: [put] and [delete] call
    [maybe_global_checkpoint] while they still hold the handle of their page, and when that
    page is the candidate, asking for it again trips the assertion against two handles. *)
Theorem checkpoint_of_current_page_panics (iter : gmap Z LeafWalStats -> list (Z * LeafWalStats))
    (wr : bool) (x : TxSt) (a : abs_tree) (V : gmap Z view) (p : Z) (s : LockSlot) :
  held wr x a V p s -> due iter x p -> snd (maybe_global_checkpoint iter x) = Halt Panicked.
Proof.
  intros Hd Hc. unfold maybe_global_checkpoint. run_pure x x. rewrite (Hc : checkpoint_candidate iter x = Some p).
  destruct (borrowed_page_panics (lm_of x) p s) as [lm' Hl]; [apply Hd..|].
  rewrite (bindS_halt _ _ x (set_lm lm' x) Panicked) by (by apply on_locks_run). done.
Qed.

(** A store whose log has a record of page 0 and whose record threshold is one. *)
Definition due_wal : WalState :=
  match append_record (mkWalRecord 0 [Byte.x61] LOWER_FENCE UPPER_FENCE Redo 1 (Put [Byte.x07])) sample_wal with
  | Ok w => w | _ => sample_wal end.
Definition due_tx : TxSt :=
  let q := fresh_db 1 2 13 100 1 100000 2 in
  mkTxSt (set_store (mkStore (st_cache (store q)) (st_map (store q)) (st_io (store q)) due_wal) q) ∅ 1 Redo [] Active.

Lemma checkpoint_of_current_page_panics_witness :
  exists x, snd (maybe_global_checkpoint map_to_list x) = Halt Panicked.
Proof.
  assert (ready false due_tx (ALeaf 0) {[0 := empty_view]}) as Hr by (apply holds_fresh; lia).
  destruct (write_locked false due_tx (ALeaf 0) {[0 := empty_view]} 0 empty_view Hr eq_refl) as (lm' & s & _ & Hd & _).
  exists (set_lm lm' due_tx).
  apply (checkpoint_of_current_page_panics map_to_list false (set_lm lm' due_tx) (ALeaf 0) {[0 := empty_view]} 0 s Hd).
  vm_compute. reflexivity.
Defined.

(** ** Range scans *)

Definition by_key (a b : bytes * bytes) : Prop := a.1 ≤ₖ b.1.

Lemma insert_sorted_perm e l : insert_sorted e l ≡ₚ e :: l.
Proof.
  induction l as [|e' l IH]; cbn [insert_sorted]; [done|]. destruct (bytes_leb e.1 e'.1); [done|].
  rewrite IH. apply Permutation_swap.
Qed.

Lemma sort_by_key_perm l : sort_by_key l ≡ₚ l.
Proof. induction l as [|e l IH]; [done|]. cbn. by rewrite insert_sorted_perm, IH. Qed.

Lemma insert_sorted_sorted e l : StronglySorted by_key l -> StronglySorted by_key (insert_sorted e l).
Proof.
  induction l as [|e' l IH]; cbn [insert_sorted]; intros Hs; [repeat constructor|].
  pose proof Hs as [Hl Hall]%StronglySorted_inv. destruct (bytes_leb e.1 e'.1) eqn:E.
  - apply bytes_leb_le in E. constructor; [done|]. constructor; [done|].
    eapply Forall_impl; [exact Hall|]. intros x Hx. unfold by_key in *. eauto with keys.
  - apply bytes_leb_false in E. constructor; [by apply IH|]. rewrite insert_sorted_perm. constructor; [|done].
    unfold by_key. eauto with keys.
Qed.

Lemma sort_by_key_sorted l : StronglySorted by_key (sort_by_key l).
Proof. induction l as [|e l IH]; [constructor|]. by apply insert_sorted_sorted. Qed.

(** The records of a view in the half-open range. *)
Definition in_scan (lower upper : bytes) (kv : bytes * bytes) : bool := bytes_leb lower kv.1 && bytes_ltb kv.1 upper.
Definition scan_view (lower upper : bytes) (v : view) : list (bytes * bytes) :=
  filter (fun kv => in_scan lower upper kv = true) (v_map v).

Lemma shows_records {E} m v lower upper :
  shows m v -> records_between (E := E) m lower upper = Ok (scan_view lower upper v).
Proof.
  intros (es & Hes & Hc). unfold records_between, collect_user_records. rewrite (owned_entries_ok _ _ _ _ Hes).
  cbn [mbind outcome_bind]. f_equal. unfold scan_view, v_map. rewrite <-Hc. unfold content.
  rewrite <-list_fmap_compose. done.
Qed.

(** Reading a page nobody writes. *)
Lemma read_page_ok wr x a V p v :
  ready wr x a V -> lock_manager x = ∅ -> V !! p = Some v ->
  exists addr m, read_page (tx_store x) p = Ok (addr, m) /\ shows m v.
Proof.
  intros [Hh _] Hl Hv. pose proof (h_dom _ _ _ _ Hh p v Hv) as Hp.
  destruct (page_word (lm_of x) p (h_locks _ _ _ _ Hh) Hp) as (w & Hw & Heh). cbn [lm_of locks table] in *.
  rewrite Hl, lookup_empty in Heh.
  destruct (h_pages _ _ _ _ Hh p v Hv) as (node & Hn & Hnode). unfold place in Hn. rewrite Hw in Hn. injection Hn as Hn.
  unfold read_page, MapTable.get_ref. rewrite Hw. cbn [mbind outcome_bind].
  rewrite read_page_entry_shared; [|apply Heh|rewrite (eh_state _ _ _ Heh); by vm_compute]. cbn [snd mbind outcome_bind]. rewrite Hn.
  destruct node as [addr|i].
  - destruct Hnode as (d & H1 & H2 & _). rewrite H1. cbn [mbind outcome_bind]. by exists addr, d.
  - destruct Hnode as (_ & m & d & H1 & H2 & _). unfold mini in H1. rewrite H1. cbn [mbind outcome_bind].
    by exists (NodeMeta.leaf (header m)), m.
Qed.

Lemma foldM_collect {E A B} (f : list B -> A -> outcome E (list B)) (g : A -> list B) l acc :
  (forall a acc, a ∈ l -> f acc a = Ok (acc ++ g a)) -> foldM f acc l = Ok (acc ++ mjoin (g <$> l)).
Proof.
  revert acc; induction l as [|a l IH]; intros acc H; cbn [foldM]; [by rewrite app_nil_r|].
  rewrite H by set_solver. cbn [mbind outcome_bind]. rewrite IH by (intros; apply H; set_solver).
  rewrite fmap_cons. cbn. by rewrite (assoc_L (++)).
Qed.

(** C27. A range scan returns the records of every page with keys in the half-open range, in the
    order of their keys and each as often as it is stored: when no page is being written and
    every page of the store has a non-zero entry in the mapping table. *)
Theorem range_scan_correct (wr : bool) (x : TxSt) (a : abs_tree) (V : gmap Z view) (lower upper : bytes) :
  ready wr x a V -> lock_manager x = ∅ ->
  (forall n w, MapTable.indirection_arr (st_map (tx_store x)) !! n = Some w -> w <> 0 <-> is_Some (V !! Z.of_nat n)) ->
  length (MapTable.indirection_arr (st_map (tx_store x))) = MapTable.capacity (st_map (tx_store x)) ->
  lower <ₖ upper ->
  exists rs, range_scan (tx_store x) lower upper = Ok rs /\ StronglySorted by_key rs /\
    rs ≡ₚ mjoin ((fun n => from_option (scan_view lower upper) [] (V !! Z.of_nat n)) <$>
                 seq 0 (MapTable.capacity (st_map (tx_store x)))).
Proof.
  intros Hr Hl He Hcap Hlt. unfold range_scan. rewrite (proj2 (bytes_leb_false upper lower)) by done.
  rewrite (foldM_collect _ (fun n => from_option (scan_view lower upper) [] (V !! Z.of_nat n))).
  - cbn [mbind outcome_bind app]. eexists. split; [done|]. split; [apply sort_by_key_sorted|apply sort_by_key_perm].
  - intros n acc Hn%elem_of_seq.
    destruct (lookup_lt_is_Some_2 (MapTable.indirection_arr (st_map (tx_store x))) n) as [w Hw]; [lia|].
    unfold MapTable.has_entry. rewrite (proj2 (Z.leb_gt _ _)) by (unfold MapTable.capacity in *; lia).
    unfold MapTable.get_ref. rewrite Nat2Z.id, Hw. cbn [mbind outcome_bind].
    specialize (He n w Hw). destruct (Z.eqb_spec w 0) as [->|Hne]; cbn [negb].
    + destruct (V !! Z.of_nat n) as [v|]; [by destruct He as [_ He]; exfalso; apply He|]. cbn. by rewrite app_nil_r.
    + apply He in Hne as [v Hv]. rewrite Hv. cbn [from_option].
      destruct (read_page_ok wr x a V _ v Hr Hl Hv) as (addr & m & -> & Hs). cbn [mbind outcome_bind].
      by rewrite (shows_records m v lower upper Hs).
Qed.

(** A store whose only leaf holds one record. *)
Definition one_leaf : bytes := fst (try_put_with_suffix [Byte.x61] [Byte.x07] root_leaf).
Definition one_view : view := mkView LOWER_FENCE UPPER_FENCE [([Byte.x61], ([Byte.x07], KVRecordType.Insert))].
Definition one_io : IoEngine := write_page (IoEngine.open []) 0 one_leaf.
Definition one_tx : TxSt :=
  let q := fresh_db 1 1 13 100 1000 100000 2 in
  mkTxSt (set_store (mkStore (st_cache (store q)) (st_map (store q)) one_io sample_wal) q) ∅ 1 Redo [] Active.

Lemma one_leaf_shows : shows one_leaf one_view.
Proof.
  exists (slots_of (bt_alter (put_value [Byte.x07]) (content []) [Byte.x61])). split; [|reflexivity].
  apply (put_concrete root_leaf _ _ [] [Byte.x61] [Byte.x07] one_leaf (proj1 root_leaf_repr));
    [reflexivity|apply Nat.leb_le; vm_compute; reflexivity|vm_compute; reflexivity].
Qed.

Lemma one_ready : ready false one_tx (ALeaf 0) {[0 := one_view]}.
Proof.
  apply (holds_single 1 1 13 100 1000 100000 2 sample_wal 1 one_io one_leaf one_view); [lia..| |exact one_leaf_shows|vm_compute; reflexivity].
  apply get_write_same. vm_compute. reflexivity.
Qed.

Lemma range_scan_correct_witness :
  exists rs, range_scan (tx_store one_tx) [Byte.x00] [Byte.xfe] = Ok rs /\ StronglySorted by_key rs /\
    rs ≡ₚ [([Byte.x61], [Byte.x07])].
Proof.
  apply (range_scan_correct false one_tx (ALeaf 0) {[0 := one_view]} [Byte.x00] [Byte.xfe] one_ready);
    [reflexivity| |vm_compute; reflexivity|vm_compute; reflexivity].
  intros [|n] w; [|by vm_compute]. intros Hw.
  assert (Some (PageEntry.leaf 0) = Some w) as [= <-] by exact Hw. split; [by exists one_view|by vm_compute].
Defined.

(** ** Runs of several transactions *)

(** [QuickStep::tx] after the transaction before it has ended. *)
Definition then_tx : M unit :=
  fun x => match tx (E := QSError) (db x) with
           | Ok x' => (x', Ok tt) | Err e => (x, Err e) | Halt h => (x, Halt h) end.
Definition put_k (k v : bytes) : M unit := tx_put map_to_list 10 3 k v.

(** A deleted key is still read: [delete] answers that it removed the record, the transaction
    commits, and the next one reads the value as before. *)
Theorem deleted_key_still_read :
  snd ((_ ← put_k [Byte.x61] [Byte.x07]; _ ← tx_commit; _ ← then_tx;
        deleted ← tx_delete map_to_list [Byte.x61]; _ ← tx_commit; _ ← then_tx;
        r ← tx_get [Byte.x61]; mret (deleted, r)) sample_tx)
  = Ok (true, Some [Byte.x07]).
Proof. vm_compute. reflexivity. Qed.

(** An abort damages a record it did not write: after [a] and [c] are committed, overwriting
    [a] and aborting leaves [c] with other bytes. *)
Theorem abort_corrupts_record :
  let c := [Byte.x17; Byte.x18; Byte.x19; Byte.x20; Byte.x21] in
  snd ((_ ← put_k [Byte.x61] [Byte.x07]; _ ← put_k [Byte.x63] c; _ ← tx_commit; _ ← then_tx;
        before ← tx_get [Byte.x63];
        _ ← put_k [Byte.x61] [Byte.x09]; _ ← tx_abort; _ ← then_tx;
        after ← tx_get [Byte.x63]; mret (before, after)) sample_tx)
  = Ok (Some c, Some [Byte.x17; Byte.x20; Byte.x21; Byte.x61; Byte.x09]).
Proof. vm_compute. reflexivity. Qed.

(** A scan misses the page whose mini-page is at index 0 of the buffer: its unlocked entry in
    the mapping table is the word 0, which [has_entry] takes for a missing page. *)
Theorem range_scan_misses_first_page :
  let run := (_ ← put_k [Byte.x61] [Byte.x07]; _ ← put_k [Byte.x63] [Byte.x08]; tx_commit) sample_tx in
  snd run = Ok tt /\
  range_scan (tx_store (fst run)) [Byte.x00] [Byte.xfe] = Ok [] /\
  snd ((_ ← then_tx; tx_get [Byte.x61]) (fst run)) = Ok (Some [Byte.x07]).
Proof. vm_compute. done. Qed.
