(* ===== verification/TxRun.v ===== *)
(** * Runs of a transaction, and what recovery makes of them (src/lib.rs, src/wal.rs)

    A run is a sequence of reads and writes of one transaction.  Its results are those of the
    abstract store, and once it has committed, the log it wrote replays to the store it left. *)

From stdpp Require Import gmap.
From S2P Require Import Prelude Types BTreeMap MapTable IoEngine Wal Node PageOp Recovery BPNode BPTree LockManager Buffer Config Tx TxSpec TxLife.

Inductive request := RGet (key : bytes) | RPut (key val : bytes).

(** ** The abstract run *)

Definition spec_step (a : abs_tree) (V : gmap Z view) (r : request) : gmap Z view :=
  match r with RGet _ => V | RPut key val => spec_put a key val V end.
Definition spec_state (a : abs_tree) (V : gmap Z view) (rs : list request) : gmap Z view := foldl (spec_step a) V rs.

Fixpoint spec_results (a : abs_tree) (V : gmap Z view) (rs : list request) : list (option bytes) :=
  match rs with
  | [] => []
  | RGet key :: rs => spec_get a V key :: spec_results a V rs
  | r :: rs => spec_results a (spec_step a V r) rs
  end.

(** What the run appends to the log. *)
Definition step_log (txn : Z) (a : abs_tree) (V : gmap Z view) (r : request) : list WalRecord :=
  match r with
  | RGet _ => []
  | RPut key val =>
      match V !! aroute a key with
      | Some v => write_records (aroute a key) (v_lo v) (v_up v) txn (v_map v) key (Some val)
      | None => []
      end
  end.
Fixpoint run_log (txn : Z) (a : abs_tree) (V : gmap Z view) (rs : list request) : list WalRecord :=
  match rs with
  | [] => []
  | r :: rs => step_log txn a V r ++ run_log txn a (spec_step a V r) rs
  end.

(** The keys of a run belong to the pages they are routed to. *)
Fixpoint run_routed (a : abs_tree) (V : gmap Z view) (rs : list request) : Prop :=
  match rs with
  | [] => True
  | r :: rs => match r with RGet _ => True | RPut key _ => routed a V key end /\ run_routed a (spec_step a V r) rs
  end.

Section run.
Context (iter : gmap Z LeafWalStats -> list (Z * LeafWalStats)) (evict_fuel fuel : nat).

(** ** The run of the code *)

Fixpoint exec (rs : list request) : M (list (option bytes)) :=
  match rs with
  | [] => mret []
  | RGet key :: rs => v ← tx_get key; vs ← exec rs; mret (v :: vs)
  | RPut key val :: rs => _ ← tx_put iter evict_fuel (S fuel) key val; exec rs
  end.

(** Every read is of a key of the store, and every write fits where it is reached.  [wr] says
    whether the ring has wrapped, which a put may change. *)
Fixpoint run_fits (rs : list request) (wr : bool) (x : TxSt) (a : abs_tree) (V : gmap Z view) : Prop :=
  match rs with
  | [] => True
  | RGet key :: rs => routed a V key /\ run_fits rs wr (fst (tx_get key x)) a V
  | RPut key val :: rs =>
      (exists v k gs, put_fits wr x a V key val v k gs) /\
      let x' := fst (tx_put iter evict_fuel (S fuel) key val x) in
      let V' := spec_put a key val V in
      forall wr', ready wr' x' a V' -> run_fits rs wr' x' a V'
  end.

Lemma exec_ok rs wr x a V gs :
  ready wr x a V -> run_fits rs wr x a V -> wal_inv (st_wal (tx_store x)) gs ->
  exists wr' x' gs', exec rs x = (x', Ok (spec_results a V rs)) /\ ready wr' x' a (spec_state a V rs) /\ same_txn x x' /\
    records (st_wal (tx_store x')) = records (st_wal (tx_store x)) ++ run_log (Tx.txn_id x) a V rs /\
    wal_inv (st_wal (tx_store x')) gs' /\ run_routed a V rs.
Proof.
  revert wr x V gs; induction rs as [|[key|key val] rs IH]; intros wr x V gs Hr Hf Hw; cbn [exec run_fits run_log step_log spec_results run_routed] in *.
  - exists wr, x, gs. rewrite app_nil_r. by split_and!.
  - destruct Hf as [Hk Hf]. destruct (get_ok wr x a V key Hr Hk) as (x1 & Hget & Hr1 & Hsl & _). rewrite Hget in Hf.
    destruct (IH wr x1 V gs Hr1 Hf) as (wr' & x' & gs' & Hrun & Hr' & Ht & Hrec & Hw' & Hro).
    { by rewrite (proj1 Hsl). }
    exists wr', x', gs'. run Hget. run Hrun. pose proof (same_log_txn _ _ Hsl) as Ht1.
    rewrite (proj1 Hsl), (proj1 Ht1) in Hrec. split_and!; [done|done|by transitivity x1|done..].
  - destruct Hf as [(v & k & gs0 & Hfit) Hf].
    destruct (tx_put_ok iter evict_fuel fuel wr x a V key val v k gs0 Hr Hfit)
      as (wr1 & x1 & Hput & Hr1 & Hrec1 & _ & Ht1 & [gs1 Hw1] & _). rewrite Hput in Hf.
    destruct (IH wr1 x1 _ gs1 Hr1 (Hf wr1 Hr1) Hw1) as (wr' & x' & gs' & Hrun & Hr' & Ht & Hrec & Hw' & Hro).
    exists wr', x', gs'. run Hput. rewrite Hrec1, (proj1 Ht1), <-(assoc_L (++)) in Hrec. pose proof (pf_view _ _ _ _ _ _ _ _ _ Hfit) as Hv.
    split_and!; [done|done|by transitivity x1| |done| |done].
    + rewrite Hv. exact Hrec.
    + exists v, k. split; [done|apply Hfit].
Qed.
End run.

(** ** Replay of a run *)

Definition page_log (p : Z) (rs : list WalRecord) : list WalRecord := filter (fun r => Wal.page_id r = p) rs.

(** A write of the abstract store is a write of the page as recovery sees it. *)
Lemma v_map_put v k val :
  v_map (v_put (v_prefix v ++ k) val v) = apply_wal_op (v_map v) (v_prefix v ++ k) (Put val).
Proof.
  rewrite v_put_prefix. unfold v_map. cbn [v_content apply_wal_op]. change (v_prefix (mkView _ _ _)) with (v_prefix v).
  unfold bt_insert. induction (v_content v) as [|[k' [v' t']] c IH]; [done|]. rewrite (fmap_cons _ _ c). cbn [bt_alter fst snd].
  change (kcmp (v_prefix v ++ k) (v_prefix v ++ k')) with (bytes_cmp (v_prefix v ++ k) (v_prefix v ++ k')).
  rewrite bytes_cmp_app. change (kcmp k k') with (bytes_cmp k k').
  destruct (bytes_cmp k k'); [done|done|]. by rewrite fmap_cons, IH.
Qed.

Lemma page_log_write p q lo up txn m k w :
  page_log p (write_records q lo up txn m k w) = if decide (q = p) then write_records q lo up txn m k w else [].
Proof.
  unfold page_log, write_records. destruct w, (bt_get m k); cbn [filter list_filter]; unfold filter, list_filter; cbn; repeat case_decide; done.
Qed.

Lemma replay_run st txn a V rs p v :
  st !! txn = Some Committed -> run_routed a V rs -> V !! p = Some v ->
  exists v', spec_state a V rs !! p = Some v' /\
    fst (replay_records st (v_map v) (page_log p (run_log txn a V rs))) = v_map v'.
Proof.
  intros Hst. revert V v; induction rs as [|[key|key val] rs IH]; intros V v Hr Hv; cbn [run_routed run_log step_log] in *.
  - by exists v.
  - apply (IH V v); [apply Hr|done].
  - destruct Hr as [(v0 & k & Hv0 & Hk) Hr]. rewrite Hv0. unfold page_log. rewrite filter_app. fold (page_log p).
    change (filter _ ?l) with (page_log p l). rewrite page_log_write, replay_records_app.
    case_decide as Hp.
    + subst p. rewrite Hv in Hv0. injection Hv0 as <-. rewrite replay_write, decide_True by done. cbn [write_op]. rewrite Hk, <-v_map_put, <-Hk.
      apply IH; [done|]. cbn [spec_step]. unfold spec_put. by rewrite lookup_alter_eq, Hv.
    + apply IH; [done|]. cbn [spec_step]. unfold spec_put. by rewrite lookup_alter_ne.
Qed.

(** ** Properties *)

(** The log as replay groups it. *)
Definition meta_log (rs : list WalRecord) : list WalRecord := page_log TXN_META_PAGE_ID rs.

Lemma commit_status rs txn :
  txn_statuses (meta_log (rs ++ [marker Commit txn])) !! txn = Some Committed.
Proof.
  unfold meta_log, page_log. rewrite filter_app, (filter_cons_True _ _ []) by done.
  unfold txn_statuses. rewrite foldl_app. cbn. by rewrite lookup_insert_eq.
Qed.

Lemma page_log_marker st m p rs txn :
  fst (replay_records st m (page_log p (rs ++ [marker Commit txn]))) = fst (replay_records st m (page_log p rs)).
Proof.
  unfold page_log. rewrite filter_app, replay_records_app, filter_cons. by case_decide.
Qed.

Lemma wal_file_length w gs : wal_inv w gs -> Z.of_nat (length (file w)) = 32 + total_size gs.
Proof.
  intros H. rewrite (inv_file _ _ H), length_app, Nat2Z.inj_add, length_encode_groups. f_equal.
Qed.

(** C3. A sequence of reads and of puts, where every key has the prefix of its page and every
    put fits where it is reached (room or a value of the same length, a place in the buffer, no
    checkpoint due: [put_fits]), behaves as the abstract store: the reads return what it
    returns, the state stands for the store with all the writes, and the log has gained one
    redo and one undo record per write, in order. *)
Theorem run_refines (iter : gmap Z LeafWalStats -> list (Z * LeafWalStats)) (evict_fuel fuel : nat)
    (wr : bool) (x : TxSt) (a : abs_tree) (V : gmap Z view) (gs : list group) (rs : list request) :
  ready wr x a V -> run_fits iter evict_fuel fuel rs wr x a V -> wal_inv (st_wal (tx_store x)) gs ->
  exists wr' x', exec iter evict_fuel fuel rs x = (x', Ok (spec_results a V rs)) /\
    ready wr' x' a (spec_state a V rs) /\
    records (st_wal (tx_store x')) = records (st_wal (tx_store x)) ++ run_log (Tx.txn_id x) a V rs.
Proof.
  intros Hr Hf Hw. destruct (exec_ok iter evict_fuel fuel rs wr x a V gs Hr Hf Hw) as (wr' & x' & gs' & ? & ? & _ & ? & _).
  by exists wr', x'.
Qed.

(** What a committed transaction wrote is recovered: when the log file is opened again after a
    run and its commit, it has the records from before and then those of the transaction, and
    replaying these, page by page, on the records each page had before the transaction gives
    the records each page has after it. *)
Theorem committed_run_recovered (iter : gmap Z LeafWalStats -> list (Z * LeafWalStats)) (evict_fuel fuel : nat)
    (wr : bool) (x : TxSt) (a : abs_tree) (V : gmap Z view) (gs : list group) (rs : list request) :
  ready wr x a V -> Tx.state x = Active -> wal_entry_kind x = Redo -> is_u64 (Tx.txn_id x) ->
  run_fits iter evict_fuel fuel rs wr x a V -> wal_inv (st_wal (tx_store x)) gs ->
  Z.of_nat (length (file (st_wal (tx_store (fst (exec iter evict_fuel fuel rs x)))))) + 23 <= u64_max ->
  exists wr' x' new, (_ ← exec iter evict_fuel fuel rs; tx_commit) x = (x', Ok tt) /\
    ready wr' x' a (spec_state a V rs) /\
    let log := records (Wal.open (file (st_wal (tx_store x')))) in
    log = records (st_wal (tx_store x)) ++ new /\
    forall p v, V !! p = Some v -> exists v', spec_state a V rs !! p = Some v' /\
      fst (replay_records (txn_statuses (meta_log log)) (v_map v) (page_log p new)) = v_map v'.
Proof.
  intros Hr Hst Hk Hid Hf Hw Hsz.
  destruct (exec_ok iter evict_fuel fuel rs wr x a V gs Hr Hf Hw) as (wr' & x1 & gs1 & Hrun & Hr1 & (T1 & T2 & T3) & Hrec & Hw1 & Hro).
  rewrite Hrun in Hsz. cbn [fst] in Hsz. rewrite (wal_file_length _ _ Hw1) in Hsz.
  destruct (commit_ok wr' x1 a _ gs1 Hr1) as (x' & Hc & Hr' & _ & _ & _ & _ & _ & Hw' & Hrec'); [congruence|congruence|by rewrite T1|done| |].
  { assert (append_size (marker Commit (Tx.txn_id x1)) = 23) as -> by (apply append_size_eq). exact Hsz. }
  rewrite Hrec, T1, (inv_records _ _ Hw'), <-(inv_records _ _ (reopen_inv _ _ Hw')) in Hrec'.
  exists wr', x', (run_log (Tx.txn_id x) a V rs ++ [marker Commit (Tx.txn_id x)]). split; [by run Hrun|]. split; [done|]. cbv zeta. split.
  - by rewrite Hrec', <-(assoc_L (++)).
  - intros p v Hv. rewrite Hrec', page_log_marker. apply replay_run; [apply commit_status|done..].
Qed.

(** ** A concrete run: two writes of the same key and reads of two *)

Definition sample_run : list request :=
  [RPut [Byte.x61] [Byte.x07]; RGet [Byte.x61]; RPut [Byte.x61] [Byte.x09]; RGet [Byte.x61]; RGet [Byte.x62]].
Definition sample_V : gmap Z view := {[0 := empty_view]}.
Definition sample_exec (rs : list request) : TxSt := fst (exec map_to_list 0 0 rs sample_tx).

Definition sample_view1 : view := v_put [Byte.x61] [Byte.x07] empty_view.
Definition sample_records : list WalRecord :=
  [mkWalRecord 0 [Byte.x61] LOWER_FENCE UPPER_FENCE Redo 1 (Put [Byte.x07]);
   mkWalRecord 0 [Byte.x61] LOWER_FENCE UPPER_FENCE Undo 1 Tombstone].
Definition sample_groups : list group :=
  (TXN_META_PAGE_ID, [begin_record]) :: ((fun r => (0, [r])) <$> sample_records).

Lemma sample_wal_after : wal_inv (st_wal (tx_store (sample_exec (take 2 sample_run)))) sample_groups.
Proof.
  destruct (append_inv sample_wal _ (mkWalRecord 0 [Byte.x61] LOWER_FENCE UPPER_FENCE Redo 1 (Put [Byte.x07])) sample_wal_inv)
    as (w1 & Hw1 & H1 & _); [by vm_compute|by vm_compute|].
  destruct (append_inv w1 _ (mkWalRecord 0 [Byte.x61] LOWER_FENCE UPPER_FENCE Undo 1 Tombstone) H1)
    as (w2 & Hw2 & H2 & _); [by vm_compute|by vm_compute|].
  assert ((w ← append_record (mkWalRecord 0 [Byte.x61] LOWER_FENCE UPPER_FENCE Redo 1 (Put [Byte.x07])) sample_wal;
      append_record (mkWalRecord 0 [Byte.x61] LOWER_FENCE UPPER_FENCE Undo 1 Tombstone) w) =
    Ok (st_wal (tx_store (sample_exec (take 2 sample_run))))) as Hc by (vm_compute; reflexivity).
  rewrite Hw1 in Hc. cbn [mbind outcome_bind] in Hc. rewrite Hw2 in Hc. by apply Ok_inj in Hc as <-.
Qed.

Lemma sample_second_put wr :
  put_fits wr (sample_exec (take 2 sample_run)) (ALeaf 0) {[0 := sample_view1]} [Byte.x61] [Byte.x09] sample_view1 [Byte.x61]
    sample_groups.
Proof.
  split; [reflexivity|reflexivity| | |vm_compute; reflexivity|].
  - split.
    + intros v0 t0 H. assert (Some ([Byte.x07], KVRecordType.Insert) = Some (v0, t0)) as [= <- _] by (rewrite <-H; vm_compute; reflexivity).
      reflexivity.
    + intros m _. assert (new_cost (v_content sample_view1) ([Byte.x61], [Byte.x09]) = 0%nat) as -> by (vm_compute; reflexivity). lia.
  - intros addr H. assert (place (st_map (tx_store (sample_exec (take 2 sample_run)))) 0 = Some (NMiniPage 0)) as H0
      by (vm_compute; reflexivity).
    pose proof (eq_trans (eq_sym H0) H). done.
  - split; [exact sample_wal_after|by repeat constructor; vm_compute|by vm_compute..].
Qed.

Lemma sample_spec_put : spec_put (ALeaf 0) [Byte.x61] [Byte.x07] sample_V = {[0 := sample_view1]}.
Proof. unfold spec_put, sample_V. by rewrite alter_singleton. Qed.

Lemma sample_first_two :
  fst (tx_get [Byte.x61] (fst (tx_put map_to_list 0 1 [Byte.x61] [Byte.x07] sample_tx))) = sample_exec (take 2 sample_run).
Proof. vm_compute. reflexivity. Qed.

Lemma sample_run_fits : run_fits map_to_list 0 0 sample_run false sample_tx (ALeaf 0) sample_V.
Proof.
  unfold sample_run. cbn [run_fits]. split; [exists empty_view, [Byte.x61]; eexists; exact sample_fits|].
  rewrite sample_spec_put. intros wr _. split; [by exists sample_view1, [Byte.x61]|].
  rewrite sample_first_two.
  split; [exists sample_view1, [Byte.x61]; eexists; exact (sample_second_put wr)|].
  intros wr' _. assert (routed (ALeaf 0) (spec_put (ALeaf 0) [Byte.x61] [Byte.x09] {[0 := sample_view1]}) [Byte.x61]
    /\ routed (ALeaf 0) (spec_put (ALeaf 0) [Byte.x61] [Byte.x09] {[0 := sample_view1]}) [Byte.x62]) as [H1 H2]
    by (split; apply routed_put; by eexists sample_view1, _).
  by split_and!.
Qed.

Lemma run_refines_witness :
  exists wr' x', exec map_to_list 0 0 sample_run sample_tx = (x', Ok [Some [Byte.x07]; Some [Byte.x09]; None]) /\
    ready wr' x' (ALeaf 0) (spec_state (ALeaf 0) sample_V sample_run) /\
    records (st_wal (tx_store x')) = begin_record :: sample_records ++
      [mkWalRecord 0 [Byte.x61] LOWER_FENCE UPPER_FENCE Redo 1 (Put [Byte.x09]);
       mkWalRecord 0 [Byte.x61] LOWER_FENCE UPPER_FENCE Undo 1 (Put [Byte.x07])].
Proof.
  exact (run_refines map_to_list 0 0 false sample_tx (ALeaf 0) sample_V _ sample_run sample_ready sample_run_fits sample_wal_inv).
Defined.

Lemma sample_log_room : Z.of_nat (length (file (st_wal (tx_store (fst (exec map_to_list 0 0 sample_run sample_tx)))))) + 23 <= u64_max.
Proof. apply Z.leb_le. vm_compute. reflexivity. Qed.

Lemma committed_run_recovered_witness :
  exists wr' x' new, (_ ← exec map_to_list 0 0 sample_run; tx_commit) sample_tx = (x', Ok tt) /\
    ready wr' x' (ALeaf 0) (spec_state (ALeaf 0) sample_V sample_run) /\
    let log := records (Wal.open (file (st_wal (tx_store x')))) in
    log = records (st_wal (tx_store sample_tx)) ++ new /\
    forall p v, sample_V !! p = Some v -> exists v', spec_state (ALeaf 0) sample_V sample_run !! p = Some v' /\
      fst (replay_records (txn_statuses (meta_log log)) (v_map v) (page_log p new)) = v_map v'.
Proof.
  apply (committed_run_recovered map_to_list 0 0 false sample_tx (ALeaf 0) sample_V [(TXN_META_PAGE_ID, [begin_record])]
    sample_run sample_ready eq_refl eq_refl ltac:(vm_compute; split; congruence) sample_run_fits sample_wal_inv sample_log_room).
Defined.
