(* ===== verification/TxDelete.v ===== *)
(** * Deletes, and puts that fail (src/lib.rs)

    [tx_delete] as an operation on the abstract store, and the error paths of [tx_put]. *)

From stdpp Require Import gmap.
From S2P Require Import Prelude Types BTreeMap MapTable IoEngine Wal Node PageOp Recovery BPNode BPTree LockManager Buffer Config Tx TxSpec TxLife.

(** ** The abstract delete *)

Definition v_type (v : view) (key : bytes) : option KVRecordType.t :=
  snd <$> bt_get (v_content v) (drop (length (v_prefix v)) key).

(** The value of a key whose record is not a tombstone. *)
Definition live_value (v : view) (key : bytes) : option bytes :=
  t ← v_type v key; if decide (t = KVRecordType.Tombstone) then None else v_get v key.

(** The record stays and becomes a tombstone. *)
Definition v_delete (key val : bytes) (v : view) : view :=
  mkView (v_lo v) (v_up v)
    (bt_alter (fun _ => (val, KVRecordType.Tombstone)) (v_content v) (drop (length (v_prefix v)) key)).

Definition delete_records (txn p : Z) (v : view) (key old : bytes) : list WalRecord :=
  [mkWalRecord p key (v_lo v) (v_up v) Redo txn Tombstone; mkWalRecord p key (v_lo v) (v_up v) Undo txn (Put old)].

(** No merge is tried: the tree is one leaf, or the leaf has enough records, its two fences
    counted. *)
Definition no_merge (a : abs_tree) (v : view) : Prop :=
  match a with ALeaf _ => True | AParent _ _ => (AUTO_MERGE_MIN_ENTRIES < length (v_content v) + 2)%nat end.

(** ** The pieces *)

Lemma ensure_mini_ok wr x a V p v s :
  held wr x a V p s -> V !! p = Some v ->
  (forall addr, place (st_map (tx_store x)) p = Some (NLeaf addr) -> can_alloc wr x) ->
  exists wr' x' s' i, ensure_mini_page p x = (x', Ok tt) /\ held wr' x' a V p s' /\ same_log x x' /\
    place (st_map (tx_store x')) p = Some (NMiniPage i) /\ only_page V x x' p.
Proof.
  intros Hd Hv Hca. destruct (h_pages _ _ _ _ (hd_holds _ _ _ _ _ _ Hd) p v Hv) as (node & Hn & _).
  unfold ensure_mini_page. rewrite (bindS_ok _ _ _ _ _ (node_of_run _ _ _ _ _ _ Hd node Hn)). destruct node as [addr|i].
  - destruct (promote_ok wr x a V p v s addr Hd Hv Hn (Hca addr Hn)) as (wr' & x' & s' & i & ? & ? & ? & ? & _ & ?).
    by exists wr', x', s', i.
  - exists wr, x, s, i. split_and!; [done..|]. by apply (same_only V x x p v).
Qed.

Lemma mini_of_run wr x a V p s i :
  held wr x a V p s -> place (st_map (tx_store x)) p = Some (NMiniPage i) -> mini_of p x = (x, Ok i).
Proof. intros Hd Hn. unfold mini_of. by rewrite (bindS_ok _ _ _ _ _ (node_of_run _ _ _ _ _ _ Hd _ Hn)). Qed.

Lemma user_entry_count_ok {E} m lo up es :
  leaf_repr m lo up es -> user_entry_count (E := E) m = Ok (length es + 2)%nat.
Proof.
  intros Hm. unfold user_entry_count. rewrite (entries_repr m _ (lr_repr _ _ _ _ Hm)). cbn [mbind outcome_bind].
  rewrite filter_all by (apply Forall_forall; intros; apply exists_always). f_equal.
  by rewrite length_imap, length_user_slots.
Qed.

Lemma no_merge_run page x a v n :
  tree_repr (inner_nodes (db x)) a -> no_merge a v -> n = (length (v_content v) + 2)%nat ->
  (if (n <=? AUTO_MERGE_MIN_ENTRIES)%nat then try_auto_merge page else mret tt) x = (x, Ok tt).
Proof.
  intros Ht Hno ->. destruct (Nat.leb_spec (length (v_content v) + 2) AUTO_MERGE_MIN_ENTRIES) as [Hle|]; [|done].
  destruct a as [q|low es]; [|unfold no_merge in Hno; lia].
  unfold try_auto_merge. run_pure x x. destruct Ht as (Hu & _ & _ & <- & Hr).
  rewrite (bindS_ok _ _ x x None); [done|]. unfold liftS, BPTree.debug_root_leaf_parent.
  by rewrite unlocked_free, get_root_leaf.
Qed.

(** The two records of a delete, the undo entry, and no checkpoint. *)
Lemma log_delete_ok iter wr x a V p v s i gs key old :
  held wr x a V p s -> V !! p = Some v -> place (st_map (tx_store x)) p = Some (NMiniPage i) -> wal_entry_kind x = Redo ->
  log_room x gs p (delete_records (Tx.txn_id x) p v key old) ->
  exists x', (forall (k : M bool),
      ('(_, lower_fence, upper_fence) ← leaf_snapshot p;
       _ ← on_wal (append_tombstone p key lower_fence upper_fence (wal_entry_kind x) (Tx.txn_id x));
       _ ← on_wal (append_put p key old lower_fence upper_fence Undo (Tx.txn_id x));
       _ ← log_delete_undo p key (Some old); _ ← maybe_checkpoint_leaf p; _ ← maybe_global_checkpoint iter; k) x = k x') /\
    held wr x' a V p s /\ same_txn x x' /\
    records (st_wal (tx_store x')) = records (st_wal (tx_store x)) ++ delete_records (Tx.txn_id x) p v key old /\
    undo_log x' = undo_log x ++ [Restore p key old] /\ inner_nodes (db x') = inner_nodes (db x).
Proof.
  intros Hd Hv Hn Hk Hlog. destruct (leaf_snapshot_ok wr x a V p v s i Hd Hv Hn) as (addr & Hsn).
  unfold delete_records in *.
  destruct (append_room x gs p _ _ Hlog eq_refl) as (w1 & Ha1 & Hr1 & Hlog1).
  destruct (append_room _ _ p _ _ Hlog1 eq_refl) as (w2 & Ha2 & Hr2 & Hlog2).
  set (x2 := set_wal w2 (set_wal w1 x)) in Hlog2. set (x3 := set_undo (undo_log x ++ [Restore p key old]) x2).
  assert (log_room x3 ((gs ++ [(p, _)]) ++ [(p, _)]) p []) as Hlog3 by (destruct Hlog2; by split).
  destruct (no_checkpoint iter x3 _ p Hlog3) as [Hc1 Hc2].
  exists x3. split_and!; [|by apply held_undo, held_wal, held_wal|done| |done|done].
  - intros k. rewrite (bindS_ok _ _ _ _ _ Hsn), Hk. rewrite (bindS_ok _ _ x (set_wal w1 x) tt) by (by apply on_wal_run).
    rewrite (bindS_ok _ _ _ x2 tt) by (by apply on_wal_run). rewrite (bindS_ok _ _ _ x3 tt) by done.
    by rewrite (bindS_ok _ _ _ _ _ Hc1), (bindS_ok _ _ _ _ _ Hc2).
  - change (records w2 = records (st_wal (tx_store x)) ++ delete_records (Tx.txn_id x) p v key old). unfold delete_records.
    rewrite Hr2. change (st_wal (tx_store (set_wal w1 x))) with w1. by rewrite Hr1, <-(assoc_L (++)).
Qed.

(** ** The delete *)

Lemma v_delete_prefix v k val :
  v_delete (v_prefix v ++ k) val v = mkView (v_lo v) (v_up v) (bt_alter (fun _ => (val, KVRecordType.Tombstone)) (v_content v) k).
Proof. unfold v_delete. by rewrite drop_app_length. Qed.

Lemma live_value_prefix v k :
  live_value v (v_prefix v ++ k) =
    '(old, t) ← bt_get (v_content v) k; if decide (t = KVRecordType.Tombstone) then None else Some old.
Proof. unfold live_value, v_type, v_get. rewrite drop_app_length. by destruct (bt_get (v_content v) k) as [[old t]|]. Qed.

Lemma covered_delete d v k val :
  bt_sorted (v_content v) -> covered d v ->
  covered d (mkView (v_lo v) (v_up v) (bt_alter (fun _ => (val, KVRecordType.Tombstone)) (v_content v) k)).
Proof.
  intros Hs (ds & Hds & Hc). exists ds. split; [exact Hds|]. intros k'. cbn [v_content].
  rewrite bt_get_alter by done. case_match; [done|apply Hc..].
Qed.

(** Marking the record on the mini-page. *)
Lemma mark_mini_ok wr x a V p v s i k old t :
  held wr x a V p s -> V !! p = Some v -> place (st_map (tx_store x)) p = Some (NMiniPage i) ->
  bt_get (v_content v) k = Some (old, t) -> t <> KVRecordType.Tombstone ->
  let v' := v_delete (v_prefix v ++ k) old v in
  exists x', on_mini i no_err (mark_tombstone (v_prefix v ++ k)) x = (x', Ok true) /\
    held wr x' a (<[p := v']> V) p s /\ same_log x x' /\ place (st_map (tx_store x')) p = Some (NMiniPage i) /\
    inner_nodes (db x') = inner_nodes (db x) /\
    (m ← mini (E := QSError) x' i; user_entry_count m) = Ok (length (v_content v') + 2)%nat.
Proof.
  intros Hd Hv Hn Hg Ht v'. destruct (page_bytes_mini wr x a V p v s Hd Hv i Hn) as (m & Hm & Hsh).
  pose proof (shows_sorted m v Hsh) as Hso. destruct Hsh as (es & Hes & Hc). rewrite <-Hc in Hg.
  destruct (mark_live (E := QSError) m _ _ es k old t Hes Hg Ht) as (m' & es' & Hrun & Hm' & Hc' & Hle & Hl & Hh).
  destruct (node_at_range _ _ _ Hm) as [Hr Hlm].
  exists (set_mini i m' x). split_and!; [| |done|done|done|].
  - unfold on_mini. rewrite Hm. unfold v_prefix. by rewrite Hrun.
  - apply (change_mini wr x a V p v s Hd Hv i m); [done|done|done| |by rewrite Hh|].
    + exists es'. unfold v'. rewrite v_delete_prefix. split; [done|]. cbn [v_content]. by rewrite Hc', Hc.
    + intros d _. unfold v'. rewrite v_delete_prefix. by apply covered_delete.
  - assert (mini (E := QSError) (set_mini i m' x) i = Ok m') as -> by (apply node_at_same; [done|lia]).
    cbn [mbind outcome_bind]. rewrite (user_entry_count_ok _ _ _ _ Hm'). f_equal. f_equal.
    unfold v'. rewrite v_delete_prefix. cbn [v_content]. rewrite <-Hc, <-Hc'. unfold content. by rewrite length_fmap.
Qed.

Lemma get_mini_ok wr x a V p v s i k :
  held wr x a V p s -> V !! p = Some v -> place (st_map (tx_store x)) p = Some (NMiniPage i) ->
  liftS (S := TxSt) (E := QSError) (m ← mini x i; Node.get m (v_prefix v ++ k)) x = (x, Ok (fst <$> bt_get (v_content v) k)).
Proof.
  intros Hd Hv Hn. destruct (page_bytes_mini wr x a V p v s Hd Hv i Hn) as (m & Hm & es & Hes & Hc).
  unfold liftS. rewrite Hm. cbn [mbind outcome_bind]. unfold v_prefix. by rewrite (get_leaf _ _ _ _ Hes), Hc.
Qed.

(** The page is written back as it is. *)
Lemma mark_dead_ok wr x a V p v s i k old t :
  held wr x a V p s -> V !! p = Some v -> place (st_map (tx_store x)) p = Some (NMiniPage i) ->
  bt_get (v_content v) k = Some (old, t) -> t = KVRecordType.Tombstone ->
  exists x', on_mini i no_err (mark_tombstone (v_prefix v ++ k)) x = (x', Ok false) /\ held wr x' a V p s /\ same_log x x'.
Proof.
  intros Hd Hv Hn Hg Ht. destruct (page_bytes_mini wr x a V p v s Hd Hv i Hn) as (m & Hm & Hsh).
  pose proof Hsh as (es & Hes & Hc). exists (set_mini i m x). split_and!; [| |done].
  - unfold on_mini. rewrite Hm. unfold v_prefix. rewrite (mark_dead (E := QSError) m _ _ es k Hes); [done|].
    intros ? ?. rewrite Hc, Hg. by intros [= _ <-].
  - rewrite <-(insert_id V p v Hv). by apply (change_mini wr x a V p v s Hd Hv i m).
Qed.

Section delete.
Context (iter : gmap Z LeafWalStats -> list (Z * LeafWalStats)).
Context (wr : bool) (x : TxSt) (a : abs_tree) (V : gmap Z view) (key : bytes) (v : view) (k : bytes) (gs : list group).
Let p := aroute a key.

(** The leaf can be brought into the buffer and the log has room: no checkpoint. *)
Record delete_room : Prop := {
  dr_view : V !! p = Some v;
  dr_key : key = v_prefix v ++ k;
  dr_alloc : forall addr, place (st_map (tx_store x)) p = Some (NLeaf addr) -> can_alloc wr x;
  dr_kind : wal_entry_kind x = Redo;
  dr_log : forall old, live_value v key = Some old -> log_room x gs p (delete_records (Tx.txn_id x) p v key old) }.

(** A delete that merges nothing either. *)
Record delete_fits : Prop := {
  df_room : delete_room;
  df_merge : forall old, no_merge a (v_delete key old v) }.

(** What is left of a delete once the record is a tombstone and logged. *)
Definition delete_rest (n : nat) : M bool :=
  finally p (_ ← (if (n <=? AUTO_MERGE_MIN_ENTRIES)%nat then try_auto_merge p else mret tt); mret true).

(** The delete up to the point where it looks for a neighbour to merge with. *)
Lemma delete_run :
  ready wr x a V -> delete_room ->
  exists wr' x', match live_value v key with
  | Some old =>
      let v' := v_delete key old v in
      exists s, tx_delete iter key x = delete_rest (length (v_content v') + 2) x' /\ held wr' x' a (<[p := v']> V) p s /\
        records (st_wal (tx_store x')) = records (st_wal (tx_store x)) ++ delete_records (Tx.txn_id x) p v key old /\
        undo_log x' = undo_log x ++ [Restore p key old]
  | None => tx_delete iter key x = (x', Ok false) /\ ready wr' x' a V /\ same_log x x'
  end.
Proof.
  intros Hr [Hv Hkey Hca Hkind Hlog].
  destruct (traverse_run x a key) as (res & Ht & Hp); [apply Hr|]. fold p in Hp.
  destruct (write_locked wr x a V p v Hr Hv) as (lm1 & s & Hlk & Hd & Hpl & _).
  destruct (ensure_mini_ok wr (set_lm lm1 x) a V p v s Hd Hv) as (wr1 & x1 & s1 & i & Hen & Hd1 & Hsl1 & Hn1 & _).
  { intros addr Ha. apply (Hca addr). rewrite <-Hpl. exact Ha. }
  assert (same_log x x1) as Hsl by (etransitivity; [|exact Hsl1]; done).
  exists wr1. unfold tx_delete. rewrite (bindS_ok _ _ _ _ _ Ht), Hp, (bindS_ok _ _ _ _ _ Hlk). unfold delete_rest, finally.
  rewrite (bindS_ok _ _ _ _ _ Hen), (bindS_ok _ _ _ _ _ (mini_of_run _ _ _ _ _ _ _ Hd1 Hn1)), (bindS_ok _ _ x1 x1 x1) by done.
  rewrite Hkey in Hlog |- *. rewrite (bindS_ok _ _ _ _ _ (get_mini_ok _ _ _ _ _ _ _ _ k Hd1 Hv Hn1)).
  rewrite live_value_prefix in Hlog |- *.
  destruct (bt_get (v_content v) k) as [[old t]|] eqn:Hg; cbn [fmap option_fmap option_map fst mbind option_bind] in *; [case_decide as Htt|].
  - destruct (mark_dead_ok _ _ _ _ _ _ _ _ k old t Hd1 Hv Hn1 Hg Htt) as (x2 & Hm & Hd2 & Hsl2). run Hm. cbn [negb mret stM_ret].
    destruct (drop_run _ _ _ _ _ _ Hd2) as (x' & -> & Hr' & Hsl' & _). exists x'. split_and!; [done|done|].
    transitivity x1; [done|]. by transitivity x2.
  - destruct (mark_mini_ok _ _ _ _ _ _ _ _ k old t Hd1 Hv Hn1 Hg Htt) as (x2 & Hm & Hd2 & Hsl2 & Hn2 & Htree & Hcount). run Hm.
    set (v' := v_delete (v_prefix v ++ k) old v) in *.
    assert (same_log x x2) as Hslx by (by transitivity x1). pose proof Hslx as (E1 & E2 & E3 & E4 & _).
    cbn [negb]. rewrite (bindS_ok _ _ x2 x2 x2) by done. rewrite (bindS_ok _ _ x2 x2 (length (v_content v') + 2)%nat) by (unfold liftS; by rewrite Hcount).
    destruct (log_delete_ok iter wr1 x2 a _ p v' s1 i gs (v_prefix v ++ k) old Hd2) as (x3 & Hrun & Hd3 & _ & Hrec & Hundo & Htree3).
    { by rewrite lookup_insert_eq. }
    { done. }
    { by rewrite E4. }
    { rewrite E3. exact (log_room_same _ _ _ _ _ Hslx (Hlog old eq_refl)). }
    exists x3, s1. rewrite Hrun, Hrec, Hundo, E1, E2, E3. done.
  - destruct (drop_run _ _ _ _ _ _ Hd1) as (x' & Hdrop & Hr' & Hsl' & _). exists x'. cbn [mret stM_ret].
    rewrite Hdrop. split_and!; [done|done|]. by transitivity x1.
Qed.

Lemma delete_ok old :
  ready wr x a V -> delete_fits -> live_value v key = Some old ->
  exists wr' x', tx_delete iter key x = (x', Ok true) /\ ready wr' x' a (<[p := v_delete key old v]> V) /\
    records (st_wal (tx_store x')) = records (st_wal (tx_store x)) ++ delete_records (Tx.txn_id x) p v key old /\
    undo_log x' = undo_log x ++ [Restore p key old].
Proof.
  intros Hr [Hroom Hmerge] Hlive. destruct (delete_run Hr Hroom) as (wr' & x3 & H). rewrite Hlive in H.
  destruct H as (s & Hrun & Hd & Hrec & Hundo).
  destruct (drop_run _ _ _ _ _ _ Hd) as (x' & Hdrop & Hr' & (F1 & F2 & _) & _). exists wr', x'.
  rewrite Hrun, F1, F2. split_and!; [|done..]. unfold delete_rest, finally.
  rewrite (bindS_ok _ _ x3 x3 tt) by (by apply (no_merge_run p x3 a (v_delete key old v)); [apply Hd|..]).
  cbn [mret stM_ret]. by rewrite Hdrop.
Qed.

(** A page with the tombstone still answers with the value. *)
Lemma deleted_get old : key = v_prefix v ++ k ->
  let V' := <[p := v_delete key old v]> V in routed a V' key /\ spec_get a V' key = Some old.
Proof.
  intros Hkey V'. assert (V' !! aroute a key = Some (v_delete key old v)) as HV by (unfold V', p; by rewrite lookup_insert_eq).
  split; [by exists (v_delete key old v), k|]. unfold spec_get, v_get. rewrite HV. cbn [mbind option_bind].
  change (v_prefix (v_delete key old v)) with (v_prefix v). unfold v_delete. cbn [v_content]. by rewrite bt_get_alter_eq.
Qed.

(** C5. A delete when the key's leaf is in the buffer or the ring has a place for it, no leaf
    or global checkpoint is due, and no merge is tried (the tree is one leaf, or the leaf has
    records enough).  It turns the record of a live key into a tombstone that keeps the value,
    answers [true], and logs the redo and the undo record and the action that reverts it; for
    a key that is absent or deleted already it answers [false] and changes neither the store
    nor the log. *)
Theorem tx_delete_refines :
  ready wr x a V -> delete_fits ->
  exists wr' x',
    match live_value v key with
    | Some old =>
        tx_delete iter key x = (x', Ok true) /\ ready wr' x' a (<[p := v_delete key old v]> V) /\
        records (st_wal (tx_store x')) = records (st_wal (tx_store x)) ++ delete_records (Tx.txn_id x) p v key old /\
        undo_log x' = undo_log x ++ [Restore p key old]
    | None => tx_delete iter key x = (x', Ok false) /\ ready wr' x' a V /\ same_log x x'
    end.
Proof.
  intros Hr Hf. destruct (live_value v key) as [old|] eqn:Hlive; [by apply delete_ok|].
  destruct (delete_run Hr (df_room Hf)) as (wr' & x' & H). rewrite Hlive in H. by exists wr', x'.
Qed.

(** C38. A deleted key is still read: in every state where a delete succeeds without a merge, it
    answers [true], and the same transaction then reads the value the key had before.  So does
    every transaction that finds the store as the delete left it. *)
Theorem delete_keeps_value (old : bytes) :
  ready wr x a V -> delete_fits -> live_value v key = Some old ->
  exists wr' x', (deleted ← tx_delete iter key; r ← tx_get key; mret (deleted, r)) x = (x', Ok (true, Some old)) /\
    ready wr' x' a (<[p := v_delete key old v]> V) /\
    forall wr2 x2, ready wr2 x2 a (<[p := v_delete key old v]> V) -> snd (tx_get key x2) = Ok (Some old).
Proof.
  intros Hr Hf Hlive. destruct (deleted_get old (dr_key (df_room Hf))) as [Hk Hget].
  destruct (delete_ok old Hr Hf Hlive) as (wr' & x1 & Hdel & Hr1 & _).
  destruct (get_ok _ _ _ _ _ Hr1 Hk) as (x' & Hx' & Hr' & _). rewrite Hget in Hx'.
  exists wr', x'. split_and!; [run Hdel; by run Hx'|done|].
  intros wr2 x2 Hr2. destruct (get_ok _ _ _ _ _ Hr2 Hk) as (? & Hx & _). by rewrite Hx, Hget.
Qed.
End delete.

(** ** What the calls log, as recovery describes it *)

(** The page with full keys. *)
Definition v_full (v : view) : page_map := (fun e => (v_prefix v ++ e.1, e.2)) <$> v_content v.

Lemma v_full_get v k : bt_get (v_full v) (v_prefix v ++ k) = bt_get (v_content v) k.
Proof.
  unfold v_full. induction (v_content v) as [|[k' e'] c IH]; [done|]. rewrite fmap_cons. cbn [bt_get fst snd].
  change (kcmp (v_prefix v ++ k) (v_prefix v ++ k')) with (bytes_cmp (v_prefix v ++ k) (v_prefix v ++ k')).
  rewrite bytes_cmp_app. change (kcmp k k') with (bytes_cmp k k'). by destruct (bytes_cmp k k').
Qed.

Lemma v_full_alter v f k : v_full (mkView (v_lo v) (v_up v) (bt_alter f (v_content v) k)) = bt_alter f (v_full v) (v_prefix v ++ k).
Proof.
  unfold v_full. cbn [v_content]. change (v_prefix (mkView _ _ _)) with (v_prefix v).
  induction (v_content v) as [|[k' e'] c IH]; [done|]. rewrite (fmap_cons _ _ c). cbn [bt_alter fst snd].
  change (kcmp (v_prefix v ++ k) (v_prefix v ++ k')) with (bytes_cmp (v_prefix v ++ k) (v_prefix v ++ k')).
  rewrite bytes_cmp_app. change (kcmp k k') with (bytes_cmp k k').
  destruct (bytes_cmp k k'); [done|done|]. by rewrite fmap_cons, IH.
Qed.

(** What [tx_put] appends and does to the page is a write of [Recovery]'s histories. *)
Lemma put_logged x p v k val :
  let key := v_prefix v ++ k in
  put_records x p v key val = page_records p (v_lo v) (v_up v) (Tx.txn_id x) (v_full v) key (Some val) /\
  v_full (v_put key val v) = page_write (v_full v) key (Some val).
Proof.
  intros key. split.
  - rewrite (put_records_eq x p v key val _ (v_map_get v k)). unfold page_records, logged, key. by rewrite v_full_get.
  - unfold key. rewrite v_put_prefix. apply v_full_alter.
Qed.

(** And so is what [tx_delete] does, for a live record and for any other. *)
Lemma delete_logged txn p v k :
  let key := v_prefix v ++ k in
  match live_value v key with
  | Some old =>
      delete_records txn p v key old = page_records p (v_lo v) (v_up v) txn (v_full v) key None /\
      v_full (v_delete key old v) = page_write (v_full v) key None
  | None =>
      page_records p (v_lo v) (v_up v) txn (v_full v) key None = [] /\ page_write (v_full v) key None = v_full v
  end.
Proof.
  intros key. unfold key. rewrite live_value_prefix. unfold page_records, page_write, logged. rewrite v_full_get.
  destruct (bt_get (v_content v) k) as [[old t]|]; [|done]. cbn [mbind option_bind]. case_decide; [done|].
  split; [done|]. rewrite v_delete_prefix. apply v_full_alter.
Qed.

(** ** A put that finds no place in the buffer *)

(** An allocation that fails leaves the ring as it was. *)
Lemma alloc_none (b b' : MiniPageBuffer) :
  free_lists b !! NodeSize.index NodeSize.LeafPage = Some usize_max ->
  alloc NodeSize.LeafPage b = Ok (b', None) -> b' = b.
Proof.
  intros Hf Ha. assert (alloc NodeSize.LeafPage b = Ok (alloc_loop SPIN_RETRIES 512 b)) as Hal.
  { unfold alloc, pop_freelist. rewrite Hf. reflexivity. }
  rewrite Ha in Hal. apply Ok_inj in Hal. destruct spin_two as [n Hn]. rewrite Hn in Hal. cbn [alloc_loop] in Hal.
  destruct (Z.leb_spec (head b) (tail b)) as [Hle|Hgt].
  - destruct (Z.leb_spec 512 (buff_size b - tail b)); [done|]. destruct (Z.ltb_spec 512 (head b)) as [Hh|]; [|by injection Hal].
    cbn [head tail set_tail] in Hal. rewrite (proj2 (Z.leb_gt _ _)) in Hal by lia. rewrite (proj2 (Z.leb_le _ _)) in Hal by lia. done.
  - destruct (Z.leb_spec 512 (head b - tail b)); [done|by injection Hal].
Qed.

Definition on_disk (x : TxSt) (p : Z) : Prop := exists addr, place (st_map (tx_store x)) p = Some (NLeaf addr).
Definition buffer_full (x : TxSt) : Prop := exists b, alloc NodeSize.LeafPage (st_cache (tx_store x)) = Ok (b, None).

(** C34. A put whose leaf is on disk fails with [CacheExhausted] when the buffer has no room for it:
    promotion allocates without evicting.  The failed put gives its handle back and leaves
    the store, the log and the undo log as they were. *)
Theorem put_cache_exhausted (iter : gmap Z LeafWalStats -> list (Z * LeafWalStats)) (evict_fuel fuel : nat)
    (wr : bool) (x : TxSt) (a : abs_tree) (V : gmap Z view) (key val : bytes) :
  ready wr x a V -> routed a V key -> on_disk x (aroute a key) -> buffer_full x ->
  exists x', tx_put iter evict_fuel (S fuel) key val x = (x', Err CacheExhausted) /\ ready wr x' a V /\ same_log x x'.
Proof.
  intros Hr (v & k & Hv & Hkey) [addr Hn] [b' Ha]. set (p := aroute a key) in *.
  destruct (traverse_run x a key) as (res & Ht & Hp); [apply Hr|]. fold p in Hp.
  destruct (write_locked wr x a V p v Hr Hv) as (lm1 & s & Hlk & Hd & Hpl & _).
  assert (existing_value p key (set_lm lm1 x) = (set_lm lm1 x, Ok (fst <$> bt_get (v_content v) k))) as Hex.
  { rewrite Hkey. by apply (existing_value_ok wr _ a V p v s Hd Hv). }
  assert (b' = st_cache (tx_store x)) as ->.
  { apply alloc_none; [|exact Ha]. by apply (h_ring _ _ _ _ (proj1 Hr)). }
  assert (try_put_with_promotion p key val (set_lm lm1 x) = (set_lm lm1 x, Err CacheExhausted)) as Hput.
  { unfold try_put_with_promotion. rewrite (bindS_ok _ _ _ _ _ (node_of_run _ _ _ _ _ _ Hd (NLeaf addr) (eq_trans Hpl Hn))).
    apply bindS_err. unfold promote_leaf_to_mini_page.
    rewrite (bindS_ok _ _ (set_lm lm1 x) (set_lm lm1 x) None).
    2: { unfold alloc_page. change (st_cache (tx_store (set_lm lm1 x))) with (st_cache (tx_store x)). rewrite Ha. by destruct x as [[? []]]. }
    done. }
  destruct (drop_run wr (set_lm lm1 x) a V p s Hd) as (x' & Hdrop & Hready & Hsl & _). exists x'.
  split_and!; [|done|etransitivity; [|exact Hsl]; done].
  unfold tx_put. rewrite (bindS_ok _ _ _ _ _ Ht), Hp, (bindS_ok _ _ _ _ _ Hlk).
  rewrite (bindS_ok _ _ _ (set_lm lm1 x) (fst <$> bt_get (v_content v) k)) by (unfold on_error; by rewrite Hex).
  cbn [put_loop]. apply bindS_err. unfold on_error. by rewrite Hput, Hdrop.
Qed.

(** ** Concrete runs *)

Lemma one_delete_fits :
  delete_fits false one_tx (ALeaf 0) {[0 := one_view]} [Byte.x61] one_view [Byte.x61] [(TXN_META_PAGE_ID, [begin_record])].
Proof.
  split; [|done]. split; [reflexivity|reflexivity| |reflexivity|].
  - intros _ _. split; [by intros [? ?]|]. eexists _, _. vm_compute. reflexivity.
  - intros old Ho. assert (Some [Byte.x07] = Some old) as [= <-] by exact Ho.
    split; [exact sample_wal_inv|by repeat constructor; vm_compute|by vm_compute..].
Qed.

Lemma tx_delete_refines_witness :
  exists wr' x', tx_delete map_to_list [Byte.x61] one_tx = (x', Ok true) /\
    ready wr' x' (ALeaf 0) (<[0 := v_delete [Byte.x61] [Byte.x07] one_view]> {[0 := one_view]}) /\
    records (st_wal (tx_store x')) = [begin_record;
      mkWalRecord 0 [Byte.x61] LOWER_FENCE UPPER_FENCE Redo 1 Tombstone;
      mkWalRecord 0 [Byte.x61] LOWER_FENCE UPPER_FENCE Undo 1 (Put [Byte.x07])] /\
    undo_log x' = [Restore 0 [Byte.x61] [Byte.x07]].
Proof.
  exact (tx_delete_refines map_to_list false one_tx (ALeaf 0) {[0 := one_view]} [Byte.x61] one_view [Byte.x61] _ one_ready one_delete_fits).
Defined.

Lemma delete_keeps_value_witness :
  exists wr' x', (deleted ← tx_delete map_to_list [Byte.x61]; r ← tx_get [Byte.x61]; mret (deleted, r)) one_tx
      = (x', Ok (true, Some [Byte.x07])) /\
    ready wr' x' (ALeaf 0) (<[0 := v_delete [Byte.x61] [Byte.x07] one_view]> {[0 := one_view]}) /\
    forall wr2 x2, ready wr2 x2 (ALeaf 0) (<[0 := v_delete [Byte.x61] [Byte.x07] one_view]> {[0 := one_view]}) ->
      snd (tx_get [Byte.x61] x2) = Ok (Some [Byte.x07]).
Proof.
  exact (delete_keeps_value map_to_list false one_tx (ALeaf 0) {[0 := one_view]} [Byte.x61] one_view [Byte.x61] _ [Byte.x07]
    one_ready one_delete_fits eq_refl).
Defined.

(** A buffer of 256 words, half a leaf. *)
Definition cramped_tx : TxSt :=
  let q := fresh_db 1 2 11 100 1000 100000 2 in
  mkTxSt (set_store (mkStore (st_cache (store q)) (st_map (store q)) (st_io (store q)) sample_wal) q) ∅ 1 Redo [] Active.

Lemma cramped_ready : ready false cramped_tx (ALeaf 0) {[0 := empty_view]}.
Proof. apply holds_fresh; lia. Qed.

Lemma cramped_alloc : alloc NodeSize.LeafPage (st_cache (tx_store cramped_tx)) = Ok (st_cache (tx_store cramped_tx), None).
Proof. vm_compute. reflexivity. Qed.

Lemma put_cache_exhausted_witness :
  exists x', tx_put map_to_list 0 1 [Byte.x61] [Byte.x07] cramped_tx = (x', Err CacheExhausted) /\
    ready false x' (ALeaf 0) {[0 := empty_view]} /\ same_log cramped_tx x'.
Proof.
  apply (put_cache_exhausted map_to_list 0 0 false cramped_tx (ALeaf 0) {[0 := empty_view]} [Byte.x61] [Byte.x07]
    cramped_ready (sample_routed [Byte.x61])); [by exists 0; vm_compute|eexists; exact cramped_alloc].
Defined.
