(* ===== verification/TxHistory.v ===== *)
(** * Histories of transactions and a crash (src/lib.rs, src/wal.rs)

    Transactions run one after the other, each commits and the next begins; the last one is
    cut off by a crash.  What the log file has then replays to exactly the committed ones. *)

From stdpp Require Import gmap.
From S2P Require Import Prelude Types BTreeMap MapTable IoEngine Wal Node PageOp Recovery BPNode BPTree LockManager Buffer Config Tx Typed TxSpec TxLife TxRun.

(** ** The abstract history *)

Definition spec_history (a : abs_tree) (V : gmap Z view) (hs : list (list request)) : gmap Z view := foldl (spec_state a) V hs.

(** What the committed transactions append to the log; their numbers follow each other. *)
Fixpoint hist_log (txn : Z) (a : abs_tree) (V : gmap Z view) (hs : list (list request)) : list WalRecord :=
  match hs with
  | [] => []
  | rs :: hs => run_log txn a V rs ++ [marker Commit txn; marker Begin (txn + 1)] ++ hist_log (txn + 1) a (spec_state a V rs) hs
  end.

Fixpoint history_routed (a : abs_tree) (V : gmap Z view) (hs : list (list request)) : Prop :=
  match hs with
  | [] => True
  | rs :: hs => run_routed a V rs /\ history_routed a (spec_state a V rs) hs
  end.

(** The keys a run writes, in order. *)
Definition put_keys (rs : list request) : list bytes := omap (fun r => match r with RPut k _ => Some k | RGet _ => None end) rs.

(** A transaction that is running: its number, and the next one's. *)
Record running (σ : shape) (lt rt bt txn : Z) (wr : bool) (x : TxSt) (a : abs_tree) (V : gmap Z view) (gs : list group) : Prop := {
  rn_ready : ready wr x a V;
  rn_active : Tx.state x = Active;
  rn_wal : wal_inv (st_wal (tx_store x)) gs;
  rn_typed : tx_typed (mkFixed σ lt rt bt (txn + 1) txn Redo) x;
  rn_txn : 0 <= txn < u64_max }.

Section history.
Context (iter : gmap Z LeafWalStats -> list (Z * LeafWalStats)) (evict_fuel fuel : nat).
Context (σ : shape) (lt rt bt : Z).

(** A transaction that commits, and the begin of the next one. *)
Definition one_txn (rs : list request) : M unit := _ ← exec iter evict_fuel fuel rs; _ ← tx_commit; then_tx.
Definition run_history (hs : list (list request)) : M unit := forM_ one_txn hs.

(** Every run fits where it is reached, and the log has room for the markers. *)
Fixpoint history_fits (hs : list (list request)) (last : list request) (wr : bool) (x : TxSt) (a : abs_tree) (V : gmap Z view) : Prop :=
  match hs with
  | [] => run_fits iter evict_fuel fuel last wr x a V
  | rs :: hs =>
      run_fits iter evict_fuel fuel rs wr x a V /\
      Z.of_nat (length (file (st_wal (tx_store (fst (exec iter evict_fuel fuel rs x)))))) + 46 <= u64_max /\
      Tx.txn_id x + 1 < u64_max /\
      forall wr', ready wr' (fst (one_txn rs x)) a (spec_state a V rs) ->
        history_fits hs last wr' (fst (one_txn rs x)) a (spec_state a V rs)
  end.

#[local] Instance typed_exec φ rs : Keeps (tx_typed φ) (exec iter evict_fuel fuel rs).
Proof.
  induction rs as [|[k|k v] rs IH]; cbn [exec]; [apply _|..]; (apply keeps_bind; [apply _|]; intros ?); [|exact IH].
  apply keeps_bind; [exact IH|]. intros ?. apply _.
Qed.

Lemma one_txn_ok rs txn wr x a V gs :
  running σ lt rt bt txn wr x a V gs -> run_fits iter evict_fuel fuel rs wr x a V ->
  Z.of_nat (length (file (st_wal (tx_store (fst (exec iter evict_fuel fuel rs x)))))) + 46 <= u64_max -> txn + 1 < u64_max ->
  exists wr' x' gs', one_txn rs x = (x', Ok tt) /\ running σ lt rt bt (txn + 1) wr' x' a (spec_state a V rs) gs' /\
    records (st_wal (tx_store x')) =
      records (st_wal (tx_store x)) ++ run_log txn a V rs ++ [marker Commit txn; marker Begin (txn + 1)] /\
    run_routed a V rs.
Proof.
  intros [Hr Hst Hw Hty Ht] Hf Hsz Hlt. pose proof Hty as [[_ _ _ _ _ Hnx] Hid Hk]. cbn [fx_next fx_txn fx_kind] in Hnx, Hid, Hk.
  destruct (exec_ok iter evict_fuel fuel rs wr x a V gs Hr Hf Hw) as (wr' & x1 & gs1 & Hrun & Hr1 & (T1 & T2 & T3) & Hrec & Hw1 & Hro).
  pose proof (typed_exec _ rs x Hty) as Hty1. rewrite Hrun in Hsz, Hty1. cbn [fst] in Hsz, Hty1. rewrite (wal_file_length _ _ Hw1) in Hsz.
  pose proof Hty1 as [[_ _ _ _ _ Hnx1] Hid1 _]. cbn [fx_next fx_txn] in Hnx1, Hid1.
  destruct (commit_begin_ok wr' x1 a _ gs1 Hr1) as (x2 & x3 & gs3 & Hc & _ & _ & _ & Hb & Hr3 & _ & Hst3 & Hw3 & Hrec3).
  { congruence. } { congruence. } { rewrite Hid1. unfold is_u64, u64_max in *. lia. } { rewrite Hnx1. unfold is_u64, u64_max in *. lia. }
  { done. } { lia. }
  assert (tx_typed (mkFixed σ lt rt bt (txn + 1) txn Redo) x2) as Hty2.
  { pose proof (keeps_bind _ _ _ (typed_commit_in_place _) (fun _ => typed_drop _) x1 Hty1) as H. fold tx_commit in H. by rewrite Hc in H. }
  assert (next_txn_id (db x2) = txn + 1) as Hnx2 by apply Hty2.
  pose proof (qs_typed_begin _ _ _ _ _ x3 (qs_typed_end _ _ Hty2) Hb) as Hty3. cbn [fx_shape fx_leaf fx_records fx_bytes] in Hty3.
  rewrite Hnx2 in Hty3. replace (u64 (txn + 1 + 1)) with (txn + 1 + 1) in Hty3 by (symmetry; apply Z.mod_small; unfold u64_max in *; lia).
  exists wr', x3, gs3. split_and!; [|split; [done|done|done|done|lia]| |done].
  - unfold one_txn. run Hrun. run Hc. unfold then_tx. by rewrite Hb.
  - by rewrite Hrec3, Hrec, Hid1, Hid, Hnx1, <-(assoc_L (++)).
Qed.

Lemma history_ok hs last txn wr x a V gs :
  running σ lt rt bt txn wr x a V gs -> history_fits hs last wr x a V ->
  exists wr' x' gs', run_history hs x = (x', Ok tt) /\
    running σ lt rt bt (txn + Z.of_nat (length hs)) wr' x' a (spec_history a V hs) gs' /\
    run_fits iter evict_fuel fuel last wr' x' a (spec_history a V hs) /\
    records (st_wal (tx_store x')) = records (st_wal (tx_store x)) ++ hist_log txn a V hs /\ history_routed a V hs.
Proof.
  revert txn wr x V gs; induction hs as [|rs hs IH]; intros txn wr x V gs Hr Hf; cbn [history_fits hist_log history_routed] in *.
  - exists wr, x, gs. rewrite Z.add_0_r, app_nil_r. by split_and!.
  - destruct Hf as (Hf & Hsz & Hlt & Hnext). pose proof (tt_txn _ _ (rn_typed _ _ _ _ _ _ _ _ _ _ Hr)) as Hid. cbn [fx_txn] in Hid.
    destruct (one_txn_ok rs txn wr x a V gs Hr Hf Hsz) as (wr1 & x1 & gs1 & Hrun & Hr1 & Hrec1 & Hro); [lia|].
    rewrite Hrun in Hnext. destruct (IH (txn + 1) wr1 x1 _ gs1 Hr1) as (wr' & x' & gs' & Hh & Hr' & Hfit & Hrec & Hrt).
    { apply Hnext. apply Hr1. }
    exists wr', x', gs'. split_and!; [|by replace (txn + Z.of_nat (length (rs :: hs))) with (txn + 1 + Z.of_nat (length hs)) by (cbn [length]; lia)|done| |done|done].
    + unfold run_history. rewrite forM_cons. by run Hrun.
    + by rewrite Hrec, Hrec1, <-!(assoc_L (++)).
Qed.
End history.

(** ** Which transactions the log says are committed *)

Definition statuses_from (st : gmap Z TxStatus) (rs : list WalRecord) : gmap Z TxStatus :=
  foldl (fun statuses r =>
    match op r with
    | TxnMarker Commit => <[Wal.txn_id r := Committed]> statuses
    | TxnMarker Abort_ => <[Wal.txn_id r := Aborted]> statuses
    | _ => statuses
    end) st rs.

Lemma statuses_app rs1 rs2 : txn_statuses (meta_log (rs1 ++ rs2)) = statuses_from (txn_statuses (meta_log rs1)) (meta_log rs2).
Proof. unfold meta_log, page_log. rewrite filter_app. unfold txn_statuses. by rewrite foldl_app. Qed.

Lemma statuses_from_app st rs1 rs2 :
  statuses_from st (meta_log (rs1 ++ rs2)) = statuses_from (statuses_from st (meta_log rs1)) (meta_log rs2).
Proof. unfold meta_log, page_log. rewrite filter_app. unfold statuses_from. by rewrite foldl_app. Qed.

(** Reads and writes do not decide about a transaction. *)
Definition not_marker (r : WalRecord) : Prop := match op r with TxnMarker _ => False | _ => True end.

Lemma statuses_writes st rs : Forall not_marker rs -> statuses_from st rs = st.
Proof. intros H. induction H as [|r rs Hr _ IH]; [done|]. cbn [statuses_from foldl]. unfold not_marker in Hr. by destruct (op r). Qed.

Lemma run_log_writes txn a V rs : Forall not_marker (run_log txn a V rs).
Proof.
  revert V; induction rs as [|r rs IH]; intros V; [constructor|]. cbn [run_log]. apply Forall_app. split; [|apply IH].
  destruct r as [k|k v]; cbn [step_log]; [constructor|]. destruct (V !! aroute a k) as [w|]; [|constructor].
  unfold write_records, write_op. destruct (bt_get (v_map w) k); by repeat constructor.
Qed.

Lemma statuses_run st txn a V rs : statuses_from st (meta_log (run_log txn a V rs)) = st.
Proof.
  apply statuses_writes, Forall_forall. intros r [_ Hr]%list_elem_of_filter.
  by apply (proj1 (Forall_forall _ _) (run_log_writes txn a V rs)).
Qed.

Lemma statuses_history st txn a V hs t :
  statuses_from st (meta_log (hist_log txn a V hs)) !! t =
    if decide (txn <= t < txn + Z.of_nat (length hs)) then Some Committed else st !! t.
Proof.
  revert st txn V; induction hs as [|rs hs IH]; intros st txn V.
  - rewrite decide_False by (cbn [length]; lia). done.
  - cbn [hist_log length]. rewrite statuses_from_app, statuses_run.
    rewrite statuses_from_app, IH.
    change (statuses_from st (meta_log [marker Commit txn; marker Begin (txn + 1)])) with (<[txn := Committed]> st).
    destruct (decide (t = txn)) as [->|Hne].
    + rewrite decide_False, decide_True by lia. by rewrite lookup_insert_eq.
    + rewrite lookup_insert_ne by done. repeat case_decide; try done; lia.
Qed.

(** ** Replay *)

Lemma v_map_sorted v : bt_sorted (v_content v) -> bt_sorted (v_map v).
Proof.
  unfold bt_sorted, v_map. rewrite <-list_fmap_compose. induction (v_content v) as [|[k e] c IH]; intros Hs; [constructor|].
  rewrite fmap_cons in *. apply StronglySorted_inv in Hs as [Hs Ha]. constructor; [by apply IH|].
  rewrite Forall_fmap in *. eapply Forall_impl; [exact Ha|]. intros [k' e']. cbn. unfold klt. cbn.
  intros H. change (bytes_cmp (v_prefix v ++ k) (v_prefix v ++ k') = Lt). by rewrite bytes_cmp_app.
Qed.

Lemma replay_page_write st m p q lo up txn mq k w :
  fst (replay_records st m (page_log p (write_records q lo up txn mq k w))) =
    if decide (q = p) then fst (replay_records st m (write_records q lo up txn mq k w)) else m.
Proof. rewrite page_log_write. by case_decide. Qed.

(** The committed transactions, one after the other. *)
Lemma replay_history st txn a V hs p v :
  (forall t, txn <= t < txn + Z.of_nat (length hs) -> st !! t = Some Committed) -> history_routed a V hs -> V !! p = Some v ->
  exists v', spec_history a V hs !! p = Some v' /\
    fst (replay_records st (v_map v) (page_log p (hist_log txn a V hs))) = v_map v'.
Proof.
  revert txn V v; induction hs as [|rs hs IH]; intros txn V v Hst Hr Hv; [by exists v|]. cbn [history_routed hist_log length] in *.
  destruct Hr as [Hr Hrs]. destruct (replay_run st txn a V rs p v) as (v1 & Hv1 & Hrep1); [apply Hst; lia|done..|].
  destruct (IH (txn + 1) (spec_state a V rs) v1) as (v' & Hv' & Hrep); [intros t Ht; apply Hst; lia|done|done|].
  exists v'. split; [done|]. unfold page_log. rewrite filter_app, replay_records_app.
  change (filter _ (run_log txn a V rs)) with (page_log p (run_log txn a V rs)). rewrite Hrep1.
  rewrite filter_app, replay_records_app.
  assert (fst (replay_records st (v_map v1) (filter (fun r => Wal.page_id r = p) [marker Commit txn; marker Begin (txn + 1)])) = v_map v1) as ->; [|exact Hrep].
  unfold filter, list_filter. cbn. by repeat case_decide.
Qed.

(** A transaction that did not commit is undone, when it wrote no key twice. *)
Lemma replay_cut_off st txn a V rs p v m0 :
  st !! txn <> Some Committed -> run_routed a V rs -> NoDup (put_keys rs) -> V !! p = Some v ->
  (forall q w, V !! q = Some w -> bt_sorted (v_content w)) ->
  (forall k, k ∈ put_keys rs -> bt_get (v_map v) k = bt_get m0 k) ->
  fst (replay_records st m0 (page_log p (run_log txn a V rs))) = m0.
Proof.
  intros Hst. revert V v; induction rs as [|[k|k val] rs IH]; intros V v Hr Hnd Hv Hso Hg; [done|apply (IH V v); [apply Hr|done..]|].
  cbn [run_routed run_log step_log put_keys omap list_omap] in *. fold (put_keys rs) in *. destruct Hr as [(v0 & k0 & Hv0 & Hk) Hr].
  apply NoDup_cons in Hnd as [Hni Hnd]. rewrite Hv0. unfold page_log. rewrite filter_app, replay_records_app.
  change (filter _ ?l) with (page_log p l). rewrite replay_page_write.
  assert (forall q w, spec_put a k val V !! q = Some w -> bt_sorted (v_content w)) as Hso'.
  { intros q w. unfold spec_put. destruct (decide (q = aroute a k)) as [->|Hne].
    - rewrite lookup_alter_eq, Hv0. intros [= <-]. apply bt_alter_sorted. by eapply Hso.
    - rewrite lookup_alter_ne by done. apply Hso. }
  case_decide as Hp.
  - rewrite Hp in Hv0. rewrite Hv in Hv0. injection Hv0 as <-. rewrite replay_write, decide_False by done.
    assert (apply_wal_op m0 k (write_op (bt_get (v_map v) k)) = m0) as -> by (rewrite Hg by set_solver; apply write_back).
    apply (IH _ (v_put k val v)); [done|done| |done|].
    + cbn [spec_step]. unfold spec_put. by rewrite Hp, lookup_alter_eq, Hv.
    + intros k' Hk'. rewrite Hk, v_map_put, <-Hk, apply_wal_op_get; [|by apply v_map_sorted, (Hso p)|done].
      rewrite bool_decide_false; [apply Hg; set_solver|]. by intros ->.
  - apply (IH _ v); [done|done| |done|set_solver]. cbn [spec_step]. unfold spec_put. by rewrite lookup_alter_ne.
Qed.

(** ** Properties *)

(** C2. Crash recovery.  Transactions of reads and puts run, commit and begin one after the
    other, and a last one, which puts no key twice, is still running when the process stops;
    every put fits as in [put_fits], in particular none makes a checkpoint due.  The log file,
    opened again, has the records from before and those of the history, and replaying these
    page by page on what the pages held before gives exactly the committed transactions: all
    of their writes, and none of the last one's. *)
Theorem crash_recovers_committed (iter : gmap Z LeafWalStats -> list (Z * LeafWalStats)) (evict_fuel fuel : nat)
    (σ : shape) (lt rt bt txn : Z) (wr : bool) (x : TxSt) (a : abs_tree) (V : gmap Z view) (gs : list group)
    (hs : list (list request)) (last : list request) :
  running σ lt rt bt txn wr x a V gs ->
  (forall t, txn <= t -> txn_statuses (meta_log (records (st_wal (tx_store x)))) !! t <> Some Committed) ->
  history_fits iter evict_fuel fuel hs last wr x a V -> NoDup (put_keys last) ->
  exists wr' x' new,
    (_ ← run_history iter evict_fuel fuel hs; exec iter evict_fuel fuel last) x =
      (x', Ok (spec_results a (spec_history a V hs) last)) /\
    ready wr' x' a (spec_state a (spec_history a V hs) last) /\
    let log := records (Wal.open (file (st_wal (tx_store x')))) in
    log = records (st_wal (tx_store x)) ++ new /\
    forall p v, V !! p = Some v -> exists v', spec_history a V hs !! p = Some v' /\
      fst (replay_records (txn_statuses (meta_log log)) (v_map v) (page_log p new)) = v_map v'.
Proof.
  intros Hr Hold Hf Hnd.
  destruct (history_ok iter evict_fuel fuel σ lt rt bt hs last txn wr x a V gs Hr Hf) as (wr1 & x1 & gs1 & Hh & Hr1 & Hf1 & Hrec1 & Hrt).
  set (n := txn + Z.of_nat (length hs)) in *. set (V1 := spec_history a V hs) in *.
  destruct (exec_ok iter evict_fuel fuel last wr1 x1 a V1 gs1) as (wr' & x' & gs' & Hrun & Hr' & _ & Hrec & Hw' & Hro); [apply Hr1|done|apply Hr1|].
  assert (Tx.txn_id x1 = n) as Hid by apply Hr1. rewrite Hid in Hrec.
  exists wr', x', (hist_log txn a V hs ++ run_log n a V1 last). split; [by run Hh|]. split; [done|]. cbv zeta.
  rewrite (inv_records _ _ (reopen_inv _ _ Hw')), <-(inv_records _ _ Hw'), Hrec, Hrec1, <-(assoc_L (++)). split; [done|].
  set (st := txn_statuses _).
  assert (forall t, st !! t = if decide (txn <= t < n) then Some Committed
                              else txn_statuses (meta_log (records (st_wal (tx_store x)))) !! t) as Hst.
  { intros t. unfold st. by rewrite statuses_app, statuses_from_app, statuses_run, statuses_history. }
  intros p v Hv. destruct (replay_history st txn a V hs p v) as (v' & Hv' & Hrep); [|done|done|].
  { intros t Ht. by rewrite Hst, decide_True. }
  exists v'. split; [done|]. unfold page_log. rewrite filter_app, replay_records_app.
  change (filter _ ?l) with (page_log p l). rewrite Hrep. apply (replay_cut_off st n a V1 last p v'); try done.
  - rewrite Hst, decide_False by lia. apply Hold. unfold n. lia.
  - apply (holds_sorted wr1 x1 a V1), Hr1.
Qed.

(** ** A concrete history: one transaction commits, the next is cut off *)

(** The log of a concrete state: its groups do not matter. *)
Lemma log_room_file x gs p rs :
  wal_inv (st_wal (tx_store x)) gs -> Forall record_ok rs ->
  Z.of_nat (length (file (st_wal (tx_store x)))) + log_size rs <= u64_max ->
  Z.of_nat (length (filter (fun r => Wal.page_id r = p) (records (st_wal (tx_store x))))) + Z.of_nat (length rs) <
    wal_leaf_checkpoint_threshold (db x) ->
  total_records (st_wal (tx_store x)) + Z.of_nat (length rs) < wal_global_record_threshold (db x) ->
  Z.of_nat (length (file (st_wal (tx_store x)))) + log_size rs < wal_global_byte_threshold (db x) ->
  wal_checkpoint_requested (db x) = false -> log_room x gs p rs.
Proof.
  intros Hw H1 H2 H3 H4 H5 H6. rewrite (wal_file_length _ _ Hw) in H2, H5.
  split; try done. by rewrite <-(count_of_filter gs p (inv_groups _ _ Hw)), <-(inv_records _ _ Hw).
Qed.

Definition sample_history : list (list request) := [take 2 sample_run].
Definition sample_last : list request := [RPut [Byte.x61] [Byte.x09]; RGet [Byte.x61]].
Definition sample_second : TxSt := fst (one_txn map_to_list 0 0 (take 2 sample_run) sample_tx).

Lemma sample_running :
  running (mkShape 1024 2) 100 1000 100000 1 false sample_tx (ALeaf 0) sample_V [(TXN_META_PAGE_ID, [begin_record])].
Proof.
  split; [exact sample_ready|reflexivity|exact sample_wal_inv| |vm_compute; split; congruence].
  assert (qs_new 1 2 13 100 1000 100000 [] [] = Ok (fresh_db 1 2 13 100 1000 100000 1)) as Hq by (apply qs_new_fresh; lia).
  assert (tx (E := QSError) (fresh_db 1 2 13 100 1000 100000 1) = Ok sample_tx) as Ht by (vm_compute; reflexivity).
  exact (qs_typed_begin _ _ _ _ _ _ (qs_new_typed _ _ _ _ _ _ [] _ _ (Nat.divide_0_r 4096) Hq) Ht).
Qed.

Lemma sample_view_after : spec_state (ALeaf 0) sample_V (take 2 sample_run) = {[0 := sample_view1]}.
Proof. exact sample_spec_put. Qed.

Lemma sample_first_fits : run_fits map_to_list 0 0 (take 2 sample_run) false sample_tx (ALeaf 0) sample_V.
Proof.
  cbn [take sample_run run_fits]. split; [exists empty_view, [Byte.x61]; eexists; exact sample_fits|].
  rewrite sample_spec_put. intros wr _. split; [by exists sample_view1, [Byte.x61]|done].
Qed.

Lemma sample_second_fits gs wr :
  wal_inv (st_wal (tx_store sample_second)) gs ->
  put_fits wr sample_second (ALeaf 0) {[0 := sample_view1]} [Byte.x61] [Byte.x09] sample_view1 [Byte.x61] gs.
Proof.
  intros Hw. split; [reflexivity|reflexivity| | |vm_compute; reflexivity|].
  - split.
    + intros v0 t0 H. assert (Some ([Byte.x07], KVRecordType.Insert) = Some (v0, t0)) as [= <- _] by (rewrite <-H; vm_compute; reflexivity).
      reflexivity.
    + intros m _. assert (new_cost (v_content sample_view1) ([Byte.x61], [Byte.x09]) = 0%nat) as -> by (vm_compute; reflexivity). lia.
  - intros addr H. assert (place (st_map (tx_store sample_second)) 0 = Some (NMiniPage 0)) as H0 by (vm_compute; reflexivity).
    pose proof (eq_trans (eq_sym H0) H). done.
  - apply log_room_file; [exact Hw|by repeat constructor; vm_compute|by vm_compute..].
Qed.

Lemma sample_history_fits : history_fits map_to_list 0 0 sample_history sample_last false sample_tx (ALeaf 0) sample_V.
Proof.
  assert (Z.of_nat (length (file (st_wal (tx_store (fst (exec map_to_list 0 0 (take 2 sample_run) sample_tx)))))) + 46 <= u64_max) as Hsz
    by (by vm_compute).
  split; [exact sample_first_fits|]. split; [exact Hsz|]. split; [by vm_compute|]. intros wr _.
  destruct (one_txn_ok map_to_list 0 0 (mkShape 1024 2) 100 1000 100000 (take 2 sample_run) 1 false sample_tx (ALeaf 0) sample_V _
    sample_running sample_first_fits Hsz) as (wr' & x' & gs' & Hrun & Hr & _); [by vm_compute|].
  change (fst (one_txn _ _ _ _ _)) with sample_second. rewrite sample_view_after.
  pose proof (f_equal fst Hrun : sample_second = x') as E.
  assert (routed (ALeaf 0) {[0 := sample_view1]} [Byte.x61]) as Hro by (exists sample_view1, [Byte.x61]; split; reflexivity).
  cbn [history_fits sample_last run_fits]. split.
  - exists sample_view1, [Byte.x61], gs'. apply sample_second_fits. rewrite E. apply Hr.
  - intros wr2 _. split; [|exact I]. apply routed_put. exact Hro.
Qed.

Lemma crash_recovers_committed_witness :
  exists wr' x' new,
    (_ ← run_history map_to_list 0 0 sample_history; exec map_to_list 0 0 sample_last) sample_tx = (x', Ok [Some [Byte.x09]]) /\
    ready wr' x' (ALeaf 0) (spec_state (ALeaf 0) (spec_history (ALeaf 0) sample_V sample_history) sample_last) /\
    let log := records (Wal.open (file (st_wal (tx_store x')))) in
    log = begin_record :: new /\
    forall p v, sample_V !! p = Some v -> exists v', spec_history (ALeaf 0) sample_V sample_history !! p = Some v' /\
      fst (replay_records (txn_statuses (meta_log log)) (v_map v) (page_log p new)) = v_map v'.
Proof.
  apply (crash_recovers_committed map_to_list 0 0 (mkShape 1024 2) 100 1000 100000 1 false sample_tx (ALeaf 0) sample_V _
    sample_history sample_last sample_running).
  - intros t _ H. assert (txn_statuses (meta_log (records (st_wal (tx_store sample_tx)))) = ∅) as E by (vm_compute; reflexivity).
    rewrite E, lookup_empty in H. discriminate H.
  - exact sample_history_fits.
  - repeat constructor. set_solver.
Defined.
