(* ===== verification/TxCheckpoint.v ===== *)
(** * Checkpoints inside a transaction, and what a restart finds (src/lib.rs)

    A put that reaches the threshold of its leaf writes the leaf back and drops its records
    from the log.  The disk leaf then has exactly the records of the page, and that, and
    nothing of the log, is what the next [QuickStep::new] on the same files starts from. *)

From stdpp Require Import gmap.
From S2P Require Import Prelude Types BTreeMap MapTable IoEngine Wal Node PageOp Recovery BPNode BPTree LockManager Buffer Config Tx TxSpec TxLife TxDelete.

(** ** The leaf of a page on disk *)

Definition leaf_of (x : TxSt) (p : Z) (d : bytes) : Prop :=
  exists addr, disk_addr x p = Some addr /\ get_page (E := QSError) (st_io (tx_store x)) addr = Ok d.

(** The disk leaf can take the records of the view: it has no others, values have their
    length, and there is room for the new ones. *)
Definition disk_room (d : bytes) (v : view) : Prop :=
  exists ds, leaf_repr d (v_lo v) (v_up v) ds /\
    (forall k v0 t0, bt_get (content ds) k = Some (v0, t0) ->
       exists v1 t1, bt_get (v_content v) k = Some (v1, t1) /\ length v1 = length v0) /\
    (sum_list (new_cost (content ds) <$> ((fun e => (e.1, e.2.1)) <$> v_content v)) <= free_space d)%nat.

(** No record of the page is deleted. *)
Definition no_tombstone (v : view) : Prop := Forall (fun e => e.2.2 <> KVRecordType.Tombstone) (v_content v).

Lemma no_tombstone_put key val v : no_tombstone v -> no_tombstone (v_put key val v).
Proof.
  unfold no_tombstone, v_put. cbn [v_content]. generalize (drop (length (v_prefix v)) key). intros k.
  induction (v_content v) as [|[k' [v' t']] c IH]; intros H; cbn [bt_alter]; [by repeat constructor|].
  apply Forall_cons_iff in H as [Ht Hc]. destruct (kcmp k k'); repeat constructor; try done. by apply IH.
Qed.

(** The values of a map of records. *)
Definition vals (c : list (bytes * (bytes * KVRecordType.t))) : list (bytes * bytes) := (fun e => (e.1, e.2.1)) <$> c.

Lemma vals_get c k : bt_get (vals c) k = fst <$> bt_get c k.
Proof.
  induction c as [|[k' [v' t']] c IH]; [done|]. unfold vals. rewrite fmap_cons. cbn [bt_get fst snd]. by destruct (kcmp k k').
Qed.
Lemma vals_sorted c : bt_sorted c -> bt_sorted (vals c).
Proof. unfold bt_sorted, vals. by rewrite <-list_fmap_compose. Qed.

Lemma v_map_vals v : v_map v = (fun kv => (v_prefix v ++ kv.1, kv.2)) <$> vals (v_content v).
Proof. unfold v_map, vals. by rewrite <-list_fmap_compose. Qed.

(** The data file with one leaf rewritten. *)
Definition set_io (io : IoEngine) (x : TxSt) : TxSt :=
  set_tx_store (mkStore (st_cache (tx_store x)) (st_map (tx_store x)) io (st_wal (tx_store x))) x.

Section flush.
Context (wr : bool) (x : TxSt) (a : abs_tree) (V : gmap Z view) (p : Z) (v : view) (s : LockSlot) (i : Z) (m : bytes).
Context (Hd : held wr x a V p s) (Hv : V !! p = Some v).
Context (Hpl : place (st_map (tx_store x)) p = Some (NMiniPage i)) (Hm : mini (E := QSError) x i = Ok m).

Lemma mini_addr : disk_addr x p = Some (NodeMeta.leaf (header m)).
Proof. unfold disk_addr. by rewrite Hpl, Hm. Qed.

(** Another version of the leaf of the page: the others are where they were. *)
Lemma held_io d' :
  length d' = 4096%nat -> covered d' v ->
  held wr (set_io (write_page (st_io (tx_store x)) (NodeMeta.leaf (header m)) d') x) a V p s.
Proof.
  intros Hl Hcov. set (addr := NodeMeta.leaf (header m)). pose proof (hd_holds _ _ _ _ _ _ Hd) as Hh.
  destruct (node_at_range _ _ _ Hm) as [_ Hlm]. pose proof (header_leaf_range m ltac:(lia)) as Hr. fold addr in Hr.
  assert (forall q w b d, q <> p -> V !! q = Some w -> disk_addr x q = Some b -> 0 <= b ->
    get_page (E := QSError) (st_io (tx_store x)) b = Ok d ->
    get_page (E := QSError) (write_page (st_io (tx_store x)) addr d') b = Ok d) as Hoth.
  { intros q w b d Hne Hw Hb H0 Hg. rewrite get_write_other; [done|done|lia|done| |].
    - intros <-. exact (h_disk _ _ _ _ Hh p q v w addr (not_eq_sym Hne) Hv Hw mini_addr Hb).
    - unfold get_page in Hg. destruct (Nat.leb_spec (calc_offset b + 4096) (length (io_file (st_io (tx_store x))))); done. }
  split; [|apply Hd..]. split; try apply Hh. intros q w Hw. destruct (h_pages _ _ _ _ Hh q w Hw) as (node & Hn & Hnode).
  exists node. split; [done|]. destruct (decide (q = p)) as [->|Hne].
  - rewrite Hpl in Hn. injection Hn as <-. rewrite Hv in Hw. injection Hw as <-.
    destruct Hnode as (Hi & m0 & d & H1 & H2 & H3 & H4 & H5). rewrite Hm in H1. apply Ok_inj in H1 as <-.
    split; [done|]. exists m, d'. split_and!; [done|done|by apply get_write_same|done|done].
  - assert (forall b d, disk_addr x q = Some b -> 0 <= b -> get_page (E := QSError) (st_io (tx_store x)) b = Ok d ->
      get_page (E := QSError) (st_io (tx_store (set_io (write_page (st_io (tx_store x)) addr d') x))) b = Ok d) as Hq
      by (intros b d; by apply (Hoth q w)).
    destruct node as [b|j].
    + destruct Hnode as (d & H1 & H2 & H3 & H4). exists d. split_and!; try done. apply Hq; [unfold disk_addr; by rewrite Hn| |done].
      rewrite <-H3. apply header_leaf_range. rewrite (get_page_length _ _ _ H1). lia.
    + destruct Hnode as (Hj & mj & d & H1 & H2 & H3 & H4 & H5). split; [done|]. exists mj, d. split_and!; try done.
      apply Hq; [unfold disk_addr; by rewrite Hn, H1| |done]. apply header_leaf_range. destruct (node_at_range _ _ _ H1). lia.
Qed.

(** What the leaf holds once every record of the page was put there. *)
Lemma flushed_content es ds d d' ds' :
  leaf_repr m (v_lo v) (v_up v) es -> content es = v_content v -> leaf_repr d (v_lo v) (v_up v) ds ->
  (forall k v0 t0, bt_get (content ds) k = Some (v0, t0) ->
     exists v1 t1, bt_get (v_content v) k = Some (v1, t1) /\ length v1 = length v0) ->
  leaf_repr d' (v_lo v) (v_up v) ds' -> content ds' = put_all (content ds) (kv_of <$> es) ->
  covered d' v /\ vals (content ds') = vals (v_content v).
Proof.
  intros Hes Hc Hds Hsub Hds' Hc'.
  assert (forall k, fst <$> bt_get (content ds') k = fst <$> bt_get (v_content v) k) as Hget.
  { intros k. rewrite Hc', <-(overlay_put_all es ds k); [|apply Hes|apply Hes|apply Hds]. rewrite Hc.
    destruct (bt_get (v_content v) k) as [[v1 t1]|] eqn:E; [done|].
    destruct (bt_get (content ds) k) as [[v0 t0]|] eqn:E0; [|done]. destruct (Hsub k v0 t0 E0) as (? & ? & ? & _). congruence. }
  split.
  - exists ds'. split; [done|]. intros k Hk. specialize (Hget k). rewrite Hk in Hget. by destruct (bt_get (content ds') k).
  - apply bt_ext.
    + apply vals_sorted, content_sorted, Hds'.
    + rewrite <-Hc. apply vals_sorted, content_sorted, Hes.
    + intros k. by rewrite !vals_get.
Qed.
End flush.

(** What a leaf on disk says when it is read alone. *)
Definition disk_shows (x : TxSt) (p : Z) (v : view) : Prop :=
  exists d, leaf_of x p d /\ collect_user_records (E := QSError) d = Ok (v_map v).

Lemma vals_records {E} d v ds :
  leaf_repr d (v_lo v) (v_up v) ds -> vals (content ds) = vals (v_content v) ->
  collect_user_records (E := E) d = Ok (v_map v).
Proof.
  intros Hd Hv. unfold collect_user_records. rewrite (owned_entries_ok _ _ _ _ Hd), v_map_vals, <-Hv. f_equal.
  unfold vals, content. by rewrite <-!list_fmap_compose.
Qed.

(** Writing the page back. *)
Lemma flush_page_ok wr x a V p v s i d :
  held wr x a V p s -> V !! p = Some v -> place (st_map (tx_store x)) p = Some (NMiniPage i) ->
  v_content v <> [] -> no_tombstone v -> leaf_of x p d -> disk_room d v ->
  exists x', flush_page p x = (x', Ok tt) /\ held wr x' a V p s /\ same_log x x' /\
    place (st_map (tx_store x')) p = Some (NMiniPage i) /\
    exists d' ds, leaf_of x' p d' /\ leaf_repr d' (v_lo v) (v_up v) ds /\ vals (content ds) = vals (v_content v) /\
      NodeMeta.leaf (header d') = NodeMeta.leaf (header d) /\ disk_addr x' p = disk_addr x p.
Proof.
  intros Hd Hv Hpl Hne Hnt (addr & Hda & Hg) (ds & Hds & Hsub & Hroom).
  destruct (page_bytes_mini wr x a V p v s Hd Hv i Hpl) as (m & Hm & es & Hes & Hc).
  rewrite (mini_addr x p i m Hpl Hm) in Hda. injection Hda as <-.
  assert (kv_of <$> es = vals (v_content v)) as Hkv by (rewrite <-Hc; unfold vals, content; by rewrite <-list_fmap_compose).
  destruct (flush_ok (E := QSError) (st_io (tx_store x)) m (v_lo v) (v_up v) d (v_lo v) (v_up v) es ds)
    as (d' & ds' & Hfl & Hd' & Hc' & Hl & Ha); [done| | |done|done| | |].
  { intros ->. by rewrite <-Hc in Hne. }
  { unfold no_tombstone in Hnt. rewrite <-Hc in Hnt. unfold content in Hnt. by rewrite Forall_fmap in Hnt. }
  { apply Forall_forall. intros sl Hin. destruct (bt_get (content ds) (s_key sl)) as [[v0 t0]|] eqn:E; [|done].
    destruct (Hsub _ _ _ E) as (v1 & t1 & H1 & <-). rewrite <-Hc in H1.
    apply list_elem_of_lookup in Hin as [j Hj]. destruct (content_at es j sl (lr_sorted _ _ _ _ Hes) Hj) as [E1 _]. congruence. }
  { rewrite Hkv. exact Hroom. }
  destruct (flushed_content v m es ds d d' ds') as [Hcov Hvals]; [done..|].
  assert (length d' = 4096%nat) as Hl' by (rewrite Hl; by eapply get_page_length).
  pose proof (held_io wr x a V p v s i m Hd Hv Hpl Hm d' Hl' Hcov) as Hd1.
  set (x1 := set_io _ x) in Hd1. exists (set_mini i m x1).
  assert (held wr (set_mini i m x1) a V p s) as Hd2.
  { rewrite <-(insert_id V p v Hv). apply (change_mini wr x1 a V p v s Hd1 Hv i m m v); [done|done|done|by exists es|done|done]. }
  split_and!; [|done|done|done|].
  - unfold flush_page, mini_of. rewrite (bindS_ok _ _ x x i) by (by rewrite (bindS_ok _ _ _ _ _ (node_of_run _ _ _ _ _ _ Hd _ Hpl))).
    unfold flush_index, merge_to_disk. rewrite Hm. cbn [mbind outcome_bind]. by rewrite Hfl.
  - assert (disk_addr (set_mini i m x1) p = disk_addr x p) as Hda by (rewrite (set_mini_disk x1 p i m m); done).
    exists d', ds'. split_and!; try done. exists (NodeMeta.leaf (header m)). rewrite Hda. split; [by eapply mini_addr|]. by apply get_write_same.
Qed.

(** ** The log *)

(** Groups share a header, so they are not longer than their records one by one. *)
Lemma total_size_le gs : Forall group_ok gs -> total_size gs <= log_size (mjoin (snd <$> gs)).
Proof.
  induction 1 as [|g gs (Hne & _) Hok IH]; [done|]. rewrite total_size_cons, fmap_cons.
  change (mjoin (g.2 :: ?l)) with (g.2 ++ mjoin l). rewrite log_size_app. enough (Z.of_nat (group_size g) <= log_size g.2) by lia.
  unfold group_size, GROUP_HEADER_LEN. destruct (g.2) as [|r rs]; [done|]. clear.
  rewrite fmap_cons. change (sum_list (?n :: ?l)) with (n + sum_list l)%nat. cbn [log_size foldr]. fold (log_size rs). rewrite append_size_eq.
  enough (Z.of_nat (sum_list (record_size <$> rs)) <= log_size rs) by lia.
  induction rs as [|r' rs IH]; [done|]. rewrite fmap_cons. change (sum_list (?n :: ?l)) with (n + sum_list l)%nat. cbn [log_size foldr]. fold (log_size rs).
  rewrite append_size_eq. lia.
Qed.

Lemma append_one w gs r :
  wal_inv w gs -> record_ok r -> 32 + log_size (records w ++ [r]) <= u64_max ->
  exists w' gs', append_record r w = Ok w' /\ wal_inv w' gs' /\ records w' = records w ++ [r].
Proof.
  intros Hw Hr Hs. pose proof (total_size_le gs (inv_groups _ _ Hw)) as Hle. rewrite <-(inv_records _ _ Hw) in Hle.
  rewrite log_size_app in Hs. unfold log_size in Hs at 2. cbn [foldr] in Hs.
  destruct (append_inv w gs r Hw Hr) as (w' & E & Hw' & _); [lia|]. exists w', (gs ++ [(Wal.page_id r, [r])]).
  split_and!; [done|done|]. by rewrite (inv_records _ _ Hw'), (inv_records _ _ Hw), records_snoc.
Qed.

(** A log with room for the records [rs] of page [p], with which the page reaches its
    threshold, and the whole log neither of its thresholds. *)
Record ckpt_room (x : TxSt) (gs : list group) (p : Z) (rs : list WalRecord) : Prop := {
  cr_inv : wal_inv (st_wal (tx_store x)) gs;
  cr_ok : Forall record_ok rs;
  cr_page : Forall (fun r => Wal.page_id r = p) rs;
  cr_count : Z.of_nat (length (records (st_wal (tx_store x)) ++ rs)) < 2 ^ 32;
  cr_size : 32 + log_size (records (st_wal (tx_store x)) ++ rs) <= u64_max;
  cr_due : 0 < wal_leaf_checkpoint_threshold (db x) <=
    Z.of_nat (length (filter (fun r => Wal.page_id r = p) (records (st_wal (tx_store x)) ++ rs)));
  cr_records : Z.of_nat (length (records (st_wal (tx_store x)) ++ rs)) < wal_global_record_threshold (db x);
  cr_bytes : 32 + log_size (records (st_wal (tx_store x)) ++ rs) < wal_global_byte_threshold (db x);
  cr_request : wal_checkpoint_requested (db x) = false }.

Lemma ckpt_room_same x x' gs p rs : same_log x x' -> ckpt_room x gs p rs -> ckpt_room x' gs p rs.
Proof.
  intros (E1 & _ & _ & _ & _ & E6 & E7 & E8 & E9) [L1 L2 L3 L4 L5 L6 L7 L8 L9].
  split; rewrite ?E1, ?E6, ?E7, ?E8, ?E9; assumption.
Qed.

Lemma ckpt_room_append x gs p r rs :
  ckpt_room x gs p (r :: rs) ->
  exists w gs', append_record r (st_wal (tx_store x)) = Ok w /\ records w = records (st_wal (tx_store x)) ++ [r] /\
    ckpt_room (set_wal w x) gs' p rs.
Proof.
  intros [L1 L2 L3 L4 L5 L6 L7 L8 L9]. apply Forall_cons_iff in L2 as [R1 R2], L3 as [P1 P2].
  assert (records (st_wal (tx_store x)) ++ r :: rs = (records (st_wal (tx_store x)) ++ [r]) ++ rs) as Heq by (by rewrite <-(assoc_L (++))).
  rewrite Heq in *. destruct (append_one _ gs r L1 R1) as (w & gs' & Hw & Hi & Hr).
  { rewrite log_size_app in L5. assert (0 <= log_size rs); [|lia]. clear. unfold log_size.
    induction rs as [|r rs IH]; [done|]. cbn [foldr]. pose proof (append_size_pos r). lia. }
  exists w, gs'. split_and!; [done|done|].
  split; change (st_wal (tx_store (set_wal w x))) with w; rewrite ?Hr; try done.
Qed.

(** The checkpoint of a leaf that is due. *)
Lemma checkpoint_leaf_ok iter wr x a V p v s i d gs :
  held wr x a V p s -> V !! p = Some v -> place (st_map (tx_store x)) p = Some (NMiniPage i) ->
  v_content v <> [] -> no_tombstone v -> leaf_of x p d -> disk_room d v -> ckpt_room x gs p [] ->
  exists x', maybe_checkpoint_leaf p x = (x', Ok tt) /\ maybe_global_checkpoint iter x' = (x', Ok tt) /\
    held wr x' a V p s /\ same_txn x x' /\ undo_log x' = undo_log x /\
    records (st_wal (tx_store x')) = filter (fun r => Wal.page_id r <> p) (records (st_wal (tx_store x))) /\
    (exists gs', wal_inv (st_wal (tx_store x')) gs') /\
    exists d' ds, leaf_of x' p d' /\ leaf_repr d' (v_lo v) (v_up v) ds /\ vals (content ds) = vals (v_content v) /\
      NodeMeta.leaf (header d') = NodeMeta.leaf (header d) /\ disk_addr x' p = disk_addr x p.
Proof.
  intros Hd Hv Hpl Hne Hnt Hleaf Hroom [L1 _ _ L4 L5 [L6a L6b] L7 L8 L9]. rewrite app_nil_r in *.
  destruct (flush_page_ok wr x a V p v s i d Hd Hv Hpl Hne Hnt Hleaf Hroom) as (x1 & Hfl & Hd1 & Hsl & Hpl1 & Hdisk).
  pose proof Hsl as (E1 & E2 & _ & _ & _ & _ & E7 & E8 & E9).
  destruct (checkpoint_inv (st_wal (tx_store x)) gs p L1 L4 L5) as (w & gs' & Hck & Hw & Hrec).
  exists (set_wal w x1). split_and!; [| |by apply held_wal|by apply (same_log_txn x x1)|done|done|by exists gs'|].
  - unfold maybe_checkpoint_leaf. run_pure x x. rewrite (proj2 (should_checkpoint_count _ gs p _ L1 L6a)).
    2: { rewrite <-(count_of_filter gs p (inv_groups _ _ L1)), <-(inv_records _ _ L1). exact L6b. }
    cbn [negb]. unfold ensure_mini_page. rewrite (bindS_ok _ _ x x tt).
    2: { by rewrite (bindS_ok _ _ _ _ _ (node_of_run _ _ _ _ _ _ Hd _ Hpl)). }
    run Hfl. apply on_wal_run. by rewrite E1.
  - unfold maybe_global_checkpoint. run_pure (set_wal w x1) (set_wal w x1).
    assert (checkpoint_candidate iter (set_wal w x1) = None) as ->; [|done].
    unfold checkpoint_candidate, global_checkpoint_candidate.
    change (st_wal (tx_store (set_wal w x1))) with w. change (wal_global_record_threshold (db (set_wal w x1))) with (wal_global_record_threshold (db x1)).
    change (wal_global_byte_threshold (db (set_wal w x1))) with (wal_global_byte_threshold (db x1)).
    change (wal_checkpoint_requested (db (set_wal w x1))) with (wal_checkpoint_requested (db x1)). rewrite E7, E8, E9, L9.
    pose proof (total_bytes_bounds _ _ Hw). pose proof (total_size_le gs' (inv_groups _ _ Hw)) as Hle.
    rewrite <-(inv_records _ _ Hw), Hrec in Hle. pose proof (log_size_filter p (records (st_wal (tx_store x)))).
    pose proof (length_filter (fun r => Wal.page_id r <> p) (records (st_wal (tx_store x)))).
    rewrite (proj2 (Z.ltb_lt _ _)), (proj2 (Z.ltb_lt _ _)) by (rewrite ?(inv_total _ _ Hw), ?Hrec; lia). done.
  - destruct Hdisk as (d' & ds & H1 & H2). by exists d', ds.
Qed.

(** ** The put *)

Section put.
Context (iter : gmap Z LeafWalStats -> list (Z * LeafWalStats)) (evict_fuel fuel : nat).
Context (wr : bool) (x : TxSt) (a : abs_tree) (V : gmap Z view) (key val : bytes) (v : view) (k d : bytes) (gs : list group).
Let p := aroute a key.

(** A put that needs no split and fills the log of its leaf up to the threshold; the disk
    leaf has room for the page. *)
Record put_checkpoints : Prop := {
  pc_view : V !! p = Some v;
  pc_key : key = v_prefix v ++ k;
  pc_page : fits_page x p v k val;
  pc_alloc : forall addr, place (st_map (tx_store x)) p = Some (NLeaf addr) -> can_alloc wr x;
  pc_kind : wal_entry_kind x = Redo;
  pc_live : no_tombstone v;
  pc_leaf : leaf_of x p d;
  pc_room : disk_room d (v_put key val v);
  pc_log : ckpt_room x gs p (put_records x p v key val) }.

Lemma put_checkpoint_ok :
  ready wr x a V -> put_checkpoints ->
  exists wr' x' d' ds, tx_put iter evict_fuel (S fuel) key val x = (x', Ok tt) /\
    ready wr' x' a (spec_put a key val V) /\ same_txn x x' /\
    records (st_wal (tx_store x')) = filter (fun r => Wal.page_id r <> p) (records (st_wal (tx_store x))) /\
    undo_log x' = undo_log x ++ [put_undo p v key] /\ (exists gs', wal_inv (st_wal (tx_store x')) gs') /\
    leaf_of x' p d' /\ leaf_repr d' (v_lo v) (v_up v) ds /\ vals (content ds) = vals (v_content (v_put key val v)) /\
    NodeMeta.leaf (header d') = NodeMeta.leaf (header d) /\ disk_addr x' p = disk_addr x p.
Proof.
  intros Hr [Hv Hkey Hfit Hca Hkind Hlive Hleaf Hroom Hlog].
  destruct (tx_put_page iter evict_fuel fuel wr x a V key val v k Hr Hv Hkey Hfit Hca)
    as (wr' & x2 & s2 & i & Hrun & Hd2 & Hsl & [Hdk Hio _ _] & Hn2 & _).
  pose proof (same_log_txn _ _ Hsl) as Htxn. pose proof Hsl as (E1 & E2 & E3 & E4 & _).
  assert (bt_get (v_map v) key = v_get v key) as Hmap by (rewrite Hkey, v_get_prefix; apply v_map_get).
  assert (put_records x p v key val = [redo_record x2 p v key val; undo_record x2 p v key (v_get v key)]) as Hrs.
  { rewrite <-(put_records_eq x2 p v key val _ Hmap). unfold put_records. by rewrite E3. }
  rewrite Hrs in Hlog. apply (ckpt_room_same x x2) in Hlog; [|done].
  destruct (ckpt_room_append x2 gs p _ _ Hlog) as (w1 & gs1 & Ha1 & Hr1 & Hlog1).
  destruct (ckpt_room_append _ gs1 p _ _ Hlog1) as (w2 & gs2 & Ha2 & Hr2 & Hlog2).
  change (st_wal (tx_store (set_wal w1 x2))) with w1 in Ha2, Hr2.
  destruct (append_put_run wr' x2 a _ p v s2 i w1 w2 (v_get v key) key val Hd2) as [Happ Hd3].
  { exists (v_put key val v). split; [by rewrite lookup_insert_eq|done]. }
  { done. } { by rewrite E4. } { done. } { exact Ha1. } { exact Ha2. }
  set (x3 := set_undo _ _) in *.
  destruct (checkpoint_leaf_ok iter wr' x3 a _ p (v_put key val v) s2 i d gs2 Hd3)
    as (x4 & Hc1 & Hc2 & Hd4 & Ht4 & Hu4 & Hrec4 & Hinv4 & d' & ds & Hl4 & Hds & Hvals & Hh & Hda4).
  { by rewrite lookup_insert_eq. } { done. }
  { unfold v_put. cbn [v_content]. destruct (v_content v) as [|[? ?] ?]; cbn [bt_alter]; [done|]. by destruct (kcmp _ _). }
  { by apply no_tombstone_put. }
  { destruct Hleaf as (addr & H1 & H2). exists addr. split; [exact (eq_trans Hdk H1)|]. change (st_io (tx_store x3)) with (st_io (tx_store x2)). by rewrite Hio. }
  { done. } { destruct Hlog2. by split. }
  destruct (drop_run wr' x4 a _ p s2 Hd4) as (x' & Hdrop & Hready & Hsl' & Hdb & _). pose proof Hsl' as (F1 & F2 & _).
  assert (leaf_of x' p d' /\ disk_addr x' p = disk_addr x4 p) as [Hleaf' Hda'].
  { assert (tx_store x' = tx_store x4) as Hst by (unfold tx_store; rewrite Hdb; by destruct x4 as [[? []]]).
    unfold leaf_of, disk_addr, mini in *. by rewrite Hst. }
  exists wr', x', d', ds. split_and!; try done.
  - rewrite Hrun. unfold finally. rewrite (bindS_ok _ _ x2 x4 tt (eq_trans Happ Hc1)), Hc2. fold p. by rewrite Hdrop.
  - unfold spec_put. rewrite <-(insert_id V p v Hv), alter_insert_eq, insert_insert_eq in *. exact Hready.
  - transitivity x2; [done|]. transitivity x4; [exact Ht4|by apply same_log_txn].
  - rewrite F1, Hrec4. change (st_wal (tx_store x3)) with w2. rewrite Hr2, Hr1, <-(assoc_L (++)), filter_app, E1.
    rewrite (filter_none _ ([redo_record x2 p v key val] ++ _)), app_nil_r; [done|]. repeat constructor; cbn; by intros H.
  - rewrite F2, Hu4. change (undo_log x2 ++ [put_undo p v key] = undo_log x ++ [put_undo p v key]). by rewrite E2.
  - by rewrite F1.
  - rewrite Hda', Hda4. exact Hdk.
Qed.

(** C7. A put that reaches the checkpoint threshold of its leaf, on a page without deleted
    records: where the record fits the page (or replaces a value of its length), the page is in
    the buffer or finds a place there, the disk leaf has room for the page, and the log reaches
    no global threshold, the put updates the abstract store as any other put and makes the page
    durable.  Its leaf on disk then has exactly the records of the page, every record of the
    page is gone from the log, and the records of other pages and the markers are still there. *)
Theorem tx_put_checkpoints :
  ready wr x a V -> put_checkpoints ->
  exists wr' x', tx_put iter evict_fuel (S fuel) key val x = (x', Ok tt) /\
    ready wr' x' a (spec_put a key val V) /\ disk_shows x' p (v_put key val v) /\
    records (st_wal (tx_store x')) = filter (fun r => Wal.page_id r <> p) (records (st_wal (tx_store x))) /\
    undo_log x' = undo_log x ++ [put_undo p v key].
Proof.
  intros Hr Hc. destruct (put_checkpoint_ok Hr Hc) as (wr' & x' & d' & ds & ? & ? & _ & ? & ? & _ & Hl & Hd & Hv & _).
  exists wr', x'. split_and!; try done. exists d'. split; [done|]. by eapply vals_records.
Qed.
End put.

(** ** A restart on the files that a store left *)

(** [QuickStep::new] on the data file and the log of a store that stopped, and the first
    transaction; the pages in the buffer are gone. *)
Definition restart (b : Z) (n : nat) (lg lt rt bt : Z) (x : TxSt) : outcome QSError TxSt :=
  q ← qs_new b n lg lt rt bt (io_file (st_io (tx_store x))) (file (st_wal (tx_store x))); tx q.

Lemma open_present io d : get_page (E := QSError) io 0 = Ok d -> io_file (IoEngine.open (io_file io)) = io_file io.
Proof.
  unfold get_page. destruct (Nat.leb_spec (calc_offset 0 + 4096) (length (io_file io))) as [H|]; [|done]. intros _.
  unfold IoEngine.open. rewrite (proj2 (Nat.ltb_ge _ _)); [done|]. change (calc_offset 0) with 4096%nat in H. lia.
Qed.

(** The log is empty, the root leaf is what the data file has. *)
Lemma restart_ok b n lg lt rt bt x d v gs :
  0 < b < 2 ^ 20 -> (0 < n)%nat -> 3 <= lg <= 51 -> wal_inv (st_wal (tx_store x)) gs ->
  get_page (E := QSError) (st_io (tx_store x)) 0 = Ok d -> shows d v -> NodeMeta.leaf (header d) = 0 ->
  exists x', restart b n lg lt rt bt x = Ok x' /\ ready false x' (ALeaf 0) {[0 := v]} /\
    records (st_wal (tx_store x')) = [begin_record].
Proof.
  intros Hb Hn Hlg Hw Hg Hsh Hh. set (io := st_io (tx_store x)) in *. set (io' := IoEngine.open (io_file io)).
  assert (forall E, get_page (E := E) io' 0 = Ok d) as Hg'.
  { intros E. unfold get_page in *. unfold io'. rewrite (open_present io d Hg). by destruct (_ <=? _)%nat; [injection Hg as ->|]. }
  destruct (replay_fresh (E := QSError) n ∅ io' (Wal.open (file (st_wal (tx_store x)))) Hn) as (w' & Hrep & Hrec & Hor).
  pose proof (reopen_inv _ _ Hw) as Hw'.
  assert (exists gs', wal_inv w' gs') as [gs' Hinv].
  { destruct Hor as [->| ->]; [by exists gs|]. exists []. exact (proj1 (clear_inv _ _ Hw')). }
  destruct (append_one w' gs' begin_record Hinv) as (w2 & gs2 & Hap & _ & Hr2); [by vm_compute|rewrite Hrec; by vm_compute|].
  assert (qs_new b n lg lt rt bt (io_file io) (file (st_wal (tx_store x))) =
    Ok (set_store (mkStore (fresh_buffer lg) (st_map (store (fresh_db b n lg lt rt bt 1))) io' w') (fresh_db b n lg lt rt bt 1))) as Hq.
  { unfold qs_new. rewrite buffer_new_ok by lia. cbn [mbind outcome_bind]. unfold BPTree.new.
    rewrite (proj2 (Z.leb_gt _ _)), (proj2 (Z.eqb_neq _ _)) by lia. cbn [mbind outcome_bind]. unfold startup.
    assert (ensure_root_leaf_on_disk (E := QSError) io' = Ok io') as Hens.
    { unfold ensure_root_leaf_on_disk. rewrite Hg'. cbn [mbind outcome_bind]. destruct Hsh as (es & Hes & _).
      rewrite (leaf_count _ _ _ _ Hes). by rewrite (proj2 (Nat.leb_le _ _)) by lia. }
    fold io'. rewrite Hens. cbn [mbind outcome_bind]. rewrite Hrep. cbn [mbind outcome_bind map_table].
    unfold MapTable.init_leaf_entry. cbn [MapTable.new MapTable.cap]. rewrite (proj2 (Nat.eqb_neq n 0)) by lia. done. }
  eexists. split; [unfold restart; fold io; rewrite Hq; cbn [mbind outcome_bind]; unfold tx, append_txn_marker;
    cbn [set_store fresh_db store st_wal next_txn_id]; unfold begin_record in Hap; rewrite Hap; reflexivity|].
  split; [exact (holds_single b n lg lt rt bt 2 w2 1 io' d v Hb Hn Hlg (Hg' _) Hsh Hh)|].
  change (records w2 = [begin_record]). by rewrite Hr2, Hrec.
Qed.

(** Two views with the same values answer the same. *)
Lemma spec_get_vals v v' key :
  v_lo v = v_lo v' -> v_up v = v_up v' -> vals (v_content v) = vals (v_content v') ->
  spec_get (ALeaf 0) {[0 := v]} key = spec_get (ALeaf 0) {[0 := v']} key.
Proof.
  intros H1 H2 H3. unfold spec_get. cbn [aroute]. rewrite !lookup_singleton_eq. cbn. unfold v_get, v_prefix.
  by rewrite H1, H2, <-!vals_get, H3.
Qed.

(** After a put that checkpoints the log has room for the marker of a commit. *)
Lemma commit_after_checkpoint wr x a V key val v k d gs x1 gs1 :
  put_checkpoints wr x a V key val v k d gs -> wal_inv (st_wal (tx_store x1)) gs1 ->
  records (st_wal (tx_store x1)) = filter (fun r => Wal.page_id r <> aroute a key) (records (st_wal (tx_store x))) ->
  32 + total_size gs1 + 23 <= u64_max.
Proof.
  intros Hc Hw Hrec. pose proof (cr_size _ _ _ _ (pc_log _ _ _ _ _ _ _ _ _ _ Hc)) as Hs.
  pose proof (total_size_le gs1 (inv_groups _ _ Hw)) as Hle. rewrite <-(inv_records _ _ Hw), Hrec in Hle.
  pose proof (log_size_filter (aroute a key) (records (st_wal (tx_store x)))) as Hf.
  rewrite log_size_app, (put_records_eq x _ v key val _ eq_refl) in Hs. unfold log_size at 2 in Hs. cbn [foldr] in Hs.
  pose proof (append_size_pos (redo_record x (aroute a key) v key val)).
  pose proof (append_size_pos (undo_record x (aroute a key) v key (bt_get (v_map v) key))). lia.
Qed.

(** C16. What a checkpoint wrote is there after a restart, whether or not the transaction
    commits.  In a store of one leaf (page 0, at address 0, without deleted records, with room
    for the page on its disk leaf), a put that reaches the threshold of its leaf is followed by
    a commit or not; then the process is lost and the store is started again on the same
    files, with any sizes and thresholds.  The log is thrown away, and every read returns what
    the store had just after the put. *)
Theorem checkpointed_put_survives_restart (iter : gmap Z LeafWalStats -> list (Z * LeafWalStats)) (evict_fuel fuel : nat)
    (wr : bool) (x : TxSt) (v : view) (key val k d : bytes) (gs : list group) (commit : bool)
    (b : Z) (n : nat) (lg lt rt bt : Z) (key' k' : bytes) :
  ready wr x (ALeaf 0) {[0 := v]} -> put_checkpoints wr x (ALeaf 0) {[0 := v]} key val v k d gs ->
  Tx.state x = Active -> is_u64 (Tx.txn_id x) ->
  disk_addr x 0 = Some 0 -> NodeMeta.leaf (header d) = 0 ->
  0 < b < 2 ^ 20 -> (0 < n)%nat -> 3 <= lg <= 51 -> key' = v_prefix v ++ k' ->
  exists x1 x2 x3,
    (_ ← tx_put iter evict_fuel (S fuel) key val; if commit then tx_commit else mret tt) x = (x1, Ok tt) /\
    restart b n lg lt rt bt x1 = Ok x2 /\ records (st_wal (tx_store x2)) = [begin_record] /\
    tx_get key' x2 = (x3, Ok (if decide (key' = key) then Some val else spec_get (ALeaf 0) {[0 := v]} key')).
Proof.
  intros Hr Hc Hst Hid Hda Hh Hb Hn Hlg Hk'. pose proof Hc as [Hv Hkey _ _ Hkind _ _ _ _].
  destruct (put_checkpoint_ok iter evict_fuel fuel wr x (ALeaf 0) {[0 := v]} key val v k d gs Hr Hc)
    as (wr' & x0 & d' & ds & Hput & Hr1 & (T1 & T2 & T3) & Hrec0 & _ & [gs0 Hw0] & (addr & Ha & Hg0) & Hds & Hvals & Hh' & Hda').
  cbn [aroute] in Ha, Hda'. rewrite Ha, Hda in Hda'. injection Hda' as ->.
  assert (exists x1 gs1, (if commit then tx_commit else mret tt) x0 = (x1, Ok tt) /\ wal_inv (st_wal (tx_store x1)) gs1 /\
    st_io (tx_store x1) = st_io (tx_store x0)) as (x1 & gs' & Hcm & Hw & Hio).
  { destruct commit; [|by exists x0, gs0].
    destruct (commit_ok wr' x0 (ALeaf 0) _ gs0 Hr1) as (x1 & Hcm & _ & _ & _ & _ & _ & Hio & Hw & _); [congruence..|done| |by eexists _, _].
    assert (append_size (marker Commit (Tx.txn_id x0)) = 23) as -> by apply append_size_eq.
    by eapply commit_after_checkpoint. }
  rewrite <-Hio in Hg0. set (v1 := mkView (v_lo v) (v_up v) (content ds)).
  destruct (restart_ok b n lg lt rt bt x1 d' v1 gs' Hb Hn Hlg Hw Hg0) as (x2 & Hre & Hr2 & Hrec).
  { by exists ds. } { congruence. }
  destruct (get_ok false x2 (ALeaf 0) {[0 := v1]} key' Hr2) as (x3 & Hget & _).
  { exists v1, k'. split; [done|]. by rewrite Hk'. }
  exists x1, x2, x3. split_and!; [by run Hput|done|done|]. rewrite Hget. do 2 f_equal.
  rewrite (spec_get_vals v1 (v_put key val v)) by done.
  rewrite <-(spec_get_put (ALeaf 0) {[0 := v]} key val v k key').
  - unfold spec_put. cbn [aroute]. by rewrite alter_singleton.
  - apply (holds_sorted wr x (ALeaf 0)), Hr.
  - done.
  - done.
  - exists v, k'. split; [done|]. by rewrite Hk'.
Qed.

(** ** Flushing a leaf by hand *)

Section flush_leaf.
Context (wr : bool) (x : TxSt) (a : abs_tree) (V : gmap Z view) (p : Z) (v : view) (d : bytes) (gs : list group).

(** A page with records, none of them deleted, whose disk leaf has room for them. *)
Record flushable : Prop := {
  fl_view : V !! p = Some v;
  fl_some : v_content v <> [];
  fl_live : no_tombstone v;
  fl_alloc : forall addr, place (st_map (tx_store x)) p = Some (NLeaf addr) -> can_alloc wr x;
  fl_leaf : leaf_of x p d;
  fl_room : disk_room d v;
  fl_wal : wal_inv (st_wal (tx_store x)) gs;
  fl_count : Z.of_nat (length (records (st_wal (tx_store x)))) < 2 ^ 32;
  fl_size : 32 + log_size (records (st_wal (tx_store x))) <= u64_max }.

Lemma debug_flush_leaf_ok :
  ready wr x a V -> flushable ->
  exists wr' x' d' ds, debug_flush_leaf p x = (x', Ok tt) /\ ready wr' x' a V /\
    records (st_wal (tx_store x')) = filter (fun r => Wal.page_id r <> p) (records (st_wal (tx_store x))) /\
    (exists gs', wal_inv (st_wal (tx_store x')) gs') /\
    leaf_of x' p d' /\ leaf_repr d' (v_lo v) (v_up v) ds /\ vals (content ds) = vals (v_content v) /\
    NodeMeta.leaf (header d') = NodeMeta.leaf (header d) /\ disk_addr x' p = disk_addr x p.
Proof.
  intros Hr [Hv Hne Hnt Hca Hleaf Hroom Hw Hcount Hsize].
  destruct (write_locked wr x a V p v Hr Hv) as (lm1 & s & Hlk & Hd & Hpl & _).
  destruct (ensure_mini_ok wr (set_lm lm1 x) a V p v s Hd Hv) as (wr1 & x1 & s1 & i & Hen & Hd1 & Hsl1 & Hn1 & [Hdk1 Hio1 _ _]).
  { intros addr Ha. apply (Hca addr). rewrite <-Hpl. exact Ha. }
  assert (disk_addr x1 p = disk_addr x p) as Hdk.
  { rewrite Hdk1. unfold disk_addr. change (st_map (tx_store (set_lm lm1 x))) with (table lm1). by rewrite Hpl. }
  destruct (flush_page_ok wr1 x1 a V p v s1 i d Hd1 Hv Hn1 Hne Hnt) as (x2 & Hfl & Hd2 & Hsl2 & _ & d' & ds & Hl2 & Hds & Hvals & Hh & Hda2).
  { destruct Hleaf as (addr & H1 & H2). exists addr. rewrite Hdk. split; [done|]. by rewrite Hio1. } { done. }
  assert (st_wal (tx_store x2) = st_wal (tx_store x)) as Ew by (rewrite (proj1 Hsl2); exact (proj1 Hsl1)).
  destruct (checkpoint_inv (st_wal (tx_store x)) gs p Hw Hcount Hsize) as (w & gs' & Hck & Hw' & Hrec).
  destruct (drop_run wr1 (set_wal w x2) a V p s1 (held_wal _ _ _ _ _ _ w Hd2)) as (x' & Hdrop & Hready & (F1 & _) & Hdb & _).
  assert (tx_store x' = tx_store (set_wal w x2)) as Hst by (unfold tx_store; rewrite Hdb; by destruct (set_wal w x2) as [[? []]]).
  exists wr1, x', d', ds. split_and!; try done.
  - unfold debug_flush_leaf. run Hlk. unfold finally. run Hen. run Hfl.
    rewrite (on_wal_run x2 _ w) by (by rewrite Ew). by rewrite Hdrop.
  - by rewrite F1.
  - rewrite F1. by exists gs'.
  - unfold leaf_of, disk_addr, mini in *. by rewrite Hst.
  - rewrite <-Hdk, <-Hda2. unfold disk_addr, mini. by rewrite Hst.
Qed.
End flush_leaf.

(** C13. Flush and restart are a round trip for a store of one leaf: page 0, at address 0, with
    records and none of them deleted, in the buffer or with a place there, its disk leaf with
    room for it.  [debug_flush_leaf] writes the page back and drops its records from the log,
    and a start on the files that are there then, with any sizes and thresholds, gives a store
    in which every key reads as before. *)
Theorem flush_restart_roundtrip (wr : bool) (x : TxSt) (v : view) (d : bytes) (gs : list group)
    (b : Z) (n : nat) (lg lt rt bt : Z) :
  ready wr x (ALeaf 0) {[0 := v]} -> flushable wr x {[0 := v]} 0 v d gs ->
  disk_addr x 0 = Some 0 -> NodeMeta.leaf (header d) = 0 -> 0 < b < 2 ^ 20 -> (0 < n)%nat -> 3 <= lg <= 51 ->
  exists x1 x2 v', debug_flush_leaf 0 x = (x1, Ok tt) /\
    records (st_wal (tx_store x1)) = filter (fun r => Wal.page_id r <> 0) (records (st_wal (tx_store x))) /\
    restart b n lg lt rt bt x1 = Ok x2 /\ ready false x2 (ALeaf 0) {[0 := v']} /\ v_map v' = v_map v /\
    forall k, exists x3, tx_get (v_prefix v ++ k) x2 = (x3, Ok (spec_get (ALeaf 0) {[0 := v]} (v_prefix v ++ k))).
Proof.
  intros Hr Hf Hda Hh Hb Hn Hlg.
  destruct (debug_flush_leaf_ok wr x (ALeaf 0) {[0 := v]} 0 v d gs Hr Hf)
    as (wr' & x1 & d' & ds & Hrun & _ & Hrec & [gs' Hw] & (addr & Ha & Hg) & Hds & Hvals & Hh' & Hda').
  rewrite Ha, Hda in Hda'. injection Hda' as ->. set (v1 := mkView (v_lo v) (v_up v) (content ds)).
  destruct (restart_ok b n lg lt rt bt x1 d' v1 gs' Hb Hn Hlg Hw Hg) as (x2 & Hre & Hr2 & _); [by exists ds|congruence|].
  exists x1, x2, v1. split_and!; try done; [by rewrite !v_map_vals; cbn [v_content v1]; rewrite Hvals|]. intros k.
  destruct (get_ok false x2 (ALeaf 0) {[0 := v1]} (v_prefix v ++ k) Hr2) as (x3 & Hget & _); [by exists v1, k|].
  exists x3. rewrite Hget. do 2 f_equal. by apply spec_get_vals.
Qed.

(** ** A concrete store with a leaf threshold of two records *)

Definition ckpt_tx : TxSt :=
  let q := fresh_db 1 2 13 2 1000 100000 2 in
  mkTxSt (set_store (mkStore (st_cache (store q)) (st_map (store q)) (st_io (store q)) sample_wal) q) ∅ 1 Redo [] Active.

Lemma ckpt_ready : ready false ckpt_tx (ALeaf 0) {[0 := empty_view]}.
Proof. apply holds_fresh; lia. Qed.

Lemma ckpt_root : disk_addr ckpt_tx 0 = Some 0 /\ get_page (E := QSError) (st_io (tx_store ckpt_tx)) 0 = Ok root_leaf /\
  page_bytes ckpt_tx 0 = Ok root_leaf.
Proof. split_and!; vm_compute; reflexivity. Qed.

Lemma ckpt_fits :
  put_checkpoints false ckpt_tx (ALeaf 0) {[0 := empty_view]} [Byte.x61] [Byte.x07] empty_view [Byte.x61] root_leaf
    [(TXN_META_PAGE_ID, [begin_record])].
Proof.
  destruct ckpt_root as (H1 & H2 & H3). split; [reflexivity|reflexivity| | |reflexivity|constructor| | |].
  - split; [done|]. intros m Hm. change (page_bytes ckpt_tx 0 = Ok m) in Hm.
    pose proof (Ok_inj _ _ (eq_trans (eq_sym H3) Hm)) as <-. eapply Nat.le_trans; [|exact (proj2 sample_root_free)].
    apply Nat.leb_le. vm_compute. reflexivity.
  - intros addr _. split; [by intros [? ?]|]. eexists _, _. vm_compute. reflexivity.
  - exists 0. split; [exact H1|exact H2].
  - exists []. split; [exact (proj1 root_leaf_repr)|]. split; [done|].
    eapply Nat.le_trans; [|exact (proj2 sample_root_free)]. apply Nat.leb_le. vm_compute. reflexivity.
  - split; [exact sample_wal_inv|by repeat constructor; vm_compute|by vm_compute; repeat constructor|by vm_compute| | | | |reflexivity].
    + by vm_compute.
    + split; by vm_compute.
    + by vm_compute.
    + by vm_compute.
Qed.

Lemma tx_put_checkpoints_witness :
  exists wr' x', tx_put map_to_list 0 1 [Byte.x61] [Byte.x07] ckpt_tx = (x', Ok tt) /\
    ready wr' x' (ALeaf 0) (spec_put (ALeaf 0) [Byte.x61] [Byte.x07] {[0 := empty_view]}) /\
    disk_shows x' 0 (v_put [Byte.x61] [Byte.x07] empty_view) /\
    records (st_wal (tx_store x')) = [begin_record] /\ undo_log x' = [Remove 0 [Byte.x61]].
Proof.
  exact (tx_put_checkpoints map_to_list 0 0 false ckpt_tx (ALeaf 0) {[0 := empty_view]} [Byte.x61] [Byte.x07] empty_view [Byte.x61]
    root_leaf _ ckpt_ready ckpt_fits).
Defined.

Lemma checkpointed_put_survives_restart_witness :
  exists x1 x2 x3, (_ ← tx_put map_to_list 0 1 [Byte.x61] [Byte.x07]; tx_commit) ckpt_tx = (x1, Ok tt) /\
    restart 1 4 13 100 1000 100000 x1 = Ok x2 /\ records (st_wal (tx_store x2)) = [begin_record] /\
    tx_get [Byte.x61] x2 = (x3, Ok (Some [Byte.x07])).
Proof.
  apply (checkpointed_put_survives_restart map_to_list 0 0 false ckpt_tx empty_view [Byte.x61] [Byte.x07] [Byte.x61] root_leaf
    _ true 1 4 13 100 1000 100000 [Byte.x61] [Byte.x61] ckpt_ready ckpt_fits eq_refl ltac:(vm_compute; split; congruence) (proj1 ckpt_root));
    [vm_compute; reflexivity|lia|lia|lia|reflexivity].
Defined.

(** The record of [one_tx] is on disk only; a flush brings it in and writes it back. *)
Lemma one_flushable : flushable false one_tx {[0 := one_view]} 0 one_view one_leaf [(TXN_META_PAGE_ID, [begin_record])].
Proof.
  split; [reflexivity|done|by repeat constructor| | | |exact sample_wal_inv|by vm_compute|by vm_compute].
  - intros addr _. split; [by intros [? ?]|]. eexists _, _. vm_compute. reflexivity.
  - exists 0. split; vm_compute; reflexivity.
  - destruct one_leaf_shows as (es & Hes & Hc). exists es. split; [exact Hes|]. split.
    + intros k v0 t0 H. rewrite Hc in H. by exists v0, t0.
    + rewrite Hc. assert (sum_list (new_cost (v_content one_view) <$> ((fun e => (e.1, e.2.1)) <$> v_content one_view)) = 0%nat) as ->
        by (vm_compute; reflexivity). lia.
Qed.

Lemma flush_restart_roundtrip_witness :
  exists x1 x2 x3, debug_flush_leaf 0 one_tx = (x1, Ok tt) /\ restart 1 4 13 100 1000 100000 x1 = Ok x2 /\
    tx_get [Byte.x61] x2 = (x3, Ok (Some [Byte.x07])).
Proof.
  destruct (flush_restart_roundtrip false one_tx one_view one_leaf _ 1 4 13 100 1000 100000 one_ready one_flushable)
    as (x1 & x2 & v' & H1 & _ & H2 & _ & _ & Hget); [vm_compute; reflexivity|vm_compute; reflexivity|lia|lia|lia|].
  destruct (Hget [Byte.x61]) as [x3 H3]. exists x1, x2, x3. split; [exact H1|]. split; [exact H2|exact H3].
Defined.
