(* ===== verification/TxFaults.v ===== *)
(** * Where the whole store goes wrong (src/lib.rs)

    Splits that give two pages one identity, deletes that panic when they try to merge, and
    committed writes that a restart does not find. *)

From stdpp Require Import gmap.
From S2P Require Import Prelude Types BTreeMap MapTable IoEngine Wal Node PageOp Recovery BPNode BPTree LockManager Buffer Config Tx Typed TxSpec TxLife TxDelete TxCheckpoint.

(** ** The identity of the right page *)

(** Two pages whose headers name one page id and one leaf on disk. *)
Definition same_identity (l r : bytes) : Prop :=
  NodeMeta.page_id (header r) = NodeMeta.page_id (header l) /\ NodeMeta.leaf (header r) = NodeMeta.leaf (header l).

Lemma header_of_copy r l n : (16 <= n <= length l)%nat -> header (splice r 0 (take n l)) = header l.
Proof.
  intros Hn. assert (forall off, (off + 8 <= 16)%nat -> slice (splice r 0 (take n l)) off 8 = slice l off 8) as Hs.
  { intros off Ho. apply list_eq. intros i. rewrite !lookup_slice. case_decide; [|done].
    unfold splice. rewrite take_0. cbn [app]. rewrite lookup_app_l by (rewrite length_take; lia). apply lookup_take_lt. lia. }
  unfold header, load_u64. by rewrite !Hs by lia.
Qed.

Lemma header_page_id_range m : 0 <= NodeMeta.page_id (header m) < 2 ^ 48.
Proof.
  destruct (header_wf m) as [_ H]. unfold NodeMeta.page_id, shr64. rewrite Z.shiftr_div_pow2 by lia.
  unfold is_u64 in H. change (2 ^ 64) with (2 ^ 48 * 2 ^ 16) in H.
  split; [apply Z.div_pos; lia|apply Z.div_lt_upper_bound; lia].
Qed.

(** C36. A split gives the new page the identity of the old one: the bytes of the left page are
    copied over the right one before the right page's id and disk address are read from it,
    and what was read is written back at the end.  Whenever [apply_leaf_split] succeeds, the
    header of the right page names the left page and its leaf on disk, where the next flush
    or eviction of either page overwrites the records of the other. *)
Theorem split_gives_left_identity (x x' : TxSt) (left right li ri : Z) (l : bytes) (plan : LeafSplitPlan) (o : LeafSplitOutcome) :
  node_of left x = (x, Ok (NMiniPage li)) -> node_of right x = (x, Ok (NMiniPage ri)) ->
  mini (E := QSError) x li = Ok l -> 0 <= li -> 0 <= ri -> li + 512 <= ri \/ ri + 512 <= li ->
  apply_leaf_split left right plan x = (x', Ok o) ->
  exists r, mini (E := QSError) x' ri = Ok r /\ same_identity l r.
Proof.
  intros Hl Hr Hm H0l H0r Hap H. unfold apply_leaf_split in H. rewrite (bindS_ok _ _ _ _ _ Hl), (bindS_ok _ _ _ _ _ Hr), Hm in H.
  cbn [mbind outcome_bind] in H. destruct (mini x ri) as [r0|e|h] eqn:Hr0; cbn [mbind outcome_bind] in H; [|done..].
  destruct (NodeMeta.size (header l)) as [sz|e|h]; cbn [mbind outcome_bind] in H; [|done..].
  destruct (node_at_range _ _ _ Hm) as [Hrl Hll]. destruct (node_at_range _ _ _ Hr0) as [Hrr Hlr].
  set (r1 := splice r0 0 (take (NodeSize.size_in_bytes sz) l)) in *.
  assert (16 <= NodeSize.size_in_bytes sz <= length l)%nat as Hsz.
  { rewrite Hll. split; apply Nat.leb_le; destruct sz; vm_compute; reflexivity. }
  assert (header r1 = header l) as Hh by (by apply header_of_copy). rewrite Hh in H.
  destruct (keeps_apply_split 4096 plan (l, r1)) as [[Hl1 _] [Hr1 _]].
  { split; (split; [|lia]); cbn [fst snd]; [done|]. unfold r1. rewrite length_splice; [done|]. unfold in_range. rewrite length_take. lia. }
  destruct (apply_split plan (l, r1)) as [[l' r'] [o'|e|h]]; [|done|done]. cbn [fst snd] in Hl1, Hr1. injection H as <- <-.
  set (r2 := set_header r' _). exists r2.
  assert (length r2 = 4096%nat) as Hl2 by (unfold r2; rewrite length_set_header; lia).
  split.
  - change (node_at (E := QSError) (set_node_at ri r2 (set_node_at li l' (st_cache (tx_store x)))) ri 4096 = Ok r2).
    apply node_at_same; [|done]. unfold set_node_at at 1. cbn [set_backing backing]. rewrite length_splice; [done|].
    unfold in_range. lia.
  - pose proof (header_page_id_range l) as Hp. pose proof (header_leaf_range l ltac:(lia)) as Ha.
    destruct (NodeMetaFacts.set_identity_fields (header r') (header_wf r') _ _ Hp Ha) as (F1 & F2 & _).
    unfold same_identity, r2. rewrite header_set_header; [done|lia|]. exact (NodeMetaFacts.set_identity_wf _ (header_wf r') _ _).
Qed.

(** The leaf [one_leaf] of a store with room for two pages is brought into the buffer, an
    eviction that passes it by clears its hot flag, and a second page is allocated, as a put
    that finds the page full does. *)
Definition split_tx : TxSt :=
  let q := fresh_db 1 4 14 100 1000 100000 2 in
  fst ((_ ← on_locks (get_upgrade_or_acquire_write_lock 0); _ ← ensure_mini_page 0;
        _ ← on_mini 0 no_err (modify_header (fun h => Ok (NodeMeta.clear_hot h)));
        new_mini_page 1 NodeSize.LeafPage None)
    (mkTxSt (set_store (mkStore (st_cache (store q)) (st_map (store q)) one_io sample_wal) q) ∅ 1 Redo [] Active)).
Definition split_tx_plan : LeafSplitPlan :=
  mkSplitPlan [] [Byte.x61] [] [([Byte.x61], [Byte.x07])] LOWER_FENCE UPPER_FENCE.

Definition split_tx_left : bytes := match mini (E := QSError) split_tx 0 with Ok l => l | _ => [] end.
Definition split_tx_done : TxSt := fst (apply_leaf_split 0 1 split_tx_plan split_tx).

Lemma split_gives_left_identity_witness :
  apply_leaf_split 0 1 split_tx_plan split_tx = (split_tx_done, Ok (mkSplitOutcome [Byte.x61] 0 1)) /\
  match mini (E := QSError) split_tx 512 with Ok r => NodeMeta.page_id (header r) = 1 | _ => False end /\
  exists r, mini (E := QSError) split_tx_done 512 = Ok r /\ NodeMeta.page_id (header r) = 0.
Proof.
  assert (apply_leaf_split 0 1 split_tx_plan split_tx = (split_tx_done, Ok (mkSplitOutcome [Byte.x61] 0 1))) as Hrun
    by (vm_compute; reflexivity).
  split; [exact Hrun|]. split; [vm_compute; reflexivity|].
  destruct (split_gives_left_identity split_tx split_tx_done 0 1 0 512 split_tx_left split_tx_plan
    (mkSplitOutcome [Byte.x61] 0 1)) as (r & Hr & Hp & _); [vm_compute; reflexivity..|lia|lia|left; vm_compute; congruence|exact Hrun|].
  exists r. split; [exact Hr|]. rewrite Hp. vm_compute. reflexivity.
Defined.

(** ** Deletes that merge *)

(** The view has every leaf of the tree. *)
Definition leaves_known (low : Z) (es : list (bytes * Z)) (V : gmap Z view) : Prop :=
  forall q, q ∈ achildren (AParent low es) -> is_Some (V !! q).

Lemma second_page_panics wr x a V p s q v :
  held wr x a V p s -> q <> p -> V !! q = Some v -> snd (debug_merge_leaves q p x) = Halt Panicked.
Proof.
  intros [Hh Hs Hw Hb Ho] Hne Hv.
  destruct (write_lock_taken (lm_of x) q) as (lm' & Hrun & [_ _ Hoth _ _]);
    [apply Hh|by apply (h_dom _ _ _ _ Hh q v)|by intros s0 Hs0; apply (Ho q s0 Hne)|].
  unfold debug_merge_leaves. rewrite (bindS_ok _ _ x (set_lm lm' x) tt) by (by apply on_locks_run). unfold finally at 1.
  destruct (borrowed_page_panics (lm_of (set_lm lm' x)) p s) as [lm2 Hp]; [|done|done|].
  { cbn [lm_of set_lm locks lock_manager]. by rewrite Hoth. }
  by rewrite (bindS_halt _ _ _ (set_lm lm2 (set_lm lm' x)) Panicked) by (by apply on_locks_run).
Qed.

Lemma first_page_panics wr x a V p s q : held wr x a V p s -> snd (debug_merge_leaves p q x) = Halt Panicked.
Proof.
  intros Hd. unfold debug_merge_leaves. destruct (borrowed_page_panics (lm_of x) p s) as [lm2 Hp]; [apply Hd..|].
  by rewrite (bindS_halt _ _ _ (set_lm lm2 x) Panicked) by (by apply on_locks_run).
Qed.

Lemma auto_merge_panics wr x low es V p s :
  held wr x (AParent low es) V p s -> p ∈ low :: (snd <$> es) -> leaves_known low es V ->
  snd (try_auto_merge p x) = Halt Panicked.
Proof.
  intros Hd Hp HV. pose proof (h_tree _ _ _ _ (hd_holds _ _ _ _ _ _ Hd)) as Ht. pose proof (tree_nodup _ _ _ Ht) as Hnd.
  destruct Ht as (Hu & _ & _ & id & n & Hpa). pose proof (pa_some _ _ _ _ _ Hpa) as Hne.
  unfold try_auto_merge. run_pure x x.
  rewrite (bindS_ok _ _ x x (Some (fst <$> es, low :: (snd <$> es)))) by (unfold liftS; by rewrite (root_leaf_parent_at _ id n low es Hu Hpa)).
  set (cs := low :: (snd <$> es)) in *. assert (2 <= length cs)%nat as Hlen.
  { subst cs. cbn [length]. rewrite length_fmap. destruct es; [done|cbn; lia]. }
  rewrite (proj2 (Nat.ltb_ge _ _)) by lia.
  destruct (list_find_elem_of (fun c => c = p) cs p Hp eq_refl) as [[idx p'] Hf]. rewrite Hf.
  apply list_find_Some in Hf as (Hi & -> & _). pose proof (lookup_lt_Some _ _ _ Hi) as Hlt.
  destruct (Nat.ltb_spec (idx + 1) (length cs)) as [Hn|Hn]; [|rewrite (proj2 (Nat.ltb_lt _ _)) by lia].
  - rewrite Nat.min_r, Nat.max_l by lia. destruct (lookup_lt_is_Some_2 cs (idx + 1) Hn) as [q Hq].
    rewrite (bindS_ok _ _ x x p) by (unfold liftS; by rewrite Hi). rewrite (bindS_ok _ _ x x q) by (unfold liftS; by rewrite Hq).
    by apply (first_page_panics wr x (AParent low es) V p s).
  - rewrite Nat.min_l, Nat.max_r by lia. destruct (lookup_lt_is_Some_2 cs (idx - 1)) as [q Hq]; [lia|].
    rewrite (bindS_ok _ _ x x q) by (unfold liftS; by rewrite Hq). rewrite (bindS_ok _ _ x x p) by (unfold liftS; by rewrite Hi).
    destruct (HV q) as [v Hv]; [by eapply list_elem_of_lookup_2|].
    apply (second_page_panics wr x (AParent low es) V p s q v); [done| |done].
    intros ->. pose proof (NoDup_lookup _ _ _ _ Hnd Hi Hq). lia.
Qed.

(** C35. Deleting the only record of a leaf panics as soon as the tree has two leaves: the delete
    asks for a merge while it still has the handle of its page, and the merge asks for both
    pages.  The record is a tombstone by then and its log records are written. *)
Theorem delete_of_last_record_panics iter wr x low es V key v k gs old :
  ready wr x (AParent low es) V -> delete_room wr x (AParent low es) V key v k gs ->
  leaves_known low es V ->
  live_value v key = Some old -> (length (v_content v) <= 1)%nat ->
  snd (tx_delete iter key x) = Halt Panicked.
Proof.
  intros Hr Hroom HV Hlive Hl. destruct (delete_run iter _ _ _ _ _ _ _ _ Hr Hroom) as (wr' & x' & H). rewrite Hlive in H.
  destruct H as (s & -> & Hd & _). unfold delete_rest, finally.
  assert (length (v_content (v_delete key old v)) <= 1)%nat as Hl'.
  { revert Hlive Hl. unfold live_value, v_type, v_delete. cbn [v_content]. destruct (v_content v) as [|[k0 e0] [|]]; cbn; [done| |lia].
    destruct (bytes_cmp _ k0); cbn; (done || lia). }
  rewrite (proj2 (Nat.leb_le _ _)) by (unfold AUTO_MERGE_MIN_ENTRIES; lia).
  destruct (try_auto_merge (aroute (AParent low es) key) x') as [x2 r] eqn:Ha.
  assert (r = Halt Panicked) as ->.
  { change r with (snd (x2, r)). rewrite <-Ha. apply (auto_merge_panics wr' x' low es _ _ s Hd); [apply route_elem|].
    intros q Hq. apply lookup_insert_is_Some'. right. by apply HV. }
  by rewrite (bindS_halt _ _ _ _ _ Ha).
Qed.

(** Two leaves on disk with one record each, parted at the pivot [0x70]. *)
Definition fresh_page (id : Z) : bytes := fst (format_leaf (E := unit) id NodeSize.LeafPage id (zeros 4096)).
Definition fenced_page (id : Z) (lo up : bytes) : bytes := fst (install_fences (E := unit) lo up (fresh_page id)).
Definition one_record (id : Z) (lo up k v : bytes) : bytes := fst (try_put_with_suffix k v (fenced_page id lo up)).
Definition left_page : bytes := one_record 0 LOWER_FENCE [Byte.x70] [Byte.x61] [Byte.x07].
Definition right_page : bytes := one_record 1 [Byte.x70] UPPER_FENCE [Byte.x71] [Byte.x08].
Definition left_view : view := mkView LOWER_FENCE [Byte.x70] [([Byte.x61], ([Byte.x07], KVRecordType.Insert))].
Definition right_view : view := mkView [Byte.x70] UPPER_FENCE [([Byte.x71], ([Byte.x08], KVRecordType.Insert))].
Definition two_leaves : TxSt :=
  cold_tx (parent_tree 0 [([Byte.x70], 1)]) 14 (MapTable.mk [PageEntry.leaf 0; PageEntry.leaf 1; 0] 2 3)
    (write_page (write_page (IoEngine.open []) 0 left_page) 1 right_page) sample_wal 100 1000 100000 2 1.
Definition two_views : gmap Z view := <[0 := left_view]> {[1 := right_view]}.

Lemma one_record_shows id lo up k v :
  (exists s, (forall E, NodeMeta.size (E := E) (header (fresh_page id)) = Ok s) /\ length (fresh_page id) = NodeSize.size_in_bytes s) ->
  (length lo + length up + 32 <= length (fresh_page id))%nat ->
  (record_cost (k, v) <= free_space (fenced_page id lo up))%nat ->
  snd (try_put_with_suffix k v (fenced_page id lo up)) = Ok tt ->
  shows (one_record id lo up k v) (mkView lo up [(k, (v, KVRecordType.Insert))]).
Proof.
  intros Hs Hl Hc Hok. destruct (install_fences_leaf (E := unit) (fresh_page id) lo up Hs Hl) as (m & Hrun & Hm & _).
  unfold one_record, fenced_page in *. rewrite Hrun in *. cbn [fst] in *.
  destruct (try_put_with_suffix k v m) as [m' r] eqn:Hp. cbn [fst snd] in *. subst r.
  exists (slots_of (bt_alter (put_value v) (content []) k)). split; [by apply (put_concrete m lo up [] k v)|].
  reflexivity.
Qed.

Lemma fresh_page_size id :
  id = 0 \/ id = 1 ->
  (exists s, (forall E, NodeMeta.size (E := E) (header (fresh_page id)) = Ok s) /\ length (fresh_page id) = NodeSize.size_in_bytes s) /\
  length (fresh_page id) = 4096%nat.
Proof.
  intros H. assert (length (fresh_page id) = 4096%nat) as Hl by (destruct H as [-> | ->]; vm_compute; reflexivity).
  split; [|exact Hl]. exists NodeSize.LeafPage. rewrite Hl. split; [|reflexivity].
  intros E. destruct H as [-> | ->]; vm_compute; reflexivity.
Qed.

Lemma two_leaves_ready : ready false two_leaves (AParent 0 [([Byte.x70], 1)]) two_views.
Proof.
  assert (shows left_page left_view) as Hl.
  { destruct (fresh_page_size 0) as [Hs Hn]; [by left|]. apply one_record_shows; [exact Hs|rewrite Hn; cbn; lia| |vm_compute; reflexivity].
    apply Nat.leb_le. vm_compute. reflexivity. }
  assert (shows right_page right_view) as Hr.
  { destruct (fresh_page_size 1) as [Hs Hn]; [by right|]. apply one_record_shows; [exact Hs|rewrite Hn; cbn; lia| |vm_compute; reflexivity].
    apply Nat.leb_le. vm_compute. reflexivity. }
  assert (forall p v, two_views !! p = Some v -> p = 0 /\ v = left_view \/ p = 1 /\ v = right_view) as HV.
  { intros p v H. unfold two_views in H. apply lookup_insert_Some in H as [[<- <-]|[_ [<- <-]%lookup_singleton_Some]]; auto. }
  apply cold_ready; [lia| | |split].
  - apply parent_tree_repr; [decide_now|by apply Nat.ltb_lt; vm_compute|done|repeat constructor|decide_now].
  - split; [|by intros ? ? ?]. intros p w _ Hw. rewrite lookup_empty. cbn in Hw.
    assert (w = PageEntry.leaf 0 \/ w = PageEntry.leaf 1 \/ w = 0) as Hc.
    { destruct (Z.to_nat p) as [|[|[|k]]]; cbn in Hw; [naive_solver..|done]. }
    destruct Hc as [->|[->| ->]]; split; try done; by vm_compute.
  - intros p v [[-> ->]|[-> ->]]%HV; (split; [cbn; lia|]).
    + exists 0, left_page. split; [reflexivity|]. split; [vm_compute; reflexivity|]. split; [exact Hl|vm_compute; reflexivity].
    + exists 1, right_page. split; [reflexivity|]. split; [vm_compute; reflexivity|]. split; [exact Hr|vm_compute; reflexivity].
  - intros p q v w [[-> _]|[-> _]]%HV [[-> _]|[-> _]]%HV; done.
Qed.

Lemma two_leaves_room :
  delete_room false two_leaves (AParent 0 [([Byte.x70], 1)]) two_views [Byte.x61] left_view [Byte.x61]
    [(TXN_META_PAGE_ID, [begin_record])].
Proof.
  split; [reflexivity|reflexivity| |reflexivity|].
  - intros _ _. split; [by intros [? ?]|]. eexists _, _. vm_compute. reflexivity.
  - intros old Ho. assert (Some [Byte.x07] = Some old) as [= <-] by exact Ho.
    split; [exact sample_wal_inv|by repeat constructor; vm_compute|by vm_compute..].
Qed.

Lemma delete_of_last_record_panics_witness : snd (tx_delete map_to_list [Byte.x61] two_leaves) = Halt Panicked.
Proof.
  apply (delete_of_last_record_panics map_to_list false two_leaves 0 [([Byte.x70], 1)] two_views [Byte.x61] left_view [Byte.x61]
    [(TXN_META_PAGE_ID, [begin_record])] [Byte.x07] two_leaves_ready two_leaves_room); [|vm_compute; reflexivity|cbn; lia].
  intros q Hq. change (q ∈ [0; 1]) in Hq. apply elem_of_cons in Hq as [->|Hq]; [by exists left_view|].
  apply list_elem_of_singleton in Hq as ->. by exists right_view.
Defined.

(** ** Restart *)

(** A store with another log. *)
Definition with_log (w : WalState) (q : QuickStep) : QuickStep :=
  set_store (mkStore (st_cache (store q)) (st_map (store q)) (st_io (store q)) w) q.

(** C37. A start throws the log away: for every data file and every log, with at least one page in
    the mapping table, [QuickStep::new] gives (or fails with) what it gives on the same data
    file and an empty log, but for the state of the log; and that has no records any more, it
    is the log as it was if it had none, and cleared otherwise.  The replay comes before the
    entry of the root page is made, so it skips every page. *)
Theorem startup_discards_log (b : Z) (n : nat) (lg lt rt bt : Z) (data log : bytes) :
  (0 < n)%nat ->
  exists w, records w = [] /\ (w = Wal.open log \/ w = clear (Wal.open log)) /\
    qs_new b n lg lt rt bt data log = (q ← qs_new b n lg lt rt bt data []; Ok (with_log w q)).
Proof.
  intros Hn. unfold qs_new, startup. set (io := IoEngine.open data).
  assert (forall io' w, exists w', replay_wal (E := QSError) (mkDb (MapTable.new n) ∅ io' w) = Ok (mkDb (MapTable.new n) ∅ io' w') /\
    records w' = [] /\ (w' = w \/ w' = clear w)) as Hrep by (intros; by apply replay_fresh).
  destruct (ensure_root_leaf_on_disk (E := QSError) io) as [io'|e|h].
  - destruct (Hrep io' (Wal.open log)) as (w & H1 & Hrec & Hor), (Hrep io' (Wal.open [])) as (w0 & H0 & _).
    exists w. split_and!; [done|done|]. destruct (Buffer.new lg) as [c|e|h]; [|done..]. cbn [mbind outcome_bind].
    destruct (BPTree.new b) as [t|e|h]; [|done..]. cbn [mbind outcome_bind]. rewrite H1, H0. cbn [mbind outcome_bind map_table].
    by destruct (MapTable.init_leaf_entry (MapTable.new n) 0) as [[mt i]|e|h].
  - destruct (Hrep io (Wal.open log)) as (w & _ & Hrec & Hor). exists w. split_and!; [done|done|].
    destruct (Buffer.new lg); [|done..]. cbn [mbind outcome_bind]. by destruct (BPTree.new b).
  - destruct (Hrep io (Wal.open log)) as (w & _ & Hrec & Hor). exists w. split_and!; [done|done|].
    destruct (Buffer.new lg); [|done..]. cbn [mbind outcome_bind]. by destruct (BPTree.new b).
Qed.

(** The log of a committed put. *)
Lemma startup_discards_log_witness :
  let x1 := fst ((_ ← put_k [Byte.x61] [Byte.x07]; tx_commit) sample_tx) in
  exists w, records w = [] /\ (w = Wal.open (file (st_wal (tx_store x1))) \/ w = clear (Wal.open (file (st_wal (tx_store x1))))) /\
    qs_new 1 4 13 100 1000 100000 (io_file (st_io (tx_store x1))) (file (st_wal (tx_store x1))) =
      (q ← qs_new 1 4 13 100 1000 100000 (io_file (st_io (tx_store x1))) []; Ok (with_log w q)).
Proof. intros x1. apply startup_discards_log. lia. Defined.

(** A committed put is gone after a restart: its record is in the log file, but the start
    discards the log before the table has an entry for the page. *)
Theorem restart_loses_committed :
  match (_ ← put_k [Byte.x61] [Byte.x07]; tx_commit) sample_tx with
  | (x1, Ok tt) =>
      records (st_wal (tx_store x1)) <> [] /\
      match restart 1 4 13 100 1000 100000 x1 with
      | Ok x2 => snd (tx_get [Byte.x61] x2) = Ok None
      | _ => False
      end
  | _ => False
  end.
Proof. vm_compute. split; [discriminate|reflexivity]. Qed.

(** A checkpoint outlives an abort: the insert that reached the threshold of its leaf is written
    to disk, the abort takes it out of the mini-page only, and the next transaction reads it. *)
Theorem checkpoint_outlives_abort :
  snd ((_ ← put_k [Byte.x61] [Byte.x07]; _ ← tx_abort; _ ← then_tx; tx_get [Byte.x61]) ckpt_tx) = Ok (Some [Byte.x07]).
Proof. vm_compute. reflexivity. Qed.
