(* ===== verification/TxAbort.v ===== *)
(** * Aborting a transaction (src/lib.rs)

    The undo log of a transaction that inserted new keys, with reads in between, takes the
    records out again, the last one first.  Each of them is then the lowest record of its page,
    so no data moves ([Layout]), and the store is the one from before. *)

From stdpp Require Import gmap.
From S2P Require Import Prelude Types BTreeMap MapTable IoEngine Wal Node Layout PageOp Recovery BPNode BPTree LockManager Buffer Config Tx TxSpec TxLife TxRun TxDelete.

(** ** The records to take out *)

(** A record to undo: its page, the prefix of the page, the rest of the key. *)
Record fresh := mkFresh { f_page : Z; f_prefix : bytes; f_key : bytes }.
Definition f_action (u : fresh) : UndoAction := Remove (f_page u) (f_prefix u ++ f_key u).

Definition v_drop (k : bytes) (v : view) : view := mkView (v_lo v) (v_up v) (bt_remove (v_content v) k).
Definition undo_one (V : gmap Z view) (u : fresh) : gmap Z view := alter (v_drop (f_key u)) (f_page u) V.
Definition undo_views (V : gmap Z view) (us : list fresh) : gmap Z view := foldl undo_one V us.

(** The suffixes of one page, the last one first. *)
Definition page_fresh (p : Z) (us : list fresh) : list bytes := f_key <$> filter (fun u => f_page u = p) us.

(** A leaf that reads below a page: the one on disk, or the one a guard keeps. *)
Definition backs (x : TxSt) (p : Z) (d : bytes) : Prop :=
  (exists addr, disk_addr x p = Some addr /\ get_page (E := QSError) (st_io (tx_store x)) addr = Ok d) \/
  kept (lock_manager x) p = Some d.

(** The records of [us] lie on top of their pages, and the leaves below do not have them. *)
Record undoable (x : TxSt) (V : gmap Z view) (us : list fresh) : Prop := {
  ud_stack : forall p v, V !! p = Some v -> page_stack x p (page_fresh p us);
  ud_below : forall p v d, V !! p = Some v -> backs x p d ->
    Forall (fun k => Node.get (E := QSError) d (v_prefix v ++ k) = Ok None) (page_fresh p us);
  ud_known : Forall (fun u => exists v, V !! f_page u = Some v /\ f_prefix u = v_prefix v) us }.

Lemma undoable_nil x V : undoable x V [].
Proof. split; [by left|by constructor|by constructor]. Qed.

Lemma page_fresh_cons p u us :
  page_fresh p (u :: us) = if decide (f_page u = p) then f_key u :: page_fresh p us else page_fresh p us.
Proof. unfold page_fresh. rewrite filter_cons. by case_decide. Qed.

Lemma backs_same x x' q d : same_page x x' q -> st_io (tx_store x') = st_io (tx_store x) -> backs x' q d -> backs x q d.
Proof.
  intros Hs Hio [(addr & H1 & H2)|Hk].
  - left. exists addr. by rewrite <-(same_page_addr x x' q Hs), <-Hio.
  - right. destruct Hs as (_ & <- & _). done.
Qed.

Lemma backs_only V x x' p d : only_page V x x' p -> backs x' p d -> backs x p d.
Proof.
  intros [H1 H2 _ H4] [(addr & Ha & Hg)|Hk].
  - left. exists addr. by rewrite <-H1, <-H2.
  - destruct (H4 d Hk) as [?|(addr & Ha & Hg)]; [by right|]. left. by exists addr.
Qed.

(** What reads below a page covers it. *)
Lemma backs_covered wr x a V p v d : holds wr x a V -> V !! p = Some v -> backs x p d -> covered d v.
Proof.
  intros Hh Hv Hb. destruct (h_pages _ _ _ _ Hh p v Hv) as (node & Hn & Hnode). unfold backs, disk_addr in Hb. rewrite Hn in Hb.
  destruct node as [addr|i].
  - destruct Hnode as (d0 & H1 & (es & Hes & Hc) & _ & H5). assert (d = d0) as ->.
    { destruct Hb as [(a0 & [= <-] & Hg)|Hk]; [|by apply H5]. rewrite H1 in Hg. by apply Ok_inj in Hg. }
    exists es. split; [done|]. by rewrite Hc.
  - destruct Hnode as (_ & m & d0 & H1 & _ & H3 & H4 & H5). rewrite H1 in Hb.
    destruct Hb as [(a0 & [= <-] & Hg)|Hk]; [|by apply H5]. rewrite H3 in Hg. by apply Ok_inj in Hg as <-.
Qed.

(** Another page changed: what is said of this one stays. *)
Lemma undoable_step x x' V V' p us us' :
  undoable x V us -> only_page V x x' p -> (forall q, q <> p -> V' !! q = V !! q) ->
  (forall q, q <> p -> page_fresh q us' = page_fresh q us) ->
  (forall v', V' !! p = Some v' -> page_stack x' p (page_fresh p us') /\
     forall d, backs x' p d -> Forall (fun k => Node.get (E := QSError) d (v_prefix v' ++ k) = Ok None) (page_fresh p us')) ->
  Forall (fun u => exists v, V' !! f_page u = Some v /\ f_prefix u = v_prefix v) us' -> undoable x' V' us'.
Proof.
  intros [H1 H2 _] Hop HV Hus Hp Hk. split; [| |done].
  - intros q v Hv. destruct (decide (q = p)) as [->|Hne]; [by destruct (Hp v Hv)|]. rewrite Hus by done. rewrite HV in Hv by done.
    eapply same_page_stack; [by eapply (op_others _ _ _ _ Hop)|by eapply H1].
  - intros q v d Hv Hb. destruct (decide (q = p)) as [->|Hne]; [destruct (Hp v Hv) as [_ Hd]; by apply Hd|]. rewrite Hus by done. rewrite HV in Hv by done.
    apply (H2 q v d Hv). eapply backs_same; [by eapply (op_others _ _ _ _ Hop)|apply (op_io _ _ _ _ Hop)|done].
Qed.

(** ** The run *)

Lemma undoable_get x x' V us p :
  undoable x V us -> only_page V x x' p -> (forall ks, page_stack x p ks -> page_stack x' p ks) -> undoable x' V us.
Proof.
  intros Hu Hop Hst. apply (undoable_step x x' V V p us us Hu Hop); [done|done| |apply Hu].
  intros v Hv. split; [by eapply Hst, Hu|]. intros d Hb. eapply Hu; [done|by eapply backs_only].
Qed.

(** A put of a new key puts its record on top. *)
Lemma undoable_put wr x x' a V us p v k val :
  holds wr x a V -> undoable x V us -> V !! p = Some v -> bt_get (v_content v) k = None -> only_page V x x' p ->
  (forall ks, page_stack x p ks -> page_stack x' p (k :: ks)) ->
  undoable x' (<[p := v_put (v_prefix v ++ k) val v]> V) (mkFresh p (v_prefix v) k :: us).
Proof.
  intros Hh Hu Hv Hnew Hop Hst. apply (undoable_step x x' V _ p us _ Hu Hop).
  - intros q Hne. by rewrite lookup_insert_ne.
  - intros q Hne. rewrite page_fresh_cons. cbn [f_page]. by rewrite decide_False.
  - intros v' Hv'. rewrite lookup_insert_eq in Hv'. injection Hv' as <-. rewrite page_fresh_cons. cbn [f_page f_key]. rewrite decide_True by done.
    split; [by eapply Hst, Hu|]. intros d Hb. change (v_prefix (v_put (v_prefix v ++ k) val v)) with (v_prefix v).
    apply (backs_only V x x' p d Hop) in Hb. constructor; [|by eapply Hu].
    destruct (backs_covered wr x a V p v d Hh Hv Hb) as (ds & Hds & Hc). unfold v_prefix. by rewrite (get_leaf _ _ _ _ Hds), (Hc k Hnew).
  - constructor; cbn [f_page f_prefix].
    + exists (v_put (v_prefix v ++ k) val v). by rewrite lookup_insert_eq.
    + eapply Forall_impl; [apply Hu|]. intros u (w & Hw & E). destruct (decide (f_page u = p)) as [Ep|Hne].
      * rewrite Ep in Hw |- *. rewrite Hv in Hw. injection Hw as <-. exists (v_put (v_prefix v ++ k) val v). by rewrite lookup_insert_eq.
      * exists w. by rewrite lookup_insert_ne.
Qed.

(** Dropping a new record gives the view from before. *)
Lemma undo_put a V p v k val :
  V !! p = Some v -> bt_sorted (v_content v) -> bt_get (v_content v) k = None ->
  undo_one (<[p := v_put (v_prefix v ++ k) val v]> V) (mkFresh p a k) = V.
Proof.
  intros Hv Hs Hnew. unfold undo_one. cbn [f_key f_page]. rewrite alter_insert_eq, v_put_prefix. unfold v_drop. cbn [v_lo v_up v_content].
  rewrite bt_remove_alter by done. destruct v. by apply insert_id.
Qed.

(** No put of a key that its page has a record for, live or deleted. *)
Fixpoint inserts (a : abs_tree) (V : gmap Z view) (rs : list request) : Prop :=
  match rs with
  | [] => True
  | RGet _ :: rs => inserts a V rs
  | RPut key val :: rs =>
      (forall v, V !! aroute a key = Some v -> v_type v key = None) /\ inserts a (spec_put a key val V) rs
  end.

Section exec.
Context (iter : gmap Z LeafWalStats -> list (Z * LeafWalStats)) (evict_fuel fuel : nat).

Lemma exec_inserts rs wr x a V us gs :
  ready wr x a V -> run_fits iter evict_fuel fuel rs wr x a V -> inserts a V rs -> wal_inv (st_wal (tx_store x)) gs ->
  undoable x V us -> undo_log x = reverse (f_action <$> us) ->
  exists wr' x' gs' us', exec iter evict_fuel fuel rs x = (x', Ok (spec_results a V rs)) /\
    ready wr' x' a (spec_state a V rs) /\ same_txn x x' /\ wal_inv (st_wal (tx_store x')) gs' /\
    records (st_wal (tx_store x')) = records (st_wal (tx_store x)) ++ run_log (Tx.txn_id x) a V rs /\
    undoable x' (spec_state a V rs) us' /\ undo_log x' = reverse (f_action <$> us') /\
    undo_views (spec_state a V rs) us' = undo_views V us.
Proof.
  revert wr x V us gs; induction rs as [|[key|key val] rs IH]; intros wr x V us gs Hr Hf Hins Hw Hu Hlog;
    cbn [exec run_fits run_log step_log spec_results inserts] in *.
  - exists wr, x, gs, us. rewrite app_nil_r. by split_and!.
  - destruct Hf as [Hk Hf]. destruct (get_ok wr x a V key Hr Hk) as (x1 & Hget & Hr1 & Hsl & Hop & Hst). rewrite Hget in Hf.
    pose proof (same_log_txn _ _ Hsl) as Ht1.
    destruct (IH wr x1 V us gs Hr1 Hf Hins) as (wr' & x' & gs' & us' & Hrun & Hr' & Ht & Hw' & Hrec & Hrest);
      [by rewrite (proj1 Hsl)|by eapply undoable_get|by rewrite (proj1 (proj2 Hsl))|].
    exists wr', x', gs', us'. run Hget. run Hrun. rewrite (proj1 Hsl), (proj1 Ht1) in Hrec.
    split_and!; [done|done|by transitivity x1|done|done|apply Hrest..].
  - destruct Hf as [(v & k & gs0 & Hfit) Hf]. destruct Hins as [Hnew Hins].
    pose proof (pf_view _ _ _ _ _ _ _ _ _ Hfit) as Hv. pose proof (pf_key _ _ _ _ _ _ _ _ _ Hfit) as Hkey.
    assert (bt_get (v_content v) k = None) as Hg.
    { specialize (Hnew v Hv). unfold v_type in Hnew. rewrite Hkey, drop_app_length in Hnew. by destruct (bt_get (v_content v) k). }
    destruct (tx_put_ok iter evict_fuel fuel wr x a V key val v k gs0 Hr Hfit)
      as (wr1 & x1 & Hput & Hr1 & Hrec1 & Hundo1 & Ht1 & [gs1 Hw1] & Hop & Hst). rewrite Hput in Hf.
    assert (spec_put a key val V = <[aroute a key := v_put (v_prefix v ++ k) val v]> V) as Hsp.
    { unfold spec_put. rewrite <-(insert_id V _ v Hv) at 1. by rewrite alter_insert_eq, Hkey. }
    set (u := mkFresh (aroute a key) (v_prefix v) k).
    destruct (IH wr1 x1 _ (u :: us) gs1 Hr1 (Hf wr1 Hr1) Hins Hw1) as (wr' & x' & gs' & us' & Hrun & Hr' & Ht & Hw' & Hrec & Hu' & Hl' & Hv').
    { rewrite Hsp. apply (undoable_put wr x x1 a V us _ v k val); [apply Hr|done..|]. intros ks. by apply Hst. }
    { rewrite Hundo1, Hlog, fmap_cons, reverse_cons. f_equal. unfold put_undo.
      assert (v_get v key = None) as -> by (by rewrite Hkey, v_get_prefix, Hg). unfold f_action, u. cbn [f_page f_prefix f_key]. by rewrite <-Hkey. }
    exists wr', x', gs', us'. run Hput. rewrite Hrec1, (proj1 Ht1), <-(assoc_L (++)) in Hrec.
    split_and!; [done|done|by transitivity x1|done|by rewrite Hv|done|done|]. cbn [spec_state foldl]. etransitivity; [exact Hv'|].
    unfold undo_views. cbn [foldl]. f_equal. rewrite Hsp. apply undo_put; [done| |done]. by eapply holds_sorted; [apply Hr|].
Qed.
End exec.

(** ** Taking one record out *)

Lemma held_mini_undo wr x a V p v s i k ks m :
  held wr x a V p s -> V !! p = Some v -> place (st_map (tx_store x)) p = Some (NMiniPage i) ->
  mini (E := QSError) x i = Ok m -> stacked (layout m) (k :: ks) ->
  (forall d, backs x p d -> Node.get (E := QSError) d (v_prefix v ++ k) = Ok None) ->
  exists x', on_mini i no_err (_ ← remove_key_physical (v_prefix v ++ k); mret tt) x = (x', Ok tt) /\
    held wr x' a (<[p := v_drop k v]> V) p s /\ same_log x x' /\ only_page V x x' p /\ page_stack x' p ks.
Proof.
  intros Hd Hv Hn Hm Hst Hbelow. destruct (page_bytes_mini wr x a V p v s Hd Hv i Hn) as (m0 & Hm0 & es & Hes & Hc).
  rewrite Hm in Hm0. apply Ok_inj in Hm0 as <-.
  destruct (remove_top (E := QSError) m _ _ es k ks Hes Hst) as (m' & es' & Hrun & Hes' & Hc' & Hst' & Hl & Ha).
  assert (disk_addr x p = Some (NodeMeta.leaf (header m))) as Hda by (unfold disk_addr; by rewrite Hn, Hm).
  exists (set_mini i m' x). split_and!; [| |done| |].
  - unfold on_mini. rewrite Hm. unfold v_prefix. by run Hrun.
  - apply (change_mini wr x a V p v s Hd Hv i m); [done|done|done| |done|].
    + exists es'. split; [exact Hes'|]. cbn [v_drop v_content]. by rewrite Hc', Hc.
    + intros d Hb (ds & Hds & Hcov). exists ds. split; [exact Hds|]. intros k' Hk'. cbn [v_drop v_content] in Hk'.
      rewrite bt_get_remove in Hk' by (rewrite <-Hc; apply content_sorted, Hes). destruct (kcmp k k') eqn:E; [|by apply Hcov..].
      apply kcmp_eq in E as <-. assert (backs x p d) as Hbk by (destruct Hb as [Hb|Hb]; [left; by exists (NodeMeta.leaf (header m))|by right]).
      specialize (Hbelow d Hbk). unfold v_prefix in Hbelow. rewrite (get_leaf _ _ _ _ Hds) in Hbelow.
      by destruct (bt_get (content ds) k).
  - by apply (change_mini_only wr x a V p v s Hd Hv i m).
  - right. exists i, m'. split; [done|]. split; [|done]. destruct (node_at_range _ _ _ Hm) as [? ?]. apply node_at_same; [done|lia].
Qed.

Lemma undo_action_ok wr x a V u us :
  ready wr x a V -> undoable x V (u :: us) ->
  exists x', apply_undo_action (f_action u) x = (x', Ok tt) /\ ready wr x' a (undo_one V u) /\ same_log x x' /\
    undoable x' (undo_one V u) us.
Proof.
  intros Hr Hu. pose proof (ud_known _ _ _ Hu) as Hk. apply Forall_cons_iff in Hk as [(v & Hv & Ep) Hk].
  destruct u as [p pre k]. cbn [f_page f_prefix f_key] in *. subst pre. unfold undo_one, f_action. cbn [f_page f_prefix f_key].
  assert (alter (v_drop k) p V = <[p := v_drop k v]> V) as ->.
  { rewrite <-(insert_id V p v Hv) at 1. by rewrite alter_insert_eq. }
  destruct (write_locked wr x a V p v Hr Hv) as (lm1 & s & Hlk & Hd & Hpl & Hsp). set (x1 := set_lm lm1 x) in *.
  pose proof (ud_stack _ _ _ Hu p v Hv) as Hst. rewrite page_fresh_cons in Hst. cbn [f_page f_key] in Hst. rewrite decide_True in Hst by done.
  apply (same_page_stack x x1) in Hst; [|by eapply Hsp]. destruct Hst as [?|(i & m & Hn & Hm & Hst)]; [done|].
  destruct (held_mini_undo wr x1 a V p v s i k (page_fresh p us) m Hd Hv Hn Hm Hst) as (x2 & Hrem & Hd2 & Hsl2 & Hop2 & Hst2).
  { intros d Hb. pose proof (ud_below _ _ _ Hu p v d Hv (backs_same _ _ _ _ (proj2 Hsp p v Hv) (proj1 Hsp) Hb)) as H.
    rewrite page_fresh_cons in H. cbn [f_page f_key] in H. rewrite decide_True in H by done. by apply Forall_cons_iff in H as [H _]. }
  destruct (drop_run wr x2 a _ p s Hd2) as (x' & Hdrop & Hready & Hsl' & _ & Hsp').
  apply (same_pages_insert V x2 x' p v _ Hv) in Hsp'.
  assert (only_page V x x' p) as Hop.
  { apply (only_page_trans V x x1); [by eapply same_only|]. apply (only_page_trans V x1 x2); [done|by eapply same_only]. }
  exists x'. split_and!; [|done|by transitivity x2; [transitivity x1|]|].
  - unfold apply_undo_action. cbv zeta. rewrite (bindS_ok _ _ _ _ _ Hlk). unfold finally, ensure_mini_page.
    rewrite (bindS_ok _ _ x1 x1 tt) by (by rewrite (bindS_ok _ _ _ _ _ (node_of_run _ _ _ _ _ _ Hd _ Hn))).
    rewrite (bindS_ok _ _ _ _ _ (mini_of_run _ _ _ _ _ _ _ Hd Hn)), Hrem. by rewrite Hdrop.
  - apply (undoable_step x x' V _ p _ us Hu Hop).
    + intros q Hne. by rewrite lookup_insert_ne.
    + intros q Hne. rewrite page_fresh_cons. cbn [f_page]. by rewrite decide_False.
    + intros v' Hv'. rewrite lookup_insert_eq in Hv'. injection Hv' as <-. split.
      * by apply (same_page_stack x2 x'); [eapply Hsp'|].
      * intros d Hb. apply (backs_only V x x' p d Hop) in Hb. pose proof (ud_below _ _ _ Hu p v d Hv Hb) as H.
        rewrite page_fresh_cons in H. cbn [f_page f_key] in H. rewrite decide_True in H by done. by apply Forall_cons_iff in H as [_ H].
    + eapply Forall_impl; [exact Hk|]. intros u (w & Hw & E). destruct (decide (f_page u = p)) as [Eq|Hne].
      * rewrite Eq in Hw |- *. rewrite Hv in Hw. injection Hw as <-. exists (v_drop k v). by rewrite lookup_insert_eq.
      * exists w. by rewrite lookup_insert_ne.
Qed.

(** ** The whole undo log *)

Lemma undoable_undo_log x V us l : undoable x V us -> undoable (set_undo l x) V us.
Proof. intros [H1 H2 H3]. by split. Qed.

Lemma ready_undo_log wr x a V l : ready wr x a V -> ready wr (set_undo l x) a V.
Proof. intros [[H1 H2 H3 H4 H5 H6 H7] Hi]. split; [by split|done]. Qed.

Lemma undo_all us wr x a V :
  ready wr x a V -> undoable x V us ->
  exists x', apply_undo_actions (f_action <$> us) x = (x', Ok tt) /\ ready wr x' a (undo_views V us) /\
    st_wal (tx_store x') = st_wal (tx_store x) /\ same_txn x x'.
Proof.
  revert x V; induction us as [|u us IH]; intros x V Hr Hu; [by exists x|]. rewrite fmap_cons. cbn [apply_undo_actions].
  set (x1 := set_undo (reverse (f_action <$> us)) x). rewrite (bindS_ok _ _ x x1 tt) by done.
  destruct (undo_action_ok wr x1 a V u us) as (x2 & Hrun & Hr2 & Hsl & Hu2); [by apply ready_undo_log|by apply undoable_undo_log|].
  destruct (IH x2 (undo_one V u) Hr2 Hu2) as (x' & Hrun' & Hr' & Hw' & Ht'). exists x'. run Hrun. split_and!; [done|done| |].
  - rewrite Hw'. exact (proj1 Hsl).
  - transitivity x2; [|done]. exact (same_log_txn _ _ Hsl).
Qed.

(** ** Properties *)

(** C6. A transaction that reads and inserts and then aborts leaves the store as it was: when
    every put fits as in [put_fits] (room on the page, a place in the buffer, no checkpoint due)
    and is of a key the page has no record for, [abort] succeeds, every record is taken out
    again, the undo log is empty, all locks are released, and the log has the records of the
    run and the [Abort] marker. *)
Theorem abort_restores_inserts (iter : gmap Z LeafWalStats -> list (Z * LeafWalStats)) (evict_fuel fuel : nat)
    (wr : bool) (x : TxSt) (a : abs_tree) (V : gmap Z view) (gs : list group) (rs : list request) :
  ready wr x a V -> Tx.state x = Active -> wal_entry_kind x = Redo -> is_u64 (Tx.txn_id x) -> undo_log x = [] ->
  wal_inv (st_wal (tx_store x)) gs -> run_fits iter evict_fuel fuel rs wr x a V -> inserts a V rs ->
  Z.of_nat (length (file (st_wal (tx_store (fst (exec iter evict_fuel fuel rs x)))))) + 23 <= u64_max ->
  exists wr' x', (_ ← exec iter evict_fuel fuel rs; tx_abort) x = (x', Ok tt) /\ ready wr' x' a V /\
    Tx.state x' = TxAborted /\ undo_log x' = [] /\ lock_manager x' = ∅ /\
    records (st_wal (tx_store x')) = records (st_wal (tx_store x)) ++ run_log (Tx.txn_id x) a V rs ++ [marker Abort_ (Tx.txn_id x)].
Proof.
  intros Hr Hst Hk Hid Hu Hw Hf Hins Hsz.
  destruct (exec_inserts iter evict_fuel fuel rs wr x a V [] gs Hr Hf Hins Hw (undoable_nil _ _) Hu)
    as (wr' & x1 & gs1 & us & Hrun & Hr1 & (T1 & T2 & T3) & Hw1 & Hrec1 & Hu1 & Hl1 & Hv1).
  rewrite Hrun in Hsz. cbn [fst] in Hsz. rewrite (wal_file_length _ _ Hw1) in Hsz.
  destruct (undo_all us wr' x1 a _ Hr1 Hu1) as (x2 & Hrun2 & Hr2 & Hw2 & (U1 & U2 & U3)). rewrite Hv1 in Hr2. cbn in Hr2.
  destruct (append_inv _ gs1 (marker Abort_ (Tx.txn_id x)) Hw1) as (w & Hw' & Hinv' & _).
  { split_and!; [by vm_compute|done|by vm_compute..]. } { change (32 + total_size gs1 + append_size (marker Abort_ (Tx.txn_id x)) <= u64_max). assert (append_size (marker Abort_ (Tx.txn_id x)) = 23) as -> by (apply append_size_eq). exact Hsz. }
  set (x3 := set_tx_state TxAborted (set_undo [] (set_wal w x2))).
  assert (abort_in_place x1 = (x3, Ok tt)) as Ha.
  { unfold abort_in_place. run_pure x1 x1. rewrite T3, Hst. rewrite (bindS_ok _ _ x1 x2 tt) by (by rewrite Hl1, reverse_involutive, Hrun2). rewrite T2, Hk, T1.
    rewrite (bindS_ok _ _ x2 (set_wal w x2) tt) by (apply on_wal_run; by rewrite Hw2). done. }
  assert (abort_in_place x3 = (x3, Ok tt)) as Ha3 by (unfold abort_in_place; by run_pure x3 x3).
  destruct (release_all wr' x3 a V) as (x' & Hrel & Hready & Hlm & (E1 & E2 & _ & _ & E3 & _) & _).
  { apply holds_state, holds_wal, Hr2. }
  exists wr', x'. split_and!; [|done|done|done|done|].
  - run Hrun. unfold tx_abort, drop_tx. run Ha. by run Ha3.
  - rewrite E1. change (records w = records (st_wal (tx_store x)) ++ run_log (Tx.txn_id x) a V rs ++ [marker Abort_ (Tx.txn_id x)]).
    by rewrite (inv_records _ _ Hinv'), records_snoc, <-(inv_records _ _ Hw1), Hrec1, <-(assoc_L (++)).
Qed.

(** ** A concrete run: two inserts, the second one below the first, and a read *)

Definition insert_run : list request := take 2 sample_run ++ [RPut [Byte.x62] [Byte.x09; Byte.x09]].
Definition insert_page : bytes := match page_bytes (sample_exec (take 2 sample_run)) 0 with Ok m => m | _ => [] end.

Lemma insert_second wr :
  put_fits wr (sample_exec (take 2 sample_run)) (ALeaf 0) {[0 := sample_view1]} [Byte.x62] [Byte.x09; Byte.x09] sample_view1 [Byte.x62]
    sample_groups.
Proof.
  split; [reflexivity|reflexivity| | |vm_compute; reflexivity|].
  - split.
    + intros v0 t0 H. assert (None = Some (v0, t0)) as [=] by (rewrite <-H; vm_compute; reflexivity).
    + intros m Hm. assert (page_bytes (sample_exec (take 2 sample_run)) 0 = Ok insert_page /\
        (new_cost (v_content sample_view1) ([Byte.x62], [Byte.x09; Byte.x09]) <=? free_space insert_page)%nat = true) as [H1 H2]
        by (split; vm_compute; reflexivity).
      pose proof (Ok_inj _ _ (eq_trans (eq_sym H1) Hm)) as <-. by apply Nat.leb_le.
  - intros addr H. assert (place (st_map (tx_store (sample_exec (take 2 sample_run)))) 0 = Some (NMiniPage 0)) as H0
      by (vm_compute; reflexivity).
    pose proof (eq_trans (eq_sym H0) H). done.
  - split; [exact sample_wal_after|by repeat constructor; vm_compute|by vm_compute..].
Qed.

Lemma insert_run_fits : run_fits map_to_list 0 0 insert_run false sample_tx (ALeaf 0) sample_V.
Proof.
  unfold insert_run, sample_run. cbn [take app run_fits]. split; [exists empty_view, [Byte.x61]; eexists; exact sample_fits|].
  rewrite sample_spec_put. intros wr _. split; [by exists sample_view1, [Byte.x61]|]. rewrite sample_first_two.
  split; [exists sample_view1, [Byte.x62]; eexists; exact (insert_second wr)|done].
Qed.

Lemma insert_run_new : inserts (ALeaf 0) sample_V insert_run.
Proof.
  unfold insert_run, sample_run. cbn [take app inserts]. split; [intros v [= <-]; reflexivity|].
  rewrite sample_spec_put. split; [intros v [= <-]; vm_compute; reflexivity|done].
Qed.

Lemma abort_restores_inserts_witness :
  exists wr' x', (_ ← exec map_to_list 0 0 insert_run; tx_abort) sample_tx = (x', Ok tt) /\ ready wr' x' (ALeaf 0) sample_V /\
    Tx.state x' = TxAborted /\ undo_log x' = [] /\ lock_manager x' = ∅ /\
    records (st_wal (tx_store x')) = begin_record :: run_log 1 (ALeaf 0) sample_V insert_run ++ [marker Abort_ 1].
Proof.
  apply (abort_restores_inserts map_to_list 0 0 false sample_tx (ALeaf 0) sample_V [(TXN_META_PAGE_ID, [begin_record])]
    insert_run sample_ready eq_refl eq_refl ltac:(vm_compute; split; congruence) eq_refl sample_wal_inv insert_run_fits insert_run_new).
  apply Z.leb_le. vm_compute. reflexivity.
Defined.
